(** * Cotton mixing summary: a shallow embedding of the aggregation engine

    The development follows the server source of the cotton API
    (the handler of [/api/cotton-mixing-summary] and the helpers it uses).

    Conventions of the embedding
    - a JavaScript string is a [string]; the character classes below are
      the ASCII part of the classes the source's regular expressions use;
    - a finite JavaScript number is the rational it denotes, and [NaN]
      stands for what is not a finite number; the arithmetic of the
      totals, of the weighted sums and of the change percentages rounds
      every result to the nearest double ([Binary64]);
    - a plain object used as a dictionary is an insertion-ordered
      association list with unique keys;
    - [Array.prototype.sort] is a stable insertion sort. *)

From Stdlib Require Import ZArith QArith Qround Qabs Qpower Qreduction.
From Stdlib Require Import Lia Lqa Bool List Permutation Sorted.
From Stdlib Require Import Ascii String.
Import ListNotations.

Open Scope string_scope.
Open Scope Z_scope.

(** ** Characters and strings *)

Module JsString.

Definition code (c : ascii) : Z := Z.of_N (N_of_ascii c).

Definition is_digit (c : ascii) : bool := (48 <=? code c) && (code c <=? 57).

(** [\s] restricted to ASCII: TAB, LF, VT, FF, CR and SPACE. *)
Definition is_space (c : ascii) : bool :=
  ((9 <=? code c) && (code c <=? 13)) || (code c =? 32).

(** The line terminators [.] refuses: LF and CR. *)
Definition is_line_terminator (c : ascii) : bool :=
  (code c =? 10) || (code c =? 13).

(** The class [[\s\-_\/]]. *)
Definition is_separator (c : ascii) : bool :=
  is_space c || (code c =? 45) || (code c =? 95) || (code c =? 47).

Definition is_lower (c : ascii) : bool := (97 <=? code c) && (code c <=? 122).

Definition upper_char (c : ascii) : ascii :=
  if is_lower c then ascii_of_N (Z.to_N (code c - 32)) else c.

Fixpoint toUpperCase (s : string) : string :=
  match s with
  | EmptyString => EmptyString
  | String c r => String (upper_char c) (toUpperCase r)
  end.

Fixpoint all_chars (f : ascii -> bool) (s : string) : bool :=
  match s with
  | EmptyString => true
  | String c r => f c && all_chars f r
  end.

Definition is_empty (s : string) : bool :=
  match s with EmptyString => true | _ => false end.

(** The first character of a string, as a test. *)
Definition head_is (f : ascii -> bool) (s : string) : bool :=
  match s with String c _ => f c | EmptyString => false end.

(** Drop the longest prefix made of characters of class [f]. *)
Fixpoint strip_leading (f : ascii -> bool) (s : string) : string :=
  match s with
  | EmptyString => EmptyString
  | String c r => if f c then strip_leading f r else s
  end.

(** Drop the longest suffix made of characters of class [f]:
    [s.replace(/[f]+$/, "")]. *)
Fixpoint strip_trailing (f : ascii -> bool) (s : string) : string :=
  match s with
  | EmptyString => EmptyString
  | String c r =>
      let r' := strip_trailing f r in
      if is_empty r' && f c then EmptyString else String c r'
  end.

Definition trim (s : string) : string :=
  strip_trailing is_space (strip_leading is_space s).

(** [parseInt(ds, 10)] on a string of decimal digits. *)
Fixpoint parse_digits_from (acc : Z) (s : string) : Z :=
  match s with
  | EmptyString => acc
  | String c r => parse_digits_from (10 * acc + (code c - 48)) r
  end.

Definition parseInt10 (s : string) : Z := parse_digits_from 0 s.

Definition join2 (a b : ascii) : string := String a (String b EmptyString).

End JsString.

Import JsString.

(** ** Numbers *)

Module JsNumber.

(** A JavaScript number: [NaN], or a finite value taken as the rational it
    denotes. *)
Inductive num := NaN | Fin (q : Q).

Definition Qlt_bool (x y : Q) : bool := negb (Qle_bool y x).

Definition nadd (a b : num) : num :=
  match a, b with Fin x, Fin y => Fin (x + y) | _, _ => NaN end.

Definition nsub (a b : num) : num :=
  match a, b with Fin x, Fin y => Fin (x - y) | _, _ => NaN end.

Definition nmul (a b : num) : num :=
  match a, b with Fin x, Fin y => Fin (x * y) | _, _ => NaN end.

(** [a / b]; a zero divisor gives no finite value. *)
Definition ndiv (a b : num) : num :=
  match a, b with
  | Fin x, Fin y => if Qeq_bool y 0 then NaN else Fin (x / y)
  | _, _ => NaN
  end.

(** [a > 0] *)
Definition gt0 (a : num) : bool :=
  match a with Fin x => Qlt_bool 0 x | NaN => false end.

(** [a < 0] *)
Definition lt0 (a : num) : bool :=
  match a with Fin x => Qlt_bool x 0 | NaN => false end.

Definition isNaN (a : num) : bool :=
  match a with NaN => true | Fin _ => false end.

(** [a || 0] on a number: [NaN] and [0] are falsy. *)
Definition orZero (a : num) : Q :=
  match a with Fin x => x | NaN => 0%Q end.

(** [a === b] on numbers: [NaN] equals nothing. *)
Definition num_eqb (a b : num) : bool :=
  match a, b with Fin x, Fin y => Qeq_bool x y | _, _ => false end.

(** Nearest integer, ties away from zero: the rounding of [toFixed]. *)
Definition round_half_away (q : Q) : Z :=
  if Qle_bool 0 q then Qfloor (q + (1 # 2)) else - Qfloor (- q + (1 # 2)).

(** The decimal [q.toFixed(2)] writes. *)
Definition toFixed2 (q : Q) : Q := round_half_away (q * 100) # 100.

(** [Math.abs(a)] *)
Definition nabs (a : num) : num :=
  match a with Fin x => Fin (Qabs x) | NaN => NaN end.

(** A number as the response carries it: what is not a finite number is
    written [null]. *)
Definition toJson (a : num) : option Q :=
  match a with Fin x => Some x | NaN => None end.

Definition Math_ceil (q : Q) : Z := Qceiling q.

(** [Math.round]: nearest integer, ties towards plus infinity. *)
Definition Math_round (q : Q) : Z := Qfloor (q + (1 # 2)).

Definition Qsum (l : list Q) : Q := fold_left Qplus l 0%Q.

Definition Qmin_list (x : Q) (l : list Q) : Q :=
  fold_left (fun m y => if Qlt_bool y m then y else m) l x.

Definition Qmax_list (x : Q) (l : list Q) : Q :=
  fold_left (fun m y => if Qlt_bool m y then y else m) l x.

Definition MAX_SAFE_INTEGER : Q := inject_Z 9007199254740991.

End JsNumber.

Import JsNumber.

(** ** Values of a row *)

Module JsValue.

(** What a column of a fetched row holds: [null], a number or a string. *)
Inductive jsval := VNull | VNum (q : Q) | VStr (s : string).

Definition truthy (v : jsval) : bool :=
  match v with
  | VNull => false
  | VNum q => negb (Qeq_bool q 0)
  | VStr s => negb (is_empty s)
  end.

Definition is_null (v : jsval) : bool :=
  match v with VNull => true | _ => false end.

(** [v ?? d] *)
Definition coalesce (v d : jsval) : jsval :=
  match v with VNull => d | _ => v end.

(** [a === b] *)
Definition strict_eq (a b : jsval) : bool :=
  match a, b with
  | VNull, VNull => true
  | VNum x, VNum y => Qeq_bool x y
  | VStr s, VStr t => String.eqb s t
  | _, _ => false
  end.

Definition digit_char (d : Z) : ascii := ascii_of_N (Z.to_N (48 + d)).

(** The decimal digits of a non-negative integer, last digit first onto
    the accumulator. *)
Fixpoint decimal_digits (fuel : nat) (z : Z) (acc : string) : string :=
  match fuel with
  | O => acc
  | S fuel' =>
      let acc' := String (digit_char (z mod 10)) acc in
      if z <? 10 then acc' else decimal_digits fuel' (z / 10) acc'
  end.

Definition decimal (z : Z) : string :=
  let a := Z.abs z in
  (if z <? 0 then "-" else "")
  ++ decimal_digits (S (Z.to_nat (Z.log2 a))) a EmptyString.

Fixpoint fraction_digits (fuel : nat) (r d : Z) : string :=
  match fuel with
  | O => EmptyString
  | S fuel' =>
      if r =? 0 then EmptyString
      else String (digit_char (r * 10 / d)) (fraction_digits fuel' ((r * 10) mod d) d)
  end.

(** Number to string, for the integers and short decimals that occur as
    identifiers in fetched rows. *)
Definition number_to_string (q : Q) : string :=
  let n := Qnum q in
  let d := Z.pos (Qden q) in
  let a := Z.abs n in
  let r := a mod d in
  (if n <? 0 then "-" else "")
  ++ decimal (a / d)
  ++ (if r =? 0 then "" else "." ++ fraction_digits 20 r d).

(** [String(v)] and [`${v}`] *)
Definition ToString (v : jsval) : string :=
  match v with
  | VNull => "null"
  | VNum q => number_to_string q
  | VStr s => s
  end.

Fixpoint split_dot (s : string) : string * option string :=
  match s with
  | EmptyString => (EmptyString, None)
  | String c r =>
      if code c =? 46 then (EmptyString, Some r)
      else let (a, b) := split_dot r in (String c a, b)
  end.

Definition pow10 (n : nat) : Z := 10 ^ Z.of_nat n.

Definition unsigned_decimal (s : string) : num :=
  match split_dot s with
  | (ip, None) =>
      if negb (is_empty ip) && all_chars is_digit ip
      then Fin (inject_Z (parseInt10 ip)) else NaN
  | (ip, Some fp) =>
      if all_chars is_digit ip && all_chars is_digit fp
         && negb (is_empty ip && is_empty fp)
      then Fin (Qmake (parseInt10 (ip ++ fp)) (Z.to_pos (pow10 (String.length fp))))
      else NaN
  end.

(** [Number(s)] on a string: blank is [0]; an optionally signed decimal
    literal is its value; anything else is [NaN].  Exponents, hexadecimal
    literals and [Infinity] are not part of the modelled inputs. *)
Definition StringToNumber (s : string) : num :=
  let t := trim s in
  match t with
  | EmptyString => Fin 0
  | String c r =>
      if code c =? 45 then nsub (Fin 0) (unsigned_decimal r)
      else if code c =? 43 then unsigned_decimal r
      else unsigned_decimal t
  end.

(** The characters a string that reads as a number is made of. *)
Definition numeric_char (c : ascii) : bool :=
  is_digit c || is_space c || (code c =? 46) || (code c =? 45) || (code c =? 43).

(** [Number(v)] *)
Definition Number (v : jsval) : num :=
  match v with
  | VNull => Fin 0
  | VNum q => Fin q
  | VStr s => StringToNumber s
  end.

(** Keep the first occurrence of each element: [[...new Set(l)]]. *)
Fixpoint dedupe {A : Type} (eqb : A -> A -> bool) (l : list A) : list A :=
  match l with
  | [] => []
  | x :: r => x :: filter (fun y => negb (eqb x y)) (dedupe eqb r)
  end.

End JsValue.

Import JsValue.

(** ** The arithmetic of numbers

    The numbers of the engine are IEEE 754 doubles.  A finite double is
    kept as the rational it denotes, and every operation of the engine
    rounds its exact result to the nearest double, ties to the even
    significand.  The loops of the source are embedded over the interface
    [Arithmetic]: [Binary64.arithmetic] is the arithmetic of the engine;
    [Rational.arithmetic] computes with the exact values and is the one
    in which bounds on sums are proved. *)

Class Arithmetic := {
  (** [Number(v)] *)
  number : jsval -> num;
  (** [a + b], [a - b], [a * b], [a / b] *)
  add : num -> num -> num;
  sub : num -> num -> num;
  mul : num -> num -> num;
  div : num -> num -> num
}.

Module Rational.

Definition arithmetic : Arithmetic :=
  {| number := Number; add := nadd; sub := nsub; mul := nmul; div := ndiv |}.

End Rational.

Module Binary64.

(** [2^k] for any integer [k]. *)
Definition pow2 (k : Z) : Q := Qpower 2 k.

(** The binade of a positive rational: the [e] with [2^e <= q < 2^(e+1)]. *)
Definition ilog2 (q : Q) : Z :=
  let k := Z.log2 (Qnum q) - Z.log2 (Zpos (Qden q)) in
  if Qle_bool (pow2 k) q then k else k - 1.

(** Nearest integer, ties to the even one. *)
Definition nearest_even (x : Q) : Z :=
  let f := Qfloor x in
  match Qcompare (x - inject_Z f) (1 # 2) with
  | Lt => f
  | Gt => f + 1
  | Eq => if Z.even f then f else f + 1
  end.

(** The exponent of the last place of a double in the binade of [q]: 52
    binary places below the leading one, and never below [2^-1074], the
    least positive double. *)
Definition exponent (q : Q) : Z := Z.max (ilog2 q - 52) (-1074).

Definition round_positive (q : Q) : Q :=
  let p := exponent q in
  inject_Z (nearest_even (q / pow2 p)) * pow2 p.

(** The double nearest to [q], before the range check. *)
Definition nearest (q : Q) : Q :=
  match Qcompare q 0 with
  | Eq => 0%Q
  | Gt => round_positive q
  | Lt => (- round_positive (- q))%Q
  end.

(** The double an exact result is rounded to.  What rounds to [2^1024] or
    beyond has no finite double: the engine has [Infinity] there, which
    the numbers of this development do not include, and the result is
    [NaN]. *)
Definition round (q : Q) : num :=
  if Qle_bool (pow2 1024) (Qabs (nearest q)) then NaN else Fin (Qred (nearest q)).

Definition lift (a : num) : num :=
  match a with Fin x => round x | NaN => NaN end.

Definition arithmetic : Arithmetic :=
  {| number := fun v => lift (Number v);
     add := fun a b => lift (nadd a b);
     sub := fun a b => lift (nsub a b);
     mul := fun a b => lift (nmul a b);
     div := fun a b => lift (ndiv a b) |}.

(** A significand and the exponent of its last place, as [round] pairs
    them: at most 53 bits, full unless the exponent is the least one. *)
Definition canonical (m p : Z) : Prop :=
  1 <= m <= 2 ^ 53 /\ -1074 <= p /\ (2 ^ 52 <= m \/ p = -1074).

(** A number of the engine: [NaN] or a double. *)
Definition is_double (a : num) : Prop :=
  match a with Fin x => round x = Fin x | NaN => True end.

End Binary64.

#[global] Existing Instance Binary64.arithmetic | 10.

(** [+a.toFixed(2)]: the number the two-decimal text denotes. *)
Definition fixed2 `{Arithmetic} (a : num) : num :=
  match a with Fin x => number (VNum (toFixed2 x)) | NaN => NaN end.

(** ** parseCottonVersion *)

Module CottonVersion.

Record t := mk {
  groupKey : string;
  versionNumber : option Z;
  raw : option string
}.

Definition NO_VERSION : t := mk "__NO_VERSION__" None None.

Definition is_V (c : ascii) : bool := (code c =? 86) || (code c =? 118).

(** [/^(\d{2})_(\d{2})_V(\d+)$/]: the three captures. *)
Definition match_yy_ul_vn (s : string) : option (string * string * string) :=
  match s with
  | String a (String b (String u1 (String c (String d (String u2 (String v ds)))))) =>
      if is_digit a && is_digit b && (code u1 =? 95)
         && is_digit c && is_digit d && (code u2 =? 95)
         && (code v =? 86)
         && negb (is_empty ds) && all_chars is_digit ds
      then Some (join2 a b, join2 c d, ds)
      else None
  | _ => None
  end.

(** [(V\d+)$] at the head of [s]: the capture. *)
Definition marker_here (s : string) : option string :=
  match s with
  | String v ds =>
      if is_V v && negb (is_empty ds) && all_chars is_digit ds
      then Some s else None
  | EmptyString => None
  end.

(** [[\s\-_\/]*(V\d+)$] anchored at the head of [s]; the star is greedy and
    gives back one separator at a time. *)
Fixpoint tail_match (s : string) : option string :=
  match s with
  | EmptyString => None
  | String c r =>
      if is_separator c then
        match tail_match r with
        | Some m => Some m
        | None => marker_here s
        end
      else marker_here s
  end.

(** [(.*?)(?:[\s\-_\/]*(V\d+))$] anchored at the head of [s]: the lazy
    group takes one more character only when the rest fails. *)
Fixpoint lazy_match (s : string) : option (string * string) :=
  match tail_match s with
  | Some m => Some (EmptyString, m)
  | None =>
      match s with
      | EmptyString => None
      | String c r =>
          if is_line_terminator c then None
          else match lazy_match r with
               | Some (p, m) => Some (String c p, m)
               | None => None
               end
      end
  end.

(** [trimmed.match(/(.*?)(?:[\s\-_\/]*(V\d+))$/i)]: the first start
    position at which the pattern matches. *)
Fixpoint version_match (s : string) : option (string * string) :=
  match lazy_match s with
  | Some r => Some r
  | None =>
      match s with
      | EmptyString => None
      | String _ r => version_match r
      end
  end.

(** [trimmed.replace(/[\s\-_\/]*(V\d+)$/i, "")]: the first position whose
    suffix is separators and a marker is where the string is cut. *)
Fixpoint strip_marker (s : string) : string :=
  match tail_match s with
  | Some _ => EmptyString
  | None =>
      match s with
      | EmptyString => EmptyString
      | String c r => String c (strip_marker r)
      end
  end.

(** [versionLabel.match(/\d+/)] on a marker: the digits after the [V]. *)
Definition marker_digits (m : string) : string :=
  match m with
  | String _ ds => ds
  | EmptyString => EmptyString
  end.

Definition parseCottonVersion (cottonVersionValue : jsval) : t :=
  if negb (truthy cottonVersionValue) then NO_VERSION else
  let trimmed := toUpperCase (trim (ToString cottonVersionValue)) in
  if is_empty trimmed then NO_VERSION else
  match match_yy_ul_vn trimmed with
  | Some (yy, ul, vn) =>
      mk (yy ++ "_" ++ ul) (Some (parseInt10 vn)) (Some trimmed)
  | None =>
      match version_match trimmed with
      | Some (baseRaw, marker) =>
          let base := trim (strip_trailing is_separator baseRaw) in
          let normalizedBase :=
            if is_empty base then trim (strip_marker trimmed) else base in
          mk (if is_empty normalizedBase then trimmed else normalizedBase)
             (Some (parseInt10 (marker_digits (toUpperCase marker))))
             (Some trimmed)
      | None => mk trimmed None (Some trimmed)
      end
  end.

End CottonVersion.

Import CottonVersion.

(** ** The platform: dates, time zone and collation *)

(** What the engine takes from its host: how a date string is read
    ([Date_parse s] is the time value of [new Date(s)] in milliseconds,
    [None] for an invalid date), the offset of local time from UTC at an
    instant, the two string collations the source calls, and the elements
    of the array [JSON.parse] reads ([None] when it throws or reads
    something that is not an array). *)
Class Platform := {
  Date_parse : string -> option Z;
  timezone_offset : Z -> Z;
  localeCompare : string -> string -> comparison;
  localeCompare_base : string -> string -> comparison;
  JSON_parse_array : string -> option (list jsval)
}.

Module JsDate.

Definition msPerDay : Z := 86400000.

Record civil := { year : Z; month : Z; day : Z }.

(** Calendar date of a day count from 1970-01-01 (proleptic Gregorian). *)
Definition civil_from_days (days : Z) : civil :=
  let z := days + 719468 in
  let era := z / 146097 in
  let doe := z - era * 146097 in
  let yoe := (doe - doe / 1460 + doe / 36524 - doe / 146096) / 365 in
  let y := yoe + era * 400 in
  let doy := doe - (365 * yoe + yoe / 4 - yoe / 100) in
  let mp := (5 * doy + 2) / 153 in
  let d := doy - (153 * mp + 2) / 5 + 1 in
  let m := if mp <? 10 then mp + 3 else mp - 9 in
  {| year := if m <=? 2 then y + 1 else y; month := m; day := d |}.

Definition days_from_civil (y m d : Z) : Z :=
  let y' := if m <=? 2 then y - 1 else y in
  let era := y' / 400 in
  let yoe := y' - era * 400 in
  let doy := (153 * (if 2 <? m then m - 3 else m + 9) + 2) / 5 + d - 1 in
  let doe := yoe * 365 + yoe / 4 - yoe / 100 + doy in
  era * 146097 + doe - 719468.

(** The UTC calendar date of a time value. *)
Definition utc_date (t : Z) : civil := civil_from_days (t / msPerDay).

(** [getFullYear], [getMonth() + 1] and [getDate]: the local calendar date. *)
Definition local_date `{Platform} (t : Z) : civil :=
  civil_from_days ((t + timezone_offset t) / msPerDay).

(** [new Date(v).getTime()], [None] for an invalid date. *)
Definition getTime `{Platform} (v : jsval) : option Z :=
  match v with
  | VNull => Some 0
  | VNum q => Some (Qfloor (Qabs q) * Z.sgn (Qnum q))
  | VStr s => Date_parse s
  end.

(** [s.padStart(n, "0")] *)
Definition padStart0 (n : nat) (s : string) : string :=
  string_of_list_ascii (repeat "0"%char (n - String.length s)) ++ s.

(** The year field of [toISOString]: four digits, or a sign and six. *)
Definition iso_year (y : Z) : string :=
  if (0 <=? y) && (y <=? 9999) then padStart0 4 (decimal y)
  else (if y <? 0 then "-" else "+") ++ padStart0 6 (decimal (Z.abs y)).

(** [date.toISOString().split("T")[0]] *)
Definition iso_date_part (t : Z) : string :=
  let c := utc_date t in
  iso_year (year c) ++ "-" ++ padStart0 2 (decimal (month c))
  ++ "-" ++ padStart0 2 (decimal (day c)).

End JsDate.

Import JsDate.

(** ** PERIOD_FORMATTERS and buildPeriodDescriptor *)

Module Period.

Definition daily `{Platform} (issueDate : jsval) : option string :=
  if negb (truthy issueDate) then None else
  match getTime issueDate with
  | None => None
  | Some t => Some (iso_date_part t)
  end.

Definition weekly `{Platform} (issueDate : jsval) : option string :=
  if negb (truthy issueDate) then None else
  match getTime issueDate with
  | None => None
  | Some t =>
      let c := local_date t in
      let year := decimal (year c) in
      let month := padStart0 2 (decimal (month c)) in
      let weekNum := Math_ceil (inject_Z (day c) / 7) in
      Some (year ++ "-" ++ month ++ "-W" ++ decimal weekNum)
  end.

Definition monthly `{Platform} (issueDate : jsval) : option string :=
  if negb (truthy issueDate) then None else
  match getTime issueDate with
  | None => None
  | Some t =>
      let c := local_date t in
      let year := decimal (year c) in
      let month := padStart0 2 (decimal (month c)) in
      Some (year ++ "-" ++ month)
  end.

(** [PERIOD_FORMATTERS[reportType] ?? PERIOD_FORMATTERS.daily] *)
Definition formatter `{Platform} (reportType : string) : jsval -> option string :=
  if String.eqb reportType "weekly" then weekly
  else if String.eqb reportType "monthly" then monthly
  else daily.

(** [/^(\d{4})-(\d{2})-W(\d{1,2})$/] *)
Definition match_weekly (s : string) : option (string * string * string) :=
  match s with
  | String y1 (String y2 (String y3 (String y4 (String h1
      (String m1 (String m2 (String h2 (String w weekRaw)))))))) =>
      if is_digit y1 && is_digit y2 && is_digit y3 && is_digit y4
         && (code h1 =? 45) && is_digit m1 && is_digit m2
         && (code h2 =? 45) && (code w =? 87)
         && all_chars is_digit weekRaw
         && ((String.length weekRaw =? 1)%nat || (String.length weekRaw =? 2)%nat)
      then Some (String y1 (String y2 (join2 y3 y4)), join2 m1 m2, weekRaw)
      else None
  | _ => None
  end.

(** [/^(\d{4})-(\d{2})$/] *)
Definition match_monthly (s : string) : option (string * string) :=
  match s with
  | String y1 (String y2 (String y3 (String y4 (String h1
      (String m1 (String m2 EmptyString)))))) =>
      if is_digit y1 && is_digit y2 && is_digit y3 && is_digit y4
         && (code h1 =? 45) && is_digit m1 && is_digit m2
      then Some (String y1 (String y2 (join2 y3 y4)), join2 m1 m2)
      else None
  | _ => None
  end.

Record descriptor := {
  label : option string;
  sortKey : option string;
  sortValue : option num
}.

Definition no_period : descriptor :=
  {| label := None; sortKey := None; sortValue := None |}.

Definition buildPeriodDescriptor `{Platform}
    (issueDate : jsval) (reportType : string) : descriptor :=
  match formatter reportType issueDate with
  | None => no_period
  | Some label =>
      if is_empty label then no_period
      else if String.eqb reportType "weekly" then
        match match_weekly label with
        | None => {| label := Some label; sortKey := Some label; sortValue := None |}
        | Some (year, month, weekRaw) =>
            let normalizedWeek := padStart0 2 weekRaw in
            {| label := Some label;
               sortKey := Some (year ++ "-" ++ month ++ "-" ++ normalizedWeek);
               sortValue := Some (StringToNumber (year ++ month ++ normalizedWeek)) |}
        end
      else if String.eqb reportType "monthly" then
        match match_monthly label with
        | None => {| label := Some label; sortKey := Some label; sortValue := None |}
        | Some (year, month) =>
            {| label := Some label;
               sortKey := Some (year ++ "-" ++ month);
               sortValue := Some (StringToNumber (year ++ month)) |}
        end
      else
        {| label := Some label;
           sortKey := Some label;
           sortValue := match Date_parse label with
                        | None => None
                        | Some timestamp => Some (Fin (inject_Z timestamp))
                        end |}
  end.

End Period.

(** ** A reference platform: UTC, ISO dates, ASCII collation *)

Module Reference.

Definition digit_val (c : ascii) : Z := code c - 48.

Definition days_in_month (y m : Z) : Z :=
  if m =? 2 then
    (if ((y mod 4 =? 0) && negb (y mod 100 =? 0)) || (y mod 400 =? 0) then 29 else 28)
  else if (m =? 4) || (m =? 6) || (m =? 9) || (m =? 11) then 30 else 31.

(** Reads the date-only forms [YYYY-MM-DD] and [YYYY-MM] as UTC midnight. *)
Definition iso_parse (s : string) : option Z :=
  match s with
  | String y1 (String y2 (String y3 (String y4 (String h1 (String m1 (String m2 rest)))))) =>
      if is_digit y1 && is_digit y2 && is_digit y3 && is_digit y4
         && (code h1 =? 45) && is_digit m1 && is_digit m2 then
        let y := parseInt10 (String y1 (String y2 (join2 y3 y4))) in
        let m := parseInt10 (join2 m1 m2) in
        if (1 <=? m) && (m <=? 12) then
          match rest with
          | EmptyString => Some (days_from_civil y m 1 * msPerDay)
          | String h2 (String d1 (String d2 EmptyString)) =>
              let d := parseInt10 (join2 d1 d2) in
              if (code h2 =? 45) && is_digit d1 && is_digit d2
                 && (1 <=? d) && (d <=? days_in_month y m)
              then Some (days_from_civil y m d * msPerDay) else None
          | _ => None
          end
        else None
      else None
  | _ => None
  end.

Fixpoint compare_by (key : ascii -> Z) (a b : string) : comparison :=
  match a, b with
  | EmptyString, EmptyString => Eq
  | EmptyString, String _ _ => Lt
  | String _ _, EmptyString => Gt
  | String x a', String y b' =>
      match Z.compare (key x) (key y) with
      | Eq => compare_by key a' b'
      | c => c
      end
  end.

Fixpoint split_on (sep : Z) (s : string) : list string :=
  match s with
  | EmptyString => [EmptyString]
  | String c r =>
      if code c =? sep then EmptyString :: split_on sep r
      else match split_on sep r with
           | x :: l => String c x :: l
           | [] => [String c EmptyString]
           end
  end.

Fixpoint last_char (s : string) : option ascii :=
  match s with
  | EmptyString => None
  | String c EmptyString => Some c
  | String _ r => last_char r
  end.

Fixpoint drop_last (s : string) : string :=
  match s with
  | EmptyString => EmptyString
  | String c EmptyString => EmptyString
  | String c r => String c (drop_last r)
  end.

(** One element of a flat array: a quoted string without escapes, [null]
    or a decimal number. *)
Definition json_scalar (item : string) : option jsval :=
  match trim item with
  | String q r =>
      if code q =? 34 then
        match last_char r with
        | Some q' => if code q' =? 34 then Some (VStr (drop_last r)) else None
        | None => None
        end
      else if String.eqb (trim item) "null" then Some VNull
      else match StringToNumber (trim item) with
           | Fin n => Some (VNum n)
           | NaN => None
           end
  | EmptyString => None
  end.

Fixpoint all_some {A : Type} (l : list (option A)) : option (list A) :=
  match l with
  | [] => Some []
  | Some x :: r => option_map (cons x) (all_some r)
  | None :: _ => None
  end.

(** Reads a flat JSON array of scalars. *)
Definition json_array (s : string) : option (list jsval) :=
  match trim s with
  | String b r =>
      if code b =? 91 then
        match last_char r with
        | Some e =>
            if code e =? 93 then
              if is_empty (trim (drop_last r)) then Some []
              else all_some (map json_scalar (split_on 44 (drop_last r)))
            else None
        | None => None
        end
      else None
  | EmptyString => None
  end.

Definition platform : Platform := {|
  Date_parse := iso_parse;
  timezone_offset := fun _ => 0;
  localeCompare := compare_by code;
  localeCompare_base := compare_by (fun c => code (upper_char c));
  JSON_parse_array := json_array
|}.

End Reference.

(** ** Objects used as dictionaries, and sorting *)

Module JsObject.

Definition obj (V : Type) := list (string * V).

Fixpoint get {V : Type} (o : obj V) (k : string) : option V :=
  match o with
  | [] => None
  | (k', v) :: r => if String.eqb k' k then Some v else get r k
  end.

(** [o[k] = v]: an existing key keeps its place, a new key goes last. *)
Fixpoint set {V : Type} (o : obj V) (k : string) (v : V) : obj V :=
  match o with
  | [] => [(k, v)]
  | (k', v') :: r =>
      if String.eqb k' k then (k, v) :: r else (k', v') :: set r k v
  end.

(** A key that spells an array index: these are enumerated first, in
    ascending order. *)
Definition is_array_index (k : string) : bool :=
  negb (is_empty k) && all_chars is_digit k
  && String.eqb (decimal (parseInt10 k)) k
  && (parseInt10 k <? 4294967295).

Fixpoint insert_index {V : Type} (e : string * V) (l : list (string * V))
  : list (string * V) :=
  match l with
  | [] => [e]
  | e' :: r =>
      if parseInt10 (fst e') <? parseInt10 (fst e)
      then e' :: insert_index e r else e :: l
  end.

(** [Object.entries(o)]: index keys ascending, then the others in
    insertion order. *)
Definition entries {V : Type} (o : obj V) : list (string * V) :=
  fold_right insert_index [] (filter (fun e => is_array_index (fst e)) o)
  ++ filter (fun e => negb (is_array_index (fst e))) o.

Definition keys {V : Type} (o : obj V) : list string := map fst (entries o).

Definition values {V : Type} (o : obj V) : list V := map snd (entries o).

End JsObject.

Import JsObject.

Module JsArray.

(** [l.sort(cmp)]: stable; [x] goes after [y] only when [cmp x y > 0]. *)
Fixpoint insert {A : Type} (cmp : A -> A -> num) (x : A) (l : list A) : list A :=
  match l with
  | [] => [x]
  | y :: r => if gt0 (cmp x y) then y :: insert cmp x r else x :: l
  end.

Fixpoint sort {A : Type} (cmp : A -> A -> num) (l : list A) : list A :=
  match l with
  | [] => []
  | x :: r => insert cmp x (sort cmp r)
  end.

Definition comparison_num (c : comparison) : num :=
  match c with
  | Lt => Fin (-1)
  | Eq => Fin 0
  | Gt => Fin 1
  end.

Fixpoint join (sep : string) (l : list string) : string :=
  match l with
  | [] => EmptyString
  | [x] => x
  | x :: r => x ++ sep ++ join sep r
  end.

Fixpoint find {A : Type} (f : A -> bool) (l : list A) : option A :=
  match l with
  | [] => None
  | x :: r => if f x then Some x else find f r
  end.

(** [l.includes(v)] *)
Definition includes (l : list jsval) (v : jsval) : bool :=
  existsb (fun x => strict_eq x v) l.

(** The numbers of a list that are not [NaN]. *)
Fixpoint finite (l : list num) : list Q :=
  match l with
  | [] => []
  | NaN :: r => finite r
  | Fin q :: r => q :: finite r
  end.

(** [[...new Set(values)].map(Number).filter(n => !Number.isNaN(n))
      .sort((a, b) => a - b)] *)
Definition numericSorted (values : list jsval) : list Q :=
  sort (fun a b => Fin (a - b)) (finite (map Number (dedupe strict_eq values))).

End JsArray.

Import JsArray.

(** ** The fetched rows *)

Module MixRow.
Record t := mk {
  mixing_no : jsval;
  unit : jsval;
  line : jsval;
  cotton : jsval;
  lot_no : jsval;
  issue_bale : jsval
}.
End MixRow.

Module Issue.
Record t := mk {
  unit : jsval;
  line : jsval;
  mixing_no : jsval;
  cotton : jsval;
  issue_date : jsval
}.
End Issue.

Module Metric.
Inductive t := mic | str | uhml | rd | plus_b | sf | ui | elong | trash | moist.
Definition all : list t := [mic; str; uhml; rd; plus_b; sf; ui; elong; trash; moist].
End Metric.

Module Lot.
Record t := mk {
  lot_no : jsval;
  variety : jsval;
  mic : jsval;
  str : jsval;
  uhml : jsval;
  rd : jsval;
  plus_b : jsval;
  sf : jsval;
  ui : jsval;
  elong : jsval;
  trash : jsval;
  moist : jsval;
  min_mic : jsval;
  min_mic_bale_per_lot : jsval;
  no_of_bale : jsval
}.

(** [lot[key]] for the ten weighted metrics. *)
Definition metric (key : Metric.t) (lot : t) : jsval :=
  match key with
  | Metric.mic => mic lot
  | Metric.str => str lot
  | Metric.uhml => uhml lot
  | Metric.rd => rd lot
  | Metric.plus_b => plus_b lot
  | Metric.sf => sf lot
  | Metric.ui => ui lot
  | Metric.elong => elong lot
  | Metric.trash => trash lot
  | Metric.moist => moist lot
  end.
End Lot.

Module MixingCode.
Record t := mk {
  variety : jsval;
  cotton_name : jsval;
  weight : jsval
}.
End MixingCode.

(** ** The weighted aggregator

    The loop over a group's rows; the daily branch and the weekly/monthly
    branch of the handler run the same statements on their group. *)

Module Aggregator.

(** [lotResults.find((l) => l.lot_no === mixRow.lot_no)] *)
Definition findLot (lotResults : list Lot.t) (mixRow : MixRow.t) : option Lot.t :=
  find (fun l => strict_eq (Lot.lot_no l) (MixRow.lot_no mixRow)) lotResults.

(** [v !== null && v !== undefined && v !== ""] *)
Definition present (v : jsval) : bool :=
  match v with
  | VNull => false
  | VNum _ => true
  | VStr s => negb (is_empty s)
  end.

(** [o[k] || 0] on a dictionary of numbers. *)
Definition slot (o : obj num) (k : string) : Q :=
  match get o k with
  | Some v => orZero v
  | None => 0%Q
  end.

(** [[...new Set(rows.map(r => r.lot_no))].length] *)
Definition noOfLots (rows : list MixRow.t) : nat :=
  List.length (dedupe strict_eq (map MixRow.lot_no rows)).

Record sums := mkSums {
  weighted : Metric.t -> num;
  lotBalesMap : obj num;
  weightedMinMicNumerator : num;
  minMicValues : list Q
}.

Definition init : sums := mkSums (fun _ => Fin 0) [] (Fin 0) [].

Record result := mkResult {
  total_bales : num;
  no_of_lots : nat;
  metrics : Metric.t -> num;
  min_mic_percent : num;
  min_mic : option Q;
  lots : obj num
}.

Section WithArithmetic.

Context `{Arithmetic}.

(** [Number(r.issue_bale || 0)] *)
Definition bales (r : MixRow.t) : num :=
  number (if truthy (MixRow.issue_bale r) then MixRow.issue_bale r else VNum 0).

(** [rows.reduce((sum, r) => sum + Number(r.issue_bale || 0), 0)] *)
Definition totalBales (rows : list MixRow.t) : num :=
  fold_left (fun sum r => add sum (bales r)) rows (Fin 0).

(** One turn of [for (const mixRow of rows)]. *)
Definition step (lotResults : list Lot.t) (acc : sums) (mixRow : MixRow.t) : sums :=
  match findLot lotResults mixRow with
  | None => acc
  | Some lot =>
      let bales := bales mixRow in
      let lotKey := MixRow.lot_no mixRow in
      let lotBalesMap' :=
        if truthy lotKey then
          set (lotBalesMap acc) (ToString lotKey)
              (add (Fin (slot (lotBalesMap acc) (ToString lotKey))) bales)
        else lotBalesMap acc in
      let weighted' := fun key =>
        add (weighted acc key)
            (mul (Fin (orZero (number (Lot.metric key lot)))) bales) in
      let lotMinMicBales := number (Lot.min_mic_bale_per_lot lot) in
      let lotTotalBales := number (Lot.no_of_bale lot) in
      let weightedMinMicNumerator' :=
        if present (Lot.min_mic_bale_per_lot lot)
           && negb (isNaN lotMinMicBales) && gt0 lotTotalBales
        then
          let lotMinMicPercent := div (mul lotMinMicBales (Fin 100)) lotTotalBales in
          add (weightedMinMicNumerator acc) (mul bales lotMinMicPercent)
        else weightedMinMicNumerator acc in
      let minMicValues' :=
        if present (Lot.min_mic lot) then
          match number (Lot.min_mic lot) with
          | Fin n => (minMicValues acc ++ [n])%list
          | NaN => minMicValues acc
          end
        else minMicValues acc in
      mkSums weighted' lotBalesMap' weightedMinMicNumerator' minMicValues'
  end.

Definition aggregate (lotResults : list Lot.t) (rows : list MixRow.t) : result :=
  let totalBales := totalBales rows in
  let acc := fold_left (step lotResults) rows init in
  mkResult
    totalBales
    (noOfLots rows)
    (if gt0 totalBales
     then fun key => fixed2 (div (weighted acc key) totalBales)
     else weighted acc)
    (if gt0 totalBales
     then fixed2 (div (weightedMinMicNumerator acc) totalBales)
     else Fin 0)
    (match minMicValues acc with
     | [] => None
     | x :: r => Some (toFixed2 (Qmin_list x r))
     end)
    (lotBalesMap acc).

End WithArithmetic.

End Aggregator.

(** ** The blend resolver of the daily branch *)

Module Blend.

Import Aggregator.

(** The varieties the group's lots carry: the key of the [mixing_code]
    query. *)
Definition uniqueVarieties (lotResults : list Lot.t) (rows : list MixRow.t)
  : list jsval :=
  let lotsForMixing := map MixRow.lot_no rows in
  dedupe strict_eq
    (filter truthy
       (map Lot.variety
            (filter (fun lot => includes lotsForMixing (Lot.lot_no lot)) lotResults))).

Record varietyInfo := mkInfo { cotton_name : jsval; weight : Q }.

Definition varietyMap (mixingCodeData : list MixingCode.t) : obj varietyInfo :=
  fold_left
    (fun m mc =>
       if truthy (MixingCode.variety mc) && truthy (MixingCode.cotton_name mc)
       then set m (ToString (MixingCode.variety mc))
                (mkInfo (MixingCode.cotton_name mc)
                        (orZero (Number (MixingCode.weight mc))))
       else m)
    mixingCodeData [].

Record contributions := mkContrib {
  cottonContributions : obj Q;
  totalWeightedSum : Q
}.

Definition amount (o : obj Q) (k : string) : Q :=
  match get o k with Some v => v | None => 0%Q end.

(** One turn of the contribution loop of the daily branch. *)
Definition contribute (lotResults : list Lot.t) (vmap : obj varietyInfo)
    (acc : contributions) (mixRow : MixRow.t) : contributions :=
  match findLot lotResults mixRow with
  | None => acc
  | Some lot =>
      if negb (truthy (Lot.variety lot)) then acc else
      match get vmap (ToString (Lot.variety lot)) with
      | None => acc
      | Some varietyInfo =>
          let issueBale := orZero (Number (MixRow.issue_bale mixRow)) in
          let weight := weight varietyInfo in
          let cottonName := ToString (cotton_name varietyInfo) in
          let weightedValue := (issueBale * weight)%Q in
          mkContrib
            (set (cottonContributions acc) cottonName
                 (amount (cottonContributions acc) cottonName + weightedValue)%Q)
            (totalWeightedSum acc + weightedValue)%Q
      end
  end.

Definition collect (lotResults : list Lot.t) (mixingCodeData : list MixingCode.t)
    (rows : list MixRow.t) : contributions :=
  fold_left (contribute lotResults (varietyMap mixingCodeData)) rows (mkContrib [] 0%Q).

Definition byName `{Platform} (a b : string) : num :=
  comparison_num (localeCompare_base a b).

(** The names with a positive contribution, sorted; when there is none,
    every mapped name. *)
Definition cottonNames `{Platform} (mixingCodeData : list MixingCode.t)
    (c : contributions) : list string :=
  let positive :=
    sort byName
      (filter (fun name => Qlt_bool 0 (amount (cottonContributions c) name))
              (keys (cottonContributions c))) in
  match positive with
  | [] =>
      sort byName
        (map ToString
           (dedupe strict_eq (filter truthy (map MixingCode.cotton_name mixingCodeData))))
  | _ => positive
  end.

Definition percentage (c : contributions) (cottonName : string) : Z :=
  if Qlt_bool 0 (totalWeightedSum c)
     && negb (Qeq_bool (amount (cottonContributions c) cottonName) 0)
  then Math_round (amount (cottonContributions c) cottonName / totalWeightedSum c * 100)
  else 0.

Definition blendPercentages `{Platform} (mixingCodeData : list MixingCode.t)
    (c : contributions) : list Z :=
  map (percentage c) (cottonNames mixingCodeData c).

Record blend := mkBlend { mixing : string; blend_percent : string }.

Definition no_blend : blend := mkBlend "" "".

(** The two strings the daily branch writes once [mixing_code] answered
    with at least one row. *)
Definition resolve `{Platform} (lotResults : list Lot.t)
    (mixingCodeData : list MixingCode.t) (rows : list MixRow.t) : blend :=
  let c := collect lotResults mixingCodeData rows in
  mkBlend (join "+" (cottonNames mixingCodeData c))
          (join "+" (map decimal (blendPercentages mixingCodeData c))).

End Blend.

(** ** Summary entries *)

Module Entry.
Record t := mk {
  mixing_no : jsval;
  unit : jsval;
  line : jsval;
  cotton : jsval;
  total_bales : num;
  no_of_lots : nat;
  metrics : Metric.t -> num;
  min_mic : option Q;
  min_mic_percent : num;
  issue_date : jsval;
  issue_date_sort_key : option string;
  mixing : string;
  blend_percent : string;
  bale_change_over_percent : option Q;
  lot_change_over_percent : option Q;
  previous_mixing_no : jsval;
  mixing_start : option Q;
  mixing_end : option Q;
  _lotBalesMap : obj num;
  _groupKey : string;
  _versionNumber : option Z;
  _mixingNumbers : list Q
}.

(** The three fields the continuity pass writes. *)
Definition with_change (e : t) (bale lot : option Q) (previous : jsval) : t :=
  mk (mixing_no e) (unit e) (line e) (cotton e) (total_bales e) (no_of_lots e)
     (metrics e) (min_mic e) (min_mic_percent e) (issue_date e)
     (issue_date_sort_key e) (mixing e) (blend_percent e)
     bale lot previous
     (mixing_start e) (mixing_end e) (_lotBalesMap e) (_groupKey e)
     (_versionNumber e) (_mixingNumbers e).
End Entry.

(** ** The mixing range of a group *)

Module MixingRange.

(** The three shapes of the [mixing_no] field of an entry: a row's own
    value, [`${minMixing}`], or [`${minMixing}-${maxMixing}`]. *)
Inductive t := Raw (v : jsval) | Single (n : Q) | Span (lo hi : Q).

Definition render (r : t) : jsval :=
  match r with
  | Raw v => v
  | Single n => VStr (number_to_string n)
  | Span lo hi => VStr (number_to_string lo ++ "-" ++ number_to_string hi)
  end.

Definition of_bounds (fallback : jsval) (minMixing maxMixing : option Q) : t :=
  match minMixing, maxMixing with
  | Some lo, Some hi => if Qeq_bool lo hi then Single lo else Span lo hi
  | _, _ => Raw fallback
  end.

End MixingRange.

(** ** Continuity within a signature group *)

Module Continuity.

Record record := mkRecord {
  index : nat;
  entry : Entry.t;
  maxMixNo : option Q;
  issueTimestamp : option num
}.

(** [v ? new Date(v).getTime() : null] *)
Definition timestampOf `{Platform} (issue_date : jsval) : option num :=
  if truthy issue_date then
    Some (match getTime issue_date with
          | Some t => Fin (inject_Z t)
          | None => NaN
          end)
  else None.

Definition signature (e : Entry.t) : string :=
  ToString (coalesce (Entry.unit e) (VStr "__NO_UNIT__")) ++ "|"
  ++ ToString (coalesce (Entry.line e) (VStr "__NO_LINE__")) ++ "|"
  ++ Entry._groupKey e.

Definition recordOf `{Platform} (i : nat) (e : Entry.t) : record :=
  let mixNos := Entry._mixingNumbers e in
  mkRecord i e
    (match mixNos with
     | x :: r => Some (Qmax_list x r)
     | [] => match Entry.mixing_end e with
             | Some m => Some m
             | None => Entry.mixing_start e
             end
     end)
    (timestampOf (Entry.issue_date e)).

(** [continuityGroups[signature].push(...)] over the entries in order. *)
Definition groupBySignature `{Platform} (entries : list Entry.t) : obj (list record) :=
  fold_left
    (fun groups ie =>
       let r := recordOf (fst ie) (snd ie) in
       let s := signature (snd ie) in
       match get groups s with
       | None => set groups s [r]
       | Some rs => set groups s (rs ++ [r])%list
       end)
    (combine (seq 0 (List.length entries)) entries) [].

(** [a !== b] on two timestamps, each [null] or a number. *)
Definition timestamps_differ (a b : option num) : bool :=
  match a, b with
  | None, None => false
  | Some x, Some y => negb (num_eqb x y)
  | _, _ => true
  end.

(** [v ?? Number.MAX_SAFE_INTEGER] *)
Definition orMax (v : option Q) : Q :=
  match v with Some x => x | None => MAX_SAFE_INTEGER end.

(** The comparator of [records.sort]. *)
Definition compareRecords (a b : record) : num :=
  if timestamps_differ (issueTimestamp a) (issueTimestamp b) then
    match issueTimestamp a, issueTimestamp b with
    | None, _ => Fin 1
    | _, None => Fin (-1)
    | Some x, Some y => nsub x y
    end
  else
    let versionA := orMax (option_map inject_Z (Entry._versionNumber (entry a))) in
    let versionB := orMax (option_map inject_Z (Entry._versionNumber (entry b))) in
    if negb (Qeq_bool versionA versionB) then Fin (versionA - versionB) else
    let mixingSpanA := orMax (maxMixNo a) in
    let mixingSpanB := orMax (maxMixNo b) in
    if negb (Qeq_bool mixingSpanA mixingSpanB) then Fin (mixingSpanA - mixingSpanB)
    else Fin 0.

(** The lot numbers of two lot maps, each once. *)
Definition lotSet (previousLotMap currentLotMap : obj num) : list string :=
  dedupe String.eqb (keys previousLotMap ++ keys currentLotMap)%list.

Record lotDiff := mkDiff {
  absoluteDifferenceSum : num;
  newLotCount : Z;
  removedLotCount : Z
}.

Section WithArithmetic.

Context `{Arithmetic}.

(** The body of [lotSet.forEach] of the continuity pass. *)
Definition diffStep (previousLotMap currentLotMap : obj num)
    (d : lotDiff) (lotNo : string) : lotDiff :=
  let prevBales := Aggregator.slot previousLotMap lotNo in
  let currentBales := Aggregator.slot currentLotMap lotNo in
  mkDiff
    (add (absoluteDifferenceSum d) (nabs (sub (Fin currentBales) (Fin prevBales))))
    (newLotCount d
     + (if Qeq_bool prevBales 0 && Qlt_bool 0 currentBales then 1 else 0))
    (removedLotCount d
     + (if Qeq_bool currentBales 0 && Qlt_bool 0 prevBales then 1 else 0)).

Definition diffLots (previousLotMap currentLotMap : obj num) : lotDiff :=
  fold_left (diffStep previousLotMap currentLotMap)
            (lotSet previousLotMap currentLotMap) (mkDiff (Fin 0) 0 0).

(** The two percentages of an entry against its predecessor:
    [parseFloat(((absoluteDifferenceSum / previousTotalBales) * 100).toFixed(2))]
    and the like for the lots. *)
Definition baleChange (previous current : Entry.t) : option Q :=
  let d := diffLots (Entry._lotBalesMap previous) (Entry._lotBalesMap current) in
  let previousTotalBales := orZero (Entry.total_bales previous) in
  if Qlt_bool 0 previousTotalBales
  then toJson (fixed2 (mul (div (absoluteDifferenceSum d) (Fin previousTotalBales))
                              (Fin 100)))
  else None.

Definition lotChange (previous current : Entry.t) : option Q :=
  let d := diffLots (Entry._lotBalesMap previous) (Entry._lotBalesMap current) in
  let previousLotCount := inject_Z (Z.of_nat (Entry.no_of_lots previous)) in
  if Qlt_bool 0 previousLotCount
  then toJson (fixed2 (mul (div (Fin (inject_Z (newLotCount d + removedLotCount d)))
                                   (Fin previousLotCount))
                              (Fin 100)))
  else None.

End WithArithmetic.

Record stats := mkStats {
  lastVersion : option Z;
  lastTimestamp : option num
}.

Definition hasSameGroup (s : stats) : bool :=
  match lastVersion s, lastTimestamp s with
  | Some _, Some _ => true
  | _, _ => false
  end.

Definition statsAfter `{Platform} (e : Entry.t) : stats :=
  mkStats (Entry._versionNumber e) (timestampOf (Entry.issue_date e)).

(** The body of [records.forEach] in the daily branch; [previous] is
    [records[index - 1]], absent at index [0]. *)
Definition dailyAnnotate `{Arithmetic} (s : stats) (previous : option record)
    (r : record) : Entry.t :=
  match previous with
  | None => Entry.with_change (entry r) None None VNull
  | Some p =>
      if negb (hasSameGroup s) then Entry.with_change (entry r) None None VNull
      else Entry.with_change (entry r)
             (baleChange (entry p) (entry r))
             (lotChange (entry p) (entry r))
             (Entry.mixing_no (entry p))
  end.

(** The same body in the weekly/monthly branch, which keeps a percentage
    the period already carries. *)
Definition periodAnnotate `{Arithmetic} (s : stats) (previous : option record)
    (r : record) : Entry.t :=
  let e := entry r in
  match previous with
  | None => e
  | Some p =>
      if negb (hasSameGroup s) then e
      else
        match Entry.bale_change_over_percent e, Entry.lot_change_over_percent e with
        | None, None =>
            Entry.with_change e
              (baleChange (entry p) e) (lotChange (entry p) e)
              (Entry.mixing_no (entry p))
        | _, _ =>
            Entry.with_change e
              (Entry.bale_change_over_percent e) (Entry.lot_change_over_percent e)
              (coalesce (Entry.previous_mixing_no e) (Entry.mixing_no (entry p)))
        end
  end.

(** [records.forEach] over a sorted group, threading [stats]. *)
Fixpoint annotate `{Platform} (body : stats -> option record -> record -> Entry.t)
    (s : stats) (previous : option record) (records : list record)
  : list (nat * Entry.t) :=
  match records with
  | [] => []
  | r :: rest =>
      (index r, body s previous r)
      :: annotate body (statsAfter (entry r)) (Some r) rest
  end.

Definition processGroup `{Platform}
    (body : stats -> option record -> record -> Entry.t)
    (records : list record) : list (nat * Entry.t) :=
  annotate body (mkStats None None) None (sort compareRecords records).

(** Write an annotated entry back at its place in the summary. *)
Fixpoint replace_at {A : Type} (i : nat) (x : A) (l : list A) : list A :=
  match l, i with
  | [], _ => []
  | _ :: r, O => x :: r
  | y :: r, S i' => y :: replace_at i' x r
  end.

Definition track `{Platform}
    (body : stats -> option record -> record -> Entry.t)
    (entries : list Entry.t) : list Entry.t :=
  fold_left
    (fun es group =>
       fold_left (fun es' ie => replace_at (fst ie) (snd ie) es')
                 (processGroup body (snd group)) es)
    (JsObject.entries (groupBySignature entries)) entries.

End Continuity.

(** ** The record source *)

Module Supabase.

(** [{ data, error }] *)
Record answer (R : Type) := mkAnswer {
  data : option (list R);
  error : option string
}.
Arguments mkAnswer {R} _ _.
Arguments data {R} _.
Arguments error {R} _.

Record issueFilter := mkIssueFilter {
  gte_issue_date : option string;
  lte_issue_date : option string;
  gte_mixing_no : option string;
  lte_mixing_no : option string;
  in_unit : list jsval;
  in_line : list jsval;
  in_mixing_no : list jsval
}.

Record mixingFilter := mkMixingFilter {
  chart_in_mixing_no : list jsval;
  chart_in_unit : list jsval;
  chart_in_line : list jsval;
  chart_in_cotton : list string
}.

(** The four reads of the summary handler, each with the type of its
    answer. *)
Inductive query : Type -> Type :=
| SelectMixingIssue (f : issueFilter) : query (answer Issue.t)
| SelectMixingChart (f : mixingFilter) : query (answer MixRow.t)
| SelectLotResults (in_lot_no : list jsval) : query (answer Lot.t)
| SelectMixingCode (in_variety : list jsval) : query (answer MixingCode.t).

(** A computation that awaits reads of the record source. *)
Inductive io (A : Type) : Type :=
| Ret (a : A)
| Await {R : Type} (q : query R) (k : R -> io A).
Arguments Ret {A} _.
Arguments Await {A R} _ _.

Fixpoint bind {A B : Type} (m : io A) (f : A -> io B) : io B :=
  match m with
  | Ret a => f a
  | Await q k => Await q (fun r => bind (k r) f)
  end.

(** The reads of a computation, in order, against a record source. *)
Inductive read : Type :=
| Read (R : Type) (q : query R).
Arguments Read {R} _.

Fixpoint run {A : Type} (source : forall R, query R -> R) (m : io A)
  : list read * A :=
  match m with
  | Ret a => ([], a)
  | Await q k =>
      let (reads, a) := run source (k (source _ q)) in
      (Read q :: reads, a)
  end.

End Supabase.

Import Supabase.

Notation "x <- m ;; k" := (bind m (fun x => k))
  (at level 61, m at next level, right associativity).

(** ** The daily branch *)

Module Daily.

Import Aggregator.

(** [`${row.mixing_no}|${row.cotton}`] *)
Definition groupKey (row : MixRow.t) : string :=
  ToString (MixRow.mixing_no row) ++ "|" ++ ToString (MixRow.cotton row).

Definition groupRows (mixingData : list MixRow.t) : obj (list MixRow.t) :=
  fold_left
    (fun groups row =>
       match get groups (groupKey row) with
       | None => set groups (groupKey row) [row]
       | Some rows => set groups (groupKey row) (rows ++ [row])%list
       end)
    mixingData [].

Definition lookupKey (unit line mixing_no cotton : jsval) : string :=
  ToString (coalesce unit (VStr "__NO_UNIT__")) ++ "|"
  ++ ToString (coalesce line (VStr "__NO_LINE__")) ++ "|"
  ++ ToString (coalesce mixing_no (VStr "__NO_MIXING__")) ++ "|"
  ++ ToString (coalesce cotton (VStr "__NO_COTTON__")).

(** The first truthy issue date of each (unit, line, mixing, cotton). *)
Definition issueDateLookup (issueData : list Issue.t) : obj jsval :=
  fold_left
    (fun lookup issueRow =>
       let k := lookupKey (Issue.unit issueRow) (Issue.line issueRow)
                          (Issue.mixing_no issueRow) (Issue.cotton issueRow) in
       match get lookup k with
       | Some v => if truthy v then lookup else set lookup k (Issue.issue_date issueRow)
       | None => set lookup k (Issue.issue_date issueRow)
       end)
    issueData [].

(** [issueDateLookup[lookupKey] || null] for a mixing row. *)
Definition rawIssueDate (lookup : obj jsval) (row : MixRow.t) : jsval :=
  match get lookup (lookupKey (MixRow.unit row) (MixRow.line row)
                              (MixRow.mixing_no row) (MixRow.cotton row)) with
  | Some v => if truthy v then v else VNull
  | None => VNull
  end.

(** [new Date(dateStr).getTime() || 0] *)
Definition timeOrZero `{Platform} (dateStr : jsval) : Q :=
  match getTime dateStr with
  | Some t => inject_Z t
  | None => 0%Q
  end.

(** The earliest issue date of the group, [null] when it has none. *)
Definition issueDate `{Platform} (lookup : obj jsval) (rows : list MixRow.t) : jsval :=
  let issueDates := filter truthy (map (rawIssueDate lookup) rows) in
  match sort (fun a b => Fin (timeOrZero a - timeOrZero b)) issueDates with
  | d :: _ => d
  | [] => VNull
  end.

Definition mixingNumbers (rows : list MixRow.t) : list Q :=
  numericSorted (map MixRow.mixing_no rows).

Definition minMixing (rows : list MixRow.t) : option Q :=
  match mixingNumbers rows with
  | x :: r => Some (Qmin_list x r)
  | [] => None
  end.

Definition maxMixing (rows : list MixRow.t) : option Q :=
  match mixingNumbers rows with
  | x :: r => Some (Qmax_list x r)
  | [] => None
  end.

Definition first {A : Type} (f : MixRow.t -> A) (d : A) (rows : list MixRow.t) : A :=
  match rows with
  | r :: _ => f r
  | [] => d
  end.

Definition mixingRange (rows : list MixRow.t) : MixingRange.t :=
  MixingRange.of_bounds (first MixRow.mixing_no VNull rows)
                        (minMixing rows) (maxMixing rows).

(** The entry of one group, once its blend strings are known. *)
Definition entryOf `{Platform} `{Arithmetic} (lookup : obj jsval)
    (lotResults : list Lot.t) (rows : list MixRow.t) (b : Blend.blend) : Entry.t :=
  let agg := aggregate lotResults rows in
  let version := parseCottonVersion (first MixRow.cotton VNull rows) in
  Entry.mk
    (MixingRange.render (mixingRange rows))
    (first MixRow.unit VNull rows)
    (first MixRow.line VNull rows)
    (first MixRow.cotton VNull rows)
    (total_bales agg) (no_of_lots agg) (metrics agg)
    (min_mic agg) (min_mic_percent agg)
    (issueDate lookup rows)
    None
    (Blend.mixing b) (Blend.blend_percent b)
    None None VNull
    (minMixing rows) (maxMixing rows)
    (lots agg)
    (CottonVersion.groupKey version)
    (CottonVersion.versionNumber version)
    (mixingNumbers rows).

(** The blend of one group: a read of [mixing_code] when its lots carry a
    variety; an error or an empty answer leaves the strings empty. *)
Definition blendOf `{Platform} (lotResults : list Lot.t) (rows : list MixRow.t)
  : io Blend.blend :=
  match Blend.uniqueVarieties lotResults rows with
  | [] => Ret Blend.no_blend
  | uniqueVarieties =>
      Await (SelectMixingCode uniqueVarieties)
        (fun answer =>
           match error answer, data answer with
           | None, Some (mc :: mixingCodeData) =>
               Ret (Blend.resolve lotResults (mc :: mixingCodeData) rows)
           | _, _ => Ret Blend.no_blend
           end)
  end.

Fixpoint summaryEntries `{Platform} (lookup : obj jsval) (lotResults : list Lot.t)
    (groups : list (list MixRow.t)) : io (list Entry.t) :=
  match groups with
  | [] => Ret []
  | [] :: rest => summaryEntries lookup lotResults rest
  | rows :: rest =>
      b <- blendOf lotResults rows ;;
      es <- summaryEntries lookup lotResults rest ;;
      Ret (entryOf lookup lotResults rows b :: es)
  end.

(** [new Date(v)] as a number: [null] is the epoch. *)
Definition dateNumber `{Platform} (v : jsval) : num :=
  match getTime v with
  | Some t => Fin (inject_Z t)
  | None => NaN
  end.

(** [summary.sort((a, b) => new Date(b.issue_date) - new Date(a.issue_date))] *)
Definition byIssueDateDescending `{Platform} (a b : Entry.t) : num :=
  nsub (dateNumber (Entry.issue_date b)) (dateNumber (Entry.issue_date a)).

(** [row.mixing.split("+")] *)
Definition mixingNames (mixing : string) : list string :=
  Reference.split_on 43 mixing.

Definition applyMixingFilter (mixingFilters : list jsval) (summary : list Entry.t)
  : list Entry.t :=
  match mixingFilters with
  | [] => summary
  | _ =>
      filter
        (fun row =>
           negb (is_empty (Entry.mixing row))
           && existsb (fun name => includes mixingFilters (VStr name))
                      (mixingNames (Entry.mixing row)))
        summary
  end.

(** The daily branch from the fetched rows to the response body. *)
Definition report `{Platform} (issueData : list Issue.t)
    (mixingData : list MixRow.t) (lotResults : list Lot.t)
    (mixingFilters : list jsval) : io (list Entry.t) :=
  es <- summaryEntries (issueDateLookup issueData) lotResults
          (values (groupRows mixingData)) ;;
  Ret (applyMixingFilter mixingFilters
         (sort byIssueDateDescending (Continuity.track Continuity.dailyAnnotate es))).

End Daily.

(** ** The weekly and monthly branch *)

Module Periodic.

Import Aggregator.

(** *** Grouping the issue records by period *)

Record periodRow := mkPeriodRow {
  row : MixRow.t;
  _periodLabel : string;
  _periodSortKey : string;
  _periodSortValue : option num
}.

Record rawIssueDate := mkRaw { raw : jsval; sortValue : num }.

Record group := mkGroup {
  unit : jsval;
  line : jsval;
  cotton : jsval;
  mixing_nos : list (jsval * jsval);
  issue_date : string;
  issue_date_sort_key : option string;
  _issueSortValue : option num;
  _raw_issue_dates : list rawIssueDate;
  rows : list periodRow
}.

Definition truthy_key (k : option string) : bool :=
  match k with Some s => negb (is_empty s) | None => false end.

(** [a ?? b] on optional values. *)
Definition orElse {A : Type} (a b : option A) : option A :=
  match a with Some _ => a | None => b end.

(** One turn of [for (const issue of issueData)]. *)
Definition addIssue `{Platform} (report_type : string) (cottonFilters : list jsval)
    (groupedData : obj group) (issue : Issue.t) : obj group :=
  let d := Period.buildPeriodDescriptor (Issue.issue_date issue) report_type in
  match Period.label d with
  | None => groupedData
  | Some periodLabel =>
      if is_empty periodLabel then groupedData else
      let cottonValue := Issue.cotton issue in
      if negb (Nat.eqb (List.length cottonFilters) 0)
         && negb (includes cottonFilters cottonValue)
      then groupedData else
      let groupKey :=
        periodLabel ++ "|" ++ ToString (Issue.unit issue) ++ "|"
        ++ ToString (Issue.line issue) ++ "|" ++ ToString cottonValue in
      let g :=
        match get groupedData groupKey with
        | None =>
            mkGroup (Issue.unit issue) (Issue.line issue) cottonValue []
                    periodLabel (Period.sortKey d) (Period.sortValue d) [] []
        | Some g0 =>
            mkGroup (unit g0) (line g0) (cotton g0) (mixing_nos g0) (issue_date g0)
                    (if negb (truthy_key (issue_date_sort_key g0))
                        && truthy_key (Period.sortKey d)
                     then Period.sortKey d else issue_date_sort_key g0)
                    (orElse (_issueSortValue g0) (Period.sortValue d))
                    (_raw_issue_dates g0) (rows g0)
        end in
      set groupedData groupKey
        (mkGroup (unit g) (line g) (cotton g)
                 (mixing_nos g ++ [(Issue.mixing_no issue, cottonValue)])%list
                 (issue_date g) (issue_date_sort_key g) (_issueSortValue g)
                 (match Period.sortValue d with
                  | Some v => (_raw_issue_dates g ++ [mkRaw (Issue.issue_date issue) v])%list
                  | None => _raw_issue_dates g
                  end)
                 (rows g))
  end.

(** [v === undefined || v === null ? "" : `${v}`.trim()] *)
Definition trimmedOrEmpty (v : jsval) : string :=
  match v with VNull => "" | _ => trim (ToString v) end.

(** [String(v ?? "").trim()] *)
Definition normalized (v : jsval) : string :=
  trim (ToString (coalesce v (VStr ""))).

Definition matchesFilter (filters : list jsval) (prepare : string -> string)
    (rowValue : string) : bool :=
  Nat.eqb (List.length filters) 0
  || existsb (fun value => String.eqb (prepare (normalized value)) rowValue) filters.

(** The predicate of [mixingData.filter] for one group. *)
Definition relevant (unitFilters lineFilters cottonFilters : list jsval)
    (g : group) (m : MixRow.t) : bool :=
  let mixingNoValues :=
    filter (fun value => negb (is_empty value))
           (map (fun item => trimmedOrEmpty (fst item)) (mixing_nos g)) in
  let mixingValue := trimmedOrEmpty (MixRow.mixing_no m) in
  let normalizedRowUnit := normalized (MixRow.unit m) in
  let normalizedRowLine := normalized (MixRow.line m) in
  let normalizedRowCotton := toUpperCase (normalized (MixRow.cotton m)) in
  negb (is_empty mixingValue)
  && existsb (String.eqb mixingValue) mixingNoValues
  && String.eqb normalizedRowUnit (normalized (unit g))
  && String.eqb normalizedRowLine (normalized (line g))
  && String.eqb normalizedRowCotton (toUpperCase (normalized (cotton g)))
  && matchesFilter unitFilters (fun s => s) normalizedRowUnit
  && matchesFilter lineFilters (fun s => s) normalizedRowLine
  && matchesFilter cottonFilters toUpperCase normalizedRowCotton.

(** [issueDateLookup[lookupKey] ?? null] for a mixing row. *)
Definition getRawIssueDateForRow (lookup : obj jsval) (r : MixRow.t) : jsval :=
  match get lookup (Daily.lookupKey (MixRow.unit r) (MixRow.line r)
                                    (MixRow.mixing_no r) (MixRow.cotton r)) with
  | Some v => v
  | None => VNull
  end.

Definition withPeriod `{Platform} (report_type : string) (lookup : obj jsval)
    (g : group) (mixRow : MixRow.t) : periodRow :=
  let d := Period.buildPeriodDescriptor (getRawIssueDateForRow lookup mixRow) report_type in
  mkPeriodRow mixRow
    (match Period.label d with Some l => l | None => issue_date g end)
    (match orElse (Period.sortKey d) (issue_date_sort_key g) with
     | Some k => k
     | None => issue_date g
     end)
    (orElse (Period.sortValue d) (_issueSortValue g)).

(** The second loop: the rows of a group and the period data they add. *)
Definition attachRows `{Platform} (report_type : string) (lookup : obj jsval)
    (unitFilters lineFilters cottonFilters : list jsval)
    (mixingData : list MixRow.t) (g : group) : group :=
  let normalizedRows :=
    map (withPeriod report_type lookup g)
        (filter (relevant unitFilters lineFilters cottonFilters g) mixingData) in
  mkGroup (unit g) (line g) (cotton g) (mixing_nos g) (issue_date g)
    (if negb (truthy_key (issue_date_sort_key g)) then
       match find (fun r => negb (is_empty (_periodSortKey r))) normalizedRows with
       | Some candidate => Some (_periodSortKey candidate)
       | None => issue_date_sort_key g
       end
     else issue_date_sort_key g)
    (match _issueSortValue g with
     | Some v => Some v
     | None =>
         match find (fun r => match _periodSortValue r with Some _ => true | None => false end)
                    normalizedRows with
         | Some candidate => _periodSortValue candidate
         | None => None
         end
     end)
    (_raw_issue_dates g
     ++ flat_map (fun r => match _periodSortValue r with
                           | Some v => [mkRaw (VStr (_periodLabel r)) v]
                           | None => []
                           end) normalizedRows)%list
    normalizedRows.

(** *** The summary of one period group *)

Definition mixingNumbers (g : group) : list Q :=
  numericSorted (map fst (mixing_nos g)).

Definition mixingRange (g : group) : MixingRange.t :=
  MixingRange.of_bounds
    (match mixing_nos g with
     | (m, _) :: _ => coalesce m (VStr "")
     | [] => VStr ""
     end)
    (hd_error (mixingNumbers g))
    (hd_error (rev (mixingNumbers g))).

(** The period label of the earliest raw issue date, when the group has a
    sort key. *)
Definition issueDate `{Platform} (report_type : string) (g : group) : string :=
  if truthy_key (issue_date_sort_key g) then
    match sort (fun a b => nsub (sortValue a) (sortValue b))
               (filter (fun item => negb (isNaN (sortValue item))) (_raw_issue_dates g)) with
    | earliest :: _ =>
        match Period.label (Period.buildPeriodDescriptor (raw earliest) report_type) with
        | Some l => l
        | None => issue_date g
        end
    | [] => issue_date g
    end
  else issue_date g.

(** [q.toFixed(1)] *)
Definition toFixed1 (q : Q) : string :=
  let n := Z.abs (round_half_away (q * 10)) in
  (if Qlt_bool q 0 then "-" else "") ++ decimal (n / 10) ++ "." ++ decimal (n mod 10).

(** [normalizeMixingSignature] on a string. *)
Definition normalizeMixingSignature `{Platform} (value : string) : string :=
  let raw := trim value in
  if is_empty raw then "" else
  let parts := filter (fun part => negb (is_empty part))
                      (map trim (Reference.split_on 43 raw)) in
  match parts with
  | [] => ""
  | [p] => p
  | _ => join "+" (sort Blend.byName parts)
  end.

(** One turn of the contribution loop of this branch: the running total
    adds the bales, the share of a name adds bales times weight. *)
Definition contribute (lotResults : list Lot.t) (vmap : obj Blend.varietyInfo)
    (acc : Blend.contributions) (mixRow : MixRow.t) : Blend.contributions :=
  match findLot lotResults mixRow with
  | None => acc
  | Some lot =>
      if negb (truthy (Lot.variety lot)) then acc else
      match get vmap (ToString (Lot.variety lot)) with
      | None => acc
      | Some varietyInfo =>
          let issueBale := orZero (Number (MixRow.issue_bale mixRow)) in
          let cottonName := ToString (Blend.cotton_name varietyInfo) in
          Blend.mkContrib
            (set (Blend.cottonContributions acc) cottonName
                 (Blend.amount (Blend.cottonContributions acc) cottonName
                  + issueBale * Blend.weight varietyInfo)%Q)
            (Blend.totalWeightedSum acc + issueBale)%Q
      end
  end.

Definition resolve `{Platform} (lotResults : list Lot.t)
    (mixingCodeData : list MixingCode.t) (rows : list MixRow.t) : Blend.blend :=
  let c := fold_left (contribute lotResults (Blend.varietyMap mixingCodeData))
                     rows (Blend.mkContrib [] 0%Q) in
  if Qlt_bool 0 (Blend.totalWeightedSum c) then
    let normalizedContributions :=
      sort (fun a b => Fin (snd b - snd a)) (entries (Blend.cottonContributions c)) in
    let totalValue := Qsum (map snd normalizedContributions) in
    let contributionStrings :=
      firstn 3
        (map (fun item =>
                fst item ++ " "
                ++ (if Qlt_bool 0 totalValue
                    then toFixed1 (snd item / totalValue * 100) else "0.0")
                ++ "%")
             normalizedContributions) in
    Blend.mkBlend
      (normalizeMixingSignature (join "+" (map fst normalizedContributions)))
      (join ", " contributionStrings)
  else Blend.no_blend.

(** *** Change percentages across the mixings of one period *)

Record mixing := mkMixing {
  mixing_no : jsval;
  totalBales : num;
  lotMap : obj num;
  issueDate_of : jsval
}.

(** One turn of [for (const r of group.rows)] building [mixMap]. *)
Definition addToMixMap `{Arithmetic} (lookup : obj jsval) (mixMap : obj mixing)
    (r : MixRow.t) : obj mixing :=
  let mn := coalesce (MixRow.mixing_no r) (VStr "") in
  if negb (truthy mn) then mixMap else
  let m :=
    match get mixMap (ToString mn) with
    | Some m0 => m0
    | None => mkMixing mn (Fin 0) [] (getRawIssueDateForRow lookup r)
    end in
  let bales := bales r in
  set mixMap (ToString mn)
    (mkMixing (mixing_no m) (add (totalBales m) bales)
       (if truthy (MixRow.lot_no r)
        then set (lotMap m) (ToString (MixRow.lot_no r))
                 (add (Fin (slot (lotMap m) (ToString (MixRow.lot_no r)))) bales)
        else lotMap m)
       (issueDate_of m)).

Definition mixMapOf `{Arithmetic} (lookup : obj jsval) (rows : list MixRow.t)
  : obj mixing :=
  fold_left (addToMixMap lookup) rows [].

(** The comparator of the per-mixing sort. *)
Definition compareMixings `{Platform} (a b : mixing) : num :=
  let ta := Continuity.timestampOf (issueDate_of a) in
  let tb := Continuity.timestampOf (issueDate_of b) in
  if Continuity.timestamps_differ ta tb then
    match ta, tb with
    | None, _ => Fin 1
    | _, None => Fin (-1)
    | Some x, Some y => nsub x y
    end
  else
    match Number (mixing_no a), Number (mixing_no b) with
    | Fin na, Fin nb => Fin (na - nb)
    | _, _ => comparison_num (localeCompare (ToString (mixing_no a)) (ToString (mixing_no b)))
    end.

Definition mixingList `{Platform} `{Arithmetic} (lookup : obj jsval)
    (rows : list MixRow.t) : list mixing :=
  sort compareMixings (values (mixMapOf lookup rows)).

(** [hasOwnProperty(lotNo) && lotMap[lotNo] > 0] *)
Definition hasLot (m : mixing) (lotNo : string) : bool :=
  match get (lotMap m) lotNo with
  | Some v => gt0 v
  | None => false
  end.

(** [for (let i = 1; i < mixingList.length; i++)]: the percentages the
    consecutive pairs push, in order. *)
Fixpoint pairwise (pct : mixing -> mixing -> option Q) (l : list mixing) : list Q :=
  match l with
  | prev :: ((curr :: _) as rest) =>
      match pct prev curr with
      | Some v => v :: pairwise pct rest
      | None => pairwise pct rest
      end
  | _ => []
  end.

Section WithArithmetic.

Context `{Arithmetic}.

Definition absoluteDifferenceSum (prev curr : mixing) : num :=
  fold_left
    (fun sum lotNo =>
       add sum (nabs (sub (Fin (slot (lotMap curr) lotNo))
                          (Fin (slot (lotMap prev) lotNo)))))
    (Continuity.lotSet (lotMap prev) (lotMap curr)) (Fin 0).

(** The bale percentage of one pair, when the pair pushes one: a
    percentage that is not finite is not pushed. *)
Definition balePct (prev curr : mixing) : option Q :=
  let previousTotalBales := orZero (totalBales prev) in
  let prevHasRows := negb (Nat.eqb (List.length (keys (lotMap prev))) 0) in
  if Qlt_bool 0 previousTotalBales then
    toJson (mul (div (absoluteDifferenceSum prev curr) (Fin previousTotalBales)) (Fin 100))
  else if prevHasRows then
    if num_eqb (absoluteDifferenceSum prev curr) (Fin 0) then Some 0%Q else Some 100%Q
  else None.

(** The lot percentage of one pair, when the pair pushes one. *)
Definition lotPct (prev curr : mixing) : option Q :=
  let prevLotCount := List.length (keys (lotMap prev)) in
  let prevHasRows := negb (Nat.eqb (List.length (keys (lotMap prev))) 0) in
  if negb (Nat.eqb prevLotCount 0) then
    let lotSet := Continuity.lotSet (lotMap prev) (lotMap curr) in
    let newLots :=
      List.length (filter (fun l => negb (hasLot prev l) && hasLot curr l) lotSet) in
    let removedLots :=
      List.length (filter (fun l => hasLot prev l && negb (hasLot curr l)) lotSet) in
    toJson (mul (div (Fin (inject_Z (Z.of_nat (newLots + removedLots))))
                     (Fin (inject_Z (Z.of_nat prevLotCount))))
                (Fin 100))
  else if prevHasRows && Nat.eqb (List.length (keys (lotMap curr))) 0 then Some 0%Q
  else None.

(** [+avg.toFixed(2)] of the pushed percentages, [null] when none. *)
Definition average (changes : list Q) : option Q :=
  match changes with
  | [] => None
  | _ =>
      toJson (fixed2
                (div (fold_left (fun s v => add s (Fin v)) changes (Fin 0))
                     (Fin (inject_Z (Z.of_nat (List.length changes))))))
  end.

End WithArithmetic.

Definition baleChangeOverPercent `{Platform} `{Arithmetic} (lookup : obj jsval)
    (rows : list MixRow.t) : option Q :=
  average (pairwise balePct (mixingList lookup rows)).

Definition lotChangeOverPercent `{Platform} `{Arithmetic} (lookup : obj jsval)
    (rows : list MixRow.t) : option Q :=
  average (pairwise lotPct (mixingList lookup rows)).

(** The entry of one period group, once its blend strings are known. *)
Definition entryOf `{Platform} `{Arithmetic} (report_type : string)
    (lookup : obj jsval) (lotResults : list Lot.t) (g : group) (b : Blend.blend)
  : Entry.t :=
  let rows := map row (rows g) in
  let agg := aggregate lotResults rows in
  let version := parseCottonVersion (cotton g) in
  Entry.mk
    (MixingRange.render (mixingRange g))
    (unit g) (line g) (cotton g)
    (total_bales agg) (no_of_lots agg) (metrics agg)
    (min_mic agg) (min_mic_percent agg)
    (VStr (issueDate report_type g))
    (issue_date_sort_key g)
    (Blend.mixing b) (Blend.blend_percent b)
    (baleChangeOverPercent lookup rows)
    (lotChangeOverPercent lookup rows)
    VNull
    (hd_error (mixingNumbers g)) (hd_error (rev (mixingNumbers g)))
    (lots agg)
    (CottonVersion.groupKey version)
    (CottonVersion.versionNumber version)
    (mixingNumbers g).

(** The blend of one period group; here an error of the read aborts the
    request. *)
Definition blendOf `{Platform} (lotResults : list Lot.t) (rows : list MixRow.t)
  : io (string + Blend.blend) :=
  match Blend.uniqueVarieties lotResults rows with
  | [] => Ret (inr Blend.no_blend)
  | uniqueVarieties =>
      Await (SelectMixingCode uniqueVarieties)
        (fun answer =>
           match error answer, data answer with
           | Some mixingCodeError, _ => Ret (inl mixingCodeError)
           | None, Some (mc :: mixingCodeData) =>
               Ret (inr (resolve lotResults (mc :: mixingCodeData) rows))
           | None, _ => Ret (inr Blend.no_blend)
           end)
  end.

Fixpoint summaryEntries `{Platform} (report_type : string) (lookup : obj jsval)
    (lotResults : list Lot.t) (groups : list group) : io (string + list Entry.t) :=
  match groups with
  | [] => Ret (inr [])
  | g :: rest =>
      match rows g with
      | [] => summaryEntries report_type lookup lotResults rest
      | _ =>
          b <- blendOf lotResults (map row (rows g)) ;;
          match b with
          | inl e => Ret (inl e)
          | inr b' =>
              es <- summaryEntries report_type lookup lotResults rest ;;
              match es with
              | inl e => Ret (inl e)
              | inr es' => Ret (inr (entryOf report_type lookup lotResults g b' :: es'))
              end
          end
      end
  end.

(** The comparator of the final sort: by sort key, descending, entries
    without a key last. *)
Definition bySortKeyDescending `{Platform} (a b : Entry.t) : num :=
  let key e := match Entry.issue_date_sort_key e with
               | Some k => k
               | None => ToString (Entry.issue_date e)
               end in
  if String.eqb (key a) (key b) then Fin 0
  else if is_empty (key a) then Fin 1
  else if is_empty (key b) then Fin (-1)
  else comparison_num (localeCompare (key b) (key a)).

(** The weekly/monthly branch from the fetched rows to the response body. *)
Definition report `{Platform} (report_type : string)
    (unitFilters lineFilters cottonFilters mixingFilters : list jsval)
    (issueData : list Issue.t) (mixingData : list MixRow.t)
    (lotResults : list Lot.t) : io (string + list Entry.t) :=
  let lookup := Daily.issueDateLookup issueData in
  let groupedData :=
    map (fun kg => attachRows report_type lookup unitFilters lineFilters
                              cottonFilters mixingData (snd kg))
        (entries (fold_left (addIssue report_type cottonFilters) issueData [])) in
  es <- summaryEntries report_type lookup lotResults groupedData ;;
  match es with
  | inl e => Ret (inl e)
  | inr es' =>
      Ret (inr (Daily.applyMixingFilter mixingFilters
                  (sort bySortKeyDescending
                        (Continuity.track Continuity.periodAnnotate es'))))
  end.

End Periodic.

(** ** The handler of the summary endpoint *)

Module Handler.

(** The query string of a request; an absent parameter is [None]. *)
Record request := mkRequest {
  from_date : option string;
  to_date : option string;
  unit : option string;
  line : option string;
  cotton : option string;
  mixing : option string;
  mixing_from : option string;
  mixing_to : option string;
  report_type : option string
}.

(** The same request with another [report_type] parameter. *)
Definition with_report_type (t : option string) (q : request) : request :=
  mkRequest (from_date q) (to_date q) (unit q) (line q) (cotton q) (mixing q)
            (mixing_from q) (mixing_to q) t.

Inductive body :=
| Error (message : string)
| Summary (rows : list Entry.t).

(** [res.status(status).json(body)] *)
Inductive response := Json (status : Z) (b : body).

Definition given (v : option string) : option string :=
  match v with
  | Some s => if is_empty s then None else Some s
  | None => None
  end.

(** [parseArray] *)
Definition parseArray `{Platform} (value : option string) : list jsval :=
  match given value with
  | None => []
  | Some s =>
      match JSON_parse_array s with
      | Some parsed => filter truthy parsed
      | None => []
      end
  end.

(** [s.replace(/[^A-Z0-9V_]+/g, "_")] *)
Definition is_code_char (c : ascii) : bool :=
  ((65 <=? code c) && (code c <=? 90)) || is_digit c || (code c =? 95).

Fixpoint replace_foreign (in_run : bool) (s : string) : string :=
  match s with
  | EmptyString => EmptyString
  | String c r =>
      if is_code_char c then String c (replace_foreign false r)
      else if in_run then replace_foreign true r
      else String "_" (replace_foreign true r)
  end.

(** [s.replace(/_{2,}/g, "_")] *)
Fixpoint collapse_underscores (in_run : bool) (s : string) : string :=
  match s with
  | EmptyString => EmptyString
  | String c r =>
      if code c =? 95 then
        if in_run then collapse_underscores true r
        else String c (collapse_underscores true r)
      else String c (collapse_underscores false r)
  end.

(** [s.replace(/^_|_$/g, "")] *)
Definition strip_edge_underscores (s : string) : string :=
  let s' := match s with
            | String c r => if code c =? 95 then r else s
            | EmptyString => s
            end in
  match Reference.last_char s' with
  | Some c => if code c =? 95 then Reference.drop_last s' else s'
  | None => s'
  end.

Definition sanitizeCottonCandidate (rawValue : string) : string :=
  if is_empty rawValue then "" else
  strip_edge_underscores (collapse_underscores false (replace_foreign false rawValue)).

(** [createCottonLookup]: upper-cased blend code to the code as stored. *)
Definition createCottonLookup (rows : list Issue.t) : obj string :=
  fold_left
    (fun lookup row =>
       match Issue.cotton row with
       | VNull => lookup
       | v =>
           let trimmed := trim (ToString v) in
           if is_empty trimmed then lookup
           else set lookup (toUpperCase trimmed) trimmed
       end)
    rows [].

Definition normalizeCottonFilterValue (value : jsval) (lookup : obj string) : string :=
  match value with
  | VNull => ""
  | _ =>
      let trimmed := trim (ToString value) in
      if is_empty trimmed then "" else
      let upper := toUpperCase trimmed in
      let sanitized := sanitizeCottonCandidate upper in
      let candidates :=
        ([upper]
         ++ (if negb (is_empty sanitized) && negb (String.eqb sanitized upper)
             then [sanitized] else [])
         ++ match CottonVersion.raw (parseCottonVersion (VStr trimmed)) with
            | Some raw =>
                raw :: (if is_empty (sanitizeCottonCandidate raw) then []
                        else [sanitizeCottonCandidate raw])
            | None => []
            end)%list in
      match find (fun candidate =>
                    negb (is_empty candidate)
                    && match get lookup (toUpperCase candidate) with
                       | Some _ => true
                       | None => false
                       end) candidates with
      | Some candidate =>
          match get lookup (toUpperCase candidate) with
          | Some stored => stored
          | None => upper
          end
      | None => if is_empty sanitized then upper else sanitized
      end
  end.

Definition buildNormalizedCottonFilters (filters : list jsval) (lookup : obj string)
  : list string :=
  dedupe String.eqb
    (map trim
         (filter (fun s => negb (is_empty s))
                 (map (fun value => normalizeCottonFilterValue value lookup) filters))).

(** The text of each filter value, blanks dropped. *)
Definition trimmedFilters (filters : list jsval) : list string :=
  filter (fun s => negb (is_empty s)) (map (fun v => trim (ToString v)) filters).

Definition cottonFiltersForQueries (cottonFilters : list jsval)
    (normalizedCottonFilters : list string) : list string :=
  match normalizedCottonFilters with
  | [] => trimmedFilters cottonFilters
  | _ => normalizedCottonFilters
  end.

(** The issue rows the cotton filter keeps. *)
Definition filterIssues (cottonFilters : list jsval) (rawIssueData : list Issue.t)
  : list Issue.t :=
  match cottonFilters with
  | [] => rawIssueData
  | _ =>
      let normalizedCottonFilters :=
        buildNormalizedCottonFilters cottonFilters (createCottonLookup rawIssueData) in
      match cottonFiltersForQueries cottonFilters normalizedCottonFilters with
      | [] => rawIssueData
      | forQueries =>
          filter
            (fun row =>
               match Issue.cotton row with
               | VNull => false
               | v => existsb (fun f => String.eqb (toUpperCase f)
                                          (toUpperCase (trim (ToString v))))
                              forQueries
               end)
            rawIssueData
      end
  end.

Definition effectiveCottonFilters (cottonFilters : list jsval)
    (rawIssueData : list Issue.t) : list string :=
  match cottonFilters with
  | [] => []
  | _ =>
      cottonFiltersForQueries cottonFilters
        (buildNormalizedCottonFilters cottonFilters (createCottonLookup rawIssueData))
  end.

Definition invalid_report_type : response :=
  Json 400 (Error "Invalid report_type. Must be 'daily', 'weekly', or 'monthly'.").

(** [catch (err) { res.status(500).json({ error: err.message }) }] *)
Definition failed (message : string) : response := Json 500 (Error message).

Definition not_iterable : string := "TypeError".

(** The part of the handler that follows the three reads. *)
Definition aggregate `{Platform} (report_type : string)
    (unitFilters lineFilters cottonFilters mixingFilters : list jsval)
    (issueData : list Issue.t) (mixingData : list MixRow.t)
    (lotResults : option (list Lot.t)) : io response :=
  if String.eqb report_type "daily" then
    match lotResults with
    | None => Ret (failed not_iterable)
    | Some lots =>
        summary <- Daily.report issueData mixingData lots mixingFilters ;;
        Ret (Json 200 (Summary summary))
    end
  else if String.eqb report_type "weekly" || String.eqb report_type "monthly" then
    match lotResults with
    | None =>
        match filter (fun g => negb (Nat.eqb (List.length (Periodic.rows g)) 0))
                (map (fun kg => Periodic.attachRows report_type
                                  (Daily.issueDateLookup issueData)
                                  unitFilters lineFilters cottonFilters mixingData (snd kg))
                     (entries (fold_left (Periodic.addIssue report_type cottonFilters)
                                         issueData []))) with
        | [] => Ret (Json 200 (Summary []))
        | _ => Ret (failed not_iterable)
        end
    | Some lots =>
        summary <- Periodic.report report_type unitFilters lineFilters cottonFilters
                     mixingFilters issueData mixingData lots ;;
        match summary with
        | inl message => Ret (failed message)
        | inr rows => Ret (Json 200 (Summary rows))
        end
    end
  else Ret (failed "Invalid report_type. Must be 'daily', 'weekly', or 'monthly'").

(** [app.get("/api/cotton-mixing-summary", ...)] *)
Definition handle `{Platform} (query : request) : io response :=
  let report_type := match report_type query with Some t => t | None => "daily" end in
  if negb (existsb (String.eqb report_type) ["daily"; "weekly"; "monthly"])
  then Ret invalid_report_type
  else
    let unitFilters := parseArray (unit query) in
    let lineFilters := parseArray (line query) in
    let cottonFilters := parseArray (cotton query) in
    let mixingFilters := parseArray (mixing query) in
    Await (SelectMixingIssue
             (mkIssueFilter (given (from_date query)) (given (to_date query))
                            (given (mixing_from query)) (given (mixing_to query))
                            unitFilters lineFilters mixingFilters))
      (fun issues =>
         match error issues, data issues with
         | Some issueError, _ => Ret (failed issueError)
         | None, None => Ret (failed not_iterable)
         | None, Some rawIssueData =>
             match filterIssues cottonFilters rawIssueData with
             | [] => Ret (Json 200 (Summary []))
             | issueData =>
                 let validMixNos :=
                   dedupe strict_eq (filter truthy (map Issue.mixing_no issueData)) in
                 Await (SelectMixingChart
                          (mkMixingFilter validMixNos unitFilters lineFilters
                             (effectiveCottonFilters cottonFilters rawIssueData)))
                   (fun chart =>
                      match error chart, data chart with
                      | Some mixingError, _ => Ret (failed mixingError)
                      | None, None => Ret (Json 200 (Summary []))
                      | None, Some [] => Ret (Json 200 (Summary []))
                      | None, Some mixingData =>
                          let lotNos := dedupe strict_eq (map MixRow.lot_no mixingData) in
                          Await (SelectLotResults lotNos)
                            (fun lots =>
                               match error lots with
                               | Some lotError => Ret (failed lotError)
                               | None =>
                                   aggregate report_type unitFilters lineFilters
                                     cottonFilters mixingFilters issueData mixingData
                                     (data lots)
                               end)
                      end)
             end
         end).

End Handler.

(** ** The rules of the specification, written out

    These definitions follow the wording of the specification; the
    properties below compare them with the functions of the source. *)

Module Described.

(** A string that ends in a version marker [V<digits>], split into what
    precedes the marker and the marker. *)
Fixpoint split_marker (s : string) : option (string * string) :=
  match s with
  | EmptyString => None
  | String c r =>
      match split_marker r with
      | Some (p, m) => Some (String c p, m)
      | None =>
          match marker_here s with
          | Some m => Some (EmptyString, m)
          | None => None
          end
      end
  end.

(** The blend-version rules in their order: no code; the
    [<2 digits>_<2 digits>_V<digits>] form; a trailing marker, whose prefix
    without trailing separators is the group key unless it is empty, in
    which case the whole code is; anything else. *)
Definition parse (cottonVersionValue : jsval) : CottonVersion.t :=
  if negb (truthy cottonVersionValue) then NO_VERSION else
  let code := toUpperCase (trim (ToString cottonVersionValue)) in
  if is_empty code then NO_VERSION else
  match match_yy_ul_vn code with
  | Some (first, second, digits) =>
      CottonVersion.mk (first ++ "_" ++ second) (Some (parseInt10 digits)) (Some code)
  | None =>
      match split_marker code with
      | Some (prefix, marker) =>
          let key := strip_trailing is_separator prefix in
          CottonVersion.mk (if is_empty key then code else key)
                           (Some (parseInt10 (marker_digits marker)))
                           (Some code)
      | None => CottonVersion.mk code None (Some code)
      end
  end.

Definition no_line_break (s : string) : bool :=
  all_chars (fun c => negb (is_line_terminator c)) s.

(** A number written with exactly two digits ([MM], [DD], the padded
    week) and with exactly four ([YYYY]). *)
Definition two_digits (n : Z) : string :=
  String (digit_char (n / 10)) (String (digit_char (n mod 10)) EmptyString).

Definition four_digits (n : Z) : string :=
  String (digit_char (n / 1000))
    (String (digit_char (n / 100 mod 10))
       (String (digit_char (n / 10 mod 10))
          (String (digit_char (n mod 10)) EmptyString))).

Definition one_digit (n : Z) : string := String (digit_char n) EmptyString.

End Described.

(** The bales of a row as a rational, [0] when they are not a number. *)
Module DescribedAverage.

Section WithArithmetic.

Context `{Arithmetic}.

Definition row_bales (r : MixRow.t) : Q := orZero (Aggregator.bales r).

End WithArithmetic.

End DescribedAverage.

(** The total of a list of percentages. *)
Module DescribedBlend.

Definition total (percentages : list Z) : Z := fold_right Z.add 0 percentages.

(** The running total is the sum of the shares, and no name is twice in
    the dictionary. *)
Definition balanced (c : Blend.contributions) : Prop :=
  NoDup (map fst (Blend.cottonContributions c))
  /\ (Blend.totalWeightedSum c == Qsum (map snd (Blend.cottonContributions c)))%Q.

End DescribedBlend.

(** ** Sample data *)

Module BlendExamples.

Definition lot (lot_no variety : string) : Lot.t :=
  Lot.mk (VStr lot_no) (VStr variety) VNull VNull VNull VNull VNull VNull VNull VNull
         VNull VNull VNull VNull VNull.

Definition row (lot_no : string) (bales : Q) : MixRow.t :=
  MixRow.mk (VNum 10) (VStr "U1") (VStr "L1") (VStr "A") (VStr lot_no) (VNum bales).

Definition code (variety cotton_name : string) : MixingCode.t :=
  MixingCode.mk (VStr variety) (VStr cotton_name) (VNum 1).

Definition lotResults : list Lot.t :=
  [lot "P1" "V1"; lot "P2" "V2"; lot "P3" "V3"; lot "P4" "V4"].

Definition mixingCodeData : list MixingCode.t :=
  [code "V1" "Bunny"; code "V2" "DCH"; code "V3" "MCU"; code "V4" "Shankar"].

(** Shares of 12.5, 12.5, 12.5 and 62.5 percent. *)
Definition four_names : list MixRow.t :=
  [row "P1" 1; row "P2" 1; row "P3" 1; row "P4" 5].

(** Shares of two thirds and one third. *)
Definition two_names : list MixRow.t := [row "P1" 100; row "P2" 50].

End BlendExamples.

(** The conditions of the daily grouping on a mixing number: a number is
    an integer, and the text of the value is free of the delimiter of the
    group key. *)
Module DescribedGrouping.

Definition integral (v : jsval) : Prop :=
  match v with
  | VNum q => Qden q = 1%positive
  | _ => True
  end.

Definition no_bar (s : string) : bool :=
  all_chars (fun c => negb (code c =? 124)) s.

End DescribedGrouping.

Module GroupingExamples.

Definition row (mixing_no : jsval) (cotton lot_no : string) : MixRow.t :=
  MixRow.mk mixing_no (VStr "U1") (VStr "L1") (VStr cotton) (VStr lot_no) (VNum 10).

(** Two mixings of one blend. *)
Definition two_mixings : list MixRow.t :=
  [row (VNum 10) "A" "P1"; row (VNum 11) "A" "P1"; row (VNum 10) "A" "P2"].

(** Two rows whose mixing number and blend code differ but spell the same
    key once joined by the delimiter. *)
Definition colliding : list MixRow.t :=
  [row (VStr "1|2") "3" "P1"; row (VStr "1") "2|3" "P2"].

End GroupingExamples.

(** The change between an entry and its predecessor, and the order of a
    continuity group, as the specification words them. *)
Module DescribedChange.

(** The running "last seen" state after an entry is set when the entry
    has a version number and an issue date. *)
Definition leaves_state (e : Entry.t) : bool :=
  match Entry._versionNumber e with
  | Some _ => truthy (Entry.issue_date e)
  | None => false
  end.

(** A key with [null] taken as plus infinity. *)
Definition below (x y : option Q) : Prop :=
  match x, y with
  | Some a, Some b => (a < b)%Q
  | Some _, None => True
  | None, _ => False
  end.

Definition level (x y : option Q) : Prop :=
  match x, y with
  | Some a, Some b => (a == b)%Q
  | None, None => True
  | _, _ => False
  end.

Definition timestamp (r : Continuity.record) : option Q :=
  match Continuity.issueTimestamp r with
  | Some (Fin t) => Some t
  | _ => None
  end.

Definition version (r : Continuity.record) : option Q :=
  option_map inject_Z (Entry._versionNumber (Continuity.entry r)).

(** [a] may stand before [b]: earlier timestamp (none last), then lower
    version, then lower maximum mixing number. *)
Definition in_order (a b : Continuity.record) : Prop :=
  below (timestamp a) (timestamp b)
  \/ (level (timestamp a) (timestamp b)
      /\ (below (version a) (version b)
          \/ (level (version a) (version b)
              /\ (below (Continuity.maxMixNo a) (Continuity.maxMixNo b)
                  \/ level (Continuity.maxMixNo a) (Continuity.maxMixNo b))))).

(** The keys of a record are numbers the source can compare: every
    timestamp is a valid one or none, and versions and mixing numbers are
    below [Number.MAX_SAFE_INTEGER]. *)
Definition comparable (r : Continuity.record) : Prop :=
  Continuity.issueTimestamp r <> Some NaN
  /\ (forall v, version r = Some v -> (v < MAX_SAFE_INTEGER)%Q)
  /\ (forall m, Continuity.maxMixNo r = Some m -> (m < MAX_SAFE_INTEGER)%Q).

(** The three keys of a comparable record as numbers, the timestamp apart. *)
Definition versionKey (r : Continuity.record) : Q := Continuity.orMax (version r).
Definition mixingKey (r : Continuity.record) : Q := Continuity.orMax (Continuity.maxMixNo r).

Definition numeric_order (a b : Continuity.record) : Prop :=
  below (timestamp a) (timestamp b)
  \/ (level (timestamp a) (timestamp b)
      /\ ((versionKey a < versionKey b)%Q
          \/ ((versionKey a == versionKey b)%Q /\ (mixingKey a <= mixingKey b)%Q))).

End DescribedChange.

Module ContinuityExamples.

Definition lot (lot_no : string) : Lot.t :=
  Lot.mk (VStr lot_no) VNull (VNum 4) VNull VNull VNull VNull VNull VNull VNull
         VNull VNull VNull VNull VNull.

Definition lotResults : list Lot.t := [lot "P1"; lot "P2"; lot "P3"].

Definition row (mixing_no : Q) (cotton lot_no : string) (bales : Q) : MixRow.t :=
  MixRow.mk (VNum mixing_no) (VStr "U1") (VStr "L1") (VStr cotton) (VStr lot_no) (VNum bales).

Definition issue (mixing_no : Q) (cotton date : string) : Issue.t :=
  Issue.mk (VStr "U1") (VStr "L1") (VNum mixing_no) (VStr cotton) (VStr date).

(** Three mixings of the blend [cotton] on three consecutive days. *)
Definition issues (cotton : string) : list Issue.t :=
  [issue 10 cotton "2024-01-01"; issue 11 cotton "2024-01-02";
   issue 12 cotton "2024-01-03"].

Definition entry (cotton : string) (rows : list MixRow.t) : Entry.t :=
  @Daily.entryOf Reference.platform Binary64.arithmetic
     (Daily.issueDateLookup (issues cotton))
     lotResults rows Blend.no_blend.

Definition entries (cotton : string) : list Entry.t :=
  [entry cotton [row 10 cotton "P1" 100; row 10 cotton "P2" 50];
   entry cotton [row 11 cotton "P1" 100; row 11 cotton "P3" 50];
   entry cotton [row 12 cotton "P3" 150]].

Definition records (cotton : string) : list Continuity.record :=
  map (fun ie => @Continuity.recordOf Reference.platform (fst ie) (snd ie))
      (combine (seq 0 3) (entries cotton)).

End ContinuityExamples.

(** The change percentages of a period, as the specification words them. *)
Module DescribedPeriod.

Import DescribedChange.

Definition sub_timestamp `{Platform} (m : Periodic.mixing) : option Q :=
  match Continuity.timestampOf (Periodic.issueDate_of m) with
  | Some (Fin t) => Some t
  | _ => None
  end.

Definition sub_number (m : Periodic.mixing) : option Q :=
  match JsValue.Number (Periodic.mixing_no m) with
  | Fin n => Some n
  | NaN => None
  end.

(** [a] may stand before [b]: earlier timestamp (none last), then lower
    mixing number. *)
Definition sub_in_order `{Platform} (a b : Periodic.mixing) : Prop :=
  below (sub_timestamp a) (sub_timestamp b)
  \/ (level (sub_timestamp a) (sub_timestamp b)
      /\ (below (sub_number a) (sub_number b) \/ level (sub_number a) (sub_number b))).

(** A sub-entry whose issue date, if any, is a valid date and whose mixing
    number is a number. *)
Definition sub_comparable `{Platform} (m : Periodic.mixing) : Prop :=
  Continuity.timestampOf (Periodic.issueDate_of m) <> Some NaN
  /\ JsValue.Number (Periodic.mixing_no m) <> NaN.

(** Whether a row counts for a sub-entry: its mixing number is truthy. *)
Definition has_mixing (r : MixRow.t) : bool :=
  truthy (coalesce (MixRow.mixing_no r) (VStr "")).

End DescribedPeriod.

Module PeriodExamples.

Definition row (mixing_no : Q) (lot_no : string) (bales : Q) : MixRow.t :=
  MixRow.mk (VNum mixing_no) (VStr "U1") (VStr "L1") (VStr "25_31_V1")
            (VStr lot_no) (VNum bales).

Definition lookup : obj jsval :=
  Daily.issueDateLookup (ContinuityExamples.issues "25_31_V1").

(** A week whose first mixing drew no bales from its lot. *)
Definition idle_first : list MixRow.t := [row 10 "P1" 0; row 11 "P1" 10].

(** A week of three mixings. *)
Definition busy : list MixRow.t :=
  [row 10 "P1" 100; row 10 "P2" 50; row 11 "P1" 100; row 11 "P3" 50; row 12 "P3" 150].

(** The period group of the first week of January 2024 with these rows. *)
Definition group (rows : list MixRow.t) : Periodic.group :=
  Periodic.mkGroup (VStr "U1") (VStr "L1") (VStr "25_31_V1")
    [(VNum 10, VStr "25_31_V1"); (VNum 11, VStr "25_31_V1"); (VNum 12, VStr "25_31_V1")]
    "2024-01-W1" (Some "2024-01-01") (Some (Fin 20240101)) []
    (map (fun r => Periodic.mkPeriodRow r "2024-01-W1" "2024-01-01" (Some (Fin 20240101)))
         rows).

End PeriodExamples.

(** The weighted average of the specification, written from its words:
    each row brings its bales and the metric value of its lot, [0] where
    the lot or the value is missing or not a number. *)
Module DescribedMetric.

(** The lot result of a lot number: the first one that carries it. *)
Fixpoint lot_of (lotResults : list Lot.t) (lot_no : jsval) : option Lot.t :=
  match lotResults with
  | [] => None
  | l :: rest => if strict_eq (Lot.lot_no l) lot_no then Some l else lot_of rest lot_no
  end.

Section WithArithmetic.

Context `{Arithmetic}.

(** [Σ], the terms taken in their order. *)
Definition sum (terms : list num) : num := fold_left add terms (Fin 0).

(** [bales_i] *)
Definition bales_of (r : MixRow.t) : num := number (MixRow.issue_bale r).

(** [value_i]: the metric, read off the column of that name, on the lot
    of the row; [0] where the row has no lot result or the value is
    missing or not a number. *)
Definition value_of (column : Lot.t -> jsval) (lotResults : list Lot.t)
    (r : MixRow.t) : num :=
  match lot_of lotResults (MixRow.lot_no r) with
  | Some lot =>
      match number (column lot) with
      | Fin v => Fin v
      | NaN => Fin 0
      end
  | None => Fin 0
  end.

Definition total_bales (rows : list MixRow.t) : num := sum (map bales_of rows).

(** [round(Σ(bales_i · value_i) / total_bales, 2)] *)
Definition average (column : Lot.t -> jsval) (lotResults : list Lot.t)
    (rows : list MixRow.t) : num :=
  fixed2 (div (sum (map (fun r => mul (bales_of r) (value_of column lotResults r)) rows))
              (total_bales rows)).

End WithArithmetic.

(** The summary entry of a group of rows: in the daily branch the entry
    of these rows, in the weekly and monthly branch the entry of a period
    group that has them. *)
Definition summarises `{Platform} (lotResults : list Lot.t) (rows : list MixRow.t)
    (e : Entry.t) : Prop :=
  (exists lookup blend, e = Daily.entryOf lookup lotResults rows blend)
  \/ (exists report_type lookup g blend,
        map Periodic.row (Periodic.rows g) = rows
        /\ e = Periodic.entryOf report_type lookup lotResults g blend).

End DescribedMetric.

(** The [min_mic] values of the specification: what the lots of the rows
    supply themselves. *)
Module DescribedMinMic.

(** The numeric [min_mic] of a lot, when it supplies one. *)
Definition own (lot : Lot.t) : option Q :=
  match Lot.min_mic lot with
  | VNull => None
  | VStr EmptyString => None
  | v => match number v with
         | Fin n => Some n
         | NaN => None
         end
  end.

(** The values supplied to a group, row by row. *)
Definition supplied (lotResults : list Lot.t) (rows : list MixRow.t) : list Q :=
  flat_map
    (fun r =>
       match DescribedMetric.lot_of lotResults (MixRow.lot_no r) with
       | Some lot => match own lot with Some n => [n] | None => [] end
       | None => []
       end)
    rows.

(** No row has a negative number of bales. *)
Definition no_negative_bales (rows : list MixRow.t) : Prop :=
  forall r, In r rows -> lt0 (DescribedMetric.bales_of r) = false.

End DescribedMinMic.

(** The continuity tracker of the specification, written from its words:
    the signature groups, their order, and the predecessor of an entry. *)
Module DescribedContinuity.

Import DescribedChange.

(** The unit and the line of an entry as the signature reads them. *)
Definition unit_text (e : Entry.t) : string :=
  ToString (coalesce (Entry.unit e) (VStr "__NO_UNIT__")).

Definition line_text (e : Entry.t) : string :=
  ToString (coalesce (Entry.line e) (VStr "__NO_LINE__")).

(** Unit and line are written without the delimiter of the signature. *)
Definition plain (e : Entry.t) : Prop :=
  DescribedGrouping.no_bar (unit_text e) = true
  /\ DescribedGrouping.no_bar (line_text e) = true.

(** Two entries of one signature group: same unit, line and blend group
    key. *)
Definition same_group (a b : Entry.t) : Prop :=
  unit_text a = unit_text b
  /\ line_text a = line_text b
  /\ Entry._groupKey a = Entry._groupKey b.

(** The three keys of the order; [None] is [null]. *)
Definition issue_time `{Platform} (e : Entry.t) : option Q :=
  if truthy (Entry.issue_date e)
  then option_map inject_Z (getTime (Entry.issue_date e))
  else None.

Definition version_number (e : Entry.t) : option Q :=
  option_map inject_Z (Entry._versionNumber e).

Fixpoint greatest (l : list Q) : option Q :=
  match l with
  | [] => None
  | x :: r =>
      match greatest r with
      | Some m => Some (if Qle_bool m x then x else m)
      | None => Some x
      end
  end.

(** The maximum contributing mixing number; an entry without numeric
    mixing numbers has the end, or else the start, of its range. *)
Definition max_mixing (e : Entry.t) : option Q :=
  match greatest (Entry._mixingNumbers e) with
  | Some m => Some m
  | None =>
      match Entry.mixing_end e with
      | Some m => Some m
      | None => Entry.mixing_start e
      end
  end.

(** [a] may stand before [b]: issue timestamp ascending, entries without
    one last; then version number ascending, [null] as plus infinity;
    then maximum mixing number ascending, [null] as plus infinity. *)
Definition in_order `{Platform} (a b : Entry.t) : Prop :=
  below (issue_time a) (issue_time b)
  \/ (level (issue_time a) (issue_time b)
      /\ (below (version_number a) (version_number b)
          \/ (level (version_number a) (version_number b)
              /\ (below (max_mixing a) (max_mixing b)
                  \/ level (max_mixing a) (max_mixing b))))).

(** The keys are numbers the engine can compare: an issue date that is
    given is a valid date, and version and mixing numbers are below
    [Number.MAX_SAFE_INTEGER], which stands for [null] in the
    comparison. *)
Definition comparable `{Platform} (e : Entry.t) : Prop :=
  (truthy (Entry.issue_date e) = true -> getTime (Entry.issue_date e) <> None)
  /\ (forall v, version_number e = Some v -> (v < MAX_SAFE_INTEGER)%Q)
  /\ (forall m, max_mixing e = Some m -> (m < MAX_SAFE_INTEGER)%Q).

(** The entry at place [i] of the summary stands before the one at place
    [j]: by the keys, and by their places in the summary when the keys
    tie. *)
Definition precedes `{Platform} (entries : list Entry.t) (i j : nat) : Prop :=
  exists a b,
    nth_error entries i = Some a /\ nth_error entries j = Some b
    /\ in_order a b /\ (in_order b a -> (i < j)%nat).

(** [ordered] lists the places of the signature group of [e], each once,
    in the order of the group. *)
Definition group_of `{Platform} (entries : list Entry.t) (e : Entry.t)
    (ordered : list nat) : Prop :=
  NoDup ordered
  /\ (forall j, In j ordered
                <-> exists a, nth_error entries j = Some a /\ same_group a e)
  /\ StronglySorted (precedes entries) ordered.

(** An issue date that does not read as a date. *)
Definition undated `{Platform} (e : Entry.t) : Prop :=
  truthy (Entry.issue_date e) = true /\ getTime (Entry.issue_date e) = None.

(** [ordered] lists the places of the signature group of [e] in the
    order of the summary. *)
Definition group_in_place (entries : list Entry.t) (e : Entry.t)
    (ordered : list nat) : Prop :=
  (forall j, In j ordered
             <-> exists a, nth_error entries j = Some a /\ same_group a e)
  /\ StronglySorted lt ordered.

(** The order of a signature group of the weekly or monthly summary: by
    the keys when the period labels read as dates; when none does, the
    comparison tells no two entries apart and the group stays in the
    order of the summary. *)
Definition period_group_of `{Platform} (entries : list Entry.t) (e : Entry.t)
    (ordered : list nat) : Prop :=
  (Forall comparable entries /\ group_of entries e ordered)
  \/ (Forall undated entries /\ group_in_place entries e ordered).

(** What stands just before place [k] of the ordered group, if anything:
    [items] are the entries of the summary, or what they were built
    from. *)
Definition predecessor {A : Type} (items : list A) (ordered : list nat) (k : nat)
  : option A :=
  match k with
  | O => None
  | S k' =>
      match nth_error ordered k' with
      | Some j => nth_error items j
      | None => None
      end
  end.

End DescribedContinuity.

(** The groups of the continuity pass, for the proofs: the summary with
    the places of its entries, the records of one signature, and the
    writes of the whole pass. *)
Module ContinuityGroups.

Definition indexed (entries : list Entry.t) : list (nat * Entry.t) :=
  combine (seq 0 (List.length entries)) entries.

Definition records_of `{Platform} (ies : list (nat * Entry.t)) (s : string)
  : list Continuity.record :=
  map (fun ie => Continuity.recordOf (fst ie) (snd ie))
      (filter (fun ie => String.eqb (Continuity.signature (snd ie)) s) ies).

Definition writes `{Platform}
    (body : Continuity.stats -> option Continuity.record -> Continuity.record -> Entry.t)
    (entries : list Entry.t) : list (nat * Entry.t) :=
  flat_map (fun group => Continuity.processGroup body (snd group))
           (JsObject.entries (Continuity.groupBySignature entries)).

(** The state and the previous record the loop has at place [k] of a
    sorted group. *)
Definition stateAt `{Platform} (sorted : list Continuity.record) (k : nat)
  : Continuity.stats :=
  match k with
  | O => Continuity.mkStats None None
  | S k' =>
      match nth_error sorted k' with
      | Some p => Continuity.statsAfter (Continuity.entry p)
      | None => Continuity.mkStats None None
      end
  end.

Definition previousAt (sorted : list Continuity.record) (k : nat)
  : option Continuity.record :=
  match k with
  | O => None
  | S k' => nth_error sorted k'
  end.

End ContinuityGroups.

(** The change percentages of the specification, written from its words,
    over the rows the entries were built from. *)
Module DescribedLots.

Section WithArithmetic.

Context `{Arithmetic}.

(** A row counts for the lot [lot]: it has a lot result, and its lot
    number is not empty and reads [lot]. *)
Definition counts (lotResults : list Lot.t) (lot : string) (r : MixRow.t) : bool :=
  match DescribedMetric.lot_of lotResults (MixRow.lot_no r) with
  | Some _ => truthy (MixRow.lot_no r) && String.eqb (ToString (MixRow.lot_no r)) lot
  | None => false
  end.

(** The group draws from the lot. *)
Definition drawn (lotResults : list Lot.t) (rows : list MixRow.t) (lot : string) : Prop :=
  exists r, In r rows /\ counts lotResults lot r = true.

(** The per-lot bale total of a group. *)
Definition bales_from (lotResults : list Lot.t) (rows : list MixRow.t) (lot : string)
  : num :=
  DescribedMetric.sum
    (map DescribedMetric.bales_of (filter (counts lotResults lot) rows)).

(** Every per-lot bale total of the group is a number. *)
Definition finite (lotResults : list Lot.t) (rows : list MixRow.t) : Prop :=
  forall lot, exists b, bales_from lotResults rows lot = Fin b.

(** [abs_diff = Σ over the lots |current_bales(lot) − previous_bales(lot)|] *)
Definition abs_diff (lotResults : list Lot.t) (previous current : list MixRow.t)
    (lots : list string) : num :=
  DescribedMetric.sum
    (map (fun lot => nabs (sub (bales_from lotResults current lot)
                               (bales_from lotResults previous lot)))
         lots).

(** Lots with zero previous and positive current bales, and the reverse. *)
Definition new_lots (lotResults : list Lot.t) (previous current : list MixRow.t)
    (lots : list string) : nat :=
  List.length
    (filter (fun lot => num_eqb (bales_from lotResults previous lot) (Fin 0)
                        && gt0 (bales_from lotResults current lot))
            lots).

Definition removed_lots (lotResults : list Lot.t) (previous current : list MixRow.t)
    (lots : list string) : nat :=
  List.length
    (filter (fun lot => num_eqb (bales_from lotResults current lot) (Fin 0)
                        && gt0 (bales_from lotResults previous lot))
            lots).

(** [round(part / whole × 100, 2)]; what is not a finite number is
    answered as [null]. *)
Definition percent (part whole : num) : option Q :=
  toJson (fixed2 (mul (div part whole) (Fin 100))).

(** The two percentages of the entry of the rows [current] against its
    predecessor [p], the entry of the rows [previous]: the lots are those
    of the two groups, each once, summed in the order [lots]. *)
Definition changes (lotResults : list Lot.t) (previous current : list MixRow.t)
    (p : Entry.t) (bale_change lot_change : option Q) : Prop :=
  exists lots,
    NoDup lots
    /\ (forall lot, In lot lots
                    <-> drawn lotResults previous lot \/ drawn lotResults current lot)
    /\ bale_change
       = (if gt0 (Entry.total_bales p)
          then percent (abs_diff lotResults previous current lots) (Entry.total_bales p)
          else None)
    /\ lot_change
       = (if (0 <? Entry.no_of_lots p)%nat
          then percent
                 (Fin (inject_Z (Z.of_nat (new_lots lotResults previous current lots
                                           + removed_lots lotResults previous current lots))))
                 (Fin (inject_Z (Z.of_nat (Entry.no_of_lots p))))
          else None).

End WithArithmetic.

End DescribedLots.

(** The summary of the daily branch before the continuity pass: one entry
    for each group of rows, with the blend strings resolved for it. *)
Module DailySummary.

Definition entry_of `{Platform} (lookup : obj jsval) (lotResults : list Lot.t)
    (group : list MixRow.t * Blend.blend) : Entry.t :=
  Daily.entryOf lookup lotResults (fst group) (snd group).

Definition entries_of `{Platform} (lookup : obj jsval) (lotResults : list Lot.t)
    (groups : list (list MixRow.t * Blend.blend)) : list Entry.t :=
  map (entry_of lookup lotResults) groups.

End DailySummary.

(** Two mixings of one blend, the second with a row whose lot has no lot
    result. *)
Module LotlessExamples.

Definition lotResults : list Lot.t := [ContinuityExamples.lot "P1"].

(** The lot results, had the lot [P9] one. *)
Definition all_lots : list Lot.t :=
  [ContinuityExamples.lot "P1"; ContinuityExamples.lot "P9"].

Definition rows10 : list MixRow.t :=
  [ContinuityExamples.row 10 "25_31_V1" "P1" 100].

Definition rows11 : list MixRow.t :=
  [ContinuityExamples.row 11 "25_31_V1" "P1" 100;
   ContinuityExamples.row 11 "25_31_V1" "P9" 50].

Definition lookup : obj jsval :=
  Daily.issueDateLookup (ContinuityExamples.issues "25_31_V1").

Definition summary : list Entry.t :=
  @DailySummary.entries_of Reference.platform lookup lotResults
    [(rows10, Blend.no_blend); (rows11, Blend.no_blend)].

End LotlessExamples.

(** The sub-entries of a period of the specification, written from its
    words over the rows of the period group: one sub-entry for each
    mixing number, the percentages of consecutive sub-entries, and their
    mean. *)
Module DescribedSubEntries.

Import DescribedChange.

(** A row belongs to the sub-entry of the mixing number that reads
    [key]; a row without mixing number belongs to none. *)
Definition belongs (key : string) (r : MixRow.t) : bool :=
  truthy (coalesce (MixRow.mixing_no r) (VStr ""))
  && String.eqb (ToString (coalesce (MixRow.mixing_no r) (VStr ""))) key.

(** The rows of a sub-entry, in the order of the period. *)
Definition sub_rows (rows : list MixRow.t) (key : string) : list MixRow.t :=
  filter (belongs key) rows.

(** The mixing number and the issue date of a sub-entry are those of its
    first row. *)
Definition number_of (sub : list MixRow.t) : jsval :=
  match sub with
  | r :: _ => coalesce (MixRow.mixing_no r) (VStr "")
  | [] => VStr ""
  end.

Definition date_of (lookup : obj jsval) (sub : list MixRow.t) : jsval :=
  match sub with
  | r :: _ => Periodic.getRawIssueDateForRow lookup r
  | [] => VNull
  end.

(** A row counts for the lot [lot]: its lot number is not empty and reads
    [lot]. *)
Definition lot_counts (lot : string) (r : MixRow.t) : bool :=
  truthy (MixRow.lot_no r) && String.eqb (ToString (MixRow.lot_no r)) lot.

(** The sub-entry has the lot recorded. *)
Definition holds (sub : list MixRow.t) (lot : string) : Prop :=
  exists r, In r sub /\ lot_counts lot r = true.

Section WithArithmetic.

Context `{Arithmetic}.

Definition total (sub : list MixRow.t) : num :=
  DescribedMetric.sum (map DescribedMetric.bales_of sub).

Definition lot_total (sub : list MixRow.t) (lot : string) : num :=
  DescribedMetric.sum (map DescribedMetric.bales_of (filter (lot_counts lot) sub)).

(** Every per-lot bale total of the sub-entry is a number. *)
Definition finite (sub : list MixRow.t) : Prop :=
  forall lot, exists b, lot_total sub lot = Fin b.

Definition abs_diff (previous current : list MixRow.t) (lots : list string) : num :=
  DescribedMetric.sum
    (map (fun lot => nabs (sub (lot_total current lot) (lot_total previous lot))) lots).

(** The bale percentage of a pair, not rounded; after a sub-entry without
    bales that has lots recorded it is 0 when nothing differs and 100
    otherwise; a percentage that is not a finite number is left out. *)
Definition bale_percent (previous current : list MixRow.t)
    (previous_lots lots : list string) : option Q :=
  if gt0 (total previous) then
    toJson (mul (div (abs_diff previous current lots) (total previous)) (Fin 100))
  else
    match previous_lots with
    | [] => None
    | _ => if num_eqb (abs_diff previous current lots) (Fin 0)
           then Some 0%Q else Some 100%Q
    end.

Definition new_lots (previous current : list MixRow.t) (lots : list string) : nat :=
  List.length
    (filter (fun lot => negb (gt0 (lot_total previous lot)) && gt0 (lot_total current lot))
            lots).

Definition removed_lots (previous current : list MixRow.t) (lots : list string) : nat :=
  List.length
    (filter (fun lot => gt0 (lot_total previous lot) && negb (gt0 (lot_total current lot)))
            lots).

(** The lot percentage of a pair, not rounded, over the number of lots
    recorded for the previous sub-entry. *)
Definition lot_percent (previous current : list MixRow.t)
    (previous_lots lots : list string) : option Q :=
  match previous_lots with
  | [] => None
  | _ =>
      toJson (mul (div (Fin (inject_Z (Z.of_nat (new_lots previous current lots
                                                 + removed_lots previous current lots))))
                       (Fin (inject_Z (Z.of_nat (List.length previous_lots)))))
                  (Fin 100))
  end.

(** The two percentages of a pair of consecutive sub-entries:
    [previous_lots] lists the lots of the previous one and [lots] those
    of the two, each once. *)
Definition pair_changes (previous current : list MixRow.t)
    (bale_change lot_change : option Q) : Prop :=
  exists previous_lots lots,
    NoDup previous_lots
    /\ (forall lot, In lot previous_lots <-> holds previous lot)
    /\ NoDup lots
    /\ (forall lot, In lot lots <-> holds previous lot \/ holds current lot)
    /\ bale_change = bale_percent previous current previous_lots lots
    /\ lot_change = lot_percent previous current previous_lots lots.

(** The percentages of all pairs of consecutive sub-entries, in order. *)
Inductive consecutive
  : list (list MixRow.t) -> list (option Q) -> list (option Q) -> Prop :=
| consecutive_none : consecutive [] [] []
| consecutive_one (sub : list MixRow.t) : consecutive [sub] [] []
| consecutive_pair (previous current : list MixRow.t) (rest : list (list MixRow.t))
    (bale_change lot_change : option Q) (bale_changes lot_changes : list (option Q)) :
    pair_changes previous current bale_change lot_change ->
    consecutive (current :: rest) bale_changes lot_changes ->
    consecutive (previous :: current :: rest)
                (bale_change :: bale_changes) (lot_change :: lot_changes).

(** Every per-lot bale total of every sub-entry of the rows is a
    number. *)
Definition all_finite (rows : list MixRow.t) : Prop :=
  forall key, finite (sub_rows rows key).

(** The percentages that are there. *)
Definition present (changes : list (option Q)) : list Q :=
  flat_map (fun change => match change with Some v => [v] | None => [] end) changes.

(** The simple arithmetic mean, rounded to 2 decimals; [null] of no
    values. *)
Definition mean (values : list Q) : option Q :=
  match values with
  | [] => None
  | _ =>
      toJson (fixed2 (div (DescribedMetric.sum (map Fin values))
                          (Fin (inject_Z (Z.of_nat (List.length values))))))
  end.

End WithArithmetic.

(** The keys of the order of the sub-entries. *)
Definition timestamp `{Platform} (lookup : obj jsval) (sub : list MixRow.t) : option Q :=
  if truthy (date_of lookup sub)
  then option_map inject_Z (getTime (date_of lookup sub))
  else None.

Definition number (sub : list MixRow.t) : option Q :=
  match JsValue.Number (number_of sub) with
  | Fin n => Some n
  | NaN => None
  end.

(** [a] may stand before [b]: issue timestamp ascending, sub-entries
    without issue date last; then numeric mixing number ascending. *)
Definition in_order `{Platform} (lookup : obj jsval) (a b : list MixRow.t) : Prop :=
  below (timestamp lookup a) (timestamp lookup b)
  \/ (level (timestamp lookup a) (timestamp lookup b)
      /\ (below (number a) (number b) \/ level (number a) (number b))).

(** The rows of the period can be ordered: the mixing numbers are
    numbers, and an issue date that is given is a valid date. *)
Definition comparable `{Platform} (lookup : obj jsval) (rows : list MixRow.t) : Prop :=
  forall r, In r rows -> truthy (coalesce (MixRow.mixing_no r) (VStr "")) = true ->
    JsValue.Number (MixRow.mixing_no r) <> NaN
    /\ (truthy (Periodic.getRawIssueDateForRow lookup r) = true ->
        getTime (Periodic.getRawIssueDateForRow lookup r) <> None).

(** The ordered sub-entries of a period: one for each mixing number
    present in it. *)
Definition sub_entries `{Platform} (lookup : obj jsval) (rows : list MixRow.t)
    (subs : list (list MixRow.t)) : Prop :=
  exists keys,
    NoDup keys
    /\ (forall key, In key keys <-> exists r, In r rows /\ belongs key r = true)
    /\ subs = map (sub_rows rows) keys
    /\ StronglySorted (in_order lookup) subs.

(** The change percentages of a period by its own sub-entries. *)
Definition local_changes `{Platform} `{Arithmetic} (lookup : obj jsval)
    (rows : list MixRow.t) (bale_change lot_change : option Q) : Prop :=
  exists subs bale_changes lot_changes,
    sub_entries lookup rows subs
    /\ consecutive subs bale_changes lot_changes
    /\ bale_change = mean (present bale_changes)
    /\ lot_change = mean (present lot_changes).

End DescribedSubEntries.

(** How a sub-entry of the code stands for the rows it was built from,
    for the proofs. *)
Module SubEntryRecords.

Import DescribedSubEntries.

Definition represents `{Arithmetic} (lookup : obj jsval) (sub : list MixRow.t)
    (m : Periodic.mixing) : Prop :=
  Periodic.mixing_no m = number_of sub
  /\ Periodic.issueDate_of m = date_of lookup sub
  /\ Periodic.totalBales m = total sub
  /\ NoDup (map fst (Periodic.lotMap m))
  /\ forall lot,
       get (Periodic.lotMap m) lot
       = if existsb (lot_counts lot) sub then Some (lot_total sub lot) else None.

End SubEntryRecords.

(** The summary of the weekly and monthly branch before the continuity
    pass: one entry for each period group that has rows, with the blend
    strings resolved for it. *)
Module PeriodSummary.

Definition rows_of (group : Periodic.group * Blend.blend) : list MixRow.t :=
  map Periodic.row (Periodic.rows (fst group)).

Definition entry_of `{Platform} (report_type : string) (lookup : obj jsval)
    (lotResults : list Lot.t) (group : Periodic.group * Blend.blend) : Entry.t :=
  Periodic.entryOf report_type lookup lotResults (fst group) (snd group).

Definition entries_of `{Platform} (report_type : string) (lookup : obj jsval)
    (lotResults : list Lot.t) (groups : list (Periodic.group * Blend.blend))
  : list Entry.t :=
  map (entry_of report_type lookup lotResults) groups.

(** The pass leaves the entry [e] as it was. *)
Definition unchanged (e tracked : Entry.t) : Prop :=
  Entry.bale_change_over_percent tracked = Entry.bale_change_over_percent e
  /\ Entry.lot_change_over_percent tracked = Entry.lot_change_over_percent e
  /\ Entry.previous_mixing_no tracked = VNull.

(** What the pass makes of the entry [e] of the rows [current] after the
    entry [p] of the rows [previous]: the reference to [p], and the
    percentages of the period itself unless both are [null], in which
    case those against [p]. *)
Definition continued (lotResults : list Lot.t) (previous current : list MixRow.t)
    (p e tracked : Entry.t) : Prop :=
  Entry.previous_mixing_no tracked = Entry.mixing_no p
  /\ match Entry.bale_change_over_percent e, Entry.lot_change_over_percent e with
     | None, None =>
         DescribedLots.changes lotResults previous current p
           (Entry.bale_change_over_percent tracked)
           (Entry.lot_change_over_percent tracked)
     | _, _ =>
         Entry.bale_change_over_percent tracked = Entry.bale_change_over_percent e
         /\ Entry.lot_change_over_percent tracked = Entry.lot_change_over_percent e
     end.

End PeriodSummary.

(** * The other routes of the server

    The helpers and handlers around the summary: filter parsing, option
    lists, validation, and the routes that write to the record source. *)

(** ** Request values *)

Module Json.

(** What [JSON.parse] produces and what a request carries.  The fields of
    an object have distinct keys. *)
#[warnings="-register-all"]
Inductive t :=
| Null
| Bool (b : bool)
| Num (q : Q)
| Str (s : string)
| Arr (items : list t)
| Obj (fields : list (string * t)).

(** [!!v] *)
Definition truthy (v : t) : bool :=
  match v with
  | Null => false
  | Bool b => b
  | Num q => negb (Qeq_bool q 0)
  | Str s => negb (is_empty s)
  | Arr _ | Obj _ => true
  end.

(** [String(v)] and [`${v}`]; an array joins its elements with commas,
    [null] elements as the empty string. *)
Fixpoint toString (v : t) : string :=
  match v with
  | Null => "null"
  | Bool true => "true"
  | Bool false => "false"
  | Num q => number_to_string q
  | Str s => s
  | Arr items =>
      join "," (map (fun item => match item with
                                 | Null => EmptyString
                                 | _ => toString item
                                 end) items)
  | Obj _ => "[object Object]"
  end.

(** [Number(v)] *)
Definition toNumber (v : t) : num :=
  match v with
  | Null => Fin 0
  | Bool true => Fin 1
  | Bool false => Fin 0
  | Num q => Fin q
  | Str s => StringToNumber s
  | Arr _ => StringToNumber (toString v)
  | Obj _ => NaN
  end.

(** A column value as a request value. *)
Definition of_jsval (v : jsval) : t :=
  match v with
  | VNull => Null
  | VNum q => Num q
  | VStr s => Str s
  end.

(** [o.k] on a value: [None] is [undefined]. *)
Definition prop (v : t) (k : string) : option t :=
  match v with
  | Obj fields => get fields k
  | _ => None
  end.

End Json.

(** [JSON.parse]: [None] when it throws. *)
Class JsonReader := { JSON_parse : string -> option Json.t }.

(** Collations the option lists ask for besides the two of [Platform]:
    [{ numeric: true }] and [{ numeric: true, sensitivity: "base" }]. *)
Class NumericCollation := {
  localeCompare_numeric : string -> string -> comparison;
  localeCompare_numeric_base : string -> string -> comparison
}.

(** ** Filter parameters and option lists *)

Module Filters.

(** A fetched row with its columns by name. *)
Definition row := obj jsval.

(** [row?.[key]], [undefined] read as [null]. *)
Definition column (r : row) (key : string) : jsval :=
  match get r key with
  | Some v => v
  | None => VNull
  end.

Definition toArray (maybeArray : option Json.t) : list Json.t :=
  match maybeArray with
  | None => []
  | Some Json.Null => []
  | Some (Json.Arr items) => items
  | Some v => [v]
  end.

(** [item === undefined || item === null ? "" : `${item}`.trim()] *)
Definition text (item : Json.t) : string :=
  match item with
  | Json.Null => ""
  | _ => trim (Json.toString item)
  end.

Definition not_blank (s : string) : bool := negb (is_empty s).

Definition normalizeValues (values : option Json.t) : list string :=
  dedupe String.eqb (filter not_blank (map text (toArray values))).

Definition parseFilterParam `{JsonReader} (value : option Json.t) : list string :=
  match value with
  | None => []
  | Some v =>
      if negb (Json.truthy v) then []
      else match JSON_parse (Json.toString v) with
           | Some parsed => normalizeValues (Some parsed)
           | None => normalizeValues value
           end
  end.

(** [raw === undefined || raw === null ? "" : `${raw}`.trim()] on a column. *)
Definition columnText (v : jsval) : string :=
  match v with
  | VNull => ""
  | _ => trim (ToString v)
  end.

Definition buildUniqueList `{Platform} (rows : list row) (key : string) : list string :=
  sort Blend.byName
       (dedupe String.eqb
               (filter not_blank (map (fun r => columnText (column r key)) rows))).

Definition is_semicolon (c : ascii) : bool := code c =? 59.

Fixpoint normalizeQueryValue (value : Json.t) : string :=
  match value with
  | Json.Arr [] => ""
  | Json.Arr (first :: _) => normalizeQueryValue first
  | Json.Str s => strip_trailing is_semicolon (trim s)
  | _ => ""
  end.

(** A query parameter that may be absent. *)
Definition queryValue (value : option Json.t) : string :=
  match value with
  | Some v => normalizeQueryValue v
  | None => ""
  end.

(** The comparator of [buildSortedOptionList]. *)
Definition byNumberOrName `{NumericCollation} (a b : string) : num :=
  match StringToNumber a, StringToNumber b with
  | Fin numA, Fin numB => Fin (numA - numB)
  | _, _ => comparison_num (localeCompare_numeric_base a b)
  end.

Definition buildSortedOptionList `{NumericCollation} (values : list jsval) : list string :=
  sort byNumberOrName
       (dedupe String.eqb (filter not_blank (map columnText values))).

(** [normalizeMixingSignature] on a filter value. *)
Definition signatureOf `{Platform} (value : jsval) : string :=
  match value with
  | VNull => ""
  | _ => Periodic.normalizeMixingSignature (ToString value)
  end.

Definition normalizeMixingSelections `{Platform} (values : list jsval) : list string :=
  dedupe String.eqb (filter not_blank (map signatureOf values)).

(** [buildOptionListFromRows]: the column of every row, then the
    selected values. *)
Definition buildOptionListFromRows `{NumericCollation}
    (rows : list row) (key : string) (selectedValues : list jsval) : list string :=
  buildSortedOptionList (map (fun r => column r key) rows ++ selectedValues)%list.

End Filters.


(** ** Range validation of the filter routes *)

Module Validation.

Definition isValidIsoDate `{Platform} (value : string) : bool :=
  if is_empty value then false
  else match Date_parse value with
       | Some _ => true
       | None => false
       end.

(** [new Date(a) > new Date(b)]: false when either date is invalid. *)
Definition dateAfter `{Platform} (a b : string) : bool :=
  match Date_parse a, Date_parse b with
  | Some x, Some y => y <? x
  | _, _ => false
  end.

Definition validateDateRange `{Platform} (fromDate toDate : string) : option string :=
  if is_empty fromDate && is_empty toDate then None
  else if negb (is_empty fromDate) && negb (isValidIsoDate fromDate)
  then Some "from_date must be a valid ISO date"
  else if negb (is_empty toDate) && negb (isValidIsoDate toDate)
  then Some "to_date must be a valid ISO date"
  else if negb (is_empty fromDate) && negb (is_empty toDate) && dateAfter fromDate toDate
  then Some "from_date cannot be after to_date"
  else None.

Definition validateMixingRange (mixingFrom mixingTo : string) : option string :=
  if is_empty mixingFrom && is_empty mixingTo then None
  else if negb (is_empty mixingFrom) && isNaN (StringToNumber mixingFrom)
  then Some "mixing_from must be a number"
  else if negb (is_empty mixingTo) && isNaN (StringToNumber mixingTo)
  then Some "mixing_to must be a number"
  else if negb (is_empty mixingFrom) && negb (is_empty mixingTo)
          && gt0 (nsub (StringToNumber mixingFrom) (StringToNumber mixingTo))
  then Some "mixing_from cannot be greater than mixing_to"
  else None.

End Validation.


(** ** Reference readers for the examples *)

Module ReferenceJson.

(** Reads a flat array of scalars, or one scalar. *)
Definition parse (s : string) : option Json.t :=
  match Reference.json_array s with
  | Some items => Some (Json.Arr (map Json.of_jsval items))
  | None => option_map Json.of_jsval (Reference.json_scalar s)
  end.

Definition reader : JsonReader := {| JSON_parse := parse |}.

(** A collation by character codes: it stands in where every compared
    pair is numeric or the order of the names does not matter. *)
Definition collation : NumericCollation := {|
  localeCompare_numeric := Reference.compare_by code;
  localeCompare_numeric_base := Reference.compare_by (fun c => code (upper_char c))
|}.

End ReferenceJson.


(** ** What sorting needs of a collation *)

Module Collation.

Definition precedes (cmp : string -> string -> comparison) (a b : string) : Prop :=
  cmp a b <> Gt.

(** The order a comparison induces is total and transitive. *)
Definition consistent (cmp : string -> string -> comparison) : Prop :=
  (forall a b, cmp a b = Gt -> precedes cmp b a) /\
  (forall a b c, precedes cmp a b -> precedes cmp b c -> precedes cmp a c).

(** The number a numeric text stands for. *)
Definition value (s : string) : Q := orZero (StringToNumber s).

Definition is_plus (c : ascii) : bool := code c =? 43.

(** A part of a mixing signature: not blank, trimmed, without [+]. *)
Definition part (p : string) : Prop :=
  p <> EmptyString /\ trim p = p /\ all_chars (fun c => negb (is_plus c)) p = true.

End Collation.


(** ** The record source of the other routes *)

Module Store.

(** A condition of a statement, as the query builder collects it. *)
Inductive cond :=
| Eq (column : string) (v : Json.t)
| Gte (column : string) (v : Json.t)
| Lte (column : string) (v : Json.t)
| Among (column : string) (vs : list Json.t)
| NotNull (column : string)
| ILike (column : string) (pattern : string).

Inductive command :=
| Select (table columns : string) (conds : list cond)
         (order : list string) (limit : option Z)
| Delete (table : string) (conds : list cond)
| Insert (table : string) (rows : list (obj Json.t))
| Update (table : string) (fields : obj Json.t) (conds : list cond)
| Upsert (table : string) (rows : list (obj Json.t)) (onConflict : string).

(** [{ data, error }]; [error] is the message of the error. *)
Record reply := mkReply {
  data : option (list Filters.row);
  error : option string
}.

(** A handler as a computation that awaits statements. *)
Inductive act (A : Type) : Type :=
| Done (a : A)
| Call (c : command) (k : reply -> act A).
Arguments Done {A} _.
Arguments Call {A} _ _.

Fixpoint bind {A B : Type} (m : act A) (f : A -> act B) : act B :=
  match m with
  | Done a => f a
  | Call c k => Call c (fun r => bind (k r) f)
  end.

(** [for (const x of xs) { const { error } = await ...; if (error) ... }]:
    one statement per element; the message of the first error ends the
    loop. *)
Fixpoint forEach {A : Type} (statement : A -> command) (xs : list A)
  : act (option string) :=
  match xs with
  | [] => Done None
  | x :: rest =>
      Call (statement x)
        (fun r =>
           match error r with
           | Some message => Done (Some message)
           | None => forEach statement rest
           end)
  end.

(** A record source: its reply to a statement after those already run. *)
Definition backend := list command -> command -> reply.

(** Runs a handler; the statements it issued come back in order. *)
Fixpoint run {A : Type} (db : backend) (history : list command) (m : act A)
  : list command * A :=
  match m with
  | Done a => (history, a)
  | Call c k => run db (history ++ [c])%list (k (db history c))
  end.

(** [res.status(status).json(body)] *)
Inductive response := Respond (status : Z) (body : Json.t).

Definition status_of (r : response) : Z :=
  match r with Respond status _ => status end.

Definition errorBody (message : string) : Json.t :=
  Json.Obj [("error", Json.Str message)].

(** [message || fallback] *)
Definition orElse (message fallback : string) : string :=
  if is_empty message then fallback else message.

(** The truth of a property that may be absent. *)
Definition given (v : option Json.t) : bool :=
  match v with
  | Some x => Json.truthy x
  | None => false
  end.

(** [v ?? d] on a property that may be absent. *)
Definition orNull (v : option Json.t) (d : Json.t) : Json.t :=
  match v with
  | Some Json.Null | None => d
  | Some x => x
  end.

End Store.

(** ** Lot results: update by lot number *)

Module LotResult.

Import Store.

Definition LOT_RESULT_COLUMNS : list string :=
  ["lot_no"; "lot_received_date"; "variety"; "cotton"; "party_name"; "station";
   "no_of_bale"; "uhml"; "mic"; "str"; "rd"; "plus_b"; "sf"; "ui"; "elong";
   "trash"; "moist"; "min_mic"; "min_mic_bale_per_lot"; "cotton_year"; "remarks"].

Definition sanitizeLotResultPayload (payload : obj Json.t) : obj Json.t :=
  fold_left
    (fun accumulator column =>
       match get payload column with
       | Some v => set accumulator column v
       | None => accumulator
       end)
    LOT_RESULT_COLUMNS [].

(** What the whitelist lets through of a payload's property [k]. *)
Definition get_whitelisted (payload : obj Json.t) (k : string) : option Json.t :=
  if existsb (String.eqb k) LOT_RESULT_COLUMNS then get payload k else None.

(** The own properties of [req.body || {}]. *)
Definition fieldsOf (body : option Json.t) : obj Json.t :=
  match body with
  | Some (Json.Obj fields) => fields
  | _ => []
  end.

(** [app.put("/api/lot-results/lot/:lotNo", ...)] *)
Definition update (lotNo : string) (body : option Json.t) : act response :=
  let lotNoParam := trim lotNo in
  if is_empty lotNoParam
  then Done (Respond 400 (errorBody "Lot number is required."))
  else
    let updatePayload := sanitizeLotResultPayload (fieldsOf body) in
    if (List.length (keys updatePayload) =? 0)%nat
    then Done (Respond 400 (errorBody "No valid fields provided to update."))
    else
      let updatePayload :=
        if given (get updatePayload "lot_no") then updatePayload
        else set updatePayload "lot_no" (Json.Str lotNoParam) in
      let lot_no := match get updatePayload "lot_no" with
                    | Some v => Json.toString v
                    | None => "undefined"
                    end in
      if negb (String.eqb (trim lot_no) lotNoParam)
      then Done (Respond 400 (errorBody
             "lot_no in payload must match path parameter and cannot be empty."))
      else
        Call (Update "lot_results"
                (set updatePayload "lot_no" (Json.Str lotNoParam))
                [Eq "lot_no" (Json.Str lotNoParam)])
          (fun r =>
             match error r with
             | Some message =>
                 Done (Respond 500
                         (errorBody (orElse message "Failed to update lot result.")))
             | None =>
                 Done (Respond 200
                         (Json.Obj [("success", Json.Bool true);
                                    ("updated", Json.Arr [Json.Str lotNoParam])]))
             end).

End LotResult.


(** ** Mixing chart: delete a range *)

Module MixingChart.

Import Store.

(** [v === undefined || v === null] *)
Definition absent (v : option Json.t) : bool :=
  match v with
  | None | Some Json.Null => true
  | Some _ => false
  end.

(** [app.post("/api/mixing-chart/delete", ...)]; [body] holds the own
    properties of the request body. *)
Definition delete (body : obj Json.t) : act response :=
  let unit := get body "unit" in
  let line := get body "line" in
  let cotton := get body "cotton" in
  let mixing_from := get body "mixing_from" in
  let mixing_to := get body "mixing_to" in
  if negb (given unit) || negb (given line) || negb (given cotton)
  then Done (Respond 400 (errorBody "Unit, Line, and Cotton are required."))
  else if absent mixing_from || absent mixing_to
  then Done (Respond 400 (errorBody "Mixing number range is required."))
  else
    match Json.toNumber (orNull mixing_from Json.Null),
          Json.toNumber (orNull mixing_to Json.Null) with
    | Fin fromNumber, Fin toNumber =>
        if Qlt_bool toNumber fromNumber
        then Done (Respond 400 (errorBody "Mixing number range is invalid."))
        else
          Call (Delete "mixing_chart"
                  [Eq "unit" (orNull unit Json.Null);
                   Eq "line" (orNull line Json.Null);
                   Eq "cotton" (orNull cotton Json.Null);
                   Gte "mixing_no" (Json.Num fromNumber);
                   Lte "mixing_no" (Json.Num toNumber)])
            (fun r =>
               match error r with
               | Some message =>
                   Done (Respond 500
                           (errorBody (orElse message
                                         "Failed to delete mixing chart entries.")))
               | None =>
                   Done (Respond 200
                           (Json.Obj [("message", Json.Str
                              "Matching mixing chart entries deleted successfully.")]))
               end)
    | _, _ =>
        Done (Respond 400 (errorBody "Mixing number range must be numeric."))
    end.

(** A bound whose reading as a number needs no exponent, radix prefix or
    [Infinity]. *)
Definition plain (v : option Json.t) : bool :=
  match v with
  | Some (Json.Str s) => all_chars numeric_char s
  | Some (Json.Arr items) => all_chars numeric_char (Json.toString (Json.Arr items))
  | _ => true
  end.

End MixingChart.

(** ** Mixing issues: saving entries *)

Module MixingIssue.

Import Store.

(** One entry to store: [{ mixing_no, unit, line, cotton, issue_date }]. *)
Record entry := mkEntry {
  mixing_no : Json.t;
  unit : Json.t;
  line : Json.t;
  cotton : Json.t;
  issue_date : Json.t
}.

Definition toRow (e : entry) : obj Json.t :=
  [("mixing_no", mixing_no e); ("unit", unit e); ("line", line e);
   ("cotton", cotton e); ("issue_date", issue_date e)].

(** [supabase.from("mixing_issue").delete().eq("mixing_no", ...).eq("cotton", ...)] *)
Definition deleteOf (e : entry) : command :=
  Delete "mixing_issue" [Eq "mixing_no" (mixing_no e); Eq "cotton" (cotton e)].

(** [for (const entry of payload)]: one delete per entry. *)
Definition deleteExisting (payload : list entry) : act (option string) :=
  forEach deleteOf payload.

(** [entry?.mixing_no && entry?.cotton && entry.issue_date] *)
Definition complete (item : Json.t) : bool :=
  given (Json.prop item "mixing_no") && given (Json.prop item "cotton")
  && given (Json.prop item "issue_date").

Definition entryOf (item : Json.t) : entry :=
  mkEntry (orNull (Json.prop item "mixing_no") Json.Null)
          (orNull (Json.prop item "unit") Json.Null)
          (orNull (Json.prop item "line") Json.Null)
          (orNull (Json.prop item "cotton") Json.Null)
          (orNull (Json.prop item "issue_date") Json.Null).

(** [Array.isArray(req.body?.entries) ? req.body.entries : []] *)
Definition entriesOf (body : option Json.t) : list Json.t :=
  match body with
  | Some b => match Json.prop b "entries" with
              | Some (Json.Arr items) => items
              | _ => []
              end
  | None => []
  end.

(** [app.post("/api/mixing-issues", ...)] *)
Definition save (body : option Json.t) : act response :=
  let payload := map entryOf (filter complete (entriesOf body)) in
  match payload with
  | [] => Done (Respond 400 (errorBody "No valid entries to save."))
  | _ =>
      bind (deleteExisting payload)
        (fun deleteError =>
           match deleteError with
           | Some message => Done (Respond 500 (errorBody message))
           | None =>
               Call (Insert "mixing_issue" (map toRow payload))
                 (fun r =>
                    match error r with
                    | Some message => Done (Respond 500 (errorBody message))
                    | None => Done (Respond 200 (Json.Obj [("success", Json.Bool true)]))
                    end)
           end)
  end.

End MixingIssue.


(** ** Mixing issues: upload of a filled template *)

Module IssueUpload.

Import Store.

(** What the route sees of the uploaded file: none, a file the reader
    throws on, or the name and the rows ([sheet_to_json] with [defval: ""])
    of the first sheet when there is one. *)
Inductive upload :=
| NoFile
| Unreadable (message : string)
| Workbook (first : option (string * list (obj Json.t))).

(** A value, or the message of the exception thrown instead. *)
Inductive outcome (A : Type) : Type :=
| Value (a : A)
| Throw (message : string).
Arguments Value {A} _.
Arguments Throw {A} _.

Definition normalizeString (value : option Json.t) : string :=
  match value with
  | None | Some Json.Null => ""
  | Some v => trim (Json.toString v)
  end.

(** The largest time value of a date, in milliseconds. *)
Definition MAX_TIME : Z := 8640000000000000.

(** An Excel serial number counts days from 1899-12-30; [toISOString]
    throws on a date out of range. *)
Definition parseDate `{Platform} (value : option Json.t) : outcome (option string) :=
  match value with
  | None | Some Json.Null => Value None
  | Some (Json.Num serial) =>
      let utcDays := Qfloor (serial - 25569) in
      let utcValue := utcDays * 86400 * 1000 in
      if Z.abs utcValue <=? MAX_TIME
      then Value (Some (iso_date_part utcValue))
      else Throw "Invalid time value"
  | Some (Json.Bool b) => Value (Some (iso_date_part (if b then 1 else 0)))
  | Some (Json.Str s) =>
      if is_empty s then Value None
      else Value (option_map iso_date_part (Date_parse s))
  | Some v => Value (option_map iso_date_part (Date_parse (Json.toString v)))
  end.

(** A row ready to be stored. *)
Record prepared := mkPrepared {
  mixing_no : string;
  cotton : string;
  issue_date : string;
  unit : string;
  line : string
}.

(** [value || null] on a string. *)
Definition orNullText (s : string) : Json.t :=
  if is_empty s then Json.Null else Json.Str s.

Definition toRow (p : prepared) : obj Json.t :=
  [("mixing_no", Json.Str (mixing_no p)); ("cotton", Json.Str (cotton p));
   ("issue_date", Json.Str (issue_date p));
   ("unit", orNullText (unit p)); ("line", orNullText (line p))].

Definition deleteOf (p : prepared) : command :=
  Delete "mixing_issue"
         [Eq "mixing_no" (Json.Str (mixing_no p)); Eq "cotton" (Json.Str (cotton p))].

Definition quote : string := String (ascii_of_N 34) EmptyString.

(** [`Row ${index + 2}: ...`] *)
Definition missingKeys (index : nat) : string :=
  "Row " ++ decimal (Z.of_nat index + 2) ++ ": " ++ quote ++ "mixing_no" ++ quote
  ++ " and " ++ quote ++ "cotton" ++ quote ++ " are required.".

Definition missingDate (index : nat) : string :=
  "Row " ++ decimal (Z.of_nat index + 2) ++ ": " ++ quote ++ "issue_date" ++ quote
  ++ " is required and must be a valid date.".

(** What one row adds: a prepared row or a validation error. *)
Definition check `{Platform} (index : nat) (row : obj Json.t)
  : outcome (prepared + string) :=
  let unit := normalizeString (get row "unit") in
  let line := normalizeString (get row "line") in
  let mixing_no := normalizeString (get row "mixing_no") in
  let cotton := normalizeString (get row "cotton") in
  match parseDate (get row "issue_date") with
  | Throw message => Throw message
  | Value issue_date =>
      if is_empty mixing_no || is_empty cotton
      then Value (inr (missingKeys index))
      else match issue_date with
           | None => Value (inr (missingDate index))
           | Some d =>
               if is_empty d then Value (inr (missingDate index))
               else Value (inl (mkPrepared mixing_no cotton d unit line))
           end
  end.

(** [rows.forEach((row, index) => ...)]: the prepared rows and the
    validation errors, each in the order of the rows. *)
Fixpoint prepare `{Platform} (index : nat) (rows : list (obj Json.t))
  : outcome (list prepared * list string) :=
  match rows with
  | [] => Value ([], [])
  | row :: rest =>
      match check index row with
      | Throw message => Throw message
      | Value item =>
          match prepare (S index) rest with
          | Throw message => Throw message
          | Value (preparedRows, validationErrors) =>
              match item with
              | inl p => Value (p :: preparedRows, validationErrors)
              | inr e => Value (preparedRows, e :: validationErrors)
              end
          end
      end
  end.

(** [for (const entry of preparedRows)]: one delete per row. *)
Definition deleteExisting (preparedRows : list prepared) : act (option string) :=
  forEach deleteOf preparedRows.

(** [app.post("/api/mixing-issues/upload", ...)] *)
Definition handle `{Platform} (file : upload) : act response :=
  match file with
  | NoFile => Done (Respond 400 (errorBody "No file uploaded."))
  | Unreadable message =>
      Done (Respond 500 (errorBody (orElse message "Failed to process uploaded file.")))
  | Workbook None => Done (Respond 400 (errorBody "Uploaded file has no sheets."))
  | Workbook (Some (sheetName, rows)) =>
      if is_empty sheetName
      then Done (Respond 400 (errorBody "Uploaded file has no sheets."))
      else
      match rows with
      | [] => Done (Respond 400 (errorBody "Uploaded file is empty."))
      | _ =>
          match prepare 0 rows with
          | Throw message =>
              Done (Respond 500
                      (errorBody (orElse message "Failed to process uploaded file.")))
          | Value (preparedRows, (e :: es) as validationErrors) =>
              Done (Respond 400
                      (Json.Obj [("error", Json.Str "Validation failed.");
                                 ("details", Json.Arr (map Json.Str validationErrors))]))
          | Value (preparedRows, []) =>
              bind (deleteExisting preparedRows)
                (fun deleteError =>
                   match deleteError with
                   | Some message =>
                       Done (Respond 500
                               (errorBody (orElse message
                                             "Failed to replace existing entries.")))
                   | None =>
                       Call (Insert "mixing_issue" (map toRow preparedRows))
                         (fun r =>
                            match error r with
                            | Some message =>
                                Done (Respond 500
                                        (errorBody (orElse message
                                                      "Failed to insert entries.")))
                            | None =>
                                Done (Respond 200
                                  (Json.Obj
                                     [("success", Json.Bool true);
                                      ("message", Json.Str
                                         "Mixing issue data uploaded successfully.");
                                      ("inserted",
                                       Json.Num (inject_Z (Z.of_nat
                                                   (List.length preparedRows))))]))
                            end)
                   end)
          end
      end
  end.

End IssueUpload.


(** ** Mixing issues: chart entries without an issue date *)

Module MissingIssues.

Import Store Filters.

(** [v !== undefined && v !== null ? String(v) : null] *)
Definition textOf (v : jsval) : option string :=
  match v with
  | VNull => None
  | _ => Some (ToString v)
  end.

(** [mixingNo && cotton ? `${mixingNo}|${cotton}` : null] *)
Definition combination (r : row) : option string :=
  match textOf (column r "mixing_no"), textOf (column r "cotton") with
  | Some mixingNo, Some cotton =>
      if is_empty mixingNo || is_empty cotton then None
      else Some (mixingNo ++ "|" ++ cotton)
  | _, _ => None
  end.

Fixpoint somes {A : Type} (l : list (option A)) : list A :=
  match l with
  | [] => []
  | Some x :: r => x :: somes r
  | None :: r => somes r
  end.

(** The combinations that have an issue row. *)
Definition existingCombinations (issueData : list row) : list string :=
  dedupe String.eqb (somes (map combination issueData)).

Definition missingRow (r : row) : row :=
  [("mixing_no", column r "mixing_no");
   ("unit", coalesce (column r "unit") (VStr ""));
   ("line", coalesce (column r "line") (VStr ""));
   ("cotton", coalesce (column r "cotton") (VStr ""));
   ("issue_date", VNull)].

(** One turn of [chartData.forEach]; the map keeps its keys in the order
    they were first set. *)
Definition note (existing : list string) (uniqueMissing : list (string * row)) (r : row)
  : list (string * row) :=
  match combination r with
  | None => uniqueMissing
  | Some combinationKey =>
      if existsb (String.eqb combinationKey) existing then uniqueMissing
      else match get uniqueMissing combinationKey with
           | Some _ => uniqueMissing
           | None => (uniqueMissing ++ [(combinationKey, missingRow r)])%list
           end
  end.

Definition uniqueMissing (chartData issueData : list row) : list (string * row) :=
  fold_left (note (existingCombinations issueData)) chartData [].

Definition byMixingThenCotton `{Platform} `{NumericCollation} (a b : row) : num :=
  match localeCompare_numeric_base (ToString (column a "mixing_no"))
                                   (ToString (column b "mixing_no")) with
  | Datatypes.Eq => comparison_num (localeCompare_base (ToString (column a "cotton"))
                                             (ToString (column b "cotton")))
  | mixingCompare => comparison_num mixingCompare
  end.

Definition missing `{Platform} `{NumericCollation} (chartData issueData : list row)
  : list row :=
  sort byMixingThenCotton (map snd (uniqueMissing chartData issueData)).

Definition rowJson (r : row) : Json.t :=
  Json.Obj (map (fun kv => (fst kv, Json.of_jsval (snd kv))) r).

Definition orEmpty (d : option (list row)) : list row :=
  match d with
  | Some rows => rows
  | None => []
  end.

(** [app.get("/api/mixing-issues/missing", ...)] *)
Definition handle `{Platform} `{NumericCollation} : act response :=
  Call (Select "mixing_chart" "mixing_no, unit, line, cotton" [] [] None)
    (fun chart =>
       match error chart with
       | Some message => Done (Respond 500 (errorBody message))
       | None =>
           Call (Select "mixing_issue" "mixing_no, cotton" [] [] None)
             (fun issue =>
                match error issue with
                | Some message => Done (Respond 500 (errorBody message))
                | None =>
                    Done (Respond 200
                            (Json.Arr (map rowJson
                                           (missing (orEmpty (data chart))
                                                    (orEmpty (data issue))))))
                end)
       end).

End MissingIssues.

(** ** Pending lots *)

Module PendingLots.

Import Store Filters.

(** The lot numbers of the mixing chart that no lot result carries, each
    once, in the order the chart first names them. *)
Definition pending (mixingData lotData : list row) : list jsval :=
  let existingLots := map (fun l => column l "lot_no") lotData in
  dedupe strict_eq
         (filter (fun lot_no => negb (includes existingLots lot_no))
                 (map (fun m => column m "lot_no") mixingData)).

(** No two elements of a list are the same value. *)
Fixpoint distinct (l : list jsval) : bool :=
  match l with
  | [] => true
  | x :: r => negb (includes r x) && distinct r
  end.

(** [app.get("/api/pending-lots", ...)]; [typeError method] is the
    message of the error the engine raises when [method] is read off
    [null]. *)
Definition handle (typeError : string -> string) : act response :=
  Call (Select "mixing_chart" "lot_no" [] [] None)
    (fun mixing =>
       Call (Select "lot_results" "lot_no" [] [] None)
         (fun lot =>
            match data lot, data mixing with
            | None, _ => Done (Respond 500 (errorBody (typeError "map")))
            | Some _, None => Done (Respond 500 (errorBody (typeError "forEach")))
            | Some lotData, Some mixingData =>
                Done (Respond 200
                        (Json.Arr (map (fun lot_no =>
                                          Json.Obj [("lot_no", Json.of_jsval lot_no)])
                                       (pending mixingData lotData))))
            end)).

End PendingLots.


(** ** Cotton results and their filter options *)

Module CottonResults.

Import Store Filters.

(** The query string of the two routes; an absent parameter is [None]. *)
Record params := mkParams {
  lot_no : option Json.t;
  from_date : option Json.t;
  to_date : option Json.t;
  variety : option Json.t;
  station : option Json.t;
  party_name : option Json.t
}.

(** [if (from_date) query.gte(...)], [if (to_date) query.lte(...)] *)
Definition dateConds (p : params) : list cond :=
  ((if given (from_date p)
    then [Gte "lot_received_date" (orNull (from_date p) Json.Null)] else [])
   ++ (if given (to_date p)
       then [Lte "lot_received_date" (orNull (to_date p) Json.Null)] else []))%list.

(** [if (values.length > 0) query.in(column, values)] *)
Definition among `{JsonReader} (column : string) (value : option Json.t) : list cond :=
  match parseFilterParam value with
  | [] => []
  | values => [Among column (map Json.Str values)]
  end.

Definition filterConds `{JsonReader} (p : params) : list cond :=
  (dateConds p ++ among "lot_no" (lot_no p) ++ among "variety" (variety p)
   ++ among "station" (station p) ++ among "party_name" (party_name p))%list.

(** [value !== undefined && value !== null && `${value}`.trim() !== ""] *)
Definition hasText (v : jsval) : bool :=
  match v with
  | VNull => false
  | _ => negb (is_empty (trim (ToString v)))
  end.

Definition varieties (rows : list row) : list jsval :=
  dedupe strict_eq (filter hasText (map (fun r => column r "variety") rows)).

Record cottonInfo := mkInfo { cotton_name : jsval; cotton_year : jsval }.

(** The [reduce] that builds [cottonLookup]. *)
Definition cottonLookup (mixingCodeData : list row) : obj cottonInfo :=
  fold_left
    (fun acc item =>
       if truthy (column item "variety") then
         let cottonYearValue :=
           match column item "cotton_year" with
           | VNull => VNull
           | VStr EmptyString => VNull
           | v => VStr (trim (ToString v))
           end in
         set acc (ToString (column item "variety"))
             (mkInfo (if truthy (column item "cotton_name")
                      then column item "cotton_name" else VNull)
                     cottonYearValue)
       else acc)
    mixingCodeData [].

(** [{ ...row, cotton: lookup?.cotton_name ?? null,
       cotton_year: lookup?.cotton_year ?? null }] *)
Definition enrich (lookup : obj cottonInfo) (r : row) : row :=
  let found := if truthy (column r "variety")
               then get lookup (ToString (column r "variety")) else None in
  set (set r "cotton" (match found with
                       | Some info => cotton_name info
                       | None => VNull
                       end))
      "cotton_year" (match found with
                     | Some info => cotton_year info
                     | None => VNull
                     end).

Definition orEmpty (d : option (list row)) : list row :=
  match d with
  | Some rows => rows
  | None => []
  end.

(** An error of the [mixing_code] read is logged and the rows go out
    without cotton. *)
Definition enrichWithCotton (rows : list row) : act (list row) :=
  match rows with
  | [] => Done []
  | _ =>
      match varieties rows with
      | [] => Done (map (enrich []) rows)
      | wanted =>
          Call (Select "mixing_code" "variety, cotton_name, cotton_year"
                       [Among "variety" (map Json.of_jsval wanted)] [] None)
            (fun r =>
               match error r with
               | Some _ => Done (map (enrich []) rows)
               | None => Done (map (enrich (cottonLookup (orEmpty (data r)))) rows)
               end)
      end
  end.

Definition rowJson (r : row) : Json.t :=
  Json.Obj (map (fun kv => (fst kv, Json.of_jsval (snd kv))) r).

(** [app.get("/api/cotton-results", ...)] with [fetchFilteredLotResults]. *)
Definition handle `{JsonReader} (p : params) : act response :=
  Call (Select "lot_results" "*" (filterConds p) ["lot_received_date"] None)
    (fun r =>
       match error r with
       | Some _ => Done (Respond 500 (errorBody "Server error"))
       | None =>
           bind (enrichWithCotton (orEmpty (data r)))
                (fun enrichedData =>
                   Done (Respond 200 (Json.Arr (map rowJson enrichedData))))
       end).

End CottonResults.


(** ** What the continuity pass may change *)

Module ContinuityFrame.

(** [b] is [a] up to the three fields the continuity pass writes. *)
Definition same_but_change (a b : Entry.t) : Prop :=
  exists bale lot previous, b = Entry.with_change a bale lot previous.

(** A record of a signature group stands for the entry at its index. *)
Definition placed (entries : list Entry.t) (r : Continuity.record) : Prop :=
  nth_error entries (Continuity.index r) = Some (Continuity.entry r).

(** The time of an entry's issue date, the epoch when it has none. *)
Definition time `{Platform} (e : Entry.t) : Q := Daily.timeOrZero (Entry.issue_date e).

(** Newest first. *)
Definition newest_first `{Platform} (a b : Entry.t) : Prop := (time b <= time a)%Q.

(** An issue date that [new Date] can read. *)
Definition dated `{Platform} (v : jsval) : Prop := getTime v <> None.

End ContinuityFrame.


(** ** A record source for the examples of the summary *)

Module SummaryExamples.

(** A record source that has no mixing codes. *)
Definition source : forall R, query R -> R :=
  fun R q =>
    match q in query R return R with
    | SelectMixingIssue _ => mkAnswer (Some (ContinuityExamples.issues "25_31_V1")) None
    | SelectMixingChart _ => mkAnswer (Some []) None
    | SelectLotResults _ => mkAnswer (Some ContinuityExamples.lotResults) None
    | SelectMixingCode _ => mkAnswer (Some []) None
    end.

(** Three mixings of one blend, one a day. *)
Definition mixingData : list MixRow.t :=
  [ContinuityExamples.row 10 "25_31_V1" "P1" 100;
   ContinuityExamples.row 11 "25_31_V1" "P1" 100;
   ContinuityExamples.row 12 "25_31_V1" "P3" 150].

End SummaryExamples.


(** ** The shape of a sanitized cotton code *)

Module CottonCandidate.

Definition is_underscore (c : ascii) : bool := code c =? 95.

(** No two underscores in a row. *)
Fixpoint single_underscores (s : string) : bool :=
  match s with
  | String a r =>
      negb (is_underscore a && head_is is_underscore r) && single_underscores r
  | EmptyString => true
  end.

End CottonCandidate.


(** ** A record source whose mixing codes cannot be read *)

Module FailingCodes.

Definition message : string := "permission denied for table mixing_code".

Definition source : forall R, query R -> R :=
  fun R q =>
    match q in query R return R with
    | SelectMixingIssue _ => mkAnswer (Some []) None
    | SelectMixingChart _ => mkAnswer (Some []) None
    | SelectLotResults _ => mkAnswer (Some []) None
    | SelectMixingCode _ => mkAnswer None (Some message)
    end.

(** An entry that carries no blend. *)
Definition unblended (e : Entry.t) : Prop :=
  Entry.mixing e = EmptyString /\ Entry.blend_percent e = EmptyString.

End FailingCodes.


(** ** Pending lots: upload of lot results *)

Module LotUpload.

Import Store IssueUpload.

(** [excelDateToJSDate] *)
Definition excelDateToJSDate (serial : Json.t) : outcome Json.t :=
  if negb (Json.truthy serial) then Value Json.Null
  else match Json.toNumber serial with
       | Fin q =>
           let utc_days := Qfloor (q - 25569) in
           let utc_value := utc_days * 86400 in
           if Z.abs (utc_value * 1000) <=? MAX_TIME
           then Value (Json.Str (iso_date_part (utc_value * 1000)))
           else Throw "Invalid time value"
       | NaN => Throw "Invalid time value"
       end.

(** [if (preparedRow[k] === "") preparedRow[k] = null] *)
Definition blankToNull (v : Json.t) : Json.t :=
  match v with
  | Json.Str EmptyString => Json.Null
  | _ => v
  end.

(** The row as it is stored: blanks as null, a numeric received date as
    an ISO date. *)
Definition prepareRow (row : obj Json.t) : outcome (obj Json.t) :=
  let preparedRow := map (fun kv => (fst kv, blankToNull (snd kv))) row in
  match get preparedRow "lot_received_date" with
  | Some v =>
      if Json.truthy v && negb (isNaN (Json.toNumber v)) then
        match excelDateToJSDate v with
        | Value d => Value (set preparedRow "lot_received_date" d)
        | Throw message => Throw message
        end
      else Value preparedRow
  | None => Value preparedRow
  end.

Definition upsertOf (preparedRow : obj Json.t) : command :=
  Upsert "lot_results" [preparedRow] "lot_no".

(** One element of [results]. *)
Definition resultOf (preparedRow : obj Json.t) (error : option string) : Json.t :=
  Json.Obj
    ((match get preparedRow "lot_no" with
      | Some lot_no => [("lot_no", lot_no)]
      | None => []
      end)
     ++ match error with
        | Some message => [("status", Json.Str "failed"); ("error", Json.Str message)]
        | None => [("status", Json.Str "success")]
        end)%list.

(** [for (const row of rows)]: each row is stored on its own; an upsert
    that fails is recorded and the loop goes on; an exception ends it. *)
Fixpoint storeEach (rows : list (obj Json.t)) : act (outcome (list Json.t)) :=
  match rows with
  | [] => Done (Value [])
  | row :: rest =>
      match prepareRow row with
      | Throw message => Done (Throw message)
      | Value preparedRow =>
          Call (upsertOf preparedRow)
            (fun r =>
               bind (storeEach rest)
                    (fun results =>
                       match results with
                       | Throw message => Done (Throw message)
                       | Value rs => Done (Value (resultOf preparedRow (error r) :: rs))
                       end))
      end
  end.

(** [app.post("/api/pending-lots/upload", ...)]; a workbook without
    sheets reads as no rows. *)
Definition handle (file : upload) : act response :=
  match file with
  | NoFile => Done (Respond 400 (errorBody "No file uploaded"))
  | Unreadable message => Done (Respond 500 (errorBody message))
  | Workbook first =>
      let rows := match first with
                  | Some (_, rows) => rows
                  | None => []
                  end in
      bind (storeEach rows)
           (fun results =>
              match results with
              | Throw message => Done (Respond 500 (errorBody message))
              | Value rs =>
                  Done (Respond 200
                          (Json.Obj [("message", Json.Str "Upload complete");
                                     ("results", Json.Arr rs)]))
              end)
  end.

(** The rows of an upload. *)
Definition rowsOf (file : upload) : list (obj Json.t) :=
  match file with
  | Workbook (Some (_, rows)) => rows
  | _ => []
  end.

(** The received date of a row reads as a number, if it does, without
    exponent, radix prefix or [Infinity]. *)
Definition plainDate (row : obj Json.t) : bool :=
  MixingChart.plain (get row "lot_received_date").

End LotUpload.


(** ** The order of the weekly and monthly summary *)

Module PeriodOrder.

(** [e.issue_date_sort_key ?? e.issue_date] *)
Definition key (e : Entry.t) : string :=
  match Entry.issue_date_sort_key e with
  | Some k => k
  | None => ToString (Entry.issue_date e)
  end.

(** [a] may come before [b]: same key, or [b] has none, or both have one
    and the key of [b] does not come after the key of [a]. *)
Definition latest_first `{Platform} (a b : Entry.t) : Prop :=
  key a = key b \/ key b = EmptyString \/
  (key a <> EmptyString /\ key b <> EmptyString /\
   Collation.precedes localeCompare (key b) (key a)).

(** A week of January 2024 and one of February, the later issued first. *)
Definition issues : list Issue.t :=
  [ContinuityExamples.issue 10 "25_31_V1" "2024-01-03";
   ContinuityExamples.issue 11 "25_31_V1" "2024-02-05"].

Definition mixingData : list MixRow.t :=
  [ContinuityExamples.row 10 "25_31_V1" "P1" 100;
   ContinuityExamples.row 11 "25_31_V1" "P1" 100].

(** The keys of a summary that was answered. *)
Definition answeredKeys (out : string + list Entry.t) : option (list string) :=
  match out with
  | inl _ => None
  | inr summary => Some (map key summary)
  end.

End PeriodOrder.


(** ** The rows behind the per-lot bale map *)

Module LotBales.


End LotBales.


(** * Properties *)

(** ** Strings *)

Section StringFacts.

Lemma strip_trailing_all (f : ascii -> bool) (s : string) :
  all_chars f s = true -> strip_trailing f s = EmptyString.
Proof.
  induction s as [|c r IH]; simpl; auto.
  intros H. apply andb_true_iff in H as [Hc Hr].
  rewrite (IH Hr), Hc. reflexivity.
Qed.

Lemma strip_trailing_empty (f : ascii -> bool) (s : string) :
  strip_trailing f s = EmptyString -> all_chars f s = true.
Proof.
  induction s as [|c r IH]; simpl; auto.
  destruct (strip_trailing f r) eqn:E; simpl.
  - destruct (f c); [intros _; rewrite IH; auto | discriminate].
  - discriminate.
Qed.

Lemma strip_trailing_idem (f : ascii -> bool) (s : string) :
  strip_trailing f (strip_trailing f s) = strip_trailing f s.
Proof.
  induction s as [|c r IH]; simpl; auto.
  destruct (is_empty (strip_trailing f r) && f c) eqn:E; simpl; auto.
  rewrite IH, E. reflexivity.
Qed.

Lemma strip_leading_head (f : ascii -> bool) (s : string) :
  head_is f (strip_leading f s) = false.
Proof.
  induction s as [|c r IH]; simpl; auto.
  destruct (f c) eqn:E; simpl; auto.
Qed.

Lemma strip_trailing_head (f : ascii -> bool) (s : string) :
  head_is f s = false -> head_is f (strip_trailing f s) = false.
Proof.
  destruct s as [|c r]; simpl; auto.
  intros H. rewrite H, andb_false_r. simpl. exact H.
Qed.

Lemma strip_leading_id (f : ascii -> bool) (s : string) :
  head_is f s = false -> strip_leading f s = s.
Proof. destruct s as [|c r]; simpl; auto. intros ->. reflexivity. Qed.

Lemma trim_head (s : string) : head_is is_space (trim s) = false.
Proof. apply strip_trailing_head, strip_leading_head. Qed.

Lemma is_space_upper (c : ascii) : is_space (upper_char c) = is_space c.
Proof.
  unfold upper_char. destruct (is_lower c) eqn:E; auto.
  destruct c as [[] [] [] [] [] [] [] []]; vm_compute in E; try discriminate; reflexivity.
Qed.

Lemma toUpperCase_head (s : string) :
  head_is is_space (toUpperCase s) = head_is is_space s.
Proof. destruct s; simpl; auto using is_space_upper. Qed.

Lemma is_empty_true (s : string) : is_empty s = true -> s = EmptyString.
Proof. destruct s; simpl; congruence. Qed.

End StringFacts.

(** ** Blend-version parsing *)

Section CottonVersionFacts.

Import Described.

Lemma digits_no_marker (s : string) :
  all_chars is_digit s = true -> split_marker s = None.
Proof.
  induction s as [|c r IH]; simpl; auto.
  intros H. apply andb_true_iff in H as [Hc Hr].
  rewrite (IH Hr).
  assert (is_V c = false) as ->; [|reflexivity].
  destruct c as [[] [] [] [] [] [] [] []]; vm_compute in Hc; try discriminate; reflexivity.
Qed.

Lemma marker_after_split (c : ascii) (r : string) p m :
  split_marker r = Some (p, m) -> marker_here (String c r) = None.
Proof.
  intros H. unfold marker_here.
  destruct (all_chars is_digit r) eqn:E.
  - rewrite (digits_no_marker _ E) in H. discriminate.
  - rewrite !andb_false_r. reflexivity.
Qed.

Lemma is_V_not_separator (c : ascii) : is_V c = true -> is_separator c = false.
Proof.
  destruct c as [[] [] [] [] [] [] [] []]; vm_compute; congruence.
Qed.

(** The greedy separator run followed by the marker succeeds exactly when
    everything before the marker is a separator. *)
Lemma tail_match_split (s : string) :
  tail_match s =
  match split_marker s with
  | Some (p, m) => if all_chars is_separator p then Some m else None
  | None => None
  end.
Proof.
  induction s as [|c r IH]; [reflexivity|].
  cbn [tail_match split_marker]. rewrite IH.
  destruct (split_marker r) as [[p m]|] eqn:E.
  - rewrite (marker_after_split c r p m E). cbn [all_chars].
    destruct (is_separator c); simpl; auto.
    destruct (all_chars is_separator p); auto.
  - destruct (marker_here (String c r)) eqn:M; simpl;
      destruct (is_separator c); auto.
Qed.

Lemma lazy_match_split (s : string) :
  no_line_break s = true ->
  lazy_match s =
  match split_marker s with
  | Some (p, m) => Some (strip_trailing is_separator p, m)
  | None => None
  end.
Proof.
  induction s as [|c r IH]; [reflexivity|].
  intros H. cbn in H. apply andb_true_iff in H as [Hc Hr].
  apply negb_true_iff in Hc.
  cbn [lazy_match]. rewrite tail_match_split, Hc, (IH Hr).
  cbn [split_marker].
  destruct (split_marker r) as [[p m]|] eqn:E.
  - cbn [all_chars strip_trailing].
    destruct (is_separator c) eqn:Sc; cbn [andb].
    + destruct (all_chars is_separator p) eqn:Sp.
      * rewrite (strip_trailing_all _ _ Sp). reflexivity.
      * destruct (strip_trailing is_separator p) eqn:St.
        -- apply strip_trailing_empty in St. congruence.
        -- reflexivity.
    + rewrite andb_false_r. reflexivity.
  - destruct (marker_here (String c r)); reflexivity.
Qed.

Lemma version_match_none (s : string) :
  no_line_break s = true -> split_marker s = None -> version_match s = None.
Proof.
  induction s as [|c r IH]; [reflexivity|].
  intros H N. cbn [version_match]. rewrite (lazy_match_split _ H), N.
  cbn in H. apply andb_true_iff in H as [_ Hr].
  apply IH; auto.
  cbn [split_marker] in N. destruct (split_marker r) as [[]|]; congruence.
Qed.

Lemma version_match_split (s : string) :
  no_line_break s = true ->
  version_match s =
  match split_marker s with
  | Some (p, m) => Some (strip_trailing is_separator p, m)
  | None => None
  end.
Proof.
  intros H. destruct (split_marker s) as [[p m]|] eqn:E.
  - destruct s; [discriminate|].
    cbn [version_match]. rewrite (lazy_match_split _ H), E. reflexivity.
  - apply version_match_none; auto.
Qed.

Lemma split_marker_shape (s p m : string) :
  split_marker s = Some (p, m) ->
  exists v ds, m = String v ds /\ is_V v = true /\ all_chars is_digit ds = true.
Proof.
  revert p. induction s as [|c r IH]; [discriminate|].
  intros p. cbn [split_marker].
  destruct (split_marker r) as [[p' m']|] eqn:E.
  - intros [= <- <-]. eauto.
  - unfold marker_here.
    destruct (is_V c && negb (is_empty r) && all_chars is_digit r) eqn:C; [|discriminate].
    intros [= <- <-]. apply andb_true_iff in C as [C1 C2].
    apply andb_true_iff in C1 as [C1 _]. eauto.
Qed.

Lemma split_marker_prefix_head (f : ascii -> bool) (s p m : string) :
  split_marker s = Some (p, m) -> head_is f s = false -> head_is f p = false.
Proof.
  destruct s as [|c r]; [discriminate|]. cbn [split_marker].
  destruct (split_marker r) as [[p' m']|].
  - intros [= <- <-]. auto.
  - destruct (marker_here (String c r)); [|discriminate]. intros [= <- <-]. auto.
Qed.

Lemma upper_digits (s : string) :
  all_chars is_digit s = true -> toUpperCase s = s.
Proof.
  induction s as [|c r IH]; simpl; auto.
  intros H. apply andb_true_iff in H as [Hc Hr]. rewrite (IH Hr). f_equal.
  destruct c as [[] [] [] [] [] [] [] []]; vm_compute in Hc; try discriminate; reflexivity.
Qed.

Lemma strip_marker_all_separators (s p m : string) :
  split_marker s = Some (p, m) -> all_chars is_separator p = true ->
  strip_marker s = EmptyString.
Proof.
  intros E A. destruct s; [reflexivity|].
  cbn [strip_marker]. rewrite tail_match_split, E, A. reflexivity.
Qed.

Lemma trim_stripped (p : string) :
  head_is is_space p = false ->
  trim (strip_trailing is_separator p) = strip_trailing is_separator p.
Proof.
  intros H. unfold trim.
  rewrite strip_leading_id.
  - set (q := strip_trailing is_separator p).
    assert (Hq : strip_trailing is_separator q = q) by apply strip_trailing_idem.
    clearbody q. induction q as [|c r IH]; [reflexivity|].
    cbn [strip_trailing] in *.
    destruct (is_empty (strip_trailing is_separator r) && is_separator c) eqn:E;
      [discriminate|].
    injection Hq as Hr. rewrite (IH Hr).
    destruct (is_empty r && is_space c) eqn:E'; auto.
    apply andb_true_iff in E' as [E1 E2].
    apply is_empty_true in E1. subst r. cbn in E.
    unfold is_separator in E. rewrite E2 in E. discriminate.
  - destruct p as [|c r]; [reflexivity|]. cbn [strip_trailing].
    destruct (is_empty (strip_trailing is_separator r) && is_separator c); auto.
Qed.

End CottonVersionFacts.

(** C4 (as the code has it).  For a blend code without line breaks,
    [parseCottonVersion] follows the rules of the specification in their
    order: an empty or null code gives the group key ["__NO_VERSION__"] and
    no version; a code of the form <2 digits>_<2 digits>_V<digits> gives the
    two digit fields joined by "_" and the digits as version; otherwise a
    trailing marker V<digits> gives the prefix without its trailing
    separators as group key, or the whole upper-cased, trimmed code when
    that prefix is empty, and the digits as version; otherwise the group
    key is the whole upper-cased, trimmed code and there is no version. *)
Theorem parseCottonVersion_rules (cottonVersionValue : jsval) :
  Described.no_line_break (toUpperCase (trim (ToString cottonVersionValue))) = true ->
  parseCottonVersion cottonVersionValue = Described.parse cottonVersionValue.
Proof.
  intros H. unfold parseCottonVersion, Described.parse.
  destruct (negb (truthy cottonVersionValue)); [reflexivity|].
  set (t := toUpperCase (trim (ToString cottonVersionValue))) in *.
  destruct (is_empty t) eqn:Et; [reflexivity|].
  destruct (match_yy_ul_vn t) as [[[yy ul] vn]|]; [reflexivity|].
  rewrite (version_match_split _ H).
  destruct (Described.split_marker t) as [[p m]|] eqn:E; [|reflexivity].
  assert (Hp : head_is is_space p = false).
  { apply (split_marker_prefix_head _ t p m E).
    unfold t. rewrite toUpperCase_head. apply trim_head. }
  rewrite strip_trailing_idem, (trim_stripped _ Hp).
  destruct (split_marker_shape _ _ _ E) as (v & ds & -> & Hv & Hds).
  cbn [toUpperCase marker_digits]. rewrite (upper_digits _ Hds).
  destruct (is_empty (strip_trailing is_separator p)) eqn:Ek;
    [|rewrite ?Ek; reflexivity].
  apply is_empty_true in Ek. apply strip_trailing_empty in Ek.
  rewrite (strip_marker_all_separators _ _ _ E Ek). reflexivity.
Qed.

(** The three codes the specification lists, and a code of each other rule. *)
Lemma parseCottonVersion_rules_witness :
  Described.no_line_break (toUpperCase (trim (ToString (VStr "ABC-V10")))) = true
  /\ parseCottonVersion (VStr "ABC-V10") = Described.parse (VStr "ABC-V10")
  /\ Described.parse (VStr "ABC-V10") = CottonVersion.mk "ABC" (Some 10) (Some "ABC-V10").
Proof.
  split; [reflexivity|].
  split; [apply parseCottonVersion_rules; reflexivity | reflexivity].
Defined.

(** C4 (as stated): a bare marker has an empty prefix, and its group key is
    not that prefix but the whole code. *)
Lemma parseCottonVersion_bare_marker :
  exists prefix separators digits,
    "V2" = prefix ++ separators ++ "V" ++ digits
    /\ all_chars is_separator separators = true
    /\ all_chars is_digit digits = true
    /\ groupKey (parseCottonVersion (VStr "V2"))
       <> strip_trailing is_separator prefix.
Proof.
  exists "", "", "2". repeat split; try reflexivity. discriminate.
Qed.

Example parse_25_31_V2 :
  parseCottonVersion (VStr "25_31_V2") = CottonVersion.mk "25_31" (Some 2) (Some "25_31_V2").
Proof. reflexivity. Qed.

Example parse_ABC_V10 :
  parseCottonVersion (VStr "ABC-V10") = CottonVersion.mk "ABC" (Some 10) (Some "ABC-V10").
Proof. reflexivity. Qed.

Example parse_empty :
  parseCottonVersion (VStr "") = NO_VERSION /\ parseCottonVersion VNull = NO_VERSION.
Proof. split; reflexivity. Qed.

Example parse_lower_case :
  parseCottonVersion (VStr " abc / v7 ") = CottonVersion.mk "ABC" (Some 7) (Some "ABC / V7").
Proof. reflexivity. Qed.

Example parse_no_marker :
  parseCottonVersion (VStr "shankar") = CottonVersion.mk "SHANKAR" None (Some "SHANKAR").
Proof. reflexivity. Qed.

(** ** Period bucketing *)

Section PeriodFacts.

Context `{Platform}.

Import Described.

Lemma civil_from_days_range (days : Z) :
  1 <= month (civil_from_days days) <= 12
  /\ 1 <= day (civil_from_days days) <= 31.
Proof.
  unfold civil_from_days. cbv zeta. cbn [month day].
  set (z := days + 719468).
  set (doe := z - z / 146097 * 146097).
  assert (Hdoe : 0 <= doe <= 146096).
  { unfold doe. Z.div_mod_to_equations. lia. }
  clearbody doe. clear z.
  set (yoe := (doe - doe / 1460 + doe / 36524 - doe / 146096) / 365).
  set (doy := doe - (365 * yoe + yoe / 4 - yoe / 100)).
  assert (Hdoy : 0 <= doy <= 365).
  { unfold doy, yoe. Z.div_mod_to_equations. lia. }
  clearbody doy. clear yoe.
  set (mp := (5 * doy + 2) / 153).
  assert (Hmp : 0 <= mp <= 11 /\ 1 <= doy - (153 * mp + 2) / 5 + 1 <= 31).
  { unfold mp. Z.div_mod_to_equations. lia. }
  destruct Hmp as [Hmp Hd]. split; [|exact Hd].
  destruct (mp <? 10) eqn:E; [apply Z.ltb_lt in E | apply Z.ltb_ge in E]; lia.
Qed.

Lemma digit_cases (d : Z) :
  0 <= d <= 9 ->
  d = 0 \/ d = 1 \/ d = 2 \/ d = 3 \/ d = 4 \/ d = 5 \/ d = 6 \/ d = 7 \/ d = 8 \/ d = 9.
Proof. lia. Qed.

Ltac each_digit d H :=
  destruct (digit_cases d H) as [->|[->|[->|[->|[->|[->|[->|[->|[->| ->]]]]]]]]].

Lemma is_digit_digit_char (d : Z) : 0 <= d <= 9 -> is_digit (digit_char d) = true.
Proof. intros Hd. each_digit d Hd; reflexivity. Qed.

Lemma code_digit_char (d : Z) : 0 <= d <= 9 -> code (digit_char d) = 48 + d.
Proof. intros Hd. each_digit d Hd; reflexivity. Qed.

Lemma digit_not_space (c : ascii) : is_digit c = true -> is_space c = false.
Proof.
  destruct c as [[] [] [] [] [] [] [] []]; vm_compute; congruence.
Qed.

Lemma strip_trailing_none (f : ascii -> bool) (s : string) :
  all_chars (fun c => negb (f c)) s = true -> strip_trailing f s = s.
Proof.
  induction s as [|c r IH]; simpl; auto.
  intros Hs. apply andb_true_iff in Hs as [Hc Hr].
  rewrite (IH Hr). apply negb_true_iff in Hc. rewrite Hc, andb_false_r. reflexivity.
Qed.

Lemma all_chars_impl (f g : ascii -> bool) (s : string) :
  (forall c, f c = true -> g c = true) ->
  all_chars f s = true -> all_chars g s = true.
Proof.
  intros Hfg. induction s as [|c r IH]; simpl; auto.
  intros Hs. apply andb_true_iff in Hs as [Hc Hr].
  rewrite (Hfg _ Hc), (IH Hr). reflexivity.
Qed.

Lemma trim_digits (s : string) : all_chars is_digit s = true -> trim s = s.
Proof.
  intros Hs. unfold trim.
  rewrite strip_leading_id.
  - apply strip_trailing_none.
    apply (all_chars_impl is_digit); auto.
    intros c Hc. rewrite (digit_not_space c Hc). reflexivity.
  - destruct s as [|c r]; [reflexivity|]. simpl in *.
    apply andb_true_iff in Hs as [Hc _]. apply digit_not_space, Hc.
Qed.

Lemma split_dot_digits (s : string) :
  all_chars is_digit s = true -> split_dot s = (s, None).
Proof.
  induction s as [|c r IH]; simpl; auto.
  intros Hs. apply andb_true_iff in Hs as [Hc Hr]. rewrite (IH Hr).
  assert ((code c =? 46) = false) as ->; [|reflexivity].
  destruct c as [[] [] [] [] [] [] [] []]; vm_compute in Hc; try discriminate; reflexivity.
Qed.

(** [Number] of a string of digits is the integer it spells. *)
Lemma StringToNumber_digits (s : string) :
  all_chars is_digit s = true -> is_empty s = false ->
  StringToNumber s = Fin (inject_Z (parseInt10 s)).
Proof.
  intros Hs Hne. unfold StringToNumber. rewrite (trim_digits s Hs).
  destruct s as [|c r]; [discriminate|].
  assert (Hc : is_digit c = true) by (simpl in Hs; apply andb_true_iff in Hs; tauto).
  assert ((code c =? 45) = false) as ->.
  { destruct c as [[] [] [] [] [] [] [] []]; vm_compute in Hc; try discriminate; reflexivity. }
  assert ((code c =? 43) = false) as ->.
  { destruct c as [[] [] [] [] [] [] [] []]; vm_compute in Hc; try discriminate; reflexivity. }
  unfold unsigned_decimal. rewrite (split_dot_digits _ Hs), Hs. reflexivity.
Qed.

Lemma decimal_digits_last (fuel : nat) (z : Z) (acc : string) :
  0 <= z < 10 ->
  decimal_digits (S fuel) z acc = String (digit_char z) acc.
Proof.
  intros Hz. cbn [decimal_digits].
  rewrite Z.mod_small by lia.
  destruct (z <? 10) eqn:E; [reflexivity|]. apply Z.ltb_ge in E. lia.
Qed.

Lemma decimal_digits_more (fuel : nat) (z : Z) (acc : string) :
  10 <= z ->
  decimal_digits (S fuel) z acc
  = decimal_digits fuel (z / 10) (String (digit_char (z mod 10)) acc).
Proof.
  intros Hz. cbn [decimal_digits].
  destruct (z <? 10) eqn:E; [apply Z.ltb_lt in E; lia | reflexivity].
Qed.

Lemma decimal_nonneg (z : Z) :
  0 <= z ->
  decimal z = decimal_digits (S (Z.to_nat (Z.log2 z))) z EmptyString.
Proof.
  intros Hz. unfold decimal. rewrite Z.abs_eq by lia.
  destruct (z <? 0) eqn:E; [apply Z.ltb_lt in E; lia | reflexivity].
Qed.

Lemma decimal_one (z : Z) : 0 <= z <= 9 -> decimal z = one_digit z.
Proof.
  intros Hz. rewrite decimal_nonneg by lia. apply decimal_digits_last. lia.
Qed.

Lemma decimal_two (z : Z) : 10 <= z <= 99 -> decimal z = two_digits z.
Proof.
  intros Hz. rewrite decimal_nonneg by lia.
  assert (Hl : 3 <= Z.log2 z) by (apply (Z.log2_le_mono 10 z); lia).
  destruct (Z.to_nat (Z.log2 z)) as [|n] eqn:En; [lia|].
  rewrite decimal_digits_more by lia.
  rewrite decimal_digits_last by (Z.div_mod_to_equations; lia).
  reflexivity.
Qed.

Lemma decimal_four (z : Z) : 1000 <= z <= 9999 -> decimal z = four_digits z.
Proof.
  intros Hz. rewrite decimal_nonneg by lia.
  assert (Hl : 9 <= Z.log2 z) by (apply (Z.log2_le_mono 1000 z); lia).
  destruct (Z.to_nat (Z.log2 z)) as [|[|[|n]]] eqn:En; try lia.
  rewrite !decimal_digits_more by (Z.div_mod_to_equations; lia).
  rewrite decimal_digits_last by (Z.div_mod_to_equations; lia).
  rewrite !Z.div_div by lia. reflexivity.
Qed.

Lemma padStart2 (z : Z) : 0 <= z <= 99 -> padStart0 2 (decimal z) = two_digits z.
Proof.
  intros Hz. destruct (Z_lt_le_dec z 10) as [Hs|Hb].
  - rewrite decimal_one by lia. unfold two_digits.
    rewrite Z.div_small, Z.mod_small by lia. reflexivity.
  - rewrite decimal_two by lia. reflexivity.
Qed.

Lemma padStart4 (z : Z) : 0 <= z <= 9999 -> padStart0 4 (decimal z) = four_digits z.
Proof.
  intros Hz. unfold four_digits.
  destruct (Z_lt_le_dec z 10) as [H1|H1].
  { rewrite decimal_one by lia.
    rewrite (Z.div_small z 1000), (Z.div_small z 100), (Z.div_small z 10) by lia.
    rewrite (Z.mod_small z 10) by lia. reflexivity. }
  destruct (Z_lt_le_dec z 100) as [H2|H2].
  { rewrite decimal_two by lia. unfold two_digits.
    rewrite (Z.div_small z 1000), (Z.div_small z 100) by lia.
    rewrite (Z.mod_small (z / 10) 10) by (Z.div_mod_to_equations; lia). reflexivity. }
  destruct (Z_lt_le_dec z 1000) as [H3|H3].
  { rewrite decimal_nonneg by lia.
    assert (Hl : 6 <= Z.log2 z) by (apply (Z.log2_le_mono 100 z); lia).
    destruct (Z.to_nat (Z.log2 z)) as [|[|n]] eqn:En; try lia.
    rewrite !decimal_digits_more by (Z.div_mod_to_equations; lia).
    rewrite decimal_digits_last by (Z.div_mod_to_equations; lia).
    rewrite (Z.div_small z 1000) by lia.
    rewrite !Z.div_div by lia. change (10 * 10) with 100.
    rewrite (Z.mod_small (z / 100) 10) by (Z.div_mod_to_equations; lia).
    reflexivity. }
  rewrite decimal_four by lia. reflexivity.
Qed.

Lemma week_of_day (d : Z) :
  1 <= d <= 31 ->
  1 <= Math_ceil (inject_Z d / 7) <= 5
  /\ 7 * (Math_ceil (inject_Z d / 7) - 1) < d <= 7 * Math_ceil (inject_Z d / 7).
Proof.
  intros Hd. unfold Math_ceil, Qceiling, Qfloor, Qdiv, Qmult, Qinv, Qopp, inject_Z.
  cbn [Qnum Qden]. rewrite Z.mul_1_r. cbn [Pos.mul].
  change (Z.pos 7) with 7. Z.div_mod_to_equations. lia.
Qed.

End PeriodFacts.

Section PeriodDescriptor.

Context `{Platform}.

Import Described Period.

Lemma four_digits_value (y : Z) :
  1000 <= y <= 9999 ->
  exists a b c d,
    (0 <= a <= 9 /\ 0 <= b <= 9 /\ 0 <= c <= 9 /\ 0 <= d <= 9)
    /\ y = 1000 * a + 100 * b + 10 * c + d
    /\ four_digits y
       = String (digit_char a) (String (digit_char b)
           (String (digit_char c) (String (digit_char d) EmptyString))).
Proof.
  intros Hy.
  exists (y / 1000), (y / 100 mod 10), (y / 10 mod 10), (y mod 10).
  repeat split; try reflexivity; Z.div_mod_to_equations; lia.
Qed.

Lemma two_digits_value (m : Z) :
  0 <= m <= 99 ->
  exists e f,
    (0 <= e <= 9 /\ 0 <= f <= 9)
    /\ m = 10 * e + f
    /\ two_digits m = String (digit_char e) (String (digit_char f) EmptyString).
Proof.
  intros Hm. exists (m / 10), (m mod 10).
  repeat split; try reflexivity; Z.div_mod_to_equations; lia.
Qed.

Ltac digit_facts :=
  repeat match goal with
         | |- context [is_digit (digit_char ?d)] =>
             rewrite (is_digit_digit_char d) by lia
         | |- context [code (digit_char ?d)] =>
             rewrite (code_digit_char d) by lia
         end.

Lemma monthly_descriptor (a b c d e f : Z) (l : string) :
  0 <= a <= 9 -> 0 <= b <= 9 -> 0 <= c <= 9 -> 0 <= d <= 9 ->
  0 <= e <= 9 -> 0 <= f <= 9 ->
  l = String (digit_char a) (String (digit_char b) (String (digit_char c)
        (String (digit_char d) (String "-" (String (digit_char e)
           (String (digit_char f) EmptyString)))))) ->
  match_monthly l
  = Some (String (digit_char a) (String (digit_char b) (String (digit_char c)
            (String (digit_char d) EmptyString))),
          String (digit_char e) (String (digit_char f) EmptyString))
  /\ StringToNumber
       (String (digit_char a) (String (digit_char b) (String (digit_char c)
          (String (digit_char d) (String (digit_char e)
             (String (digit_char f) EmptyString))))))
     = Fin (inject_Z ((1000 * a + 100 * b + 10 * c + d) * 100 + (10 * e + f))).
Proof.
  intros Ha Hb Hc Hd He Hf ->. split.
  - unfold match_monthly. digit_facts. reflexivity.
  - rewrite StringToNumber_digits.
    + unfold parseInt10. cbn [parse_digits_from]. digit_facts.
      do 2 f_equal. lia.
    + cbn [all_chars]. digit_facts. reflexivity.
    + reflexivity.
Qed.

Lemma weekly_descriptor (a b c d e f n : Z) (l : string) :
  0 <= a <= 9 -> 0 <= b <= 9 -> 0 <= c <= 9 -> 0 <= d <= 9 ->
  0 <= e <= 9 -> 0 <= f <= 9 -> 0 <= n <= 9 ->
  l = String (digit_char a) (String (digit_char b) (String (digit_char c)
        (String (digit_char d) (String "-" (String (digit_char e)
           (String (digit_char f) (String "-" (String "W"
              (String (digit_char n) EmptyString))))))))) ->
  match_weekly l
  = Some (String (digit_char a) (String (digit_char b) (String (digit_char c)
            (String (digit_char d) EmptyString))),
          String (digit_char e) (String (digit_char f) EmptyString),
          String (digit_char n) EmptyString)
  /\ StringToNumber
       (String (digit_char a) (String (digit_char b) (String (digit_char c)
          (String (digit_char d) (String (digit_char e)
             (String (digit_char f) (String "0"
                (String (digit_char n) EmptyString))))))))
     = Fin (inject_Z ((1000 * a + 100 * b + 10 * c + d) * 10000
                      + (10 * e + f) * 100 + n)).
Proof.
  intros Ha Hb Hc Hd He Hf Hn ->. split.
  - unfold match_weekly. cbn [all_chars String.length]. digit_facts. reflexivity.
  - rewrite StringToNumber_digits.
    + unfold parseInt10. cbn [parse_digits_from]. digit_facts.
      change (code "0") with 48. do 2 f_equal. lia.
    + cbn [all_chars]. digit_facts. reflexivity.
    + reflexivity.
Qed.

End PeriodDescriptor.

(** C5.  An absent or unparseable date has the descriptor
    {null, null, null} whatever the report type.  A valid date is
    bucketed from its calendar fields: daily, the label (and sort key) is
    YYYY-MM-DD of the UTC date; monthly, label and sort key are YYYY-MM of
    the local date and the sort value is the integer YYYYMM; weekly, the
    label is YYYY-MM-W<n> with n = ceil(day_of_month / 7), that is
    7 (n - 1) < day <= 7 n, the sort key is YYYY-MM-<n padded to two
    digits> and the sort value is the integer spelled by year, month and
    padded week.  YYYY stands for a year of four digits. *)
Theorem period_bucketing `{Platform} (issueDate : jsval) :
  (truthy issueDate = false \/ getTime issueDate = None ->
   forall reportType : string,
     Period.buildPeriodDescriptor issueDate reportType = Period.no_period)
  /\
  (forall t : Z,
     truthy issueDate = true -> getTime issueDate = Some t ->
     (0 <= year (utc_date t) <= 9999 ->
      let label :=
        Described.four_digits (year (utc_date t)) ++ "-"
        ++ Described.two_digits (month (utc_date t)) ++ "-"
        ++ Described.two_digits (day (utc_date t)) in
      Period.label (Period.buildPeriodDescriptor issueDate "daily") = Some label
      /\ Period.sortKey (Period.buildPeriodDescriptor issueDate "daily") = Some label)
     /\
     (1000 <= year (local_date t) <= 9999 ->
      let yyyy := Described.four_digits (year (local_date t)) in
      let mm := Described.two_digits (month (local_date t)) in
      Period.buildPeriodDescriptor issueDate "monthly"
      = {| Period.label := Some (yyyy ++ "-" ++ mm);
           Period.sortKey := Some (yyyy ++ "-" ++ mm);
           Period.sortValue :=
             Some (Fin (inject_Z (year (local_date t) * 100 + month (local_date t)))) |}
      /\
      exists n : Z,
        (1 <= n <= 5 /\ 7 * (n - 1) < day (local_date t) <= 7 * n)
        /\ Period.buildPeriodDescriptor issueDate "weekly"
           = {| Period.label := Some (yyyy ++ "-" ++ mm ++ "-W" ++ Described.one_digit n);
                Period.sortKey := Some (yyyy ++ "-" ++ mm ++ "-" ++ Described.two_digits n);
                Period.sortValue :=
                  Some (Fin (inject_Z (year (local_date t) * 10000
                                       + month (local_date t) * 100 + n))) |})).
Proof.
  split.
  - intros Hd reportType. unfold Period.buildPeriodDescriptor, Period.formatter.
    assert (Period.daily issueDate = None
            /\ Period.weekly issueDate = None
            /\ Period.monthly issueDate = None) as (Ed & Ew & Em).
    { unfold Period.daily, Period.weekly, Period.monthly.
      destruct Hd as [-> | ->]; simpl; repeat split;
        destruct (truthy issueDate); reflexivity. }
    destruct (String.eqb reportType "weekly"); [rewrite Ew; reflexivity|].
    destruct (String.eqb reportType "monthly"); [rewrite Em | rewrite Ed]; reflexivity.
  - intros t Ht Hg. split.
    + intros Hy label.
      destruct (civil_from_days_range (t / msPerDay)) as [Hm Hd].
      fold (utc_date t) in Hm, Hd.
      unfold Period.buildPeriodDescriptor, Period.formatter. cbn [String.eqb Ascii.eqb Bool.eqb].
      unfold Period.daily. rewrite Ht, Hg. cbn [negb].
      unfold iso_date_part, iso_year.
      destruct ((0 <=? year (utc_date t)) && (year (utc_date t) <=? 9999)) eqn:E.
      2:{ apply andb_false_iff in E as [E|E]; [apply Z.leb_gt in E | apply Z.leb_gt in E]; lia. }
      rewrite padStart4, !padStart2 by lia.
      split; reflexivity.
    + intros Hy yyyy mm.
      destruct (civil_from_days_range ((t + timezone_offset t) / msPerDay)) as [Hm Hd].
      fold (local_date t) in Hm, Hd.
      destruct (four_digits_value _ Hy) as (a & b & c & d & (Ha & Hb & Hc & Hdd) & Ey & E4).
      destruct (two_digits_value (month (local_date t))) as (e & f & (He & Hf) & Emv & E2);
        [lia|].
      split.
      * unfold Period.buildPeriodDescriptor, Period.formatter.
        cbn [String.eqb Ascii.eqb Bool.eqb].
        unfold Period.monthly. rewrite Ht, Hg. cbn [negb].
        rewrite decimal_four, padStart2 by lia.
        subst yyyy mm. rewrite E4, E2. cbn [append is_empty].
        destruct (monthly_descriptor a b c d e f _ Ha Hb Hc Hdd He Hf eq_refl) as [-> Hn].
        cbn [append]. rewrite Hn, Ey, Emv. reflexivity.
      * destruct (week_of_day _ Hd) as [Hn1 Hn2].
        exists (Math_ceil (inject_Z (day (local_date t)) / 7)).
        split; [split; assumption|].
        set (n := Math_ceil (inject_Z (day (local_date t)) / 7)) in *.
        unfold Period.buildPeriodDescriptor, Period.formatter.
        cbn [String.eqb Ascii.eqb Bool.eqb].
        unfold Period.weekly. rewrite Ht, Hg. cbn [negb]. fold n.
        rewrite decimal_four, padStart2, (decimal_one n) by lia.
        subst yyyy mm. rewrite E4, E2. unfold Described.one_digit, Described.two_digits.
        cbn [append is_empty].
        destruct (weekly_descriptor a b c d e f n _ Ha Hb Hc Hdd He Hf ltac:(lia) eq_refl)
          as [-> Hn].
        cbn [append padStart0 String.length Nat.sub repeat string_of_list_ascii].
        rewrite Hn, Ey, Emv.
        rewrite (Z.div_small n 10), (Z.mod_small n 10) by lia.
        reflexivity.
Qed.

(** The date of the specification, 2024-01-31, on the reference platform. *)
Lemma period_bucketing_witness :
  Period.label (@Period.buildPeriodDescriptor Reference.platform (VStr "2024-01-31") "daily")
  = Some "2024-01-31"
  /\ Period.label (@Period.buildPeriodDescriptor Reference.platform (VStr "2024-01-31") "monthly")
     = Some "2024-01"
  /\ Period.label (@Period.buildPeriodDescriptor Reference.platform (VStr "2024-01-31") "weekly")
     = Some "2024-01-W5".
Proof.
  destruct (@period_bucketing Reference.platform (VStr "2024-01-31")) as [_ Hv].
  destruct (Hv 1706659200000 eq_refl eq_refl) as [Hdaily Hlocal].
  destruct (Hdaily ltac:(vm_compute; split; discriminate)) as [Hl _].
  destruct (Hlocal ltac:(vm_compute; split; discriminate)) as [Hmonthly (n & (Hn & Hw) & Hweekly)].
  split; [exact Hl|]. split; [rewrite Hmonthly; reflexivity|].
  rewrite Hweekly. cbn [Period.label].
  assert (n = 5) as ->.
  { change (day (@local_date Reference.platform 1706659200000)) with 31 in Hw. lia. }
  reflexivity.
Defined.

Example bucket_2024_01_31_weekly :
  @Period.buildPeriodDescriptor Reference.platform (VStr "2024-01-31") "weekly"
  = {| Period.label := Some "2024-01-W5";
       Period.sortKey := Some "2024-01-05";
       Period.sortValue := Some (Fin (inject_Z 20240105)) |}.
Proof. reflexivity. Qed.

Example bucket_unparseable :
  @Period.buildPeriodDescriptor Reference.platform (VStr "soon") "weekly" = Period.no_period.
Proof. reflexivity. Qed.

(** ** Numbers *)

Section NumberFacts.

Lemma Qlt_bool_iff (x y : Q) : Qlt_bool x y = true <-> (x < y)%Q.
Proof.
  unfold Qlt_bool. rewrite negb_true_iff.
  destruct (Qle_bool y x) eqn:E.
  - apply Qle_bool_iff in E. split; [discriminate | intros L; lra].
  - split; [intros _ | reflexivity].
    destruct (Qlt_le_dec x y) as [L|L]; [exact L|].
    apply Qle_bool_iff in L. congruence.
Qed.

Lemma Qlt_bool_false (x y : Q) : Qlt_bool x y = false <-> (y <= x)%Q.
Proof.
  unfold Qlt_bool. rewrite negb_false_iff. apply Qle_bool_iff.
Qed.

Lemma Qle_bool_proper (x y x' y' : Q) :
  x == x' -> y == y' -> Qle_bool x y = Qle_bool x' y'.
Proof.
  intros Ex Ey.
  destruct (Qle_bool x y) eqn:E1, (Qle_bool x' y') eqn:E2; auto.
  - apply Qle_bool_iff in E1. rewrite Ex, Ey in E1. apply Qle_bool_iff in E1. congruence.
  - apply Qle_bool_iff in E2. rewrite <- Ex, <- Ey in E2. apply Qle_bool_iff in E2. congruence.
Qed.

Lemma round_half_away_proper (x y : Q) :
  x == y -> round_half_away x = round_half_away y.
Proof.
  intros E. unfold round_half_away.
  rewrite (Qle_bool_proper 0 x 0 y) by (auto; reflexivity).
  destruct (Qle_bool 0 y); [|f_equal]; apply Qfloor_comp; rewrite E; reflexivity.
Qed.

Lemma toFixed2_proper (x y : Q) : x == y -> toFixed2 x = toFixed2 y.
Proof.
  intros E. unfold toFixed2. f_equal. apply round_half_away_proper.
  rewrite E. reflexivity.
Qed.

Lemma Qsum_from (l : list Q) (a : Q) : (fold_left Qplus l a == a + Qsum l)%Q.
Proof.
  unfold Qsum. revert a. induction l as [|x l IH]; intros a; simpl.
  - lra.
  - rewrite IH, (IH (0 + x)%Q). lra.
Qed.

Lemma Qsum_cons (x : Q) (l : list Q) : (Qsum (x :: l) == x + Qsum l)%Q.
Proof. unfold Qsum at 1. simpl. rewrite Qsum_from. lra. Qed.

End NumberFacts.

(** ** Rounding to the nearest double *)

Ltac hide_pow2 :=
  repeat match goal with
         | |- context [Binary64.pow2 ?k] =>
             let x := fresh "P" in set (x := Binary64.pow2 k) in *; clearbody x
         | H : context [Binary64.pow2 ?k] |- _ =>
             let x := fresh "P" in set (x := Binary64.pow2 k) in *; clearbody x
         end.
Ltac plra := hide_pow2; lra.
Ltac pnra := hide_pow2; nra.

Section Binary64Facts.

Import Binary64.


Lemma two_nonzero : ~ (2 == 0)%Q.
Proof. discriminate. Qed.

Lemma pow2_pos (k : Z) : (0 < pow2 k)%Q.
Proof. apply Qpower_0_lt. reflexivity. Qed.

Lemma pow2_add (a b : Z) : (pow2 (a + b) == pow2 a * pow2 b)%Q.
Proof. apply Qpower_plus, two_nonzero. Qed.

Lemma pow2_succ (a : Z) : (pow2 (a + 1) == 2 * pow2 a)%Q.
Proof. rewrite pow2_add. change (pow2 1) with 2%Q. ring. Qed.

Lemma pow2_pred (a : Z) : (pow2 a == 2 * pow2 (a - 1))%Q.
Proof. rewrite <- pow2_succ. replace (a - 1 + 1) with a by lia. reflexivity. Qed.

Lemma pow2_lt (a b : Z) : a < b -> (pow2 a < pow2 b)%Q.
Proof. intros H. apply Qpower_lt_compat_l; [exact H | reflexivity]. Qed.

Lemma pow2_le (a b : Z) : a <= b -> (pow2 a <= pow2 b)%Q.
Proof. intros H. apply Qpower_le_compat_l; [exact H | discriminate]. Qed.

Lemma pow2_lt_inv (a b : Z) : (pow2 a < pow2 b)%Q -> a < b.
Proof. intros H. apply (Qpower_lt_compat_l_inv 2); [exact H | reflexivity]. Qed.

Lemma pow2_Z (k : Z) : 0 <= k -> (pow2 k == inject_Z (2 ^ k))%Q.
Proof. intros H. rewrite Zpower_Qpower by exact H. reflexivity. Qed.

(** The binade of a positive rational. *)
Lemma ilog2_spec (q : Q) :
  (0 < q)%Q -> (pow2 (ilog2 q) <= q)%Q /\ (q < pow2 (ilog2 q + 1))%Q.
Proof.
  intros Hq. destruct q as [n d]. unfold ilog2. cbn [Qnum Qden].
  assert (Hn : 0 < n) by (unfold Qlt in Hq; cbn in Hq; lia).
  pose proof (Z.log2_spec n Hn) as [Hn1 Hn2].
  pose proof (Z.log2_spec (Zpos d) (Pos2Z.is_pos d)) as [Hd1 Hd2].
  pose proof (Z.log2_nonneg n) as Ha. pose proof (Z.log2_nonneg (Zpos d)) as Hb.
  set (a := Z.log2 n) in *. set (b := Z.log2 (Zpos d)) in *.
  assert (Eq : (n # d) * inject_Z (Zpos d) == inject_Z n).
  { unfold Qeq, Qmult, inject_Z. cbn. lia. }
  assert (HA : (pow2 a <= inject_Z n)%Q /\ (inject_Z n < 2 * pow2 a)%Q).
  { rewrite <- pow2_succ, !pow2_Z by lia. rewrite <- Zle_Qle, <- Zlt_Qlt.
    replace (a + 1) with (Z.succ a) by lia. auto. }
  assert (HB : (pow2 b <= inject_Z (Zpos d))%Q /\ (inject_Z (Zpos d) < 2 * pow2 b)%Q).
  { rewrite <- pow2_succ, !pow2_Z by lia. rewrite <- Zle_Qle, <- Zlt_Qlt.
    replace (b + 1) with (Z.succ b) by lia. auto. }
  assert (Ek : (pow2 (a - b) * pow2 b == pow2 a)%Q).
  { rewrite <- pow2_add. replace (a - b + b) with a by lia. reflexivity. }
  pose proof (pow2_pos (a - b)) as Pk. pose proof (pow2_pos b) as Pb.
  pose proof (pow2_pos a) as Pa.
  assert (Pd : (0 < inject_Z (Zpos d))%Q) by (rewrite <- (Zlt_Qlt 0); lia).
  destruct HA as [HA1 HA2]. destruct HB as [HB1 HB2].
  set (D := inject_Z (Zpos d)) in *. set (N := inject_Z n) in *.
  set (K := pow2 (a - b)) in *. set (A := pow2 a) in *. set (B := pow2 b) in *.
  destruct (Qle_bool K (n # d)) eqn:E.
  - apply Qle_bool_iff in E. split; [exact E|].
    rewrite pow2_succ. fold K.
    apply (Qmult_lt_r _ _ D Pd). rewrite Eq. nra.
  - assert (E' : ((n # d) < K)%Q).
    { destruct (Qlt_le_dec (n # d) K) as [L|L]; [exact L|].
      apply Qle_bool_iff in L. congruence. }
    replace (a - b - 1 + 1) with (a - b) by lia. fold K. split; [|exact E'].
    assert (EK : (K == 2 * pow2 (a - b - 1))%Q) by apply pow2_pred.
    apply (Qmult_le_r _ _ D Pd). rewrite Eq. nra.
Qed.

Lemma ilog2_unique (q : Q) (e : Z) :
  (pow2 e <= q)%Q -> (q < pow2 (e + 1))%Q -> ilog2 q = e.
Proof.
  intros H1 H2.
  assert (Hq : (0 < q)%Q).
  { eapply Qlt_le_trans; [apply (pow2_pos e) | exact H1]. }
  destruct (ilog2_spec q Hq) as [H3 H4].
  assert (ilog2 q < e + 1).
  { apply pow2_lt_inv. eapply Qle_lt_trans; eassumption. }
  assert (e < ilog2 q + 1).
  { apply pow2_lt_inv. eapply Qle_lt_trans; eassumption. }
  lia.
Qed.

Lemma ilog2_proper (x y : Q) : (0 < x)%Q -> (x == y)%Q -> ilog2 x = ilog2 y.
Proof.
  intros Hx E. symmetry. destruct (ilog2_spec x Hx) as [H1 H2].
  apply ilog2_unique; rewrite <- E; assumption.
Qed.

Lemma nearest_even_proper (x y : Q) : (x == y)%Q -> nearest_even x = nearest_even y.
Proof.
  intros E. unfold nearest_even.
  rewrite (Qfloor_comp _ _ E).
  assert (C : Qcompare (x - inject_Z (Qfloor y)) (1 # 2)
              = Qcompare (y - inject_Z (Qfloor y)) (1 # 2)).
  { apply Qcompare_comp; [rewrite E|]; reflexivity. }
  rewrite C. reflexivity.
Qed.

Lemma nearest_even_Z (z : Z) : nearest_even (inject_Z z) = z.
Proof.
  unfold nearest_even. rewrite Qfloor_Z.
  assert (C : Qcompare (inject_Z z - inject_Z z) (1 # 2) = Lt).
  { apply (proj1 (Qlt_alt _ _)). lra. }
  rewrite C. reflexivity.
Qed.

Lemma nearest_even_ge (x : Q) (k : Z) : (inject_Z k <= x)%Q -> k <= nearest_even x.
Proof.
  intros H. apply Qfloor_resp_le in H. rewrite Qfloor_Z in H.
  unfold nearest_even. destruct (Qcompare _ _); [destruct (Z.even _)| |]; lia.
Qed.

Lemma nearest_even_le (x : Q) (k : Z) : (x <= inject_Z k)%Q -> nearest_even x <= k.
Proof.
  intros H. unfold nearest_even.
  pose proof (Qfloor_le x) as Hf. pose proof (Qlt_floor x) as Hc.
  assert (Hfk : Qfloor x <= k).
  { apply Qfloor_resp_le in H. rewrite Qfloor_Z in H. exact H. }
  destruct (Z.eq_dec (Qfloor x) k) as [E|E].
  - (* x = k exactly *)
    assert (Ex : (x == inject_Z k)%Q) by (rewrite E in Hf; lra).
    rewrite <- E in Ex.
    assert (C : Qcompare (x - inject_Z (Qfloor x)) (1 # 2) = Lt).
    { apply (proj1 (Qlt_alt _ _)). lra. }
    rewrite C. lia.
  - destruct (Qcompare _ _); [destruct (Z.even _)| |]; lia.
Qed.

Lemma exponent_proper (x y : Q) : (0 < x)%Q -> (x == y)%Q -> exponent x = exponent y.
Proof. intros Hx E. unfold exponent. rewrite (ilog2_proper x y Hx E). reflexivity. Qed.

Lemma round_positive_proper (x y : Q) :
  (0 < x)%Q -> (x == y)%Q -> (round_positive x == round_positive y)%Q.
Proof.
  intros Hx E. unfold round_positive. rewrite (exponent_proper x y Hx E).
  rewrite (nearest_even_proper (x / pow2 (exponent y)) (y / pow2 (exponent y))).
  - reflexivity.
  - rewrite E. reflexivity.
Qed.

Lemma Qcompare_proper (x y : Q) : (x == y)%Q -> Qcompare x 0 = Qcompare y 0.
Proof. intros E. apply Qcompare_comp; [exact E | reflexivity]. Qed.

Lemma Qle_bool_abs_proper (b x y : Q) :
  (x == y)%Q -> Qle_bool b (Qabs x) = Qle_bool b (Qabs y).
Proof.
  intros E. destruct (Qle_bool b (Qabs x)) eqn:E1, (Qle_bool b (Qabs y)) eqn:E2; auto.
  - apply Qle_bool_iff in E1. rewrite E in E1. apply Qle_bool_iff in E1. congruence.
  - apply Qle_bool_iff in E2. rewrite <- E in E2. apply Qle_bool_iff in E2. congruence.
Qed.

Lemma round_nearest (q : Q) :
  round q = if Qle_bool (pow2 1024) (Qabs (nearest q)) then NaN else Fin (Qred (nearest q)).
Proof. reflexivity. Qed.

Lemma nearest_proper (x y : Q) : (x == y)%Q -> (nearest x == nearest y)%Q.
Proof.
  intros E. unfold nearest. rewrite <- (Qcompare_proper x y E).
  destruct (Qcompare x 0) eqn:C.
  - reflexivity.
  - apply Qlt_alt in C. rewrite (round_positive_proper (- x) (- y)).
    + reflexivity.
    + plra.
    + rewrite E. reflexivity.
  - apply Qgt_alt in C. apply round_positive_proper; [exact C | exact E].
Qed.

Lemma round_proper (x y : Q) : (x == y)%Q -> round x = round y.
Proof.
  intros E. rewrite !round_nearest.
  pose proof (nearest_proper x y E) as En.
  rewrite (Qle_bool_abs_proper _ _ _ En).
  rewrite (Qred_complete _ _ En). reflexivity.
Qed.

Lemma round_0 : round 0 = Fin 0.
Proof. reflexivity. Qed.

Lemma scaled_bounds (q : Q) :
  (0 < q)%Q ->
  let p := exponent q in
  -1074 <= p /\
  (0 < q / pow2 p)%Q /\
  ((p = ilog2 q - 52 /\ (inject_Z (2 ^ 52) <= q / pow2 p)%Q
    /\ (q / pow2 p < inject_Z (2 ^ 53))%Q)
   \/ (p = -1074 /\ (q / pow2 p < inject_Z (2 ^ 52))%Q)).
Proof.
  intros Hq p. destruct (ilog2_spec q Hq) as [H1 H2].
  pose proof (pow2_pos p) as Pp.
  assert (Hdiv : forall k, (pow2 (k + p) <= q -> inject_Z (2 ^ k) <= q / pow2 p)%Q).
  { intros k Hk. destruct (Z.le_gt_cases 0 k) as [Hk0|Hk0].
    - rewrite <- pow2_Z by exact Hk0. apply Qle_shift_div_l; [exact Pp|].
      rewrite <- pow2_add. exact Hk.
    - rewrite Z.pow_neg_r by lia. apply Qle_shift_div_l; [exact Pp|].
      change (inject_Z 0) with 0%Q. plra. }
  assert (Hdiv' : forall k, 0 <= k -> (q < pow2 (k + p) -> q / pow2 p < inject_Z (2 ^ k))%Q).
  { intros k Hk0 Hk. rewrite <- pow2_Z by exact Hk0. apply Qlt_shift_div_r; [exact Pp|].
    rewrite <- pow2_add. exact Hk. }
  split; [unfold p, exponent; lia|].
  split; [apply Qlt_shift_div_l; [exact Pp | plra]|].
  unfold p, exponent in *.
  destruct (Z.max_spec (ilog2 q - 52) (-1074)) as [[Hlt E]|[Hle E]]; rewrite E in *.
  - right. split; [reflexivity|]. apply Hdiv'; [lia|].
    eapply Qlt_le_trans; [exact H2|]. apply pow2_le. lia.
  - left. split; [reflexivity|]. split.
    + apply Hdiv. replace (52 + (ilog2 q - 52)) with (ilog2 q) by lia. exact H1.
    + apply Hdiv'; [lia|].
      replace (53 + (ilog2 q - 52)) with (ilog2 q + 1) by lia. exact H2.
Qed.

Lemma round_positive_canonical (q : Q) :
  (0 < q)%Q ->
  exists m p, round_positive q = (inject_Z m * pow2 p)%Q
              /\ (m = 0 \/ canonical m p).
Proof.
  intros Hq. exists (nearest_even (q / pow2 (exponent q))), (exponent q).
  split; [reflexivity|].
  destruct (scaled_bounds q Hq) as [Hp [Hpos [[Ep [Hlo Hhi]]|[Ep Hhi]]]].
  - right. split; [|split; [exact Hp|]].
    + split.
      * apply Z.le_trans with (2 ^ 52); [lia|]. apply nearest_even_ge, Hlo.
      * apply nearest_even_le. plra.
    + left. apply nearest_even_ge, Hlo.
  - assert (H0 : 0 <= nearest_even (q / pow2 (exponent q))).
    { apply nearest_even_ge. change (inject_Z 0) with 0%Q. plra. }
    assert (H1 : nearest_even (q / pow2 (exponent q)) <= 2 ^ 52).
    { apply nearest_even_le. plra. }
    destruct (Z.eq_dec (nearest_even (q / pow2 (exponent q))) 0) as [E|E]; [left; exact E|].
    right. split; [lia|]. split; [exact Hp|]. right. exact Ep.
Qed.

Lemma canonical_fixed (m p : Z) :
  canonical m p ->
  (round_positive (inject_Z m * pow2 p) == inject_Z m * pow2 p)%Q.
Proof.
  intros [[Hm1 Hm2] [Hp Hfull]].
  set (y := (inject_Z m * pow2 p)%Q).
  pose proof (pow2_pos p) as Pp.
  assert (Hm : 0 < m) by lia.
  pose proof (Z.log2_spec m Hm) as [HL1 HL2].
  pose proof (Z.log2_nonneg m) as HL0.
  set (L := Z.log2 m) in *.
  assert (Hlog : ilog2 y = L + p).
  { apply ilog2_unique; unfold y.
    - rewrite pow2_add, (pow2_Z L) by lia.
      apply Qmult_le_compat_r; [|plra]. rewrite <- Zle_Qle. exact HL1.
    - replace (L + p + 1) with (Z.succ L + p) by lia.
      rewrite pow2_add, (pow2_Z (Z.succ L)) by lia.
      apply Qmult_lt_compat_r; [exact Pp|]. rewrite <- Zlt_Qlt. exact HL2. }
  assert (HL53 : L <= 53).
  { destruct (Z.le_gt_cases L 53) as [H|H]; [exact H|].
    assert (2 ^ 54 <= 2 ^ L) by (apply Z.pow_le_mono_r; lia). lia. }
  unfold round_positive, exponent. rewrite Hlog.
  destruct (Z.eq_dec L 53) as [E53|N53].
  - (* the significand is 2^53 *)
    assert (Em : m = 2 ^ 53).
    { rewrite E53 in HL1. lia. }
    replace (Z.max (L + p - 52) (-1074)) with (p + 1) by lia.
    assert (Es : (y / pow2 (p + 1) == inject_Z (2 ^ 52))%Q).
    { unfold y. rewrite Em, pow2_succ. change (inject_Z (2 ^ 53)) with (2 * inject_Z (2 ^ 52))%Q.
      field. plra. }
    rewrite (nearest_even_proper _ _ Es), nearest_even_Z.
    unfold y. rewrite Em, pow2_succ. change (inject_Z (2 ^ 53)) with (2 * inject_Z (2 ^ 52))%Q.
    ring.
  - assert (Ee : Z.max (L + p - 52) (-1074) = p).
    { destruct Hfull as [Hfull|Hfull].
      - assert (52 <= L).
        { destruct (Z.le_gt_cases 52 L) as [H|H]; [exact H|].
          assert (2 ^ Z.succ L <= 2 ^ 52) by (apply Z.pow_le_mono_r; lia). lia. }
        lia.
      - lia. }
    rewrite Ee.
    assert (Es : (y / pow2 p == inject_Z m)%Q) by (unfold y; field; plra).
    rewrite (nearest_even_proper _ _ Es), nearest_even_Z. reflexivity.
Qed.

Lemma round_positive_nonneg (q : Q) : (0 < q)%Q -> (0 <= round_positive q)%Q.
Proof.
  intros Hq. destruct (round_positive_canonical q Hq) as [m [p [E [->|[[Hm _] _]]]]];
    rewrite E.
  - change (inject_Z 0) with 0%Q. plra.
  - pose proof (pow2_pos p). apply Qmult_le_0_compat; [|plra].
    change 0%Q with (inject_Z 0). rewrite <- Zle_Qle. lia.
Qed.

Lemma round_positive_fixed (q : Q) :
  (0 < q)%Q -> (0 < round_positive q)%Q ->
  (round_positive (round_positive q) == round_positive q)%Q.
Proof.
  intros Hq Hy. destruct (round_positive_canonical q Hq) as [m [p [E [->|Hc]]]].
  - rewrite E in Hy. change (inject_Z 0) with 0%Q in Hy. plra.
  - rewrite E. apply canonical_fixed, Hc.
Qed.

Lemma nearest_fixed (q : Q) : (nearest (nearest q) == nearest q)%Q.
Proof.
  unfold nearest at 2 3. destruct (Qcompare q 0) eqn:C.
  - reflexivity.
  - apply Qlt_alt in C. assert (Hq : (0 < - q)%Q) by plra.
    pose proof (round_positive_nonneg _ Hq) as Hn.
    destruct (Qeq_dec (round_positive (- q)) 0) as [E0|N0].
    + rewrite (nearest_proper _ 0); [|plra]. cbn. plra.
    + assert (Hp : (0 < round_positive (- q))%Q) by plra.
      unfold nearest.
      assert (C' : Qcompare (- round_positive (- q)) 0 = Lt)
        by (apply (proj1 (Qlt_alt _ _)); plra).
      rewrite C'.
      rewrite (round_positive_proper (- - round_positive (- q)) (round_positive (- q)));
        [|plra|ring].
      rewrite (round_positive_fixed _ Hq Hp). reflexivity.
  - apply Qgt_alt in C.
    pose proof (round_positive_nonneg _ C) as Hn.
    destruct (Qeq_dec (round_positive q) 0) as [E0|N0].
    + rewrite (nearest_proper _ 0); [|exact E0]. cbn. plra.
    + assert (Hp : (0 < round_positive q)%Q) by plra.
      unfold nearest.
      assert (C' : Qcompare (round_positive q) 0 = Gt)
        by (apply (proj1 (Qgt_alt _ _)); plra).
      rewrite C'. apply round_positive_fixed; assumption.
Qed.

(** A double rounds to itself. *)
Lemma round_round (q y : Q) : round q = Fin y -> round y = Fin y.
Proof.
  rewrite round_nearest.
  destruct (Qle_bool (pow2 1024) (Qabs (nearest q))) eqn:O; [discriminate|].
  intros [= <-].
  rewrite (round_proper (Qred (nearest q)) (nearest q)) by apply Qred_correct.
  rewrite round_nearest.
  rewrite (Qle_bool_abs_proper _ _ _ (nearest_fixed q)), O.
  rewrite (Qred_complete _ _ (nearest_fixed q)). reflexivity.
Qed.

Lemma nearest_sign (q : Q) :
  ((0 <= q -> 0 <= nearest q) /\ (q <= 0 -> nearest q <= 0))%Q.
Proof.
  unfold nearest. destruct (Qcompare q 0) eqn:C.
  - split; intros; plra.
  - apply Qlt_alt in C. assert (Hq : (0 < - q)%Q) by plra.
    pose proof (round_positive_nonneg _ Hq). split; intros; plra.
  - apply Qgt_alt in C. pose proof (round_positive_nonneg _ C). split; intros; plra.
Qed.

Lemma round_sign (q y : Q) :
  round q = Fin y -> ((0 <= q -> 0 <= y) /\ (q <= 0 -> y <= 0))%Q.
Proof.
  rewrite round_nearest. destruct (Qle_bool _ _); [discriminate|]. intros [= <-].
  rewrite Qred_correct. apply nearest_sign.
Qed.

(** No double lies strictly between 0 and 2^-1074. *)
Lemma round_least (q y : Q) :
  round q = Fin y -> (y == 0 \/ pow2 (-1074) <= Qabs y)%Q.
Proof.
  rewrite round_nearest. destruct (Qle_bool _ _); [discriminate|]. intros [= <-].
  rewrite Qred_correct.
  assert (Hpos : forall x, (0 < x)%Q ->
            (round_positive x == 0 \/ pow2 (-1074) <= round_positive x)%Q).
  { intros x Hx. destruct (round_positive_canonical x Hx) as [m [p [E [->|Hc]]]]; rewrite E.
    - left. change (inject_Z 0) with 0%Q. ring.
    - right. destruct Hc as [[Hm _] [Hp _]].
      assert (H1 : (pow2 (-1074) <= pow2 p)%Q) by (apply pow2_le; exact Hp).
      assert (H2 : (1 <= inject_Z m)%Q) by (change 1%Q with (inject_Z 1); rewrite <- Zle_Qle; exact Hm).
      pose proof (pow2_pos p). pose proof (pow2_pos (-1074)). pnra. }
  unfold nearest. destruct (Qcompare q 0) eqn:C.
  - left. reflexivity.
  - apply Qlt_alt in C. destruct (Hpos (- q)%Q) as [E|H]; [plra| |].
    + left. plra.
    + right. rewrite Qabs_opp, Qabs_pos; [exact H|].
      pose proof (pow2_pos (-1074)). plra.
  - apply Qgt_alt in C. destruct (Hpos q C) as [E|H].
    + left. exact E.
    + right. rewrite Qabs_pos; [exact H|]. pose proof (pow2_pos (-1074)). plra.
Qed.

(** What is at least 2^-1074 does not round to 0. *)
Lemma round_positive_pos (q : Q) :
  (pow2 (-1074) <= q)%Q -> (0 < round_positive q)%Q.
Proof.
  intros Hq. pose proof (pow2_pos (-1074)) as P.
  assert (Hq0 : (0 < q)%Q) by plra.
  destruct (scaled_bounds q Hq0) as [Hp [Hpos [[Ep [Hlo Hhi]]|[Ep Hhi]]]];
    unfold round_positive; pose proof (pow2_pos (exponent q)) as Pp.
  - assert (H : 2 ^ 52 <= nearest_even (q / pow2 (exponent q)))
      by (apply nearest_even_ge, Hlo).
    apply Qmult_lt_0_compat; [|exact Pp].
    change 0%Q with (inject_Z 0). rewrite <- Zlt_Qlt. lia.
  - assert (H : 1 <= nearest_even (q / pow2 (exponent q))).
    { apply nearest_even_ge. rewrite Ep. change (inject_Z 1) with 1%Q.
      apply Qle_shift_div_l; [exact P | plra]. }
    apply Qmult_lt_0_compat; [|exact Pp].
    change 0%Q with (inject_Z 0). rewrite <- Zlt_Qlt. lia.
Qed.

Lemma round_zero_inv (q : Q) :
  (0 <= q)%Q -> round q = Fin 0 -> (q < pow2 (-1074))%Q.
Proof.
  intros Hq. rewrite round_nearest. destruct (Qle_bool _ _); [discriminate|].
  intros [= E].
  destruct (Qlt_le_dec q (pow2 (-1074))) as [L|L]; [exact L|].
  exfalso. pose proof (pow2_pos (-1074)) as P.
  pose proof (round_positive_pos q L) as Hpos.
  assert (C : Qcompare q 0 = Gt) by (apply (proj1 (Qgt_alt _ _)); plra).
  unfold nearest in E. rewrite C in E.
  assert (E0 : (Qred (round_positive q) == 0)%Q) by (rewrite E; reflexivity).
  rewrite Qred_correct in E0. plra.
Qed.

End Binary64Facts.

(** The operations of [Rational.arithmetic] by their names. *)
Ltac rational :=
  change (@number Rational.arithmetic) with Number in *;
  change (@add Rational.arithmetic) with nadd in *;
  change (@sub Rational.arithmetic) with nsub in *;
  change (@mul Rational.arithmetic) with nmul in *;
  change (@div Rational.arithmetic) with ndiv in *.

(** ** The weighted aggregator *)

Section AggregatorFacts.

Import Aggregator DescribedAverage.

#[local] Existing Instance Rational.arithmetic | 0.

(** A finite total means every row's bales are finite, and is their sum. *)
Lemma totalBales_from (rows : list MixRow.t) (a : num) (T : Q) :
  fold_left (fun sum r => nadd sum (bales r)) rows a = Fin T ->
  exists a0, a = Fin a0
    /\ Forall (fun r => bales r = Fin (row_bales r)) rows
    /\ (T == a0 + Qsum (map row_bales rows))%Q.
Proof.
  revert a T. induction rows as [|r rows IH]; intros a T; cbn [fold_left].
  - intros ->. exists T. repeat split; auto. unfold Qsum. simpl. lra.
  - intros HT. destruct (IH _ _ HT) as (a1 & E1 & Hall & HT').
    destruct a as [|a0]; [discriminate|].
    destruct (bales r) as [|b] eqn:Eb; [discriminate|].
    injection E1 as <-. exists a0. repeat split.
    + constructor; auto. unfold row_bales. rewrite Eb. reflexivity.
    + rewrite HT'. cbn [map]. rewrite Qsum_cons.
      change (row_bales r) with (orZero (bales r)). rewrite Eb. cbn [orZero]. lra.
Qed.

Lemma totalBales_finite (rows : list MixRow.t) (T : Q) :
  totalBales rows = Fin T ->
  Forall (fun r => bales r = Fin (row_bales r)) rows
  /\ T == Qsum (map row_bales rows).
Proof.
  intros HT. destruct (totalBales_from _ _ _ HT) as (a0 & [= <-] & Hall & E).
  split; auto. rewrite E. lra.
Qed.

End AggregatorFacts.

Section ZeroTotal.

Import Aggregator DescribedAverage.

Lemma Qsum_nonneg (l : list Q) :
  (forall x, In x l -> (0 <= x)%Q) -> (0 <= Qsum l)%Q.
Proof.
  induction l as [|x l IH]; intros Hl.
  - unfold Qsum. simpl. lra.
  - rewrite Qsum_cons.
    assert (0 <= x)%Q by (apply Hl; left; reflexivity).
    assert (0 <= Qsum l)%Q by (apply IH; intros y Hy; apply Hl; right; exact Hy).
    lra.
Qed.

Lemma Qsum_zero_terms (l : list Q) :
  (forall x, In x l -> (0 <= x)%Q) -> (Qsum l == 0)%Q ->
  forall x, In x l -> (x == 0)%Q.
Proof.
  induction l as [|y l IH]; intros Hl Hs x Hx; [destruct Hx|].
  rewrite Qsum_cons in Hs.
  assert (0 <= y)%Q by (apply Hl; left; reflexivity).
  assert (Hrest : forall z, In z l -> (0 <= z)%Q) by (intros z Hz; apply Hl; right; exact Hz).
  pose proof (Qsum_nonneg l Hrest).
  destruct Hx as [<-|Hx]; [lra|].
  apply IH; auto. lra.
Qed.

Lemma Qsum_all_zero (l : list Q) :
  (forall x, In x l -> (x == 0)%Q) -> (Qsum l == 0)%Q.
Proof.
  induction l as [|y l IH]; intros Hl.
  - unfold Qsum. simpl. lra.
  - rewrite Qsum_cons, IH by (intros z Hz; apply Hl; right; exact Hz).
    rewrite (Hl y) by (left; reflexivity). lra.
Qed.

End ZeroTotal.

(** ** Dictionaries and sorting *)

Section ObjectFacts.

Context {V : Type}.

Lemma set_keys_in (o : obj V) (k : string) (v : V) (k' : string) :
  In k' (map fst (set o k v)) -> In k' (map fst o) \/ k' = k.
Proof.
  induction o as [|[k0 v0] r IH]; simpl.
  - intros [<-|[]]. right. reflexivity.
  - destruct (String.eqb k0 k) eqn:E; simpl.
    + intros [<-|Hin]; auto.
    + intros [<-|Hin]; auto. destruct (IH Hin); auto.
Qed.

Lemma set_nodup (o : obj V) (k : string) (v : V) :
  NoDup (map fst o) -> NoDup (map fst (set o k v)).
Proof.
  induction o as [|[k0 v0] r IH]; simpl; intros Hnd.
  - constructor; [intros []|constructor].
  - inversion Hnd as [|? ? Hnotin Hr]; subst.
    destruct (String.eqb k0 k) eqn:E; simpl.
    + apply String.eqb_eq in E. subst. constructor; auto.
    + constructor; auto. intros Hin.
      destruct (set_keys_in _ _ _ _ Hin) as [Hin'| ->]; auto.
      rewrite String.eqb_refl in E. discriminate.
Qed.

Lemma insert_index_perm (e : string * V) (l : list (string * V)) :
  Permutation (insert_index e l) (e :: l).
Proof.
  induction l as [|e' r IH]; simpl; auto.
  destruct (parseInt10 (fst e') <? parseInt10 (fst e)); auto.
  rewrite IH. apply perm_swap.
Qed.

Lemma filter_split_perm {A : Type} (f : A -> bool) (l : list A) :
  Permutation (filter f l ++ filter (fun x => negb (f x)) l)%list l.
Proof.
  induction l as [|x l IH]; simpl; auto.
  destruct (f x); simpl.
  - constructor. exact IH.
  - rewrite <- Permutation_middle. constructor. exact IH.
Qed.

Lemma entries_perm (o : obj V) : Permutation (entries o) o.
Proof.
  unfold entries.
  rewrite <- (filter_split_perm (fun e => is_array_index (fst e)) o) at 3.
  apply Permutation_app_tail.
  induction (filter (fun e => is_array_index (fst e)) o) as [|e l IH]; simpl; auto.
  rewrite insert_index_perm. constructor. exact IH.
Qed.

Lemma keys_perm (o : obj V) : Permutation (keys o) (map fst o).
Proof. unfold keys. apply Permutation_map, entries_perm. Qed.

End ObjectFacts.

Section SortFacts.

Context {A : Type} (cmp : A -> A -> num).

Lemma insert_perm (x : A) (l : list A) : Permutation (insert cmp x l) (x :: l).
Proof.
  induction l as [|y r IH]; simpl; auto.
  destruct (gt0 (cmp x y)); auto.
  rewrite IH. apply perm_swap.
Qed.

Lemma sort_perm (l : list A) : Permutation (sort cmp l) l.
Proof.
  induction l as [|x r IH]; simpl; auto.
  rewrite insert_perm. constructor. exact IH.
Qed.

(** A comparator that agrees with a transitive relation on the elements to
    be sorted leaves them in that relation. *)
Lemma sort_strongly_sorted (good : A -> Prop) (R : A -> A -> Prop) :
  (forall a b, good a -> good b -> if gt0 (cmp a b) then R b a else R a b) ->
  (forall a b c, R a b -> R b c -> R a c) ->
  forall l, Forall good l -> StronglySorted R (sort cmp l).
Proof.
  intros Hcmp Htrans.
  assert (Hins : forall x l, good x -> Forall good l -> StronglySorted R l ->
            StronglySorted R (insert cmp x l)).
  { intros x l Hx Hl Hs. induction Hs as [|y l Hs IH Hy]; cbn [insert].
    - repeat constructor.
    - inversion Hl as [|? ? Hcy Hcl]; subst.
      pose proof (Hcmp x y Hx Hcy) as Hc.
      destruct (gt0 (cmp x y)).
      + constructor; [apply IH; assumption|].
        apply Forall_forall. intros z Hz.
        apply (Permutation_in z (insert_perm _ _)) in Hz as [<-|Hz]; auto.
        eapply Forall_forall in Hy; eauto.
      + constructor; [constructor; assumption|].
        constructor; auto.
        apply Forall_forall. intros z Hz. eapply Htrans; [exact Hc|].
        eapply Forall_forall in Hy; eauto. }
  induction l as [|x l IH]; intros Hl; cbn [sort]; [constructor|].
  inversion Hl; subst. apply Hins; auto.
  apply Forall_forall. intros z Hz.
  apply (Permutation_in z (sort_perm _)) in Hz.
  eapply Forall_forall in Hz; eauto.
Qed.

End SortFacts.

Section SumFacts.

Lemma Qsum_app (l l' : list Q) : (Qsum (l ++ l') == Qsum l + Qsum l')%Q.
Proof.
  induction l as [|x l IH]; simpl.
  - unfold Qsum at 2. simpl. lra.
  - rewrite !Qsum_cons, IH. lra.
Qed.

Lemma Qsum_perm (l l' : list Q) : Permutation l l' -> (Qsum l == Qsum l')%Q.
Proof.
  induction 1 as [|x l l' _ IH|x y l|l l' l'' _ IH1 _ IH2].
  - reflexivity.
  - rewrite !Qsum_cons, IH. reflexivity.
  - rewrite !Qsum_cons. lra.
  - rewrite IH1. exact IH2.
Qed.

Lemma Qsum_map_ext {A : Type} (f g : A -> Q) (l : list A) :
  (forall x, In x l -> (f x == g x)%Q) -> (Qsum (map f l) == Qsum (map g l))%Q.
Proof.
  induction l as [|x l IH]; intros Hfg; [reflexivity|].
  cbn [map]. rewrite !Qsum_cons, IH, (Hfg x).
  - reflexivity.
  - left. reflexivity.
  - intros y Hy. apply Hfg. right. exact Hy.
Qed.

Lemma Qsum_filter {A : Type} (f : A -> Q) (keep : A -> bool) (l : list A) :
  (forall x, In x l -> keep x = false -> (f x == 0)%Q) ->
  (Qsum (map f (filter keep l)) == Qsum (map f l))%Q.
Proof.
  induction l as [|x l IH]; intros Hz; [reflexivity|].
  cbn [filter map]. rewrite Qsum_cons.
  assert (IH' : (Qsum (map f (filter keep l)) == Qsum (map f l))%Q).
  { apply IH. intros y Hy. apply Hz. right. exact Hy. }
  destruct (keep x) eqn:E.
  - cbn [map]. rewrite Qsum_cons, IH'. reflexivity.
  - rewrite IH', (Hz x (or_introl eq_refl) E). lra.
Qed.

Lemma Qsum_scale {A : Type} (f : A -> Q) (k : Q) (l : list A) :
  (Qsum (map (fun x => f x * k) l) == Qsum (map f l) * k)%Q.
Proof.
  induction l as [|x l IH].
  - unfold Qsum. simpl. lra.
  - cbn [map]. rewrite !Qsum_cons, IH. lra.
Qed.

Lemma total_perm (l l' : list Z) :
  Permutation l l' -> DescribedBlend.total l = DescribedBlend.total l'.
Proof.
  unfold DescribedBlend.total.
  induction 1; simpl; lia.
Qed.

Lemma Math_round_bounds (x : Q) :
  (x - (1 # 2) < inject_Z (Math_round x) /\ inject_Z (Math_round x) <= x + (1 # 2))%Q.
Proof.
  unfold Math_round. split.
  - pose proof (Qlt_floor (x + (1 # 2))) as Hl.
    rewrite inject_Z_plus in Hl. change (inject_Z 1) with 1%Q in Hl. lra.
  - apply Qfloor_le.
Qed.

(** Rounding each of [n] numbers moves their total by at most [n / 2]. *)
Lemma round_total (l : list Q) :
  (- inject_Z (Z.of_nat (List.length l))
   <= (inject_Z (DescribedBlend.total (map Math_round l)) - Qsum l) * 2
   <= inject_Z (Z.of_nat (List.length l)))%Q.
Proof.
  induction l as [|x l IH].
  - split; vm_compute; discriminate.
  - cbn [map List.length DescribedBlend.total fold_right].
    fold (DescribedBlend.total (map Math_round l)).
    rewrite Nat2Z.inj_succ, <- Z.add_1_r, !inject_Z_plus, Qsum_cons.
    change (inject_Z 1) with 1%Q.
    pose proof (Math_round_bounds x). lra.
Qed.

Lemma Qsum_positive (l : list Q) :
  l <> [] -> (forall x, In x l -> (0 < x)%Q) -> (0 < Qsum l)%Q.
Proof.
  destruct l as [|x l]; [congruence|]. intros _ Hpos.
  rewrite Qsum_cons.
  assert (0 < x)%Q by (apply Hpos; left; reflexivity).
  assert (0 <= Qsum l)%Q.
  { apply Qsum_nonneg. intros y Hy. apply Qlt_le_weak, Hpos. right. exact Hy. }
  lra.
Qed.

End SumFacts.

(** ** The blend resolver *)

Section BlendFacts.

Import Blend DescribedBlend.

Lemma set_sum (o : obj Q) (k : string) (v : Q) :
  (Qsum (map snd (set o k v)) == Qsum (map snd o) - amount o k + v)%Q.
Proof.
  unfold amount. induction o as [|[k0 v0] r IH]; cbn [set get map snd].
  - rewrite Qsum_cons. unfold Qsum. simpl. lra.
  - destruct (String.eqb k0 k) eqn:E; cbn [map snd].
    + rewrite !Qsum_cons. lra.
    + rewrite !Qsum_cons, IH. lra.
Qed.

Lemma amount_sum (o : obj Q) :
  NoDup (map fst o) ->
  (Qsum (map (amount o) (map fst o)) == Qsum (map snd o))%Q.
Proof.
  induction o as [|[k v] r IH]; cbn [map fst snd]; intros Hnd.
  - reflexivity.
  - inversion Hnd as [|? ? Hnotin Hr]; subst.
    rewrite !Qsum_cons, <- (IH Hr).
    unfold amount at 1. cbn [get]. rewrite String.eqb_refl.
    rewrite (Qsum_map_ext (amount ((k, v) :: r)) (amount r)); [reflexivity|].
    intros k' Hk'. unfold amount. cbn [get].
    destruct (String.eqb k k') eqn:E; [|reflexivity].
    apply String.eqb_eq in E. subst. contradiction.
Qed.

Lemma contribute_balanced lotResults vmap (c : contributions) (r : MixRow.t) :
  balanced c -> balanced (contribute lotResults vmap c r).
Proof.
  intros [Hnd Hsum]. unfold contribute.
  destruct (Aggregator.findLot lotResults r) as [lot|]; [|split; assumption].
  destruct (negb (truthy (Lot.variety lot))); [split; assumption|].
  destruct (get vmap (ToString (Lot.variety lot))) as [info|]; [|split; assumption].
  split; cbn [cottonContributions totalWeightedSum].
  - apply set_nodup, Hnd.
  - rewrite set_sum, Hsum. lra.
Qed.

Lemma collect_balanced lotResults mixingCodeData (rows : list MixRow.t) :
  balanced (collect lotResults mixingCodeData rows).
Proof.
  unfold collect.
  assert (H0 : balanced (mkContrib [] 0)).
  { split; [constructor | reflexivity]. }
  revert H0. generalize (mkContrib [] 0).
  induction rows as [|r rows IH]; intros c Hc; simpl; auto.
  apply IH, contribute_balanced, Hc.
Qed.

End BlendFacts.

(** C8 (as the code has it).  In a daily group where some cotton name has
    a positive contribution and none a negative one, the blend
    percentages, each round(share × 100), differ in total from 100 by at
    most half the number of names listed; with at most three names the
    total is within 1 of 100. *)
Theorem blend_percentages_total `{Platform}
    (lotResults : list Lot.t) (mixingCodeData : list MixingCode.t)
    (rows : list MixRow.t) :
  let c := Blend.collect lotResults mixingCodeData rows in
  let shares := Blend.cottonContributions c in
  (exists name, In name (keys shares) /\ (0 < Blend.amount shares name)%Q) ->
  (forall name, In name (keys shares) -> (0 <= Blend.amount shares name)%Q) ->
  let names := Blend.cottonNames mixingCodeData c in
  let percentages := Blend.blendPercentages mixingCodeData c in
  2 * Z.abs (DescribedBlend.total percentages - 100) <= Z.of_nat (List.length names)
  /\ ((List.length names <= 3)%nat ->
      Z.abs (DescribedBlend.total percentages - 100) <= 1).
Proof.
  intros c shares (name & Hin & Hpos) Hnonneg names percentages.
  set (positive := fun k => Qlt_bool 0 (Blend.amount shares k)).
  set (P := filter positive (keys shares)).
  assert (HP : In name P).
  { apply filter_In. split; auto. apply Qlt_bool_iff. exact Hpos. }
  assert (Hnames : names = sort Blend.byName P).
  { unfold names, Blend.cottonNames. fold shares. fold positive. fold P.
    destruct (sort Blend.byName P) eqn:E; [|reflexivity].
    exfalso. apply (Permutation_in name (Permutation_sym (sort_perm Blend.byName P))) in HP.
    rewrite E in HP. destruct HP. }
  destruct (collect_balanced lotResults mixingCodeData rows) as [Hnd Hsum].
  fold c in Hnd, Hsum. fold shares in Hnd, Hsum.
  set (T := Blend.totalWeightedSum c) in *.
  assert (HT : (T == Qsum (map (Blend.amount shares) P))%Q).
  { rewrite Hsum, <- (amount_sum shares Hnd).
    rewrite <- (Qsum_perm _ _ (Permutation_map (Blend.amount shares) (keys_perm shares))).
    symmetry. apply Qsum_filter. intros k Hk Hneg.
    apply Qlt_bool_false in Hneg. pose proof (Hnonneg k Hk). lra. }
  assert (HTpos : (0 < T)%Q).
  { rewrite HT. apply Qsum_positive.
    - intros E. apply (f_equal (@List.length Q)) in E. rewrite length_map in E.
      destruct P; [destruct HP | discriminate].
    - intros x Hx. apply in_map_iff in Hx as (k & <- & Hk).
      apply filter_In in Hk as [_ Hk]. apply Qlt_bool_iff, Hk. }
  set (share := fun k => (Blend.amount shares k / T * 100)%Q).
  assert (Hpct : percentages = map Math_round (map share (sort Blend.byName P))).
  { unfold percentages, Blend.blendPercentages. fold names. rewrite Hnames, map_map.
    apply map_ext_in. intros k Hk.
    apply (Permutation_in k (sort_perm Blend.byName P)) in Hk.
    apply filter_In in Hk as [_ Hk]. apply Qlt_bool_iff in Hk.
    unfold Blend.percentage. fold shares. fold T.
    assert (Qlt_bool 0 T = true) as -> by (apply Qlt_bool_iff; exact HTpos).
    assert (Qeq_bool (Blend.amount shares k) 0 = false) as ->.
    { destruct (Qeq_bool (Blend.amount shares k) 0) eqn:E; auto.
      apply Qeq_bool_iff in E. lra. }
    reflexivity. }
  assert (Hshares : (Qsum (map share (sort Blend.byName P)) == 100)%Q).
  { rewrite (Qsum_perm _ _ (Permutation_map share (sort_perm Blend.byName P))).
    rewrite (Qsum_map_ext share (fun k => Blend.amount shares k * (/ T * 100))%Q).
    - rewrite Qsum_scale, <- HT. field. lra.
    - intros k _. unfold share. field. lra. }
  pose proof (round_total (map share (sort Blend.byName P))) as Hround.
  rewrite <- Hpct, Hshares, length_map in Hround.
  assert (Hlen : List.length names = List.length (sort Blend.byName P))
    by (rewrite Hnames; reflexivity).
  rewrite <- Hlen in Hround.
  set (R := DescribedBlend.total percentages) in *.
  set (n := Z.of_nat (List.length names)) in *.
  assert (Hz : - n <= 2 * (R - 100) <= n).
  { split; rewrite Zle_Qle.
    - rewrite inject_Z_opp, inject_Z_mult. unfold Z.sub.
      rewrite inject_Z_plus, inject_Z_opp.
      change (inject_Z 2) with 2%Q. change (inject_Z 100) with 100%Q. lra.
    - rewrite inject_Z_mult. unfold Z.sub.
      rewrite inject_Z_plus, inject_Z_opp.
      change (inject_Z 2) with 2%Q. change (inject_Z 100) with 100%Q. lra. }
  split; [lia|]. intros Hthree. lia.
Qed.

(** Two names with 100 and 50 bales: 67 and 33. *)
Lemma blend_percentages_total_witness :
  let c := Blend.collect BlendExamples.lotResults BlendExamples.mixingCodeData
             BlendExamples.two_names in
  (exists name, In name (keys (Blend.cottonContributions c))
                /\ (0 < Blend.amount (Blend.cottonContributions c) name)%Q)
  /\ @Blend.blendPercentages Reference.platform BlendExamples.mixingCodeData c = [67; 33]
  /\ Z.abs (DescribedBlend.total
              (@Blend.blendPercentages Reference.platform BlendExamples.mixingCodeData c)
            - 100) <= 1.
Proof.
  intros c.
  assert (Hsome : exists name, In name (keys (Blend.cottonContributions c))
                    /\ (0 < Blend.amount (Blend.cottonContributions c) name)%Q).
  { exists "Bunny". split; [left; reflexivity | reflexivity]. }
  assert (Hall : forall name, In name (keys (Blend.cottonContributions c))
                   -> (0 <= Blend.amount (Blend.cottonContributions c) name)%Q).
  { intros name [<-|[<-|[]]]; vm_compute; discriminate. }
  split; [exact Hsome|]. split; [reflexivity|].
  apply (@blend_percentages_total Reference.platform BlendExamples.lotResults
           BlendExamples.mixingCodeData BlendExamples.two_names Hsome Hall).
  vm_compute. lia.
Defined.

(** C8 (as stated): four names with 1, 1, 1 and 5 bales of equal weight
    have the percentages 13, 13, 13 and 63, which total 102. *)
Lemma blend_percentages_four_names :
  let c := Blend.collect BlendExamples.lotResults BlendExamples.mixingCodeData
             BlendExamples.four_names in
  let percentages :=
    @Blend.blendPercentages Reference.platform BlendExamples.mixingCodeData c in
  (exists name, In name (keys (Blend.cottonContributions c))
                /\ (0 < Blend.amount (Blend.cottonContributions c) name)%Q)
  /\ percentages = [13; 13; 13; 63]
  /\ Blend.blend_percent
       (@Blend.resolve Reference.platform BlendExamples.lotResults
          BlendExamples.mixingCodeData BlendExamples.four_names) = "13+13+13+63"
  /\ ~ (Z.abs (DescribedBlend.total percentages - 100) <= 1).
Proof.
  intros c percentages. split; [|split; [|split]].
  - exists "Bunny". split; [left; reflexivity | reflexivity].
  - reflexivity.
  - reflexivity.
  - vm_compute. intros Hle. apply Hle. reflexivity.
Qed.

(** ** The handler *)

(** C9.  A request whose report_type is none of "daily", "weekly" and
    "monthly" is answered with the validation error (status 400) at once:
    the handler awaits no read of the record source and computes nothing.
    A request without report_type is handled as a request for "daily". *)
Theorem report_type_validation `{Platform} (query : Handler.request) (t : string) :
  Handler.report_type query = Some t ->
  t <> "daily" -> t <> "weekly" -> t <> "monthly" ->
  Handler.handle query = Ret Handler.invalid_report_type
  /\ (forall source,
        run source (Handler.handle query) = ([], Handler.invalid_report_type))
  /\ Handler.handle (Handler.with_report_type None query)
     = Handler.handle (Handler.with_report_type (Some "daily") query).
Proof.
  intros Ht Hd Hw Hm.
  assert (Hinvalid : Handler.handle query = Ret Handler.invalid_report_type).
  { unfold Handler.handle. rewrite Ht. cbn [existsb].
    apply String.eqb_neq in Hd, Hw, Hm. rewrite Hd, Hw, Hm. reflexivity. }
  split; [exact Hinvalid|]. split.
  - intros source. rewrite Hinvalid. reflexivity.
  - reflexivity.
Qed.

Lemma report_type_validation_witness :
  let query := Handler.mkRequest (Some "2024-01-01") None None None None None None None
                                 (Some "yearly") in
  Handler.report_type query = Some "yearly"
  /\ @Handler.handle Reference.platform query
     = Ret (Handler.Json 400
              (Handler.Error "Invalid report_type. Must be 'daily', 'weekly', or 'monthly'.")).
Proof.
  intros query. split; [reflexivity|].
  apply (@report_type_validation Reference.platform query "yearly");
    [reflexivity | discriminate | discriminate | discriminate].
Defined.

Example daily_request_reads : forall query,
  Handler.report_type query = Some "daily" ->
  exists filter k, @Handler.handle Reference.platform query
                   = Await (SelectMixingIssue filter) k.
Proof.
  intros query Ht. unfold Handler.handle. rewrite Ht. cbn [existsb String.eqb Ascii.eqb Bool.eqb orb negb].
  eexists. eexists. reflexivity.
Qed.

(** ** Numbers and their text *)

Section DecimalFacts.

Lemma parse_digits_app (a : Z) (x y : string) :
  parse_digits_from a (x ++ y) = parse_digits_from (parse_digits_from a x) y.
Proof. revert a. induction x as [|c x IH]; intros a; simpl; auto. Qed.

Lemma all_chars_app (f : ascii -> bool) (x y : string) :
  all_chars f (x ++ y) = all_chars f x && all_chars f y.
Proof.
  induction x as [|c x IH]; simpl; auto. rewrite IH, andb_assoc. reflexivity.
Qed.

Lemma append_assoc (x y z : string) : ((x ++ y) ++ z = x ++ (y ++ z))%string.
Proof. induction x as [|c x IH]; simpl; congruence. Qed.

Lemma length_append (x y : string) :
  String.length (x ++ y) = (String.length x + String.length y)%nat.
Proof. induction x as [|c x IH]; simpl; congruence. Qed.

(** The digits of [z], written before [acc], spell [z]. *)
Lemma decimal_digits_spec (fuel : nat) :
  forall (z : Z) (acc : string),
    0 <= z < 10 ^ Z.of_nat (S fuel) ->
    exists ds,
      decimal_digits (S fuel) z acc = (ds ++ acc)%string
      /\ all_chars is_digit ds = true
      /\ is_empty ds = false
      /\ forall a, parse_digits_from a ds
                   = a * 10 ^ Z.of_nat (String.length ds) + z.
Proof.
  induction fuel as [|fuel IH]; intros z acc Hz.
  - change (10 ^ Z.of_nat 1) with 10 in Hz.
    exists (String (digit_char z) EmptyString).
    rewrite decimal_digits_last by lia.
    repeat split.
    + cbn. rewrite is_digit_digit_char by lia. reflexivity.
    + intros a. cbn [parse_digits_from String.length].
      rewrite code_digit_char by lia. change (10 ^ Z.of_nat 1) with 10. lia.
  - destruct (Z_lt_le_dec z 10) as [Hs|Hb].
    + exists (String (digit_char z) EmptyString).
      rewrite decimal_digits_last by lia.
      repeat split.
      * cbn. rewrite is_digit_digit_char by lia. reflexivity.
      * intros a. cbn [parse_digits_from String.length].
        rewrite code_digit_char by lia. change (10 ^ Z.of_nat 1) with 10. lia.
    + rewrite decimal_digits_more by lia.
      assert (Hdiv : 0 <= z / 10 < 10 ^ Z.of_nat (S fuel)).
      { rewrite (Nat2Z.inj_succ (S fuel)), Z.pow_succ_r in Hz by lia.
        Z.div_mod_to_equations. lia. }
      destruct (IH (z / 10) (String (digit_char (z mod 10)) acc) Hdiv)
        as (ds & E & Hd & Hne & Hp).
      exists (ds ++ String (digit_char (z mod 10)) EmptyString)%string.
      repeat split.
      * rewrite E, append_assoc. reflexivity.
      * rewrite all_chars_app, Hd. cbn.
        rewrite is_digit_digit_char by (Z.div_mod_to_equations; lia). reflexivity.
      * destruct ds; [discriminate | reflexivity].
      * intros a. rewrite parse_digits_app, Hp. cbn [parse_digits_from].
        rewrite code_digit_char by (Z.div_mod_to_equations; lia).
        rewrite length_append. cbn [String.length].
        rewrite Nat.add_1_r, Nat2Z.inj_succ, Z.pow_succ_r by lia.
        Z.div_mod_to_equations. lia.
Qed.

Lemma decimal_fuel (z : Z) : 0 <= z -> z < 10 ^ Z.of_nat (S (Z.to_nat (Z.log2 z))).
Proof.
  intros Hz. rewrite Nat2Z.inj_succ, Z2Nat.id by apply Z.log2_nonneg.
  destruct (Z.eq_dec z 0) as [->|Hnz]; [reflexivity|].
  destruct (Z.log2_spec z) as [_ Hlt]; [lia|].
  eapply Z.lt_le_trans; [exact Hlt|].
  apply Z.pow_le_mono_l. lia.
Qed.

(** The text of a non-negative integer is digits that spell it. *)
Lemma decimal_spec (z : Z) :
  0 <= z ->
  all_chars is_digit (decimal z) = true
  /\ is_empty (decimal z) = false
  /\ parseInt10 (decimal z) = z.
Proof.
  intros Hz. rewrite decimal_nonneg by lia.
  destruct (decimal_digits_spec (Z.to_nat (Z.log2 z)) z EmptyString) as (ds & E & Hd & Hne & Hp).
  { split; [lia | apply decimal_fuel; lia]. }
  assert (Eds : (ds ++ "")%string = ds).
  { clear. induction ds; simpl; congruence. }
  rewrite E, Eds. repeat split; auto.
  unfold parseInt10. rewrite Hp. lia.
Qed.

Lemma number_to_string_integer (z : Z) :
  number_to_string (z # 1)
  = ((if (z <? 0)%Z then "-" else "") ++ decimal (Z.abs z))%string.
Proof.
  unfold number_to_string. cbn [Qnum Qden].
  rewrite Z.mod_1_r, Z.div_1_r. cbn.
  destruct (z <? 0); simpl; [f_equal|]; clear; induction (decimal (Z.abs z)); simpl; congruence.
Qed.

(** Reading back the text of an integer gives the integer. *)
Lemma StringToNumber_integer (z : Z) :
  exists q, StringToNumber (number_to_string (z # 1)) = Fin q /\ (q == z # 1)%Q.
Proof.
  rewrite number_to_string_integer.
  destruct (decimal_spec (Z.abs z)) as (Hd & Hne & Hp); [lia|].
  destruct (z <? 0) eqn:E.
  - apply Z.ltb_lt in E. cbn [append].
    unfold StringToNumber.
    assert (trim (String "-" (decimal (Z.abs z))) = String "-" (decimal (Z.abs z))) as ->.
    { unfold trim. cbn [strip_leading]. change (is_space "-") with false. cbn iota.
      apply strip_trailing_none. cbn [all_chars]. change (is_space "-") with false.
      cbn [negb andb].
      apply (all_chars_impl is_digit); auto.
      intros c Hc. rewrite (digit_not_space c Hc). reflexivity. }
    change (code "-" =? 45) with true. cbn iota.
    unfold unsigned_decimal. rewrite (split_dot_digits _ Hd), Hd, Hne. cbn [negb andb nsub].
    eexists. split; [reflexivity|]. rewrite Hp.
    unfold Qeq, Qminus, Qplus, Qopp, inject_Z. cbn [Qnum Qden]. lia.
  - apply Z.ltb_ge in E. cbn [append].
    rewrite StringToNumber_digits by assumption.
    eexists. split; [reflexivity|]. rewrite Hp.
    unfold Qeq, inject_Z. cbn [Qnum Qden]. lia.
Qed.

End DecimalFacts.

(** ** The daily grouping *)

Section GroupingFacts.

Import DescribedGrouping.

Lemma strip_leading_chars (f P : ascii -> bool) (s : string) :
  (forall c, f c = true -> P c = true) ->
  all_chars P (strip_leading f s) = true -> all_chars P s = true.
Proof.
  intros HfP. induction s as [|c r IH]; simpl; auto.
  destruct (f c) eqn:E; simpl.
  - intros Hr. rewrite (HfP c E), (IH Hr). reflexivity.
  - auto.
Qed.

Lemma strip_trailing_chars (f P : ascii -> bool) (s : string) :
  (forall c, f c = true -> P c = true) ->
  all_chars P (strip_trailing f s) = true -> all_chars P s = true.
Proof.
  intros HfP. induction s as [|c r IH]; simpl; auto.
  destruct (is_empty (strip_trailing f r) && f c) eqn:E; simpl.
  - intros _. apply andb_true_iff in E as [E1 E2].
    apply is_empty_true, strip_trailing_empty in E1.
    rewrite (HfP c E2), (all_chars_impl f P r HfP E1). reflexivity.
  - intros Hs. apply andb_true_iff in Hs as [Hc Hr].
    rewrite Hc, (IH Hr). reflexivity.
Qed.

Lemma trim_chars (P : ascii -> bool) (s : string) :
  (forall c, is_space c = true -> P c = true) ->
  all_chars P (trim s) = true -> all_chars P s = true.
Proof.
  intros HP Ht. apply (strip_leading_chars is_space); auto.
  apply (strip_trailing_chars is_space); auto.
Qed.

Lemma split_dot_chars (P : ascii -> bool) (s : string) :
  all_chars P (fst (split_dot s)) = true ->
  match snd (split_dot s) with
  | Some fp => all_chars P fp = true /\ P "."%char = true
  | None => True
  end ->
  all_chars P s = true.
Proof.
  induction s as [|c r IH]; simpl; auto.
  destruct (code c =? 46) eqn:E; simpl.
  - intros _ [Hfp Hdot]. rewrite Hfp, andb_true_r.
    assert (c = "."%char) as ->; [|exact Hdot].
    destruct c as [[] [] [] [] [] [] [] []]; vm_compute in E; try discriminate; reflexivity.
  - destruct (split_dot r) as [a b]. simpl in *.
    intros Ha Hb. apply andb_true_iff in Ha as [Hc Ha].
    rewrite Hc, (IH Ha Hb). reflexivity.
Qed.

Lemma numeric_char_no_bar (c : ascii) :
  numeric_char c = true -> negb (code c =? 124) = true.
Proof.
  destruct c as [[] [] [] [] [] [] [] []]; vm_compute; congruence.
Qed.

Lemma unsigned_decimal_chars (s : string) (q : Q) :
  unsigned_decimal s = Fin q -> all_chars numeric_char s = true.
Proof.
  unfold unsigned_decimal. intros Hs.
  apply split_dot_chars; destruct (split_dot s) as [ip [fp|]]; cbn [fst snd] in *.
  - destruct (all_chars is_digit ip) eqn:E; [|discriminate].
    apply (all_chars_impl is_digit); auto.
    intros c Hc. unfold numeric_char. rewrite Hc. reflexivity.
  - destruct (all_chars is_digit ip) eqn:E; [|rewrite andb_false_r in Hs; discriminate].
    apply (all_chars_impl is_digit); auto.
    intros c Hc. unfold numeric_char. rewrite Hc. reflexivity.
  - destruct (all_chars is_digit ip); [|discriminate].
    destruct (all_chars is_digit fp) eqn:E; [|discriminate].
    split; [|reflexivity].
    apply (all_chars_impl is_digit); auto.
    intros c Hc. unfold numeric_char. rewrite Hc. reflexivity.
  - exact I.
Qed.

Lemma StringToNumber_chars (s : string) (q : Q) :
  StringToNumber s = Fin q -> no_bar s = true.
Proof.
  intros Hs. unfold no_bar.
  apply (all_chars_impl numeric_char); [exact numeric_char_no_bar|].
  apply trim_chars.
  { intros c Hc. unfold numeric_char. rewrite Hc, orb_true_r. reflexivity. }
  unfold StringToNumber in Hs.
  destruct (trim s) as [|c r]; [reflexivity|].
  destruct (code c =? 45) eqn:E1.
  - destruct (unsigned_decimal r) as [|q'] eqn:Er; [discriminate|].
    cbn [all_chars]. rewrite (unsigned_decimal_chars r q' Er), andb_true_r.
    unfold numeric_char. rewrite E1, !orb_true_r. reflexivity.
  - destruct (code c =? 43) eqn:E2.
    + cbn [all_chars]. rewrite (unsigned_decimal_chars r q Hs), andb_true_r.
      unfold numeric_char. rewrite E2, !orb_true_r. reflexivity.
    + apply (unsigned_decimal_chars _ q Hs).
Qed.

Lemma integral_shape (q : Q) : Qden q = 1%positive -> q = (Qnum q # 1).
Proof. destruct q as [n d]. simpl. intros ->. reflexivity. Qed.

(** The text of a numeric mixing number has no delimiter in it. *)
Lemma numeric_text_no_bar (v : jsval) (q : Q) :
  integral v -> JsValue.Number v = Fin q -> no_bar (ToString v) = true.
Proof.
  destruct v as [|x|s]; cbn [integral JsValue.Number ToString].
  - intros _ _. reflexivity.
  - intros Hx _. rewrite (integral_shape x Hx), number_to_string_integer.
    unfold no_bar. rewrite all_chars_app.
    destruct (decimal_spec (Z.abs (Qnum x))) as (Hd & _ & _); [lia|].
    rewrite (all_chars_impl is_digit _ _ (fun c Hc =>
               numeric_char_no_bar c ltac:(unfold numeric_char; rewrite Hc; reflexivity)) Hd).
    destruct (Qnum x <? 0); reflexivity.
  - intros _. apply StringToNumber_chars.
Qed.

Lemma append_bar_inj (a b x y : string) :
  no_bar a = true -> no_bar b = true ->
  (a ++ "|" ++ x = b ++ "|" ++ y)%string -> a = b.
Proof.
  revert b. induction a as [|c a IH]; intros [|d b]; cbn; auto.
  - intros _ Hb [= <- _]. discriminate.
  - intros Ha _ [= -> _]. discriminate.
  - intros Ha Hb [= <- E].
    apply andb_true_iff in Ha as [_ Ha]. apply andb_true_iff in Hb as [_ Hb].
    f_equal. apply IH; auto.
Qed.

(** Two numeric mixing numbers with the same text are the same number. *)
Lemma same_text_same_number (v w : jsval) (p q : Q) :
  integral v -> integral w ->
  JsValue.Number v = Fin p -> JsValue.Number w = Fin q ->
  ToString v = ToString w -> (p == q)%Q.
Proof.
  intros Hv Hw Hp Hq E.
  assert (Hread : forall u r, integral u -> JsValue.Number u = Fin r -> u <> VNull ->
            exists r', StringToNumber (ToString u) = Fin r' /\ (r' == r)%Q).
  { intros [|x|s] r Hu Hr Hnn; [congruence| |].
    - cbn in Hr. injection Hr as <-. cbn [ToString integral] in *.
      rewrite (integral_shape x Hu). apply StringToNumber_integer.
    - cbn in Hr. exists r. split; [exact Hr | reflexivity]. }
  destruct v as [|x|s], w as [|y|t];
    try (cbn in Hp, Hq; injection Hp as <-; injection Hq as <-; reflexivity).
  - destruct (Hread (VNum y) q Hw Hq ltac:(discriminate)) as (r' & Hr & _).
    rewrite <- E in Hr. discriminate.
  - cbn in E. subst t. discriminate.
  - destruct (Hread (VNum x) p Hv Hp ltac:(discriminate)) as (r' & Hr & _).
    rewrite E in Hr. discriminate.
  - destruct (Hread (VNum x) p Hv Hp ltac:(discriminate)) as (r1 & Hr1 & E1).
    destruct (Hread (VNum y) q Hw Hq ltac:(discriminate)) as (r2 & Hr2 & E2).
    rewrite E in Hr1. rewrite Hr1 in Hr2. injection Hr2 as <-.
    rewrite <- E1, <- E2. reflexivity.
  - destruct (Hread (VNum x) p Hv Hp ltac:(discriminate)) as (r1 & Hr1 & E1).
    cbn [ToString] in E, Hr1. rewrite E in Hr1. cbn in Hq. rewrite Hq in Hr1.
    injection Hr1 as <-. rewrite E1. reflexivity.
  - cbn in E. subst s. discriminate.
  - destruct (Hread (VNum y) q Hw Hq ltac:(discriminate)) as (r2 & Hr2 & E2).
    cbn [ToString] in E, Hr2. rewrite <- E in Hr2. cbn in Hp. rewrite Hp in Hr2.
    injection Hr2 as <-. rewrite E2. reflexivity.
  - cbn in E. subst t. cbn in Hp, Hq. rewrite Hp in Hq. injection Hq as <-. reflexivity.
Qed.

Lemma get_in {V : Type} (o : obj V) (k : string) (v : V) :
  get o k = Some v -> In (k, v) o.
Proof.
  induction o as [|[k0 v0] r IH]; simpl; [discriminate|].
  destruct (String.eqb k0 k) eqn:E.
  - apply String.eqb_eq in E. intros [= <-]. subst. left. reflexivity.
  - intros Hg. right. apply IH, Hg.
Qed.

Lemma set_in {V : Type} (o : obj V) (k : string) (v : V) (e : string * V) :
  In e (set o k v) -> e = (k, v) \/ In e o.
Proof.
  induction o as [|[k0 v0] r IH]; simpl.
  - intros [<-|[]]. left. reflexivity.
  - destruct (String.eqb k0 k); simpl.
    + intros [<-|Hin]; auto.
    + intros [<-|Hin]; auto. destruct (IH Hin); auto.
Qed.

(** Every group is non-empty, and its rows are rows of the input with the
    key of the group. *)
Lemma groupRows_rows (mixingData : list MixRow.t) (key : string) (rows : list MixRow.t) :
  In (key, rows) (Daily.groupRows mixingData) ->
  rows <> [] /\ forall r, In r rows -> In r mixingData /\ Daily.groupKey r = key.
Proof.
  unfold Daily.groupRows.
  set (good := fun (seen : list MixRow.t) (e : string * list MixRow.t) =>
         snd e <> [] /\ forall r, In r (snd e) -> In r seen /\ Daily.groupKey r = fst e).
  assert (Hgen : forall todo seen groups,
            (forall e, In e groups -> good seen e) ->
            forall e, In e (fold_left
                              (fun groups row =>
                                 match get groups (Daily.groupKey row) with
                                 | None => set groups (Daily.groupKey row) [row]
                                 | Some rows => set groups (Daily.groupKey row) (rows ++ [row])%list
                                 end) todo groups) ->
                      good (seen ++ todo)%list e).
  { induction todo as [|row todo IH]; intros seen groups Hg e He; simpl in He.
    - rewrite app_nil_r. auto.
    - replace (seen ++ row :: todo)%list with ((seen ++ [row]) ++ todo)%list
        by (rewrite <- app_assoc; reflexivity).
      apply (IH (seen ++ [row])%list _) in He; auto.
      intros e' He'.
      assert (Hweak : forall e0, good seen e0 -> good (seen ++ [row])%list e0).
      { intros e0 [Hn Hr]. split; auto. intros r Hin.
        destruct (Hr r Hin). split; auto. apply in_or_app. left. assumption. }
      destruct (get groups (Daily.groupKey row)) as [rows0|] eqn:Eg.
      + apply set_in in He' as [->|Hin]; [|auto].
        pose proof (Hg _ (get_in _ _ _ Eg)) as [Hn Hr]. cbn [fst snd] in *.
        split; cbn [fst snd].
        * destruct rows0; discriminate.
        * intros r Hin. apply in_app_or in Hin as [Hin|[<-|[]]].
          -- destruct (Hr r Hin). split; auto. apply in_or_app. left. assumption.
          -- split; auto. apply in_or_app. right. left. reflexivity.
      + apply set_in in He' as [->|Hin]; [|auto].
        split; cbn [fst snd]; [discriminate|].
        intros r [<-|[]]. split; auto. apply in_or_app. right. left. reflexivity. }
  intros Hin. apply (Hgen mixingData [] [] (fun e (F : In e []) => match F with end)) in Hin.
  exact Hin.
Qed.

Lemma finite_in (l : list num) (q : Q) : In q (finite l) -> In (Fin q) l.
Proof.
  induction l as [|[|x] l IH]; simpl; auto.
  intros [<-|Hin]; auto.
Qed.

Lemma dedupe_in {A : Type} (eqb : A -> A -> bool) (l : list A) (x : A) :
  In x (dedupe eqb l) -> In x l.
Proof.
  induction l as [|y l IH]; simpl; auto.
  intros [<-|Hin]; auto. apply filter_In in Hin as [Hin _]. auto.
Qed.

(** A number of [numericSorted] is the number of one of the values. *)
Lemma numericSorted_in (values : list jsval) (q : Q) :
  In q (numericSorted values) ->
  exists v, In v values /\ JsValue.Number v = Fin q.
Proof.
  unfold numericSorted. intros Hin.
  apply (Permutation_in q (sort_perm _ _)) in Hin.
  apply finite_in, in_map_iff in Hin as (v & Hv & Hin).
  exists v. split; [eapply dedupe_in; eassumption | exact Hv].
Qed.

Lemma Qmin_list_same (x : Q) (l : list Q) :
  (forall y, In y l -> (y == x)%Q) -> (Qmin_list x l == x)%Q.
Proof.
  unfold Qmin_list.
  assert (Hgen : forall m, (m == x)%Q -> (forall y, In y l -> (y == x)%Q) ->
            (fold_left (fun m y => if Qlt_bool y m then y else m) l m == x)%Q).
  { induction l as [|y l IH]; intros m Hm Hl; simpl; auto.
    apply IH.
    - destruct (Qlt_bool y m); auto. apply Hl. left. reflexivity.
    - intros z Hz. apply Hl. right. exact Hz. }
  apply Hgen. reflexivity.
Qed.

Lemma Qmax_list_same (x : Q) (l : list Q) :
  (forall y, In y l -> (y == x)%Q) -> (Qmax_list x l == x)%Q.
Proof.
  unfold Qmax_list.
  assert (Hgen : forall m, (m == x)%Q -> (forall y, In y l -> (y == x)%Q) ->
            (fold_left (fun m y => if Qlt_bool m y then y else m) l m == x)%Q).
  { induction l as [|y l IH]; intros m Hm Hl; simpl; auto.
    apply IH.
    - destruct (Qlt_bool m y); auto. apply Hl. left. reflexivity.
    - intros z Hz. apply Hl. right. exact Hz. }
  apply Hgen. reflexivity.
Qed.

End GroupingFacts.

(** What the grouping of the daily branch does ensure.  The rows are
    grouped by the text `${mixing_no}|${cotton}`.  Where the numbers
    among the mixing numbers are integers, the mixing range of every
    group is a
    row's own value or a single number, never a "<min>-<max>" span, and
    the single number is the number of every row of the group that has
    one; the entry's mixing_no field is that range rendered.  Where in
    addition no mixing number contains the delimiter "|", all rows of a
    group have the same mixing number. *)
Theorem daily_group_mixing_range `{Platform}
    (mixingData : list MixRow.t) (key : string) (rows : list MixRow.t) :
  (forall row, In row mixingData -> DescribedGrouping.integral (MixRow.mixing_no row)) ->
  In (key, rows) (entries (Daily.groupRows mixingData)) ->
  (rows <> [] /\ forall r, In r rows -> In r mixingData /\ Daily.groupKey r = key)
  /\ (forall lo hi, Daily.mixingRange rows <> MixingRange.Span lo hi)
  /\ (forall n, Daily.mixingRange rows = MixingRange.Single n ->
        forall r q, In r rows -> JsValue.Number (MixRow.mixing_no r) = Fin q -> (q == n)%Q)
  /\ (forall lookup lotResults blend,
        Entry.mixing_no (Daily.entryOf lookup lotResults rows blend)
        = MixingRange.render (Daily.mixingRange rows))
  /\ ((forall row, In row mixingData ->
         DescribedGrouping.no_bar (ToString (MixRow.mixing_no row)) = true) ->
      forall r r', In r rows -> In r' rows ->
        ToString (MixRow.mixing_no r) = ToString (MixRow.mixing_no r')).
Proof.
  intros Hint Hin.
  apply (Permutation_in _ (entries_perm _)) in Hin.
  destruct (groupRows_rows _ _ _ Hin) as [Hne Hrows].
  assert (Hsame : forall r r' p q, In r rows -> In r' rows ->
            JsValue.Number (MixRow.mixing_no r) = Fin p ->
            JsValue.Number (MixRow.mixing_no r') = Fin q -> (p == q)%Q).
  { intros r r' p q Hr Hr' Hp Hq.
    destruct (Hrows r Hr) as [Hd Hk]. destruct (Hrows r' Hr') as [Hd' Hk'].
    apply (same_text_same_number (MixRow.mixing_no r) (MixRow.mixing_no r')); auto.
    apply (append_bar_inj _ _ (ToString (MixRow.cotton r)) (ToString (MixRow.cotton r'))).
    - eapply numeric_text_no_bar; eauto.
    - eapply numeric_text_no_bar; eauto.
    - unfold Daily.groupKey in Hk, Hk'. rewrite Hk, Hk'. reflexivity. }
  assert (Hnum : forall x, In x (Daily.mixingNumbers rows) ->
            exists r, In r rows /\ JsValue.Number (MixRow.mixing_no r) = Fin x).
  { intros x Hx. apply numericSorted_in in Hx as (v & Hv & Hx).
    apply in_map_iff in Hv as (r & <- & Hr). eauto. }
  assert (Hrange :
    match Daily.mixingNumbers rows with
    | [] => exists v, Daily.mixingRange rows = MixingRange.Raw v
    | x :: _ => exists n, Daily.mixingRange rows = MixingRange.Single n /\ (n == x)%Q
    end).
  { unfold Daily.mixingRange, Daily.minMixing, Daily.maxMixing.
    destruct (Daily.mixingNumbers rows) as [|x l] eqn:E; cbn [MixingRange.of_bounds].
    - eexists. reflexivity.
    - assert (Hl : forall y, In y l -> (y == x)%Q).
      { intros y Hy.
        destruct (Hnum x (or_introl eq_refl)) as (r & Hr & Hx).
        destruct (Hnum y (or_intror Hy)) as (r' & Hr' & Hy').
        apply (Hsame r' r); auto. }
      pose proof (Qmin_list_same x l Hl) as Hmin.
      pose proof (Qmax_list_same x l Hl) as Hmax.
      assert (Qeq_bool (Qmin_list x l) (Qmax_list x l) = true) as ->.
      { apply Qeq_bool_iff. rewrite Hmin, Hmax. reflexivity. }
      eexists. split; [reflexivity | exact Hmin]. }
  split; [split; assumption|]. split; [|split; [|split]].
  - intros lo hi E. destruct (Daily.mixingNumbers rows).
    + destruct Hrange as [v Hv]. congruence.
    + destruct Hrange as (n & Hn & _). congruence.
  - intros n E r q Hr Hq. destruct (Daily.mixingNumbers rows) as [|x l] eqn:Ex.
    + destruct Hrange as [v Hv]. congruence.
    + destruct Hrange as (n' & Hn & Hx). rewrite E in Hn. injection Hn as <-.
      destruct (Hnum x) as (r0 & Hr0 & Hx0); [rewrite ?Ex; left; reflexivity|].
      rewrite Hx. apply (Hsame r r0); auto.
  - reflexivity.
  - intros Hbar r r' Hr Hr'.
    destruct (Hrows r Hr) as [Hd Hk]. destruct (Hrows r' Hr') as [Hd' Hk'].
    apply (append_bar_inj _ _ (ToString (MixRow.cotton r)) (ToString (MixRow.cotton r'))); auto.
    unfold Daily.groupKey in Hk, Hk'. rewrite Hk, Hk'. reflexivity.
Qed.

(** Three rows of the mixings 10 and 11 of one blend: the group of mixing
    10 has the range "10". *)
Lemma daily_group_mixing_range_witness :
  let rows10 := [GroupingExamples.row (VNum 10) "A" "P1";
                 GroupingExamples.row (VNum 10) "A" "P2"] in
  In ("10|A", rows10) (entries (Daily.groupRows GroupingExamples.two_mixings))
  /\ Daily.mixingRange rows10 = MixingRange.Single 10
  /\ forall lo hi, Daily.mixingRange rows10 <> MixingRange.Span lo hi.
Proof.
  intros rows10.
  assert (Hin : In ("10|A", rows10) (entries (Daily.groupRows GroupingExamples.two_mixings)))
    by (left; reflexivity).
  split; [exact Hin|]. split; [reflexivity|].
  apply (@daily_group_mixing_range Reference.platform
           GroupingExamples.two_mixings "10|A" rows10);
    [|exact Hin].
  intros row [<-|[<-|[<-|[]]]]; reflexivity.
Defined.

(** C10.  The source means to group by the pair of mixing number and
    blend code (its comment reads "Group by mixing_no + cotton
    combination"), but joins the two with a delimiter it does not escape:
    the rows (mixing "1|2", blend "3") and (mixing "1", blend "2|3") have
    the same key "1|2|3", so one daily group draws from two mixing
    numbers. *)
Lemma daily_group_two_mixing_numbers :
  entries (Daily.groupRows GroupingExamples.colliding)
  = [("1|2|3", GroupingExamples.colliding)]
  /\ map MixRow.mixing_no GroupingExamples.colliding = [VStr "1|2"; VStr "1"]
  /\ VStr "1|2" <> VStr "1".
Proof. repeat split. discriminate. Qed.

(** ** Continuity *)

Section ContinuityFacts.

Context `{Platform}.

Import Continuity DescribedChange.

Lemma annotate_first body (s : stats) (r : record) (rest : list record) :
  nth_error (annotate body s None (r :: rest)) 0 = Some (index r, body s None r).
Proof. reflexivity. Qed.

(** Every entry after the first is annotated against the record just
    before it, with the state that record leaves. *)
Lemma annotate_next body (records : list record) :
  forall (s : stats) (previous : option record) (i : nat) (p r : record),
    nth_error records i = Some p ->
    nth_error records (S i) = Some r ->
    nth_error (annotate body s previous records) (S i)
    = Some (index r, body (statsAfter (entry p)) (Some p) r).
Proof.
  induction records as [|x rest IH]; intros s previous i p r Hp Hr.
  - destruct i; discriminate.
  - destruct i as [|i]; cbn [annotate nth_error] in *.
    + injection Hp as ->. destruct rest as [|y rest']; [discriminate|].
      injection Hr as ->. reflexivity.
    + apply IH; assumption.
Qed.

Lemma hasSameGroup_after (e : Entry.t) :
  hasSameGroup (statsAfter e) = leaves_state e.
Proof.
  unfold hasSameGroup, statsAfter, leaves_state, timestampOf. cbn.
  destruct (Entry._versionNumber e); [|reflexivity].
  destruct (truthy (Entry.issue_date e)); reflexivity.
Qed.

Lemma dedupe_nodup (l : list string) : NoDup (dedupe String.eqb l).
Proof.
  induction l as [|x l IH]; simpl; constructor.
  - intros Hin. apply filter_In in Hin as [_ Hx].
    rewrite String.eqb_refl in Hx. discriminate.
  - apply NoDup_filter, IH.
Qed.

Lemma dedupe_complete (l : list string) (x : string) :
  In x l -> In x (dedupe String.eqb l).
Proof.
  induction l as [|y l IH]; simpl; auto.
  intros [->|Hin]; auto.
  destruct (String.eqb y x) eqn:E.
  - apply String.eqb_eq in E. auto.
  - right. apply filter_In. split; auto. rewrite E. reflexivity.
Qed.

End ContinuityFacts.

Section OrderFacts.

Context `{Platform}.

Import Continuity DescribedChange.

Lemma orMax_below (x y : option Q) :
  (forall v, x = Some v -> (v < MAX_SAFE_INTEGER)%Q) ->
  (forall v, y = Some v -> (v < MAX_SAFE_INTEGER)%Q) ->
  ((orMax x < orMax y)%Q <-> below x y) /\ ((orMax x == orMax y)%Q <-> level x y).
Proof.
  intros Hx Hy. destruct x as [a|], y as [b|]; cbn.
  - split; reflexivity.
  - pose proof (Hx a eq_refl).
    split; split; intros; try lra; try exact I; try contradiction.
  - pose proof (Hy b eq_refl).
    split; split; intros; try lra; try exact I; try contradiction.
  - split; split; intros; try lra; try exact I; try reflexivity.
Qed.

Lemma in_order_numeric (a b : record) :
  comparable a -> comparable b -> (in_order a b <-> numeric_order a b).
Proof.
  intros (_ & Hva & Hma) (_ & Hvb & Hmb).
  destruct (orMax_below (version a) (version b) Hva Hvb) as [Hv1 Hv2].
  destruct (orMax_below (maxMixNo a) (maxMixNo b) Hma Hmb) as [Hm1 Hm2].
  unfold in_order, numeric_order, versionKey, mixingKey.
  rewrite <- Hv1, <- Hv2, <- Hm1, <- Hm2.
  assert (Hle : (orMax (maxMixNo a) <= orMax (maxMixNo b))%Q
                <-> (orMax (maxMixNo a) < orMax (maxMixNo b))%Q
                    \/ (orMax (maxMixNo a) == orMax (maxMixNo b))%Q).
  { split; [intros Hl; destruct (Qlt_le_dec (orMax (maxMixNo a)) (orMax (maxMixNo b)));
            [left; assumption | right; lra] | intros [|]; lra]. }
  rewrite Hle. reflexivity.
Qed.

Lemma below_trans (x y z : option Q) : below x y -> below y z -> below x z.
Proof. destruct x, y, z; cbn; intros; try lra; auto; contradiction. Qed.

Lemma below_level (x y z : option Q) : below x y -> level y z -> below x z.
Proof. destruct x, y, z; cbn; intros; try lra; auto; contradiction. Qed.

Lemma level_below (x y z : option Q) : level x y -> below y z -> below x z.
Proof. destruct x, y, z; cbn; intros; try lra; auto; contradiction. Qed.

Lemma level_trans (x y z : option Q) : level x y -> level y z -> level x z.
Proof. destruct x, y, z; cbn; intros; try lra; auto; contradiction. Qed.

Lemma numeric_order_trans (a b c : record) :
  numeric_order a b -> numeric_order b c -> numeric_order a c.
Proof.
  unfold numeric_order.
  intros [Hab|[Eab Hab]] [Hbc|[Ebc Hbc]].
  - left. eapply below_trans; eassumption.
  - left. eapply below_level; eassumption.
  - left. eapply level_below; eassumption.
  - right. split; [eapply level_trans; eassumption|].
    destruct Hab as [Hab|[Eab' Hab]], Hbc as [Hbc|[Ebc' Hbc]];
      [left; lra | left; lra | left; lra | right; split; lra].
Qed.

Lemma timestamp_cases (r : record) :
  issueTimestamp r <> Some NaN ->
  (issueTimestamp r = None /\ timestamp r = None)
  \/ exists t, issueTimestamp r = Some (Fin t) /\ timestamp r = Some t.
Proof.
  unfold timestamp. destruct (issueTimestamp r) as [[|t]|]; intros Hn.
  - congruence.
  - right. exists t. split; reflexivity.
  - left. split; reflexivity.
Qed.

(** What the comparator says about two comparable records. *)
Lemma compareRecords_order (a b : record) :
  comparable a -> comparable b ->
  if gt0 (compareRecords a b) then numeric_order b a else numeric_order a b.
Proof.
  intros Ha Hb.
  destruct (timestamp_cases a (proj1 Ha)) as [[Ea Ta]|(ta & Ea & Ta)];
  destruct (timestamp_cases b (proj1 Hb)) as [[Eb Tb]|(tb & Eb & Tb)];
    unfold compareRecords, numeric_order; rewrite Ea, Eb, Ta, Tb; cbn [timestamps_differ].
  2:{ cbn. left. exact I. }
  2:{ cbn. left. exact I. }
  2:{ cbn [num_eqb negb].
      destruct (Qeq_bool ta tb) eqn:E; cbn [negb].
      2:{ cbn [nsub gt0]. destruct (Qlt_bool 0 (ta - tb)) eqn:L.
          - apply Qlt_bool_iff in L. left. cbn. lra.
          - apply Qlt_bool_false in L. left. cbn.
            destruct (Qeq_dec ta tb) as [E'|E']; [apply Qeq_bool_iff in E'; congruence|lra]. }
      apply Qeq_bool_iff in E.
      fold (version a) (version b). fold (versionKey a) (versionKey b).
      fold (mixingKey a) (mixingKey b).
      destruct (Qeq_bool (versionKey a) (versionKey b)) eqn:Ev; cbn [negb].
      2:{ cbn [gt0]. destruct (Qlt_bool 0 (versionKey a - versionKey b)) eqn:L.
          - apply Qlt_bool_iff in L. right. split; [cbn; lra|]. left. lra.
          - apply Qlt_bool_false in L. right. split; [cbn; lra|]. left.
            destruct (Qeq_dec (versionKey a) (versionKey b)) as [E'|E'];
              [apply Qeq_bool_iff in E'; congruence|lra]. }
      apply Qeq_bool_iff in Ev.
      destruct (Qeq_bool (mixingKey a) (mixingKey b)) eqn:Em; cbn [negb].
      2:{ cbn [gt0]. destruct (Qlt_bool 0 (mixingKey a - mixingKey b)) eqn:L.
          - apply Qlt_bool_iff in L. right. split; [cbn; lra|]. right. split; lra.
          - apply Qlt_bool_false in L. right. split; [cbn; lra|]. right. split; lra. }
      apply Qeq_bool_iff in Em. cbn. right. split; [lra|]. right. split; lra. }
  fold (version a) (version b). fold (versionKey a) (versionKey b).
  fold (mixingKey a) (mixingKey b).
  destruct (Qeq_bool (versionKey a) (versionKey b)) eqn:Ev; cbn [negb].
  2:{ cbn [gt0]. destruct (Qlt_bool 0 (versionKey a - versionKey b)) eqn:L.
      - apply Qlt_bool_iff in L. right. split; [exact I|]. left. lra.
      - apply Qlt_bool_false in L. right. split; [exact I|]. left.
        destruct (Qeq_dec (versionKey a) (versionKey b)) as [E'|E'];
          [apply Qeq_bool_iff in E'; congruence|lra]. }
  apply Qeq_bool_iff in Ev.
  destruct (Qeq_bool (mixingKey a) (mixingKey b)) eqn:Em; cbn [negb].
  2:{ cbn [gt0]. destruct (Qlt_bool 0 (mixingKey a - mixingKey b)) eqn:L.
      - apply Qlt_bool_iff in L. right. split; [exact I|]. right. split; lra.
      - apply Qlt_bool_false in L. right. split; [exact I|]. right. split; lra. }
  apply Qeq_bool_iff in Em. cbn. right. split; [exact I|]. right. split; lra.
Qed.

Lemma sort_sorted (l : list record) :
  Forall comparable l -> StronglySorted numeric_order (sort compareRecords l).
Proof.
  apply sort_strongly_sorted.
  - apply compareRecords_order.
  - apply numeric_order_trans.
Qed.

Lemma sort_in_order (l : list record) :
  Forall comparable l -> StronglySorted in_order (sort compareRecords l).
Proof.
  intros Hl. pose proof (sort_sorted l Hl) as Hs.
  assert (Hc : Forall comparable (sort compareRecords l)).
  { apply Forall_forall. intros z Hz.
    apply (Permutation_in z (sort_perm _ _)) in Hz.
    eapply Forall_forall in Hz; eauto. }
  induction Hs as [|y s Hs IH Hy]; constructor.
  - inversion Hc; subst. apply IH. assumption.
  - inversion Hc as [|? ? Hcy Hcs]; subst.
    apply Forall_forall. intros z Hz.
    apply in_order_numeric; auto.
    + eapply Forall_forall in Hcs; eauto.
    + eapply Forall_forall in Hy; eauto.
Qed.

End OrderFacts.

(** ** The change percentages of a period *)

Section PeriodChangeFacts.

Context `{Platform}.

Import Periodic DescribedChange DescribedPeriod.

Lemma set_keys_spec {V : Type} (o : obj V) (k : string) (v : V) (k' : string) :
  In k' (map fst (set o k v)) <-> In k' (map fst o) \/ k' = k.
Proof.
  split; [apply set_keys_in|].
  induction o as [|[k0 v0] r IH]; simpl.
  - intros [[]| ->]. left. reflexivity.
  - destruct (String.eqb k0 k) eqn:E; simpl.
    + apply String.eqb_eq in E. subst. intros [[<-|Hin]| ->]; auto.
    + intros [[<-|Hin]| ->]; auto.
Qed.

(** One sub-entry per mixing number of the rows that have one. *)
Lemma mixMap_keys (lookup : obj jsval) (rows : list MixRow.t) :
  NoDup (map fst (mixMapOf lookup rows))
  /\ forall k, In k (map fst (mixMapOf lookup rows))
       <-> exists r, In r rows /\ has_mixing r = true
                     /\ ToString (MixRow.mixing_no r) = k.
Proof.
  unfold mixMapOf.
  assert (Hgen : forall todo (m : obj mixing),
            NoDup (map fst m) ->
            NoDup (map fst (fold_left (addToMixMap lookup) todo m))
            /\ forall k, In k (map fst (fold_left (addToMixMap lookup) todo m))
                 <-> In k (map fst m)
                     \/ exists r, In r todo /\ has_mixing r = true
                                  /\ ToString (MixRow.mixing_no r) = k).
  { induction todo as [|r todo IH]; intros m Hm; cbn [fold_left].
    - split; auto. intros k. split; auto. intros [Hin|(r & [] & _)]. exact Hin.
    - assert (Hstep : NoDup (map fst (addToMixMap lookup m r))
                /\ forall k, In k (map fst (addToMixMap lookup m r))
                     <-> In k (map fst m)
                         \/ (has_mixing r = true /\ ToString (MixRow.mixing_no r) = k)).
      { unfold addToMixMap, has_mixing.
        destruct (truthy (coalesce (MixRow.mixing_no r) (VStr ""))) eqn:Et; cbn [negb].
        - assert (Ec : coalesce (MixRow.mixing_no r) (VStr "") = MixRow.mixing_no r).
          { destruct (MixRow.mixing_no r); try reflexivity. discriminate. }
          rewrite Ec. split; [apply set_nodup, Hm|].
          intros k. rewrite set_keys_spec. split.
          + intros [Hin| ->]; auto.
          + intros [Hin|[_ <-]]; auto.
        - split; auto. intros k. split; auto. intros [Hin|[Hf _]]; [exact Hin | discriminate]. }
      destruct Hstep as [Hnd Hkeys].
      destruct (IH _ Hnd) as [Hnd' Hkeys']. split; auto.
      intros k. rewrite Hkeys', Hkeys. split.
      + intros [[Hin|[Ht Hk]]|(r' & Hr' & Ht & Hk)]; auto.
        * right. exists r. split; [left; reflexivity | split; assumption].
        * right. exists r'. split; [right; assumption | split; assumption].
      + intros [Hin|(r' & [<-|Hr'] & Ht & Hk)]; auto.
        right. exists r'. auto. }
  destruct (Hgen rows [] (NoDup_nil _)) as [Hnd Hkeys]. split; auto.
  intros k. rewrite Hkeys. split; [intros [[]|Hex]; exact Hex | auto].
Qed.

Lemma sub_timestamp_cases (m : mixing) :
  Continuity.timestampOf (issueDate_of m) <> Some NaN ->
  (Continuity.timestampOf (issueDate_of m) = None /\ sub_timestamp m = None)
  \/ exists t, Continuity.timestampOf (issueDate_of m) = Some (Fin t)
               /\ sub_timestamp m = Some t.
Proof.
  unfold sub_timestamp.
  destruct (Continuity.timestampOf (issueDate_of m)) as [[|t]|]; intros Hn.
  - congruence.
  - right. exists t. split; reflexivity.
  - left. split; reflexivity.
Qed.

Lemma sub_in_order_trans (a b c : mixing) :
  sub_in_order a b -> sub_in_order b c -> sub_in_order a c.
Proof.
  unfold sub_in_order.
  intros [Hab|[Eab Hab]] [Hbc|[Ebc Hbc]].
  - left. eapply below_trans; eassumption.
  - left. eapply below_level; eassumption.
  - left. eapply level_below; eassumption.
  - right. split; [eapply level_trans; eassumption|].
    destruct Hab as [Hab|Hab], Hbc as [Hbc|Hbc].
    + left. eapply below_trans; eassumption.
    + left. eapply below_level; eassumption.
    + left. eapply level_below; eassumption.
    + right. eapply level_trans; eassumption.
Qed.

Lemma compareMixings_order (a b : mixing) :
  sub_comparable a -> sub_comparable b ->
  if gt0 (compareMixings a b) then sub_in_order b a else sub_in_order a b.
Proof.
  intros [Hta Hna] [Htb Hnb].
  assert (Hnum : forall x y : Q,
            if gt0 (Fin (x - y))
            then below (Some y) (Some x) \/ level (Some y) (Some x)
            else below (Some x) (Some y) \/ level (Some x) (Some y)).
  { intros x y. cbn [gt0]. destruct (Qlt_bool 0 (x - y)) eqn:L.
    - apply Qlt_bool_iff in L. left. cbn. lra.
    - apply Qlt_bool_false in L. cbn.
      destruct (Qlt_le_dec x y); [left; assumption | right; lra]. }
  unfold compareMixings, sub_in_order, sub_number.
  destruct (JsValue.Number (mixing_no a)) as [|na]; [congruence|].
  destruct (JsValue.Number (mixing_no b)) as [|nb]; [congruence|].
  destruct (sub_timestamp_cases a Hta) as [[Ea Ta]|(ta & Ea & Ta)];
  destruct (sub_timestamp_cases b Htb) as [[Eb Tb]|(tb & Eb & Tb)];
    rewrite Ea, Eb, Ta, Tb; cbn [Continuity.timestamps_differ].
  - pose proof (Hnum na nb) as Hn. destruct (gt0 (Fin (na - nb)));
      right; split; try exact I; exact Hn.
  - cbn. left. exact I.
  - cbn. left. exact I.
  - cbn [num_eqb]. destruct (Qeq_bool ta tb) eqn:E; cbn [negb].
    + apply Qeq_bool_iff in E. pose proof (Hnum na nb) as Hn.
      destruct (gt0 (Fin (na - nb))); right; (split; [cbn; lra | exact Hn]).
    + cbn [nsub gt0]. destruct (Qlt_bool 0 (ta - tb)) eqn:L.
      * apply Qlt_bool_iff in L. left. cbn. lra.
      * apply Qlt_bool_false in L. left. cbn.
        destruct (Qeq_dec ta tb) as [E'|E']; [apply Qeq_bool_iff in E'; congruence | lra].
Qed.

Lemma mixingList_sorted (lookup : obj jsval) (rows : list MixRow.t) :
  Forall sub_comparable (values (mixMapOf lookup rows)) ->
  StronglySorted sub_in_order (mixingList lookup rows).
Proof.
  apply sort_strongly_sorted.
  - apply compareMixings_order.
  - apply sub_in_order_trans.
Qed.

End PeriodChangeFacts.

(** ** Filter parameters *)

Section FilterFacts.

Import Filters.

Lemma trim_idem (s : string) : trim (trim s) = trim s.
Proof.
  unfold trim at 1.
  rewrite strip_leading_id by apply trim_head.
  unfold trim. apply strip_trailing_idem.
Qed.

Lemma strip_trailing_last (f : ascii -> bool) (s : string) (c : ascii) :
  Reference.last_char (strip_trailing f s) = Some c -> f c = false.
Proof.
  induction s as [|c0 r IH]; simpl; [discriminate|].
  destruct (strip_trailing f r) as [|c1 r'] eqn:E; simpl.
  - destruct (f c0) eqn:Ec; simpl; [discriminate|].
    intros [= <-]. exact Ec.
  - exact IH.
Qed.

Lemma strip_trailing_keeps_head (f g : ascii -> bool) (s : string) :
  head_is g s = false -> head_is g (strip_trailing f s) = false.
Proof.
  destruct s as [|c r]; simpl; auto.
  destruct (is_empty (strip_trailing f r) && f c); auto.
Qed.

Lemma trim_last (s : string) (c : ascii) :
  Reference.last_char (trim s) = Some c -> is_space c = false.
Proof. apply strip_trailing_last. Qed.

(** An induction principle that reaches the elements of an array. *)
Lemma json_induction (P : Json.t -> Prop) :
  P Json.Null ->
  (forall b, P (Json.Bool b)) ->
  (forall q, P (Json.Num q)) ->
  (forall s, P (Json.Str s)) ->
  (forall items, Forall P items -> P (Json.Arr items)) ->
  (forall fields, P (Json.Obj fields)) ->
  forall v, P v.
Proof.
  intros HNull HBool HNum HStr HArr HObj.
  fix IH 1. intros [| b | q | s | items | fields];
    [apply HNull | apply HBool | apply HNum | apply HStr | | apply HObj].
  apply HArr. induction items as [|x r IHr]; constructor; [apply IH | exact IHr].
Qed.

Lemma text_trimmed (item : Json.t) : trim (text item) = text item.
Proof. destruct item; simpl; auto using trim_idem. Qed.

Lemma columnText_trimmed (v : jsval) : trim (columnText v) = columnText v.
Proof. destruct v; simpl; auto using trim_idem. Qed.

Lemma not_blank_spec (s : string) : not_blank s = true <-> s <> EmptyString.
Proof.
  destruct s; cbn; split; intros Hs; try discriminate; try reflexivity.
  exfalso. apply Hs. reflexivity.
Qed.

Lemma normalizeValues_clean (values : option Json.t) :
  NoDup (normalizeValues values) /\
  forall s, In s (normalizeValues values) -> s <> EmptyString /\ trim s = s.
Proof.
  unfold normalizeValues. split; [apply dedupe_nodup|].
  intros s Hin. apply dedupe_in, filter_In in Hin as [Hin Hs].
  apply not_blank_spec in Hs. split; auto.
  apply in_map_iff in Hin as [item [<- _]]. apply text_trimmed.
Qed.

End FilterFacts.

(** [parseFilterParam] (used for [lot_no], [variety], [station] and
    [party_name]) never yields a blank, an untrimmed or a repeated value,
    whatever [JSON.parse] makes of the parameter; a non-blank string that
    is not JSON stands for itself, trimmed. *)
Theorem parseFilterParam_clean `{JsonReader} (value : option Json.t) :
  NoDup (Filters.parseFilterParam value) /\
  (forall s, In s (Filters.parseFilterParam value) ->
             s <> EmptyString /\ trim s = s) /\
  (forall raw, value = Some (Json.Str raw) -> JSON_parse raw = None ->
               trim raw <> EmptyString ->
               Filters.parseFilterParam value = [trim raw]).
Proof.
  split; [|split].
  - unfold Filters.parseFilterParam. destruct value as [v|]; [|constructor].
    destruct (Json.truthy v); simpl; [|constructor].
    destruct (JSON_parse (Json.toString v)); apply normalizeValues_clean.
  - unfold Filters.parseFilterParam. destruct value as [v|]; [|intros s []].
    destruct (Json.truthy v); simpl; [|intros s []].
    destruct (JSON_parse (Json.toString v)); apply normalizeValues_clean.
  - intros raw -> Hparse Hraw. unfold Filters.parseFilterParam.
    assert (Ht : Json.truthy (Json.Str raw) = true).
    { destruct raw; [exfalso; apply Hraw; reflexivity | reflexivity]. }
    rewrite Ht. cbn [negb Json.toString]. rewrite Hparse.
    unfold Filters.normalizeValues. cbn [Filters.toArray map Filters.text Json.toString].
    cbn [filter]. destruct (trim raw) eqn:E; [congruence|]. reflexivity.
Qed.

Lemma strip_trailing_split (f : ascii -> bool) (s : string) :
  exists rest, s = (strip_trailing f s ++ rest)%string /\ all_chars f rest = true.
Proof.
  induction s as [|c r [rest [Hr Hrest]]]; [exists EmptyString; auto|].
  cbn [strip_trailing].
  destruct (is_empty (strip_trailing f r) && f c) eqn:E.
  - apply andb_true_iff in E as [Ee Ec]. apply is_empty_true in Ee.
    exists (String c r). split; [reflexivity|].
    rewrite Ee in Hr. cbn [append] in Hr. subst rest.
    cbn [all_chars]. rewrite Ec, Hrest. reflexivity.
  - exists rest. split; [|exact Hrest]. cbn [append]. f_equal. exact Hr.
Qed.

(** [normalizeQueryValue] yields a text that neither begins with white
    space nor ends with a semicolon.  For a string it is the trimmed
    string without the semicolons it ends with; for an array it is the
    result for the first element (the empty text for an empty array);
    for anything else it is the empty text. *)
Theorem normalizeQueryValue_shape (value : Json.t) :
  let result := Filters.normalizeQueryValue value in
  (head_is is_space result = false /\
   forall c, Reference.last_char result = Some c -> Filters.is_semicolon c = false) /\
  match value with
  | Json.Str s =>
      exists semicolons,
        trim s = (result ++ semicolons)%string /\
        all_chars Filters.is_semicolon semicolons = true
  | Json.Arr (first :: _) => result = Filters.normalizeQueryValue first
  | _ => result = EmptyString
  end.
Proof.
  cbv zeta. split.
  - induction value as [| b | q | s | items IH | fields] using json_induction;
      try (split; [reflexivity | discriminate]).
    + cbn [Filters.normalizeQueryValue]. split.
      * apply strip_trailing_keeps_head, trim_head.
      * intros c. apply strip_trailing_last.
    + destruct items as [|first rest]; [split; [reflexivity | discriminate]|].
      cbn [Filters.normalizeQueryValue]. inversion IH; subst. assumption.
  - destruct value as [| b | q | s | [|first rest] | fields]; try reflexivity.
    cbn [Filters.normalizeQueryValue]. apply strip_trailing_split.
Qed.

(** ** Range validation *)

Section ValidationFacts.

Import Validation.

Lemma is_empty_false (s : string) : is_empty s = false <-> s <> EmptyString.
Proof.
  destruct s; cbn; split; intros Hs; try discriminate; try reflexivity.
  exfalso. apply Hs. reflexivity.
Qed.

Lemma isNaN_false (a : num) : isNaN a = false <-> exists q, a = Fin q.
Proof.
  destruct a; cbn; split; try discriminate; eauto.
  intros [q Hq]. discriminate.
Qed.

Lemma gt0_nsub (x y : Q) : gt0 (nsub (Fin x) (Fin y)) = false <-> (x <= y)%Q.
Proof.
  cbn. rewrite Qlt_bool_false. split; intros Hxy; lra.
Qed.

End ValidationFacts.

(** [validateDateRange] accepts a pair of bounds exactly when each bound
    that is given parses as a date and, when both are given, the first is
    not after the second; a first bound that does not parse is reported
    before anything about the second. *)
Theorem validateDateRange_accepts `{Platform} (fromDate toDate : string) :
  (Validation.validateDateRange fromDate toDate = None <->
   (fromDate = EmptyString \/ exists t, Date_parse fromDate = Some t) /\
   (toDate = EmptyString \/ exists t, Date_parse toDate = Some t) /\
   (forall a b, fromDate <> EmptyString -> toDate <> EmptyString ->
                Date_parse fromDate = Some a -> Date_parse toDate = Some b -> a <= b)) /\
  (Validation.validateDateRange fromDate toDate
     = Some "from_date must be a valid ISO date" <->
   fromDate <> EmptyString /\ Date_parse fromDate = None).
Proof.
  unfold Validation.validateDateRange, Validation.isValidIsoDate, Validation.dateAfter.
  destruct fromDate as [|fc fr], toDate as [|tc tr]; cbn [is_empty andb negb].
  - split; split; try discriminate; auto.
    + intros _. repeat split; auto. intros a b Hf. exfalso. apply Hf. reflexivity.
    + intros [Hf _]. exfalso. apply Hf. reflexivity.
  - destruct (Date_parse (String tc tr)) as [t|] eqn:Et; cbn [negb]; split; split;
      try discriminate; auto.
    + intros _. repeat split; eauto. intros a b Hf. exfalso. apply Hf. reflexivity.
    + intros [Hf _]. exfalso. apply Hf. reflexivity.
    + intros [_ [[Hto|[t Ht]] _]]; discriminate.
    + intros [Hf _]. exfalso. apply Hf. reflexivity.
  - destruct (Date_parse (String fc fr)) as [f|] eqn:Ef; cbn [negb]; split; split;
      try discriminate; auto.
    + intros _. repeat split; eauto. intros a b _ Ht. exfalso. apply Ht. reflexivity.
    + intros [_ Hn]. discriminate.
    + intros [[Hfrom|[t Ht]] _]; discriminate.
    + intros _. split; [discriminate | reflexivity].
  - destruct (Date_parse (String fc fr)) as [f|] eqn:Ef; cbn [negb].
    + destruct (Date_parse (String tc tr)) as [t|] eqn:Et; cbn [negb].
      * destruct (t <? f) eqn:Elt; split; split; try discriminate; auto.
        -- intros [_ [_ Hle]]. apply Z.ltb_lt in Elt.
           specialize (Hle f t). assert (f <= t) by (apply Hle; congruence). lia.
        -- intros [_ Hn]. discriminate.
        -- intros _. repeat split; eauto. intros a b _ _ [= <-] [= <-].
           apply Z.ltb_ge in Elt. exact Elt.
        -- intros [_ Hn]. discriminate.
      * split; split; try discriminate.
        -- intros [_ [[Hto|[t Ht]] _]]; discriminate.
        -- intros [_ Hn]. discriminate.
    + split; split; try discriminate; auto.
      * intros [[Hfrom|[t Ht]] _]; discriminate.
      * intros _. split; [discriminate | reflexivity].
Qed.

(** For bounds written with digits, a sign, a point and blanks only,
    [validateMixingRange] accepts exactly when each bound that is given
    reads as a number and, when both are given, the first is not greater
    than the second. *)
Theorem validateMixingRange_accepts (mixingFrom mixingTo : string) :
  all_chars numeric_char mixingFrom = true ->
  all_chars numeric_char mixingTo = true ->
  (Validation.validateMixingRange mixingFrom mixingTo = None <->
   (mixingFrom = EmptyString \/ exists q, StringToNumber mixingFrom = Fin q) /\
   (mixingTo = EmptyString \/ exists q, StringToNumber mixingTo = Fin q) /\
   (forall a b, mixingFrom <> EmptyString -> mixingTo <> EmptyString ->
                StringToNumber mixingFrom = Fin a -> StringToNumber mixingTo = Fin b ->
                (a <= b)%Q)).
Proof.
  intros _ _. unfold Validation.validateMixingRange.
  destruct (is_empty mixingFrom) eqn:Ef, (is_empty mixingTo) eqn:Et;
    cbn [andb negb].
  - apply is_empty_true in Ef, Et. subst. split; auto.
    intros _. repeat split; auto. intros a b Hf. exfalso. apply Hf. reflexivity.
  - apply is_empty_true in Ef. subst mixingFrom. apply is_empty_false in Et.
    destruct (StringToNumber mixingTo) as [|q] eqn:En; cbn [isNaN].
    + split; [discriminate|]. intros [_ [[Hto|[q Hq]] _]]; [contradiction | discriminate].
    + split; auto. intros _. repeat split; eauto.
      intros a b Hf. exfalso. apply Hf. reflexivity.
  - apply is_empty_true in Et. subst mixingTo. apply is_empty_false in Ef.
    destruct (StringToNumber mixingFrom) as [|q] eqn:En; cbn [isNaN].
    + split; [discriminate|]. intros [[Hfrom|[q Hq]] _]; [contradiction | discriminate].
    + split; auto. intros _. repeat split; eauto.
      intros a b _ Ht. exfalso. apply Ht. reflexivity.
  - apply is_empty_false in Ef, Et.
    destruct (StringToNumber mixingFrom) as [|x] eqn:Ex; cbn [isNaN].
    { split; [discriminate|]. intros [[Hfrom|[q Hq]] _]; [contradiction | discriminate]. }
    destruct (StringToNumber mixingTo) as [|y] eqn:Ey; cbn [isNaN].
    { split; [discriminate|]. intros [_ [[Hto|[q Hq]] _]]; [contradiction | discriminate]. }
    destruct (gt0 (nsub (Fin x) (Fin y))) eqn:Eg.
    + split; [discriminate|]. intros [_ [_ Hle]].
      assert (Hxy : (x <= y)%Q) by (apply Hle; auto).
      apply gt0_nsub in Hxy. congruence.
    + split; auto. intros _. repeat split; eauto.
      intros a b _ _ [= <-] [= <-]. apply gt0_nsub. exact Eg.
Qed.

Lemma validateMixingRange_accepts_witness :
  Validation.validateMixingRange "10" "20" = None /\
  Validation.validateMixingRange "20" "10"
    = Some "mixing_from cannot be greater than mixing_to".
Proof.
  split; [|reflexivity].
  apply (validateMixingRange_accepts "10" "20"); [reflexivity | reflexivity |].
  repeat split.
  - right. exists 10%Q. reflexivity.
  - right. exists 20%Q. reflexivity.
  - intros a b _ _ Ha Hb. vm_compute in Ha, Hb.
    injection Ha as <-. injection Hb as <-. vm_compute. discriminate.
Defined.

(** ** Option lists *)

Section OptionListFacts.

Import Filters Collation.

Lemma gt0_comparison (c : comparison) : gt0 (comparison_num c) = true <-> c = Gt.
Proof. destruct c; cbn; split; intros Hc; try discriminate; reflexivity. Qed.

Lemma sort_by_collation (cmp : string -> string -> comparison) (l : list string) :
  consistent cmp ->
  StronglySorted (precedes cmp) (sort (fun a b => comparison_num (cmp a b)) l).
Proof.
  intros [Htotal Htrans].
  apply (sort_strongly_sorted _ (fun _ => True)); auto.
  - intros a b _ _. destruct (gt0 (comparison_num (cmp a b))) eqn:E.
    + apply Htotal, gt0_comparison, E.
    + intros Hgt. apply gt0_comparison in Hgt. congruence.
  - apply Forall_forall. auto.
Qed.

(** Sorting a list that is already in order changes nothing. *)
Lemma sort_sorted_id {A : Type} (cmp : A -> A -> num) (l : list A) :
  StronglySorted (fun a b => gt0 (cmp a b) = false) l -> sort cmp l = l.
Proof.
  induction 1 as [|x l Hs IH Hx]; cbn [sort]; auto.
  rewrite IH. destruct l as [|y r]; cbn [insert]; auto.
  inversion Hx as [|? ? Hy _]; subst. rewrite Hy. reflexivity.
Qed.

Lemma sorted_weaken {A : Type} (R S : A -> A -> Prop) (l : list A) :
  (forall a b, R a b -> S a b) -> StronglySorted R l -> StronglySorted S l.
Proof.
  intros HRS. induction 1 as [|x l Hs IH Hx]; constructor; auto.
  eapply Forall_impl; [|exact Hx]. auto.
Qed.

Lemma sort_twice (cmp : string -> string -> comparison) (l : list string) :
  consistent cmp ->
  let by_cmp := fun a b => comparison_num (cmp a b) in
  sort by_cmp (sort by_cmp l) = sort by_cmp l.
Proof.
  intros Hc by_cmp. apply sort_sorted_id.
  apply (sorted_weaken (precedes cmp)); [|apply sort_by_collation; exact Hc].
  intros a b Hab. unfold by_cmp.
  destruct (gt0 (comparison_num (cmp a b))) eqn:E; auto.
  apply gt0_comparison in E. contradiction.
Qed.

Lemma texts_spec {A : Type} (f : A -> string) (l : list A) (s : string) :
  In s (dedupe String.eqb (filter not_blank (map f l)))
  <-> s <> EmptyString /\ exists x, In x l /\ f x = s.
Proof.
  split.
  - intros Hin. apply dedupe_in, filter_In in Hin as [Hin Hs].
    apply not_blank_spec in Hs. apply in_map_iff in Hin as [x [Hx Hin]]. eauto.
  - intros [Hs [x [Hin Hx]]]. apply dedupe_complete, filter_In. split.
    + apply in_map_iff. eauto.
    + apply not_blank_spec. exact Hs.
Qed.

End OptionListFacts.

(** [buildUniqueList] lists every non-blank trimmed text of the column
    once, and nothing else, in the order of the base collation whenever
    that collation is a total order. *)
Theorem buildUniqueList_options `{Platform} (rows : list Filters.row) (key : string) :
  Collation.consistent localeCompare_base ->
  let options := Filters.buildUniqueList rows key in
  NoDup options /\
  (forall s, In s options <->
             s <> EmptyString /\
             exists r, In r rows /\ Filters.columnText (Filters.column r key) = s) /\
  StronglySorted (Collation.precedes localeCompare_base) options.
Proof.
  intros Hc options. unfold options, Filters.buildUniqueList.
  split; [|split].
  - eapply Permutation_NoDup; [symmetry; apply sort_perm | apply dedupe_nodup].
  - intros s. rewrite <- (texts_spec (fun r => Filters.columnText (Filters.column r key))).
    split; intros Hin.
    + eapply Permutation_in; [apply sort_perm | exact Hin].
    + eapply Permutation_in; [symmetry; apply sort_perm | exact Hin].
  - apply (sort_by_collation localeCompare_base), Hc.
Qed.

(** [buildSortedOptionList] lists every non-blank trimmed text of its
    values once, and nothing else; when all of them read as numbers they
    come in ascending order of their values. *)
Theorem buildSortedOptionList_options `{NumericCollation} (values : list jsval) :
  let options := Filters.buildSortedOptionList values in
  NoDup options /\
  (forall s, In s options <->
             s <> EmptyString /\ exists v, In v values /\ Filters.columnText v = s) /\
  ((forall s, In s options -> exists q, StringToNumber s = Fin q) ->
   StronglySorted (fun a b => (Collation.value a <= Collation.value b)%Q) options).
Proof.
  intros options. unfold options, Filters.buildSortedOptionList.
  split; [|split].
  - eapply Permutation_NoDup; [symmetry; apply sort_perm | apply dedupe_nodup].
  - intros s. rewrite <- (texts_spec Filters.columnText).
    split; intros Hin.
    + eapply Permutation_in; [apply sort_perm | exact Hin].
    + eapply Permutation_in; [symmetry; apply sort_perm | exact Hin].
  - intros Hnum.
    apply (sort_strongly_sorted _ (fun s => exists q, StringToNumber s = Fin q)).
    + intros a b [x Hx] [y Hy]. unfold Filters.byNumberOrName, Collation.value.
      rewrite Hx, Hy. cbn.
      destruct (Qlt_bool 0 (x - y)) eqn:E.
      * apply Qlt_bool_iff in E. lra.
      * apply Qlt_bool_false in E. lra.
    + intros a b c Hab Hbc. eapply Qle_trans; eassumption.
    + apply Forall_forall. intros s Hin. apply Hnum.
      eapply Permutation_in; [symmetry; apply sort_perm | exact Hin].
Qed.

Lemma buildSortedOptionList_options_witness :
  let H := ReferenceJson.collation in
  let options := Filters.buildSortedOptionList [VStr "10"; VNum 9; VStr " 2 "; VStr "9"] in
  options = ["2"; "9"; "10"] /\
  StronglySorted (fun a b => (Collation.value a <= Collation.value b)%Q) options.
Proof.
  intros H options. split; [reflexivity|].
  apply (@buildSortedOptionList_options H [VStr "10"; VNum 9; VStr " 2 "; VStr "9"]).
  intros s Hin. vm_compute in Hin.
  destruct Hin as [<-|[<-|[<-|[]]]]; eexists; vm_compute; reflexivity.
Defined.

Section ReferenceCollation.

Import Collation.

Variable key : ascii -> Z.

Lemma compare_by_flip (a b : string) :
  Reference.compare_by key b a = CompOpp (Reference.compare_by key a b).
Proof.
  revert b. induction a as [|x a IH]; intros [|y b]; cbn; auto.
  rewrite (Z.compare_antisym (key x) (key y)).
  destruct (key x ?= key y); cbn; auto.
Qed.

Lemma compare_by_trans (a b c : string) :
  precedes (Reference.compare_by key) a b ->
  precedes (Reference.compare_by key) b c ->
  precedes (Reference.compare_by key) a c.
Proof.
  unfold precedes. revert b c.
  induction a as [|x a IH]; intros [|y b] [|z c]; cbn; try congruence.
  destruct (Z.compare_spec (key x) (key y)) as [Exy|Exy|Exy];
    destruct (Z.compare_spec (key y) (key z)) as [Eyz|Eyz|Eyz];
    destruct (Z.compare_spec (key x) (key z)) as [Exz|Exz|Exz];
    try congruence; try lia.
  apply IH.
Qed.

Lemma compare_by_consistent : consistent (Reference.compare_by key).
Proof.
  split.
  - intros a b Hab. unfold precedes. rewrite compare_by_flip, Hab. discriminate.
  - apply compare_by_trans.
Qed.

End ReferenceCollation.

Lemma buildUniqueList_options_witness :
  let H := Reference.platform in
  let rows := [[("lot_no", VStr "b")]; [("lot_no", VStr " a ")];
               [("lot_no", VStr "b"); ("station", VStr "x")]; [("lot_no", VNull)]] in
  Filters.buildUniqueList rows "lot_no" = ["a"; "b"] /\
  NoDup (Filters.buildUniqueList rows "lot_no").
Proof.
  intros H rows. split; [reflexivity|].
  apply (@buildUniqueList_options H rows "lot_no").
  apply compare_by_consistent.
Defined.

(** ** Mixing signatures *)

Section SignatureFacts.

Import Filters Collation.

Local Abbreviation no_plus := (all_chars (fun c => negb (is_plus c))).

Lemma strip_leading_keeps (f P : ascii -> bool) (s : string) :
  all_chars P s = true -> all_chars P (strip_leading f s) = true.
Proof.
  induction s as [|c r IH]; cbn; auto.
  intros Hs. destruct (f c); [|exact Hs].
  apply andb_true_iff in Hs as [_ Hr]. auto.
Qed.

Lemma strip_trailing_keeps (f P : ascii -> bool) (s : string) :
  all_chars P s = true -> all_chars P (strip_trailing f s) = true.
Proof.
  induction s as [|c r IH]; cbn; auto.
  intros Hs. apply andb_true_iff in Hs as [Hc Hr].
  destruct (is_empty (strip_trailing f r) && f c); cbn; auto.
  rewrite Hc, IH; auto.
Qed.

Lemma trim_keeps (P : ascii -> bool) (s : string) :
  all_chars P s = true -> all_chars P (trim s) = true.
Proof. intros Hs. apply strip_trailing_keeps, strip_leading_keeps, Hs. Qed.

Lemma strip_trailing_fixed (f : ascii -> bool) (s : string) :
  (forall c, Reference.last_char s = Some c -> f c = false) ->
  strip_trailing f s = s.
Proof.
  induction s as [|c r IH]; cbn [strip_trailing]; auto.
  intros Hlast. destruct r as [|c' r'].
  - cbn. rewrite (Hlast c); reflexivity.
  - rewrite IH; [reflexivity|]. intros d Hd. apply Hlast. exact Hd.
Qed.

Lemma trim_fixed (s : string) :
  head_is is_space s = false ->
  (forall c, Reference.last_char s = Some c -> is_space c = false) ->
  trim s = s.
Proof.
  intros Hhead Hlast. unfold trim. rewrite strip_leading_id by exact Hhead.
  apply strip_trailing_fixed, Hlast.
Qed.

Lemma last_char_app (x y : string) :
  y <> EmptyString -> Reference.last_char (x ++ y) = Reference.last_char y.
Proof.
  intros Hy. induction x as [|c r IH]; cbn [append]; auto.
  cbn [Reference.last_char]. rewrite IH.
  destruct (r ++ y) eqn:E; auto.
  destruct r, y; cbn in E; try discriminate. contradiction.
Qed.

Lemma head_is_app (f : ascii -> bool) (x y : string) :
  x <> EmptyString -> head_is f (x ++ y) = head_is f x.
Proof. destruct x; cbn; auto. contradiction. Qed.

(** *** Splitting and joining on [+] *)

Lemma split_on_whole (s : string) :
  no_plus s = true -> Reference.split_on 43 s = [s].
Proof.
  induction s as [|c r IH]; cbn; auto.
  intros Hs. apply andb_true_iff in Hs as [Hc Hr].
  unfold is_plus in Hc. apply negb_true_iff in Hc. rewrite Hc, (IH Hr). reflexivity.
Qed.

Lemma split_on_first (p rest : string) :
  no_plus p = true ->
  Reference.split_on 43 (p ++ "+" ++ rest) = p :: Reference.split_on 43 rest.
Proof.
  induction p as [|c r IH]; cbn [append Reference.split_on all_chars].
  - intros _. reflexivity.
  - intros Hs. apply andb_true_iff in Hs as [Hc Hr].
    unfold is_plus in Hc. apply negb_true_iff in Hc.
    rewrite Hc. cbn [append] in IH. rewrite (IH Hr). reflexivity.
Qed.

Lemma split_on_pieces (s : string) :
  Forall (fun p => no_plus p = true) (Reference.split_on 43 s).
Proof.
  induction s as [|c r IH]; cbn [Reference.split_on].
  - repeat constructor.
  - destruct (code c =? 43) eqn:E.
    + constructor; [reflexivity | exact IH].
    + destruct (Reference.split_on 43 r) as [|x l].
      * repeat constructor. cbn. unfold is_plus. rewrite E. reflexivity.
      * inversion IH; subst. constructor; auto.
        cbn. unfold is_plus. rewrite E. cbn. assumption.
Qed.

Lemma split_join (ps : list string) :
  ps <> [] -> Forall part ps -> Reference.split_on 43 (join "+" ps) = ps.
Proof.
  intros Hne Hps. induction Hps as [|p ps [_ [_ Hp]] Hps IH]; [contradiction|].
  destruct ps as [|q ps].
  - apply split_on_whole, Hp.
  - change (join "+" (p :: q :: ps)) with (p ++ "+" ++ join "+" (q :: ps)).
    rewrite split_on_first by exact Hp. rewrite IH; [reflexivity | discriminate].
Qed.

Lemma join_head (f : ascii -> bool) (p : string) (ps : list string) :
  p <> EmptyString -> head_is f (join "+" (p :: ps)) = head_is f p.
Proof. intros Hp. destruct ps; cbn [join]; auto using head_is_app. Qed.

Lemma join_last (ps : list string) :
  ps <> [] -> Forall part ps ->
  exists q, In q ps /\
            Reference.last_char (join "+" ps) = Reference.last_char q.
Proof.
  intros Hne Hps. induction Hps as [|x ps Hx Hps IH]; [contradiction|].
  destruct ps as [|y ps].
  - exists x. split; [left; reflexivity | reflexivity].
  - destruct IH as [q [Hq Hl]]; [discriminate|].
    exists q. split; [right; exact Hq|].
    change (join "+" (x :: y :: ps)) with (x ++ "+" ++ join "+" (y :: ps)).
    assert (Hj : join "+" (y :: ps) <> EmptyString).
    { inversion Hps as [|? ? [Hy _] _]; subst.
      destruct y; [contradiction|]. destruct ps; cbn [join append]; discriminate. }
    rewrite last_char_app.
    + rewrite last_char_app; [exact Hl | exact Hj].
    + discriminate.
Qed.

Lemma join_trimmed (ps : list string) :
  ps <> [] -> Forall part ps ->
  trim (join "+" ps) = join "+" ps /\ join "+" ps <> EmptyString.
Proof.
  intros Hne Hps. destruct ps as [|p ps]; [contradiction|].
  assert (Hp : part p) by (inversion Hps; assumption).
  destruct Hp as [Hp [Ht _]]. split.
  - apply trim_fixed.
    + rewrite join_head by exact Hp. rewrite <- Ht. apply trim_head.
    + intros c Hc.
      destruct (join_last (p :: ps)) as [q [Hq Hl]]; [discriminate | exact Hps |].
      rewrite Hl in Hc. eapply Forall_forall in Hq; [|exact Hps].
      destruct Hq as [_ [Hq _]]. rewrite <- Hq in Hc. eapply trim_last, Hc.
  - destruct p; [contradiction|]. destruct ps; cbn [join]; discriminate.
Qed.

Lemma parts_of (s : string) :
  Forall part (filter (fun p => negb (is_empty p)) (map trim (Reference.split_on 43 s))).
Proof.
  apply Forall_forall. intros p Hin. apply filter_In in Hin as [Hin Hp].
  apply in_map_iff in Hin as [x [<- Hx]].
  split; [|split].
  - apply negb_true_iff, is_empty_false in Hp. exact Hp.
  - apply trim_idem.
  - apply trim_keeps. eapply Forall_forall in Hx; [|apply split_on_pieces]. exact Hx.
Qed.

Lemma parts_of_join (ps : list string) :
  ps <> [] -> Forall part ps ->
  filter (fun p => negb (is_empty p)) (map trim (Reference.split_on 43 (join "+" ps)))
  = ps.
Proof.
  intros Hne Hps. rewrite split_join by assumption.
  clear Hne. induction Hps as [|p ps [Hp [Ht _]] Hps IH]; cbn [map filter]; auto.
  rewrite Ht, IH. apply is_empty_false in Hp. rewrite Hp. reflexivity.
Qed.

Lemma normalize_parts `{Platform} (ps : list string) :
  ps <> [] -> Forall part ps ->
  Periodic.normalizeMixingSignature (join "+" ps)
  = match ps with
    | [p] => p
    | _ => join "+" (sort Blend.byName ps)
    end.
Proof.
  intros Hne Hps. unfold Periodic.normalizeMixingSignature.
  destruct (join_trimmed ps Hne Hps) as [Ht Hj].
  rewrite Ht. apply is_empty_false in Hj. rewrite Hj.
  rewrite parts_of_join by assumption.
  destruct ps as [|p [|q ps]]; [contradiction | reflexivity | reflexivity].
Qed.

Lemma sort_length {A : Type} (cmp : A -> A -> num) (l : list A) :
  List.length (sort cmp l) = List.length l.
Proof. apply Permutation_length, sort_perm. Qed.

Lemma normalize_idem `{Platform} (value : string) :
  consistent localeCompare_base ->
  Periodic.normalizeMixingSignature (Periodic.normalizeMixingSignature value)
  = Periodic.normalizeMixingSignature value.
Proof.
  intros Hc. unfold Periodic.normalizeMixingSignature at 2 3.
  destruct (is_empty (trim value)); [reflexivity|].
  pose proof (parts_of (trim value)) as Hps.
  destruct (filter _ (map trim (Reference.split_on 43 (trim value))))
    as [|p [|q ps]] eqn:E.
  - reflexivity.
  - change p with (join "+" [p]) at 1. rewrite normalize_parts; auto. discriminate.
  - set (l := p :: q :: ps) in *.
    assert (Hl : (2 <= List.length (sort Blend.byName l))%nat).
    { rewrite sort_length. cbn. lia. }
    assert (Hs : Forall part (sort Blend.byName l)).
    { apply Forall_forall. intros x Hx.
      eapply Forall_forall; [exact Hps|].
      eapply Permutation_in; [apply sort_perm | exact Hx]. }
    rewrite normalize_parts; auto.
    + destruct (sort Blend.byName l) as [|a [|b r]] eqn:Es;
        [cbn in Hl; lia | cbn in Hl; lia |].
      rewrite <- Es. unfold Blend.byName. rewrite (sort_twice _ _ Hc). reflexivity.
    + intros Hnil. rewrite Hnil in Hl. cbn in Hl. lia.
Qed.

End SignatureFacts.

(** When the base collation is a total order, [normalizeMixingSignature]
    leaves its own results unchanged, and [normalizeMixingSelections]
    returns distinct, non-blank signatures that are all in that form. *)
Theorem normalizeMixingSelections_normal `{Platform} (values : list jsval) :
  Collation.consistent localeCompare_base ->
  (forall value,
     Periodic.normalizeMixingSignature (Periodic.normalizeMixingSignature value)
     = Periodic.normalizeMixingSignature value) /\
  NoDup (Filters.normalizeMixingSelections values) /\
  (forall s, In s (Filters.normalizeMixingSelections values) ->
             s <> EmptyString /\ Periodic.normalizeMixingSignature s = s).
Proof.
  intros Hc. split; [|split].
  - intros value. apply normalize_idem, Hc.
  - apply dedupe_nodup.
  - intros s Hin. unfold Filters.normalizeMixingSelections in Hin.
    apply dedupe_in, filter_In in Hin as [Hin Hs].
    apply not_blank_spec in Hs. split; auto.
    apply in_map_iff in Hin as [v [<- _]].
    destruct v; cbn [Filters.signatureOf]; try apply normalize_idem, Hc.
    contradiction.
Qed.

Lemma normalizeMixingSelections_normal_witness :
  let H := Reference.platform in
  Filters.normalizeMixingSelections [VStr " MCU + Bunny "; VStr "Bunny+MCU"; VStr "DCH"; VNull]
  = ["Bunny+MCU"; "DCH"] /\
  Periodic.normalizeMixingSignature (Periodic.normalizeMixingSignature "MCU+ +Bunny")
  = Periodic.normalizeMixingSignature "MCU+ +Bunny".
Proof.
  intros H. split; [reflexivity|].
  destruct (@normalizeMixingSelections_normal H [] (compare_by_consistent _))
    as [Hidem _].
  apply Hidem.
Defined.

(** ** Routes that write to the record source *)

Section StoreFacts.

Import Store.

Lemma get_set {V : Type} (o : obj V) (k : string) (v : V) (k' : string) :
  get (set o k v) k' = if String.eqb k k' then Some v else get o k'.
Proof.
  induction o as [|[k0 v0] r IH]; cbn [set get].
  - reflexivity.
  - destruct (String.eqb k0 k) eqn:E0; cbn [get].
    + apply String.eqb_eq in E0. subst k0.
      destruct (String.eqb k k'); reflexivity.
    + rewrite IH. destruct (String.eqb k0 k') eqn:E1; [|reflexivity].
      apply String.eqb_eq in E1. subst k'. rewrite String.eqb_sym, E0. reflexivity.
Qed.

Lemma existsb_eqb_in (k : string) (l : list string) :
  existsb (String.eqb k) l = true <-> In k l.
Proof.
  rewrite existsb_exists. split.
  - intros [x [Hx E]]. apply String.eqb_eq in E. subst. exact Hx.
  - intros Hk. exists k. split; [exact Hk | apply String.eqb_refl].
Qed.

Lemma run_bind {A B : Type} (db : backend) (m : act A) (f : A -> act B) :
  forall history,
    run db history (bind m f)
    = run db (fst (run db history m)) (f (snd (run db history m))).
Proof.
  induction m as [a | c k IH]; intros history; cbn [bind run fst snd]; auto.
Qed.

(** The loop issues its statements in order and stops at the first error. *)
Lemma run_forEach {A : Type} (db : backend) (statement : A -> command) (xs : list A) :
  forall history,
  exists n, (n <= List.length xs)%nat /\
    fst (run db history (forEach statement xs))
    = (history ++ map statement (firstn n xs))%list /\
    (snd (run db history (forEach statement xs)) = None -> n = List.length xs).
Proof.
  induction xs as [|x xs IH]; intros history; cbn [forEach run].
  - exists 0%nat. cbn. rewrite app_nil_r. auto.
  - destruct (error (db history (statement x))) as [message|] eqn:E.
    + exists 1%nat. cbn. split; [lia|]. split; [reflexivity | discriminate].
    + destruct (IH (history ++ [statement x])%list) as [n [Hn [Ht Hs]]].
      exists (S n). cbn [List.length firstn map]. split; [lia|].
      split.
      * rewrite Ht, <- app_assoc. reflexivity.
      * intros Hnone. f_equal. auto.
Qed.

(** The loop stops at the first statement the record source answers with
    an error, and only there. *)
Lemma run_forEach_stops {A : Type} (db : backend) (statement : A -> command) :
  forall (xs : list A) (history : list command) (k : nat) (x : A) (message : string),
    nth_error xs k = Some x ->
    (forall j y, (j < k)%nat -> nth_error xs j = Some y ->
       error (db (history ++ map statement (firstn j xs))%list (statement y)) = None) ->
    error (db (history ++ map statement (firstn k xs))%list (statement x)) = Some message ->
    run db history (forEach statement xs)
    = ((history ++ map statement (firstn (S k) xs))%list, Some message).
Proof.
  induction xs as [|a xs IH]; intros history k x message Hx Hbefore Hfail.
  - destruct k; discriminate.
  - destruct k as [|k]; cbn [nth_error] in Hx.
    + injection Hx as <-. cbn [firstn map] in Hfail. rewrite app_nil_r in Hfail.
      cbn [forEach run]. rewrite Hfail. reflexivity.
    + assert (Ha : error (db history (statement a)) = None).
      { specialize (Hbefore 0%nat a (Nat.lt_0_succ k) eq_refl).
        cbn [firstn map] in Hbefore. rewrite app_nil_r in Hbefore. exact Hbefore. }
      cbn [forEach run]. rewrite Ha.
      rewrite (IH (history ++ [statement a])%list k x message Hx).
      * cbn [firstn map]. rewrite <- app_assoc. reflexivity.
      * intros j y Hj Hy. rewrite <- app_assoc.
        apply (Hbefore (S j) y); [lia | exact Hy].
      * rewrite <- app_assoc. exact Hfail.
Qed.

Lemma run_forEach_through {A : Type} (db : backend) (statement : A -> command) :
  forall (xs : list A) (history : list command),
    (forall j y, nth_error xs j = Some y ->
       error (db (history ++ map statement (firstn j xs))%list (statement y)) = None) ->
    run db history (forEach statement xs) = ((history ++ map statement xs)%list, None).
Proof.
  induction xs as [|a xs IH]; intros history Hall; cbn [forEach run map].
  - rewrite app_nil_r. reflexivity.
  - assert (Ha : error (db history (statement a)) = None).
    { specialize (Hall 0%nat a eq_refl).
      cbn [firstn map] in Hall. rewrite app_nil_r in Hall. exact Hall. }
    rewrite Ha, IH.
    + rewrite <- app_assoc. reflexivity.
    + intros j y Hy. rewrite <- app_assoc. apply (Hall (S j) y Hy).
Qed.

End StoreFacts.

Section LotResultFacts.

Import Store LotResult.

Lemma sanitize_fold (payload : obj Json.t) (columns : list string) :
  forall (accumulator : obj Json.t) (k : string),
    get (fold_left
           (fun accumulator column =>
              match get payload column with
              | Some v => set accumulator column v
              | None => accumulator
              end) columns accumulator) k
    = if existsb (String.eqb k) columns
      then match get payload k with
           | Some v => Some v
           | None => get accumulator k
           end
      else get accumulator k.
Proof.
  induction columns as [|c cs IH]; intros accumulator k; cbn [fold_left existsb]; auto.
  rewrite IH.
  assert (Hacc : match get payload k with
                 | Some v => Some v
                 | None => get (match get payload c with
                                | Some v => set accumulator c v
                                | None => accumulator
                                end) k
                 end
                 = match get payload k with
                   | Some v => Some v
                   | None => get accumulator k
                   end).
  { destruct (get payload k) eqn:Ek; auto.
    destruct (get payload c) eqn:Ec; auto.
    rewrite get_set. destruct (String.eqb c k) eqn:E; auto.
    apply String.eqb_eq in E. congruence. }
  destruct (existsb (String.eqb k) cs); cbn [orb].
  - rewrite orb_true_r. exact Hacc.
  - rewrite orb_false_r. destruct (String.eqb k c) eqn:E.
    + apply String.eqb_eq in E. subst c.
      destruct (get payload k); auto. rewrite get_set, String.eqb_refl. reflexivity.
    + destruct (get payload c); auto.
      rewrite get_set, String.eqb_sym, E. reflexivity.
Qed.

Lemma sanitize_get (payload : obj Json.t) (k : string) :
  get (sanitizeLotResultPayload payload) k
  = if existsb (String.eqb k) LOT_RESULT_COLUMNS then get payload k else None.
Proof.
  unfold sanitizeLotResultPayload. rewrite sanitize_fold.
  destruct (existsb (String.eqb k) LOT_RESULT_COLUMNS); auto.
  destruct (get payload k); reflexivity.
Qed.

End LotResultFacts.

(** [sanitizeLotResultPayload] keeps each column of [LOT_RESULT_COLUMNS]
    that the payload has, with the payload's value, and drops every other
    property; sanitizing twice changes nothing more. *)
Theorem sanitizeLotResultPayload_whitelist (payload : obj Json.t) (k : string) :
  LotResult.get_whitelisted payload k
  = get (LotResult.sanitizeLotResultPayload payload) k /\
  get (LotResult.sanitizeLotResultPayload (LotResult.sanitizeLotResultPayload payload)) k
  = get (LotResult.sanitizeLotResultPayload payload) k.
Proof.
  unfold LotResult.get_whitelisted. rewrite !sanitize_get.
  destruct (existsb (String.eqb k) LotResult.LOT_RESULT_COLUMNS); auto.
Qed.

(** The update route writes at most once, only to the rows of the lot in
    the path, only whitelisted columns with the values of the body, and
    with [lot_no] set to the path's lot; a request it answers with 400
    has written nothing. *)
Theorem lot_update_confined (db : Store.backend) (lotNo : string) (body : option Json.t) :
  let out := Store.run db [] (LotResult.update lotNo body) in
  (Store.status_of (snd out) = 400 -> fst out = []) /\
  (fst out = [] \/
   exists fields,
     fst out = [Store.Update "lot_results" fields
                             [Store.Eq "lot_no" (Json.Str (trim lotNo))]] /\
     trim lotNo <> EmptyString /\
     get fields "lot_no" = Some (Json.Str (trim lotNo)) /\
     forall k v, get fields k = Some v -> k <> "lot_no" ->
                 In k LotResult.LOT_RESULT_COLUMNS /\
                 get (LotResult.fieldsOf body) k = Some v).
Proof.
  intros out. unfold out, LotResult.update.
  destruct (is_empty (trim lotNo)) eqn:Eparam; [cbn; auto|].
  destruct (List.length (keys (LotResult.sanitizeLotResultPayload (LotResult.fieldsOf body)))
            =? 0)%nat; [cbn; auto|].
  set (payload := if Store.given _ then _ else _).
  destruct (negb (String.eqb (trim _) (trim lotNo))); [cbn; auto|].
  cbn [Store.run app].
  assert (Hout : forall r : Store.response,
            Store.status_of r <> 400 ->
            (Store.status_of r = 400 ->
             [Store.Update "lot_results" (set payload "lot_no" (Json.Str (trim lotNo)))
                [Store.Eq "lot_no" (Json.Str (trim lotNo))]] = []) /\
            ([Store.Update "lot_results" (set payload "lot_no" (Json.Str (trim lotNo)))
                [Store.Eq "lot_no" (Json.Str (trim lotNo))]] = [] \/
             exists fields,
               [Store.Update "lot_results" (set payload "lot_no" (Json.Str (trim lotNo)))
                  [Store.Eq "lot_no" (Json.Str (trim lotNo))]]
               = [Store.Update "lot_results" fields
                    [Store.Eq "lot_no" (Json.Str (trim lotNo))]] /\
               trim lotNo <> EmptyString /\
               get fields "lot_no" = Some (Json.Str (trim lotNo)) /\
               forall k v, get fields k = Some v -> k <> "lot_no" ->
                           In k LotResult.LOT_RESULT_COLUMNS /\
                           get (LotResult.fieldsOf body) k = Some v)).
  { intros r Hr. split; [contradiction|]. right.
    exists (set payload "lot_no" (Json.Str (trim lotNo))).
    split; [reflexivity|]. split; [apply is_empty_false, Eparam|].
    split; [rewrite get_set, String.eqb_refl; reflexivity|].
    intros k v Hk Hne. rewrite get_set in Hk.
    destruct (String.eqb "lot_no" k) eqn:E.
    { apply String.eqb_eq in E. congruence. }
    assert (Hs : get (LotResult.sanitizeLotResultPayload (LotResult.fieldsOf body)) k
                 = Some v).
    { unfold payload in Hk. destruct (Store.given _); auto.
      rewrite get_set, E in Hk. exact Hk. }
    rewrite sanitize_get in Hs.
    destruct (existsb (String.eqb k) LotResult.LOT_RESULT_COLUMNS) eqn:Ex;
      [|discriminate].
    split; [apply existsb_eqb_in, Ex | exact Hs]. }
  destruct (Store.error (db [] _)); cbn [Store.run fst snd]; apply Hout; cbn; discriminate.
Qed.

(** For bounds that read as numbers without exponent, radix prefix or
    [Infinity], the delete route issues at most one statement: a delete on
    [mixing_chart] for the given unit, line and cotton between two finite
    bounds in order; a request it answers with 400 has deleted nothing,
    and so has any request whose bounds are missing, not numeric or
    reversed. *)
Theorem chart_delete_guarded (db : Store.backend) (body : obj Json.t) :
  MixingChart.plain (get body "mixing_from") = true ->
  MixingChart.plain (get body "mixing_to") = true ->
  let out := Store.run db [] (MixingChart.delete body) in
  (fst out = [] /\ Store.status_of (snd out) = 400) \/
  (exists unit line cotton mixing_from mixing_to fromNumber toNumber,
     get body "unit" = Some unit /\ Json.truthy unit = true /\
     get body "line" = Some line /\ Json.truthy line = true /\
     get body "cotton" = Some cotton /\ Json.truthy cotton = true /\
     get body "mixing_from" = Some mixing_from /\
     get body "mixing_to" = Some mixing_to /\
     Json.toNumber mixing_from = Fin fromNumber /\
     Json.toNumber mixing_to = Fin toNumber /\
     (fromNumber <= toNumber)%Q /\
     fst out = [Store.Delete "mixing_chart"
                  [Store.Eq "unit" unit; Store.Eq "line" line;
                   Store.Eq "cotton" cotton;
                   Store.Gte "mixing_no" (Json.Num fromNumber);
                   Store.Lte "mixing_no" (Json.Num toNumber)]] /\
     Store.status_of (snd out) <> 400).
Proof.
  intros _ _ out. unfold out, MixingChart.delete.
  destruct (get body "unit") as [unit|] eqn:Eu; cbn [Store.given negb orb];
    [|left; cbn; auto].
  destruct (Json.truthy unit) eqn:Tu; cbn [negb orb]; [|left; cbn; auto].
  destruct (get body "line") as [line|] eqn:El; cbn [Store.given negb orb];
    [|left; cbn; auto].
  destruct (Json.truthy line) eqn:Tl; cbn [negb orb]; [|left; cbn; auto].
  destruct (get body "cotton") as [cotton|] eqn:Ec; cbn [Store.given negb orb];
    [|left; cbn; auto].
  destruct (Json.truthy cotton) eqn:Tc; cbn [negb orb]; [|left; cbn; auto].
  destruct (get body "mixing_from") as [mixing_from|] eqn:Ef; [|left; cbn; auto].
  destruct (get body "mixing_to") as [mixing_to|] eqn:Et;
    [|rewrite orb_true_r; left; cbn; auto].
  destruct (MixingChart.absent (Some mixing_from)) eqn:Af; [left; cbn; auto|].
  destruct (MixingChart.absent (Some mixing_to)) eqn:At; [left; cbn; auto|].
  cbn [orb].
  assert (Hf : Store.orNull (Some mixing_from) Json.Null = mixing_from)
    by (destruct mixing_from; try reflexivity; discriminate).
  assert (Ht : Store.orNull (Some mixing_to) Json.Null = mixing_to)
    by (destruct mixing_to; try reflexivity; discriminate).
  assert (Hu : Store.orNull (Some unit) Json.Null = unit)
    by (destruct unit; try reflexivity; discriminate).
  assert (Hl : Store.orNull (Some line) Json.Null = line)
    by (destruct line; try reflexivity; discriminate).
  assert (Hc : Store.orNull (Some cotton) Json.Null = cotton)
    by (destruct cotton; try reflexivity; discriminate).
  rewrite Hf, Ht, Hu, Hl, Hc.
  destruct (Json.toNumber mixing_from) as [|fromNumber] eqn:Nf; [left; cbn; auto|].
  destruct (Json.toNumber mixing_to) as [|toNumber] eqn:Nt; [left; cbn; auto|].
  destruct (Qlt_bool toNumber fromNumber) eqn:Elt; [left; cbn; auto|].
  right. exists unit, line, cotton, mixing_from, mixing_to, fromNumber, toNumber.
  apply Qlt_bool_false in Elt. cbn [Store.run app].
  destruct (Store.error (db [] _)); cbn [Store.run fst snd Store.status_of];
    repeat split; auto; discriminate.
Qed.

Lemma chart_delete_guarded_witness :
  let db : Store.backend := fun _ _ => Store.mkReply None None in
  let body := [("unit", Json.Str "5"); ("line", Json.Num 1);
               ("cotton", Json.Str "25_51_V1");
               ("mixing_from", Json.Str "10"); ("mixing_to", Json.Num 12)] in
  fst (Store.run db [] (MixingChart.delete body))
  = [Store.Delete "mixing_chart"
       [Store.Eq "unit" (Json.Str "5"); Store.Eq "line" (Json.Num 1);
        Store.Eq "cotton" (Json.Str "25_51_V1");
        Store.Gte "mixing_no" (Json.Num 10); Store.Lte "mixing_no" (Json.Num 12)]]
  /\ ((fst (Store.run db [] (MixingChart.delete body)) = [] /\
       Store.status_of (snd (Store.run db [] (MixingChart.delete body))) = 400)
      \/ Store.status_of (snd (Store.run db [] (MixingChart.delete body))) <> 400).
Proof.
  intros db body. split; [reflexivity|].
  destruct (chart_delete_guarded db body eq_refl eq_refl) as [H|H].
  - left. exact H.
  - right. destruct H as [u [l [c [f [t [x [y H]]]]]]]. apply H.
Defined.

Section SaveFacts.

Import Store MixingIssue.

Lemma complete_entry (item : Json.t) :
  complete item = true ->
  Json.truthy (mixing_no (entryOf item)) = true /\
  Json.truthy (cotton (entryOf item)) = true /\
  Json.truthy (issue_date (entryOf item)) = true.
Proof.
  unfold complete, entryOf. cbn [mixing_no cotton issue_date].
  intros Hc. apply andb_true_iff in Hc as [Hc Hd].
  apply andb_true_iff in Hc as [Hm Hc].
  assert (Hgiven : forall v, given v = true -> Json.truthy (orNull v Json.Null) = true).
  { intros [x|]; cbn [given]; [|discriminate].
    intros Hx. destruct x; cbn in *; auto. }
  auto.
Qed.

End SaveFacts.

(** The save route stores only entries that carry a mixing number, a
    cotton and an issue date.  With none it answers 400 and issues
    nothing; otherwise it deletes the stored rows of each entry in order.
    The first delete the record source answers with an error is the last
    statement issued, and the answer is 500 with the message of that
    error.  When no delete fails, all the entries are inserted at once
    after the deletes, and the answer is 200 exactly when that insert
    succeeds. *)
Theorem issue_save_order (db : Store.backend) (body : option Json.t) :
  let payload :=
    map MixingIssue.entryOf (filter MixingIssue.complete (MixingIssue.entriesOf body)) in
  let insert := Store.Insert "mixing_issue" (map MixingIssue.toRow payload) in
  let reply k e :=
    db (map MixingIssue.deleteOf (firstn k payload)) (MixingIssue.deleteOf e) in
  let out := Store.run db [] (MixingIssue.save body) in
  Forall (fun e => Json.truthy (MixingIssue.mixing_no e) = true /\
                   Json.truthy (MixingIssue.cotton e) = true /\
                   Json.truthy (MixingIssue.issue_date e) = true) payload /\
  (payload = [] -> fst out = [] /\ Store.status_of (snd out) = 400) /\
  (forall k e message,
     nth_error payload k = Some e ->
     (forall j e', (j < k)%nat -> nth_error payload j = Some e' ->
                   Store.error (reply j e') = None) ->
     Store.error (reply k e) = Some message ->
     out = (map MixingIssue.deleteOf (firstn (S k) payload),
            Store.Respond 500 (Store.errorBody message))) /\
  (payload <> [] ->
   (forall j e', nth_error payload j = Some e' -> Store.error (reply j e') = None) ->
   out = ((map MixingIssue.deleteOf payload ++ [insert])%list,
          match Store.error (db (map MixingIssue.deleteOf payload) insert) with
          | Some message => Store.Respond 500 (Store.errorBody message)
          | None => Store.Respond 200 (Json.Obj [("success", Json.Bool true)])
          end)) /\
  (Store.status_of (snd out) = 200 ->
   fst out = (map MixingIssue.deleteOf payload ++ [insert])%list).
Proof.
  intros payload insert reply out. split; [|split; [|split; [|split]]].
  - apply Forall_forall. intros e He. apply in_map_iff in He as [item [<- Hin]].
    apply filter_In in Hin as [_ Hc]. apply complete_entry, Hc.
  - intros Hp. unfold out, MixingIssue.save. fold payload. rewrite Hp. cbn. auto.
  - intros k e message He Hbefore Hfail.
    unfold out, MixingIssue.save. fold payload.
    destruct payload as [|e0 rest] eqn:Ep; [destruct k; discriminate|].
    rewrite run_bind. unfold MixingIssue.deleteExisting.
    rewrite (run_forEach_stops db MixingIssue.deleteOf (e0 :: rest) [] k e message He);
      [reflexivity | exact Hbefore | exact Hfail].
  - intros Hp Hall.
    unfold out, MixingIssue.save. fold payload.
    destruct payload as [|e0 rest] eqn:Ep; [contradiction|].
    rewrite run_bind. unfold MixingIssue.deleteExisting.
    rewrite (run_forEach_through db MixingIssue.deleteOf (e0 :: rest) [] Hall).
    cbn [fst snd app Store.run]. fold insert.
    destruct (Store.error _); reflexivity.
  - unfold out, MixingIssue.save. fold payload.
    destruct payload as [|e rest] eqn:Ep.
    { cbn. discriminate. }
    rewrite run_bind. unfold MixingIssue.deleteExisting.
    destruct (run_forEach db MixingIssue.deleteOf (e :: rest) []) as [n [Hn [Ht Hs]]].
    destruct (snd (Store.run db [] (Store.forEach MixingIssue.deleteOf (e :: rest))))
      as [message|] eqn:Es.
    + cbn. discriminate.
    + rewrite (Hs eq_refl) in Ht. rewrite firstn_all in Ht.
      cbn [Store.run]. rewrite Ht. cbn [app].
      destruct (Store.error _); cbn; [discriminate | reflexivity].
Qed.

Section UploadFacts.

Import Store IssueUpload.

Context `{Platform}.

Lemma prepare_count (rows : list (obj Json.t)) :
  forall index preparedRows validationErrors,
    prepare index rows = Value (preparedRows, validationErrors) ->
    (List.length preparedRows + List.length validationErrors = List.length rows)%nat.
Proof.
  induction rows as [|row rest IH]; intros index ps es; cbn [prepare].
  - intros [= <- <-]. reflexivity.
  - destruct (check index row) as [item|]; [|discriminate].
    destruct (prepare (S index) rest) as [[ps' es']|] eqn:E; [|discriminate].
    specialize (IH _ _ _ E).
    destruct item; intros [= <- <-]; cbn [List.length]; lia.
Qed.

Lemma prepare_kept (rows : list (obj Json.t)) :
  forall index preparedRows validationErrors,
    prepare index rows = Value (preparedRows, validationErrors) ->
    Forall (fun p => mixing_no p <> EmptyString /\ cotton p <> EmptyString
                     /\ issue_date p <> EmptyString) preparedRows.
Proof.
  induction rows as [|row rest IH]; intros index ps es; cbn [prepare].
  - intros [= <- <-]. constructor.
  - destruct (check index row) as [item|] eqn:Ec; [|discriminate].
    destruct (prepare (S index) rest) as [[ps' es']|] eqn:E; [|discriminate].
    specialize (IH _ _ _ E).
    destruct item as [p|e]; intros [= <- <-]; auto.
    constructor; auto.
    unfold check in Ec. destruct (parseDate (get row "issue_date")) as [d|];
      [|discriminate].
    destruct (is_empty (normalizeString (get row "mixing_no"))) eqn:Em;
      cbn [orb] in Ec; [discriminate|].
    destruct (is_empty (normalizeString (get row "cotton"))) eqn:Ek;
      cbn [orb] in Ec; [discriminate|].
    destruct d as [d|]; [|discriminate].
    destruct (is_empty d) eqn:Ed; [discriminate|].
    injection Ec as <-. cbn [mixing_no cotton issue_date].
    repeat split; apply is_empty_false; assumption.
Qed.

Lemma prepare_errors (rows : list (obj Json.t)) :
  forall index preparedRows validationErrors,
    prepare index rows = Value (preparedRows, validationErrors) ->
    Forall (fun e => exists i, (index <= i < index + List.length rows)%nat /\
                               (e = missingKeys i \/ e = missingDate i))
           validationErrors.
Proof.
  induction rows as [|row rest IH]; intros index ps es; cbn [prepare].
  - intros [= <- <-]. constructor.
  - destruct (check index row) as [item|] eqn:Ec; [|discriminate].
    destruct (prepare (S index) rest) as [[ps' es']|] eqn:E; [|discriminate].
    specialize (IH _ _ _ E).
    assert (Hrest : Forall (fun e => exists i,
                       (index <= i < index + List.length (row :: rest))%nat /\
                       (e = missingKeys i \/ e = missingDate i)) es').
    { eapply Forall_impl; [|exact IH]. cbn [List.length].
      intros e [i [Hi He]]. exists i. split; [lia | exact He]. }
    destruct item as [p|e]; intros [= <- <-]; auto.
    constructor; auto. exists index. cbn [List.length]. split; [lia|].
    unfold check in Ec. destruct (parseDate (get row "issue_date")) as [d|];
      [|discriminate].
    destruct (is_empty (normalizeString (get row "mixing_no"))
              || is_empty (normalizeString (get row "cotton")));
      [injection Ec as <-; auto|].
    destruct d as [d|]; [|injection Ec as <-; auto].
    destruct (is_empty d); [injection Ec as <-; auto | discriminate].
Qed.

End UploadFacts.

(** The upload route validates every row before it touches the record
    source.  Each row yields either a row to store (with mixing number,
    cotton and issue date, none blank) or one error naming its sheet row;
    if any row fails, the answer is not 200 and nothing is issued.
    Otherwise the stored rows of each uploaded row are deleted in order:
    the first delete the record source answers with an error is the last
    statement issued, and the answer is 500; when no delete fails, all
    rows are inserted at once after the deletes, and the answer is 200
    exactly when that insert succeeds. *)
Theorem upload_all_or_nothing `{Platform} (db : Store.backend)
    (file : IssueUpload.upload) :
  let out := Store.run db [] (IssueUpload.handle file) in
  (forall sheetName rows preparedRows validationErrors,
     file = IssueUpload.Workbook (Some (sheetName, rows)) ->
     IssueUpload.prepare 0 rows = IssueUpload.Value (preparedRows, validationErrors) ->
     (List.length preparedRows + List.length validationErrors = List.length rows)%nat /\
     Forall (fun p => IssueUpload.mixing_no p <> EmptyString /\
                      IssueUpload.cotton p <> EmptyString /\
                      IssueUpload.issue_date p <> EmptyString) preparedRows /\
     Forall (fun e => exists i, (i < List.length rows)%nat /\
                                (e = IssueUpload.missingKeys i \/
                                 e = IssueUpload.missingDate i)) validationErrors /\
     (validationErrors <> [] -> fst out = [] /\ Store.status_of (snd out) <> 200)) /\
  (forall sheetName rows preparedRows,
     file = IssueUpload.Workbook (Some (sheetName, rows)) ->
     sheetName <> EmptyString -> rows <> [] ->
     IssueUpload.prepare 0 rows = IssueUpload.Value (preparedRows, []) ->
     let insert := Store.Insert "mixing_issue" (map IssueUpload.toRow preparedRows) in
     let reply k p :=
       db (map IssueUpload.deleteOf (firstn k preparedRows)) (IssueUpload.deleteOf p) in
     (forall k p message,
        nth_error preparedRows k = Some p ->
        (forall j p', (j < k)%nat -> nth_error preparedRows j = Some p' ->
                      Store.error (reply j p') = None) ->
        Store.error (reply k p) = Some message ->
        out = (map IssueUpload.deleteOf (firstn (S k) preparedRows),
               Store.Respond 500
                 (Store.errorBody
                    (Store.orElse message "Failed to replace existing entries.")))) /\
     ((forall j p', nth_error preparedRows j = Some p' ->
                    Store.error (reply j p') = None) ->
      fst out = (map IssueUpload.deleteOf preparedRows ++ [insert])%list /\
      (Store.status_of (snd out) = 200
       <-> Store.error (db (map IssueUpload.deleteOf preparedRows) insert) = None))) /\
  (Store.status_of (snd out) = 200 ->
   exists preparedRows,
     fst out = (map IssueUpload.deleteOf preparedRows
                ++ [Store.Insert "mixing_issue"
                      (map IssueUpload.toRow preparedRows)])%list).
Proof.
  intros out. split; [|split].
  - intros sheetName rows ps es -> Hp.
    split; [eapply prepare_count, Hp|].
    split; [eapply prepare_kept, Hp|].
    split.
    { eapply Forall_impl; [|eapply prepare_errors, Hp].
      intros e [i [Hi He]]. exists i. split; [lia | exact He]. }
    intros Hes. unfold out, IssueUpload.handle.
    destruct (is_empty sheetName); [cbn; split; [reflexivity | discriminate]|].
    destruct rows as [|row rest]; [cbn; split; [reflexivity | discriminate]|].
    rewrite Hp. destruct es as [|e es]; [contradiction|].
    cbn. split; [reflexivity | discriminate].
  - intros sheetName rows ps -> Hname Hrows Hp insert reply.
    assert (Hout : out = Store.run db []
              (Store.bind (IssueUpload.deleteExisting ps)
                 (fun deleteError =>
                    match deleteError with
                    | Some message =>
                        Store.Done (Store.Respond 500
                          (Store.errorBody
                             (Store.orElse message "Failed to replace existing entries.")))
                    | None =>
                        Store.Call insert
                          (fun r =>
                             match Store.error r with
                             | Some message =>
                                 Store.Done (Store.Respond 500
                                   (Store.errorBody
                                      (Store.orElse message "Failed to insert entries.")))
                             | None =>
                                 Store.Done (Store.Respond 200
                                   (Json.Obj
                                      [("success", Json.Bool true);
                                       ("message", Json.Str
                                          "Mixing issue data uploaded successfully.");
                                       ("inserted",
                                        Json.Num (inject_Z (Z.of_nat (List.length ps))))]))
                             end)
                    end))).
    { unfold out, IssueUpload.handle.
      apply is_empty_false in Hname. rewrite Hname.
      destruct rows as [|row rest]; [contradiction|]. rewrite Hp. reflexivity. }
    rewrite Hout, run_bind. unfold IssueUpload.deleteExisting. split.
    + intros k p message Hk Hbefore Hfail.
      rewrite (run_forEach_stops db IssueUpload.deleteOf ps [] k p message Hk);
        [reflexivity | exact Hbefore | exact Hfail].
    + intros Hall.
      rewrite (run_forEach_through db IssueUpload.deleteOf ps [] Hall).
      cbn [fst snd app Store.run].
      destruct (Store.error (db (map IssueUpload.deleteOf ps) insert)) as [message|];
        cbn [fst snd Store.status_of]; split; try reflexivity;
        split; (discriminate || reflexivity).
  - unfold out, IssueUpload.handle.
    destruct file as [| message | [[sheetName rows]|]]; try (cbn; discriminate).
    destruct (is_empty sheetName); [cbn; discriminate|].
    destruct rows as [|row rest] eqn:Er; [cbn; discriminate|]. rewrite <- Er.
    destruct (IssueUpload.prepare 0 rows) as [[ps es]|] eqn:Ep; [|cbn; discriminate].
    destruct es as [|e es]; [|cbn; discriminate].
    rewrite run_bind. unfold IssueUpload.deleteExisting.
    destruct (run_forEach db IssueUpload.deleteOf ps []) as [n [Hn [Ht Hs]]].
    destruct (snd (Store.run db [] (Store.forEach IssueUpload.deleteOf ps)))
      as [message|] eqn:Es; [cbn; discriminate|].
    rewrite (Hs eq_refl) in Ht. rewrite firstn_all in Ht.
    cbn [Store.run]. rewrite Ht. cbn [app]. intros _. exists ps.
    destruct (Store.error _); reflexivity.
Qed.

Section SerialFacts.

Lemma Qfloor_unique (x : Q) (z : Z) :
  (inject_Z z <= x)%Q -> (x < inject_Z (z + 1))%Q -> Qfloor x = z.
Proof.
  intros Hlo Hhi.
  pose proof (Qfloor_le x) as Hf. pose proof (Qlt_floor x) as Hc.
  assert (Hz : (z < Qfloor x + 1)%Z).
  { rewrite Zlt_Qlt. eapply Qle_lt_trans; eassumption. }
  assert (Hz' : (Qfloor x < z + 1)%Z).
  { rewrite Zlt_Qlt. eapply Qle_lt_trans; eassumption. }
  lia.
Qed.

End SerialFacts.

(** [parseDate] reads a number as an Excel serial: the whole part [n]
    gives the date [n - 25569] days from 1970-01-01 and the fraction (the
    time of day) is ignored, as long as that date is one a [Date] can
    hold. *)
Theorem parseDate_serial `{Platform} (n : Z) (fraction : Q) :
  (0 <= fraction)%Q -> (fraction < 1)%Q ->
  Z.abs ((n - 25569) * msPerDay) <= IssueUpload.MAX_TIME ->
  IssueUpload.parseDate (Some (Json.Num (inject_Z n + fraction)))
  = IssueUpload.Value (Some (iso_date_part ((n - 25569) * msPerDay))) /\
  utc_date ((n - 25569) * msPerDay) = civil_from_days (n - 25569).
Proof.
  intros Hlo Hhi Hrange. split.
  - unfold IssueUpload.parseDate.
    assert (Hfloor : Qfloor (inject_Z n + fraction - 25569) = n - 25569).
    { apply Qfloor_unique.
      - replace (n - 25569) with (n + -25569) by lia.
        rewrite inject_Z_plus. change (inject_Z (-25569)) with (-25569 # 1). lra.
      - replace (n - 25569 + 1) with (n + -25568) by lia.
        rewrite inject_Z_plus. change (inject_Z (-25568)) with (-25568 # 1). lra. }
    rewrite Hfloor.
    replace ((n - 25569) * 86400 * 1000) with ((n - 25569) * msPerDay)
      by (unfold msPerDay; lia).
    apply Z.leb_le in Hrange. rewrite Hrange. reflexivity.
  - unfold utc_date. rewrite Z.div_mul; [reflexivity | discriminate].
Qed.

Lemma parseDate_serial_witness :
  let H := Reference.platform in
  IssueUpload.parseDate (Some (Json.Num (inject_Z 45322 + (1 # 2))))
  = IssueUpload.Value (Some "2024-01-31").
Proof.
  intros H.
  destruct (@parseDate_serial H 45322 (1 # 2)) as [Hdate _];
    [discriminate | reflexivity | discriminate |].
  rewrite Hdate. reflexivity.
Defined.

Example upload_rejected_row :
  let H := Reference.platform in
  let db : Store.backend := fun _ _ => Store.mkReply None None in
  Store.run db []
    (IssueUpload.handle
       (IssueUpload.Workbook
          (Some ("Sheet1",
                 [[("unit", Json.Num 5); ("line", Json.Num 1);
                   ("mixing_no", Json.Num 1); ("issue_date", Json.Num 45322);
                   ("cotton", Json.Str "25_51_V1")];
                  [("unit", Json.Num 5); ("line", Json.Num 1);
                   ("mixing_no", Json.Num 2); ("issue_date", Json.Str "soon");
                   ("cotton", Json.Str "25_51_V1")]]))))
  = ([], Store.Respond 400
           (Json.Obj [("error", Json.Str "Validation failed.");
                      ("details",
                       Json.Arr [Json.Str (IssueUpload.missingDate 1)])])).
Proof. reflexivity. Qed.

Example upload_stored :
  let H := Reference.platform in
  let db : Store.backend := fun _ _ => Store.mkReply None None in
  fst (Store.run db []
         (IssueUpload.handle
            (IssueUpload.Workbook
               (Some ("Sheet1",
                      [[("unit", Json.Str ""); ("line", Json.Num 1);
                        ("mixing_no", Json.Num 1); ("issue_date", Json.Num 45322);
                        ("cotton", Json.Str " 25_51_V1 ")]])))))
  = [Store.Delete "mixing_issue"
       [Store.Eq "mixing_no" (Json.Str "1"); Store.Eq "cotton" (Json.Str "25_51_V1")];
     Store.Insert "mixing_issue"
       [[("mixing_no", Json.Str "1"); ("cotton", Json.Str "25_51_V1");
         ("issue_date", Json.Str "2024-01-31");
         ("unit", Json.Null); ("line", Json.Str "1")]]].
Proof. reflexivity. Qed.

(** ** Missing issues and pending lots *)

Section MissingFacts.

Import Store Filters MissingIssues.

Lemma get_none {V : Type} (o : obj V) (k : string) :
  get o k = None <-> ~ In k (map fst o).
Proof.
  induction o as [|[k0 v0] r IH]; cbn [get map fst In].
  - split; auto.
  - destruct (String.eqb k0 k) eqn:E.
    + apply String.eqb_eq in E. split; [discriminate|]. intros Hn. exfalso. auto.
    + apply String.eqb_neq in E. rewrite IH. split.
      * intros Hn [Hk|Hk]; auto.
      * intros Hn Hk. auto.
Qed.

Lemma somes_in {A : Type} (l : list (option A)) (x : A) :
  In x (somes l) <-> In (Some x) l.
Proof.
  induction l as [|[y|] r IH]; cbn [somes In].
  - split; auto.
  - rewrite IH. split; intros [Hx|Hx]; auto; left; congruence.
  - rewrite IH. split; [auto|]. intros [Hx|Hx]; [discriminate | auto].
Qed.

Lemma somes_perm {A B : Type} (f : A -> option B) (l l' : list A) :
  Permutation l l' -> Permutation (somes (map f l)) (somes (map f l')).
Proof.
  induction 1 as [| x l l' Hp IH | x y l | l l' l'' Hp IH Hp' IH']; cbn [map somes].
  - constructor.
  - destruct (f x); auto.
  - destruct (f x), (f y); auto. apply perm_swap.
  - etransitivity; eassumption.
Qed.

Lemma existing_spec (issueData : list row) (key : string) :
  existsb (String.eqb key) (existingCombinations issueData) = true
  <-> exists i, In i issueData /\ combination i = Some key.
Proof.
  rewrite existsb_eqb_in. unfold existingCombinations. split.
  - intros Hin. apply dedupe_in, somes_in, in_map_iff in Hin as [i [Hi Hin]]. eauto.
  - intros [i [Hin Hi]]. apply dedupe_complete, somes_in, in_map_iff. eauto.
Qed.

Lemma combination_missingRow (r : row) (key : string) :
  combination r = Some key -> combination (missingRow r) = Some key.
Proof.
  unfold combination, missingRow, column. cbn [get String.eqb Ascii.eqb Bool.eqb].
  destruct (match get r "mixing_no" with Some v => v | None => VNull end) as [|q|s];
    cbn [textOf]; [discriminate| |];
    destruct (match get r "cotton" with Some v => v | None => VNull end) as [|q'|s'];
    cbn [textOf coalesce]; auto; discriminate.
Qed.

(** What the loop over the chart rows keeps in the map. *)
Lemma note_fold (existing : list string) (chartData : list row) :
  forall acc,
    let m := fold_left (note existing) chartData acc in
    (NoDup (map fst acc) -> NoDup (map fst m)) /\
    (forall k row, In (k, row) m ->
       In (k, row) acc \/
       exists r, In r chartData /\ row = missingRow r /\ combination r = Some k /\
                 existsb (String.eqb k) existing = false) /\
    (forall k, In k (map fst acc) -> In k (map fst m)) /\
    (forall r k, In r chartData -> combination r = Some k ->
                 existsb (String.eqb k) existing = false -> In k (map fst m)).
Proof.
  induction chartData as [|r rest IH]; intros acc; cbn [fold_left].
  - cbn. repeat split; auto. intros r k [].
  - destruct (IH (note existing acc r)) as [Hnd [Hin [Hkeep Hall]]].
    assert (Hacc : forall k, In k (map fst acc) -> In k (map fst (note existing acc r))).
    { intros k Hk. unfold note. destruct (combination r); auto.
      destruct (existsb _ existing); auto. destruct (get acc s); auto.
      rewrite map_app. apply in_or_app. auto. }
    split; [|split; [|split]].
    + intros Hacc_nd. apply Hnd. unfold note.
      destruct (combination r) as [key|]; auto.
      destruct (existsb _ existing); auto.
      destruct (get acc key) eqn:Eg; auto.
      apply get_none in Eg. rewrite map_app. cbn [map fst].
      apply NoDup_app; [exact Hacc_nd | repeat constructor; intros [] |].
      intros x Hx [<-|[]]. contradiction.
    + intros k row Hrow. destruct (Hin k row Hrow) as [Hn|[r' [Hr' H']]].
      * unfold note in Hn. destruct (combination r) as [key|] eqn:Ec; auto.
        destruct (existsb _ existing) eqn:Ee; auto.
        destruct (get acc key) eqn:Eg; auto.
        apply in_app_or in Hn as [Hn|[[= <- <-]|[]]]; auto.
        right. exists r. repeat split; auto. left. reflexivity.
      * right. exists r'. split; [right; exact Hr' | exact H'].
    + intros k Hk. apply Hkeep, Hacc, Hk.
    + intros r' k [<-|Hr'] Hc He.
      * apply Hkeep. unfold note. rewrite Hc, He.
        destruct (get acc k) eqn:Eg.
        -- destruct (get_none acc k) as [_ Hn].
           destruct (in_dec string_dec k (map fst acc)) as [Hk|Hk]; auto.
           rewrite (Hn Hk) in Eg. discriminate.
        -- rewrite map_app. apply in_or_app. right. left. reflexivity.
      * eapply Hall; eauto.
Qed.

End MissingFacts.

(** The missing-issues route lists one row for every combination of
    mixing number and cotton of the chart that no issue row has, and for
    no other: each combination once, with the chart row's unit and line,
    and with [issue_date] null. *)
Theorem missing_issues_exact `{Platform} `{NumericCollation}
    (chartData issueData : list Filters.row) :
  let result := MissingIssues.missing chartData issueData in
  (forall key,
     (exists row, In row result /\ MissingIssues.combination row = Some key) <->
     (exists r, In r chartData /\ MissingIssues.combination r = Some key) /\
     ~ (exists i, In i issueData /\ MissingIssues.combination i = Some key)) /\
  (forall row, In row result ->
     exists r, In r chartData /\ row = MissingIssues.missingRow r /\
               Filters.column row "issue_date" = VNull) /\
  NoDup (MissingIssues.somes (map MissingIssues.combination result)).
Proof.
  intros result.
  destruct (note_fold (MissingIssues.existingCombinations issueData) chartData [])
    as [Hnd [Hin [_ Hall]]].
  fold (MissingIssues.uniqueMissing chartData issueData) in Hnd, Hin, Hall.
  assert (Hperm : Permutation result
                    (map snd (MissingIssues.uniqueMissing chartData issueData)))
    by apply sort_perm.
  assert (Hrow : forall k row,
            In (k, row) (MissingIssues.uniqueMissing chartData issueData) ->
            exists r, In r chartData /\ row = MissingIssues.missingRow r /\
                      MissingIssues.combination r = Some k /\
                      existsb (String.eqb k)
                              (MissingIssues.existingCombinations issueData) = false).
  { intros k row Hk. destruct (Hin k row Hk) as [[]|Hr]. exact Hr. }
  split; [|split].
  - intros key. split.
    + intros [row [Hr Hc]].
      apply (Permutation_in _ Hperm) in Hr. apply in_map_iff in Hr as [[k row'] [<- Hk]].
      destruct (Hrow k row' Hk) as [r [Hr [-> [Hcr He]]]]. cbn [snd] in Hc.
      rewrite (combination_missingRow r k Hcr) in Hc. injection Hc as <-.
      split; [eauto|]. intros Hex. apply existing_spec in Hex. congruence.
    + intros [[r [Hr Hc]] Hno].
      assert (He : existsb (String.eqb key)
                     (MissingIssues.existingCombinations issueData) = false).
      { destruct (existsb _ _) eqn:E; auto. apply existing_spec in E. contradiction. }
      specialize (Hall r key Hr Hc He).
      apply in_map_iff in Hall as [[k row] [Hk Hin']]. cbn [fst] in Hk. subst k.
      exists row. split.
      * apply (Permutation_in _ (Permutation_sym Hperm)), in_map_iff.
        exists (key, row). auto.
      * destruct (Hrow key row Hin') as [r' [_ [-> [Hc' _]]]].
        apply combination_missingRow, Hc'.
  - intros row Hr.
    apply (Permutation_in _ Hperm) in Hr. apply in_map_iff in Hr as [[k row'] [<- Hk]].
    destruct (Hrow k row' Hk) as [r [Hr [-> _]]]. exists r. repeat split; auto.
  - eapply Permutation_NoDup.
    + apply Permutation_sym, (somes_perm MissingIssues.combination), Hperm.
    + assert (Hkeys : MissingIssues.somes
                (map MissingIssues.combination
                     (map snd (MissingIssues.uniqueMissing chartData issueData)))
              = map fst (MissingIssues.uniqueMissing chartData issueData)).
      { clear Hnd Hin Hall Hperm.
        induction (MissingIssues.uniqueMissing chartData issueData) as [|[k row] m IH];
          [reflexivity|].
        cbn [map snd fst].
        destruct (Hrow k row) as [r [_ [-> [Hc _]]]]; [left; reflexivity|].
        rewrite (combination_missingRow r k Hc). cbn [MissingIssues.somes].
        f_equal. apply IH. intros k' row' Hin'. apply Hrow. right. exact Hin'. }
      rewrite Hkeys. apply Hnd. constructor.
Qed.

Section PendingFacts.

Import Filters PendingLots.

Lemma Qeq_bool_same (q : Q) : Qeq_bool q q = true.
Proof. apply Qeq_bool_iff. reflexivity. Qed.

Lemma strict_eq_refl (v : jsval) : strict_eq v v = true.
Proof. destruct v; cbn; auto using Qeq_bool_same, String.eqb_refl. Qed.

Lemma strict_eq_trans (a b c : jsval) :
  strict_eq a b = true -> strict_eq b c = strict_eq a c.
Proof.
  destruct a, b; cbn; try discriminate; intros Hab; destruct c; cbn; auto.
  - apply Qeq_bool_iff in Hab.
    destruct (Qeq_bool q q1) eqn:E1, (Qeq_bool q0 q1) eqn:E2; auto.
    + apply Qeq_bool_iff in E1. apply Qeq_bool_neq in E2.
      exfalso. apply E2. rewrite <- Hab. exact E1.
    + apply Qeq_bool_iff in E2. apply Qeq_bool_neq in E1.
      exfalso. apply E1. rewrite Hab. exact E2.
  - apply String.eqb_eq in Hab. subst. reflexivity.
Qed.

Lemma strict_eq_sym (a b : jsval) : strict_eq a b = strict_eq b a.
Proof.
  destruct a, b; cbn; auto using String.eqb_sym.
  destruct (Qeq_bool q q0) eqn:E1, (Qeq_bool q0 q) eqn:E2; auto.
  - apply Qeq_bool_iff in E1. apply Qeq_bool_neq in E2. exfalso. apply E2.
    symmetry. exact E1.
  - apply Qeq_bool_iff in E2. apply Qeq_bool_neq in E1. exfalso. apply E1.
    symmetry. exact E2.
Qed.

Lemma strict_eq_right (x a b : jsval) :
  strict_eq a b = true -> strict_eq x a = strict_eq x b.
Proof.
  intros Hab. rewrite (strict_eq_sym x a), (strict_eq_sym x b). symmetry.
  apply strict_eq_trans. exact Hab.
Qed.

Lemma includes_same (l : list jsval) (a b : jsval) :
  strict_eq a b = true -> includes l a = includes l b.
Proof.
  intros Hab. unfold includes. induction l as [|x l IH]; cbn [existsb]; auto.
  rewrite IH. f_equal. apply strict_eq_right, Hab.
Qed.

Lemma includes_filter (f : jsval -> bool) (l : list jsval) (v : jsval) :
  (forall a b, strict_eq a b = true -> f a = f b) ->
  includes (filter f l) v = includes l v && f v.
Proof.
  intros Hf. unfold includes. induction l as [|x l IH]; cbn [filter existsb]; auto.
  destruct (f x) eqn:Ex; cbn [existsb]; rewrite IH.
  - destruct (strict_eq x v) eqn:E; cbn [orb andb]; auto.
    rewrite <- (Hf x v E), Ex. reflexivity.
  - destruct (strict_eq x v) eqn:E; cbn [orb andb]; auto.
    rewrite <- (Hf x v E), Ex. apply andb_false_r.
Qed.

Lemma includes_dedupe (l : list jsval) (v : jsval) :
  includes (dedupe strict_eq l) v = includes l v.
Proof.
  induction l as [|x l IH]; cbn [dedupe]; auto.
  change (includes (x :: filter (fun y => negb (strict_eq x y)) (dedupe strict_eq l)) v)
    with (strict_eq x v
          || includes (filter (fun y => negb (strict_eq x y)) (dedupe strict_eq l)) v).
  rewrite includes_filter.
  - rewrite IH. change (includes (x :: l) v) with (strict_eq x v || includes l v).
    destruct (strict_eq x v), (includes l v); reflexivity.
  - intros a b Hab. f_equal. apply strict_eq_right, Hab.
Qed.

Lemma distinct_filter (f : jsval -> bool) (l : list jsval) :
  (forall a b, strict_eq a b = true -> f a = f b) ->
  distinct l = true -> distinct (filter f l) = true.
Proof.
  intros Hf. induction l as [|x l IH]; cbn [distinct filter]; auto.
  intros Hd. apply andb_true_iff in Hd as [Hx Hd].
  destruct (f x); auto. cbn [distinct].
  rewrite (includes_filter f l x Hf), IH by exact Hd.
  apply negb_true_iff in Hx. rewrite Hx. reflexivity.
Qed.

Lemma distinct_dedupe (l : list jsval) : distinct (dedupe strict_eq l) = true.
Proof.
  assert (Hf : forall x a b, strict_eq a b = true ->
                             negb (strict_eq x a) = negb (strict_eq x b)).
  { intros x a b Hab. f_equal. apply strict_eq_right, Hab. }
  induction l as [|x l IH]; cbn [dedupe distinct]; auto.
  rewrite (includes_filter _ _ _ (Hf x)), strict_eq_refl, andb_false_r.
  apply distinct_filter; auto.
Qed.

End PendingFacts.

(** The pending lots are the lot numbers of the mixing chart that no lot
    result has: a value is listed exactly when the chart names it and the
    lot results do not, and no value is listed twice. *)
Theorem pending_lots_exact (mixingData lotData : list Filters.row) :
  let pending := PendingLots.pending mixingData lotData in
  PendingLots.distinct pending = true /\
  forall v,
    includes pending v
    = includes (map (fun m => Filters.column m "lot_no") mixingData) v
      && negb (includes (map (fun l => Filters.column l "lot_no") lotData) v).
Proof.
  intros pending. unfold pending, PendingLots.pending. split.
  - apply distinct_dedupe.
  - intros v. rewrite includes_dedupe, includes_filter; [reflexivity|].
    intros a b Hab. f_equal. apply includes_same, Hab.
Qed.

(** ** Cotton results *)

Section EnrichFacts.

Import Store Filters CottonResults.

Lemma enrich_frame (lookup : obj cottonInfo) (r : row) (k : string) :
  k <> "cotton" -> k <> "cotton_year" -> get (enrich lookup r) k = get r k.
Proof.
  intros Hc Hy. unfold enrich. rewrite !get_set.
  destruct (String.eqb "cotton_year" k) eqn:E1.
  { apply String.eqb_eq in E1. congruence. }
  destruct (String.eqb "cotton" k) eqn:E2.
  { apply String.eqb_eq in E2. congruence. }
  reflexivity.
Qed.

Lemma enrich_without_variety (lookup : obj cottonInfo) (r : row) :
  truthy (column r "variety") = false ->
  column (enrich lookup r) "cotton" = VNull /\
  column (enrich lookup r) "cotton_year" = VNull.
Proof.
  intros Hv. unfold enrich. unfold column in *. rewrite Hv, !get_set.
  cbn [String.eqb Ascii.eqb Bool.eqb]. auto.
Qed.

Lemma enrich_unknown (r : row) :
  column (enrich [] r) "cotton" = VNull /\ column (enrich [] r) "cotton_year" = VNull.
Proof.
  unfold enrich. unfold column. rewrite !get_set.
  cbn [String.eqb Ascii.eqb Bool.eqb get].
  destruct (truthy _); auto.
Qed.

Lemma run_enrich (db : backend) (history : list command) (rows : list row) :
  exists lookup,
    snd (run db history (enrichWithCotton rows)) = map (enrich lookup) rows /\
    (fst (run db history (enrichWithCotton rows)) = history \/
     exists c, fst (run db history (enrichWithCotton rows)) = (history ++ [c])%list /\
               (error (db history c) <> None -> lookup = [])).
Proof.
  unfold enrichWithCotton. destruct rows as [|r rows]; [exists []; cbn; auto|].
  destruct (varieties (r :: rows)) as [|v vs]; [exists []; cbn; auto|].
  cbn [run].
  set (c := Select "mixing_code" _ _ _ _).
  destruct (error (db history c)) as [message|] eqn:E.
  - exists []. cbn [run fst snd]. split; [reflexivity|]. right. exists c. auto.
  - exists (cottonLookup (orEmpty (data (db history c)))).
    cbn [run fst snd]. split; [reflexivity|]. right. exists c.
    split; [reflexivity|]. intros Hne. rewrite E in Hne. contradiction.
Qed.

End EnrichFacts.

(** The cotton-results route reads [lot_results] once and [mixing_code]
    at most once.  When the first read fails it answers 500; otherwise it
    answers 200 with every fetched row, in order, each with all its
    columns as fetched and the two columns [cotton] and [cotton_year]
    added; a row without variety gets null in both, and so does every
    row when the [mixing_code] read fails. *)
Theorem cotton_results_enriched `{JsonReader} (db : Store.backend)
    (p : CottonResults.params) :
  let first := Store.Select "lot_results" "*" (CottonResults.filterConds p)
                            ["lot_received_date"] None in
  let out := Store.run db [] (CottonResults.handle p) in
  (Store.error (db [] first) <> None ->
   out = ([first], Store.Respond 500 (Store.errorBody "Server error"))) /\
  (Store.error (db [] first) = None ->
   exists lookup,
     snd out = Store.Respond 200
                 (Json.Arr (map CottonResults.rowJson
                      (map (CottonResults.enrich lookup)
                           (CottonResults.orEmpty (Store.data (db [] first)))))) /\
     (fst out = [first] \/
      exists second, fst out = [first; second] /\
                     (Store.error (db [first] second) <> None -> lookup = [])) /\
     (forall r k, k <> "cotton" -> k <> "cotton_year" ->
                  get (CottonResults.enrich lookup r) k = get r k) /\
     (forall r, truthy (Filters.column r "variety") = false \/ lookup = [] ->
                Filters.column (CottonResults.enrich lookup r) "cotton" = VNull /\
                Filters.column (CottonResults.enrich lookup r) "cotton_year" = VNull)).
Proof.
  intros first out. unfold out, CottonResults.handle. fold first.
  cbn [Store.run app]. split.
  - intros He. destruct (Store.error (db [] first)); [reflexivity | contradiction].
  - intros He. rewrite He. rewrite run_bind.
    destruct (run_enrich db [first] (CottonResults.orEmpty (Store.data (db [] first))))
      as [lookup [Hrows Htrace]].
    exists lookup. cbn [Store.run fst snd]. rewrite Hrows.
    split; [reflexivity|]. split.
    + destruct Htrace as [Ht|[c [Ht Hc]]]; [left; exact Ht|].
      right. exists c. split; [exact Ht | exact Hc].
    + split; [intros r k; apply enrich_frame|].
      intros r [Hv| ->]; [apply enrich_without_variety, Hv | apply enrich_unknown].
Qed.

(** ** The continuity pass as a whole *)

Section FrameFacts.

Import Continuity ContinuityFrame.

Context `{Platform}.

Lemma same_but_change_refl (e : Entry.t) : same_but_change e e.
Proof.
  exists (Entry.bale_change_over_percent e), (Entry.lot_change_over_percent e),
         (Entry.previous_mixing_no e).
  destruct e; reflexivity.
Qed.

Lemma dailyAnnotate_frame (s : stats) (previous : option record) (r : record) :
  same_but_change (entry r) (dailyAnnotate s previous r).
Proof.
  unfold dailyAnnotate, same_but_change.
  destruct previous as [p|]; [destruct (negb (hasSameGroup s))|]; eauto.
Qed.

Lemma periodAnnotate_frame (s : stats) (previous : option record) (r : record) :
  same_but_change (entry r) (periodAnnotate s previous r).
Proof.
  unfold periodAnnotate.
  destruct previous as [p|]; [|apply same_but_change_refl].
  destruct (negb (hasSameGroup s)); [apply same_but_change_refl|].
  unfold same_but_change.
  destruct (Entry.bale_change_over_percent (entry r)),
           (Entry.lot_change_over_percent (entry r)); eauto.
Qed.

Lemma combine_seq_nth {A : Type} (l : list A) :
  forall a i e, In (i, e) (combine (seq a (List.length l)) l) ->
                (a <= i)%nat /\ nth_error l (i - a) = Some e.
Proof.
  induction l as [|x l IH]; intros a i e; cbn [List.length seq combine In]; [intros []|].
  intros [[= <- <-]|Hin].
  - rewrite Nat.sub_diag. auto.
  - apply IH in Hin as [Hle Hnth]. split; [lia|].
    replace (i - a)%nat with (S (i - S a)) by lia. exact Hnth.
Qed.

Lemma group_records (entries : list Entry.t) (g : string * list record) :
  In g (groupBySignature entries) -> Forall (placed entries) (snd g).
Proof.
  unfold groupBySignature.
  assert (Hitems : forall ie, In ie (combine (seq 0 (List.length entries)) entries) ->
                              nth_error entries (fst ie) = Some (snd ie)).
  { intros [i e] Hin. apply combine_seq_nth in Hin as [_ Hnth].
    rewrite Nat.sub_0_r in Hnth. exact Hnth. }
  revert Hitems. generalize (combine (seq 0 (List.length entries)) entries).
  intros todo Hitems.
  assert (Hgen : forall groups,
            (forall g', In g' groups -> Forall (placed entries) (snd g')) ->
            forall g', In g' (fold_left
                     (fun groups ie =>
                        let r := recordOf (fst ie) (snd ie) in
                        let s := signature (snd ie) in
                        match get groups s with
                        | None => set groups s [r]
                        | Some rs => set groups s (rs ++ [r])%list
                        end) todo groups) ->
                       Forall (placed entries) (snd g')).
  { induction todo as [|ie todo IH]; intros groups Hg g' Hin; cbn [fold_left] in Hin.
    - auto.
    - eapply IH; [| |exact Hin].
      + intros ie' Hie'. apply Hitems. right. exact Hie'.
      + intros g'' Hin''.
        assert (Hr : placed entries (recordOf (fst ie) (snd ie))).
        { unfold placed, recordOf. cbn [index entry]. apply Hitems. left. reflexivity. }
        cbv zeta in Hin''.
        destruct (get groups (signature (snd ie))) as [rs|] eqn:Eg.
        * apply set_in in Hin'' as [->|Hin'']; auto. cbn [snd].
          apply Forall_app. split; [|repeat constructor; exact Hr].
          apply (Hg _ (get_in _ _ _ Eg)).
        * apply set_in in Hin'' as [->|Hin'']; auto. cbn [snd].
          repeat constructor. exact Hr. }
  apply Hgen. intros g' [].
Qed.

Lemma annotate_items (body : stats -> option record -> record -> Entry.t)
    (records : list record) :
  forall s previous ie,
    In ie (annotate body s previous records) ->
    exists r s' previous',
      In r records /\ fst ie = index r /\ snd ie = body s' previous' r.
Proof.
  induction records as [|r rest IH]; intros s previous ie; cbn [annotate In]; [intros []|].
  intros [<-|Hin].
  - exists r, s, previous. cbn. auto.
  - apply IH in Hin as [r' [s' [p' [Hr' Hie]]]]. exists r', s', p'. auto.
Qed.

Lemma replace_at_frame (R : Entry.t -> Entry.t -> Prop) (entries current : list Entry.t) :
  Forall2 R entries current ->
  forall i e x, nth_error entries i = Some e -> R e x ->
                Forall2 R entries (replace_at i x current).
Proof.
  induction 1 as [|a b entries current Hab Hrest IH]; intros i e x Hnth Hx.
  - destruct i; discriminate.
  - destruct i as [|i]; cbn [replace_at nth_error] in *.
    + injection Hnth as <-. constructor; assumption.
    + constructor; [exact Hab | eapply IH; eassumption].
Qed.

Lemma track_frame_of (body : stats -> option record -> record -> Entry.t)
    (entries : list Entry.t) :
  (forall s previous r, same_but_change (entry r) (body s previous r)) ->
  Forall2 same_but_change entries (track body entries).
Proof.
  intros Hbody. unfold track.
  assert (Hgroups : forall g, In g (JsObject.entries (groupBySignature entries)) ->
                              Forall (placed entries) (snd g)).
  { intros g Hin. apply group_records.
    eapply Permutation_in; [apply entries_perm | exact Hin]. }
  revert Hgroups. generalize (JsObject.entries (groupBySignature entries)).
  intros groups Hgroups.
  assert (Hstart : Forall2 same_but_change entries entries).
  { clear. induction entries; constructor; auto using same_but_change_refl. }
  revert Hstart. generalize entries at 2 4. intros current Hcur.
  revert current Hcur.
  induction groups as [|g groups IH]; intros current Hcur; cbn [fold_left]; auto.
  apply IH; [intros g' Hg'; apply Hgroups; right; exact Hg'|].
  assert (Hitems : forall ie, In ie (processGroup body (snd g)) ->
            exists e, nth_error entries (fst ie) = Some e /\ same_but_change e (snd ie)).
  { intros ie Hie. unfold processGroup in Hie.
    apply annotate_items in Hie as [r [s' [p' [Hr [Hi Hx]]]]].
    apply (Permutation_in _ (sort_perm _ _)) in Hr.
    assert (Hp : placed entries r).
    { eapply Forall_forall; [apply Hgroups; left; reflexivity | exact Hr]. }
    exists (entry r). rewrite Hi, Hx. split; [exact Hp | apply Hbody]. }
  revert Hitems. generalize (processGroup body (snd g)). intros items Hitems.
  revert current Hcur.
  induction items as [|ie items IHi]; intros current Hcur; cbn [fold_left]; auto.
  apply IHi; [intros ie' Hie'; apply Hitems; right; exact Hie'|].
  destruct (Hitems ie) as [e [Hnth He]]; [left; reflexivity|].
  eapply replace_at_frame; eassumption.
Qed.

End FrameFacts.

(** The continuity pass, in the daily and in the weekly/monthly branch,
    keeps the summary's length and order and changes nothing of an entry
    but its bale change, its lot change and its previous mixing
    number. *)
Theorem continuity_frame `{Platform} (entries : list Entry.t) :
  Forall2 ContinuityFrame.same_but_change entries
          (Continuity.track Continuity.dailyAnnotate entries) /\
  Forall2 ContinuityFrame.same_but_change entries
          (Continuity.track Continuity.periodAnnotate entries).
Proof.
  split; apply track_frame_of.
  - apply dailyAnnotate_frame.
  - apply periodAnnotate_frame.
Qed.

(** ** The order of the daily summary *)

Section DailyOrderFacts.

Import Continuity ContinuityFrame Daily.

Context `{Platform}.

Lemma io_run_bind {A B : Type} (source : forall R, query R -> R)
    (m : io A) (f : A -> io B) :
  snd (run source (bind m f)) = snd (run source (f (snd (run source m)))).
Proof.
  induction m as [a | R q k IH]; cbn [bind run snd]; auto.
  specialize (IH (source _ q)).
  destruct (run source (bind (k (source R q)) f)) as [reads b].
  destruct (run source (k (source R q))) as [reads' a].
  cbn [snd] in *. exact IH.
Qed.

Lemma summaryEntries_entries (source : forall R, query R -> R)
    (lookup : obj jsval) (lotResults : list Lot.t) (groups : list (list MixRow.t)) :
  Forall (fun e => exists rows b, e = entryOf lookup lotResults rows b)
         (snd (run source (summaryEntries lookup lotResults groups))).
Proof.
  induction groups as [|rows rest IH]; cbn [summaryEntries].
  - constructor.
  - destruct rows as [|r rows]; [exact IH|].
    rewrite io_run_bind, io_run_bind. cbn [run snd].
    constructor; [eauto | exact IH].
Qed.

Lemma lookup_values (issueData : list Issue.t) (k : string) (v : jsval) :
  In (k, v) (issueDateLookup issueData) ->
  exists i, In i issueData /\ v = Issue.issue_date i.
Proof.
  unfold issueDateLookup.
  assert (Hgen : forall todo lookup,
            (forall k v, In (k, v) lookup ->
                         exists i, In i issueData /\ v = Issue.issue_date i) ->
            (forall i, In i todo -> In i issueData) ->
            forall k v,
              In (k, v) (fold_left
                (fun lookup issueRow =>
                   let k := lookupKey (Issue.unit issueRow) (Issue.line issueRow)
                                      (Issue.mixing_no issueRow) (Issue.cotton issueRow) in
                   match get lookup k with
                   | Some v => if truthy v then lookup
                               else set lookup k (Issue.issue_date issueRow)
                   | None => set lookup k (Issue.issue_date issueRow)
                   end) todo lookup) ->
              exists i, In i issueData /\ v = Issue.issue_date i).
  { induction todo as [|row todo IH]; intros lookup Hl Ht k' v' Hin;
      cbn [fold_left] in Hin; [eauto|].
    eapply IH; [| |exact Hin].
    - intros k0 v0 H0. cbv zeta in H0.
      assert (Hset : forall key,
                In (k0, v0) (set lookup key (Issue.issue_date row)) ->
                exists i, In i issueData /\ v0 = Issue.issue_date i).
      { intros key Hs. apply set_in in Hs as [[= _ ->]|Hs]; [|eauto].
        exists row. split; [apply Ht; left; reflexivity | reflexivity]. }
      destruct (get lookup _) as [v1|]; [destruct (truthy v1)|]; eauto.
    - intros i Hi. apply Ht. right. exact Hi. }
  apply Hgen; [intros k0 v0 [] | auto].
Qed.

Lemma issueDate_dated (issueData : list Issue.t) (rows : list MixRow.t) :
  Forall (fun i => dated (Issue.issue_date i)) issueData ->
  dated (issueDate (issueDateLookup issueData) rows).
Proof.
  intros Hd. unfold issueDate.
  destruct (sort _ _) as [|d l] eqn:Es; [unfold dated; cbn; discriminate|].
  assert (Hin : In d (filter truthy (map (rawIssueDate (issueDateLookup issueData)) rows))).
  { eapply Permutation_in; [apply sort_perm|]. rewrite Es. left. reflexivity. }
  apply filter_In in Hin as [Hin _]. apply in_map_iff in Hin as [row [<- _]].
  unfold rawIssueDate.
  destruct (get (issueDateLookup issueData) _) as [v|] eqn:Eg;
    [|unfold dated; cbn; discriminate].
  destruct (truthy v); [|unfold dated; cbn; discriminate].
  apply get_in, lookup_values in Eg as [i [Hi ->]].
  eapply Forall_forall in Hd; eauto.
Qed.

Lemma frame_dates (entries current : list Entry.t) :
  Forall2 same_but_change entries current ->
  Forall (fun e => dated (Entry.issue_date e)) entries ->
  Forall (fun e => dated (Entry.issue_date e)) current.
Proof.
  induction 1 as [|a b entries current [bale [lot [previous ->]]] Hrest IH];
    intros Hd; constructor; inversion Hd; subst; auto.
Qed.

Lemma sorted_filter {A : Type} (R : A -> A -> Prop) (f : A -> bool) (l : list A) :
  StronglySorted R l -> StronglySorted R (filter f l).
Proof.
  induction 1 as [|x l Hs IH Hx]; cbn [filter]; [constructor|].
  destruct (f x); auto. constructor; auto.
  apply Forall_forall. intros y Hy. apply filter_In in Hy as [Hy _].
  eapply Forall_forall in Hx; eauto.
Qed.

Lemma sort_newest_first (entries : list Entry.t) :
  Forall (fun e => dated (Entry.issue_date e)) entries ->
  StronglySorted newest_first (sort byIssueDateDescending entries).
Proof.
  apply (sort_strongly_sorted _ (fun e => dated (Entry.issue_date e))).
  - intros a b Ha Hb. unfold byIssueDateDescending, dateNumber, newest_first, time,
      timeOrZero, dated in *.
    destruct (getTime (Entry.issue_date a)) as [ta|]; [|contradiction].
    destruct (getTime (Entry.issue_date b)) as [tb|]; [|contradiction].
    cbn [nsub gt0].
    destruct (Qlt_bool 0 (inject_Z tb - inject_Z ta)) eqn:E.
    + apply Qlt_bool_iff in E. lra.
    + apply Qlt_bool_false in E. lra.
  - intros a b c Hab Hbc. unfold newest_first in *. lra.
Qed.

End DailyOrderFacts.

(** When every issue date that was fetched is one [new Date] can read,
    the daily summary goes out newest first: no entry is followed by one
    with a later issue date, an entry without issue date counting as the
    epoch. *)
Theorem daily_newest_first `{Platform} (source : forall R, query R -> R)
    (issueData : list Issue.t) (mixingData : list MixRow.t)
    (lotResults : list Lot.t) (mixingFilters : list jsval) :
  Forall (fun i => ContinuityFrame.dated (Issue.issue_date i)) issueData ->
  StronglySorted ContinuityFrame.newest_first
    (snd (run source (Daily.report issueData mixingData lotResults mixingFilters))).
Proof.
  intros Hd. unfold Daily.report. rewrite io_run_bind. cbn [run snd].
  unfold Daily.applyMixingFilter.
  assert (Hs : StronglySorted ContinuityFrame.newest_first
                 (sort Daily.byIssueDateDescending
                    (Continuity.track Continuity.dailyAnnotate
                       (snd (run source
                          (Daily.summaryEntries (Daily.issueDateLookup issueData)
                             lotResults (values (Daily.groupRows mixingData)))))))).
  { apply sort_newest_first.
    eapply frame_dates; [apply track_frame_of, dailyAnnotate_frame|].
    eapply Forall_impl; [|apply summaryEntries_entries].
    intros e [rows [b ->]]. cbn [Daily.entryOf Entry.issue_date].
    apply issueDate_dated, Hd. }
  destruct mixingFilters; [exact Hs | apply sorted_filter, Hs].
Qed.

Lemma daily_newest_first_witness :
  let H := Reference.platform in
  let summary :=
    snd (run SummaryExamples.source
           (Daily.report (ContinuityExamples.issues "25_31_V1")
                         SummaryExamples.mixingData ContinuityExamples.lotResults [])) in
  map Entry.issue_date summary
  = [VStr "2024-01-03"; VStr "2024-01-02"; VStr "2024-01-01"] /\
  StronglySorted ContinuityFrame.newest_first summary.
Proof.
  intros H summary. split; [reflexivity|].
  apply (@daily_newest_first H).
  repeat constructor; discriminate.
Defined.

(** ** The share of minimum-micronaire bales

    The bounds of this section are those of exact arithmetic. *)

Section MinMicPercentFacts.

Import Aggregator DescribedAverage.

#[local] Existing Instance Rational.arithmetic | 0.

Lemma find_in {A : Type} (f : A -> bool) (l : list A) (x : A) :
  find f l = Some x -> In x l.
Proof.
  induction l as [|y l IH]; cbn [find]; [discriminate|].
  destruct (f y); [intros [= <-]; left; reflexivity | right; auto].
Qed.

Lemma toFixed2_percent (q : Q) :
  (0 <= q)%Q -> (q <= 100)%Q -> (0 <= toFixed2 q)%Q /\ (toFixed2 q <= 100)%Q.
Proof.
  intros Hlo Hhi. unfold toFixed2, round_half_away.
  assert (H0 : Qle_bool 0 (q * 100) = true) by (apply Qle_bool_iff; lra).
  rewrite H0.
  assert (Hz : 0 <= Qfloor (q * 100 + (1 # 2)) <= 10000).
  { split.
    - change 0 with (Qfloor 0). apply Qfloor_resp_le. lra.
    - change 10000 with (Qfloor (10000 + (1 # 2))). apply Qfloor_resp_le. lra. }
  unfold Qle. cbn [Qnum Qden]. lia.
Qed.

Lemma Qeq_bool_positive (n : Q) : (0 < n)%Q -> Qeq_bool n 0 = false.
Proof.
  intros Hn. destruct (Qeq_bool n 0) eqn:E; [|reflexivity].
  apply Qeq_bool_iff in E. lra.
Qed.

(** The share a lot contributes lies between 0 and 100. *)
Lemma lot_share (m n : Q) :
  (0 <= m)%Q -> (m <= n)%Q -> (0 < n)%Q ->
  (0 <= m * 100 / n)%Q /\ (m * 100 / n <= 100)%Q.
Proof.
  intros Hm Hmn Hn. split.
  - apply Qle_shift_div_l; [exact Hn | lra].
  - apply Qle_shift_div_r; [exact Hn | lra].
Qed.

Lemma numerator_from (lotResults : list Lot.t) (rows : list MixRow.t) :
  Forall (fun lot => forall m n,
            Number (Lot.min_mic_bale_per_lot lot) = Fin m ->
            Number (Lot.no_of_bale lot) = Fin n ->
            (0 < n)%Q -> (0 <= m)%Q /\ (m <= n)%Q) lotResults ->
  Forall (fun r => bales r = Fin (row_bales r)) rows ->
  Forall (fun r => (0 <= row_bales r)%Q) rows ->
  forall acc w,
    weightedMinMicNumerator acc = Fin w ->
    exists w', weightedMinMicNumerator (fold_left (step lotResults) rows acc) = Fin w'
      /\ (w <= w')%Q /\ (w' <= w + 100 * Qsum (map row_bales rows))%Q.
Proof.
  intros Hlots Hfin. induction Hfin as [|r rows Hr Hfin IH]; intros Hpos acc w Hw;
    cbn [fold_left map].
  - exists w. split; auto. unfold Qsum. cbn. lra.
  - inversion Hpos as [|? ? Hb Hpos']; subst.
    assert (Hstep : exists w1, weightedMinMicNumerator (step lotResults acc r) = Fin w1
                      /\ (w <= w1)%Q /\ (w1 <= w + 100 * row_bales r)%Q).
    { unfold step. rational.
      destruct (findLot lotResults r) as [lot|] eqn:Ef.
      - cbn [weightedMinMicNumerator].
        destruct (present (Lot.min_mic_bale_per_lot lot)
                  && negb (isNaN (Number (Lot.min_mic_bale_per_lot lot)))
                  && gt0 (Number (Lot.no_of_bale lot))) eqn:Ec.
        + apply andb_true_iff in Ec as [Ec En]. apply andb_true_iff in Ec as [_ Em].
          destruct (Number (Lot.min_mic_bale_per_lot lot)) as [|m] eqn:Nm;
            [discriminate|].
          destruct (Number (Lot.no_of_bale lot)) as [|n] eqn:Nn; [discriminate|].
          cbn [gt0] in En. apply Qlt_bool_iff in En.
          assert (Hlot : In lot lotResults) by (eapply find_in; exact Ef).
          eapply Forall_forall in Hlot; [|exact Hlots].
          destruct (Hlot m n Nm Nn En) as [Hm Hmn].
          destruct (lot_share m n Hm Hmn En) as [Hs0 Hs1].
          rewrite Hw, Hr. cbn [nmul ndiv].
          rewrite (Qeq_bool_positive n En). cbn [nmul nadd].
          eexists. split; [reflexivity|]. split; nra.
        + exists w. split; auto. split; lra.
      - exists w. split; auto. split; lra. }
    destruct Hstep as [w1 [Hw1 [Hlo1 Hhi1]]].
    destruct (IH Hpos' _ _ Hw1) as [w' [Hw' [Hlo Hhi]]].
    exists w'. split; auto. rewrite Qsum_cons. split; lra.
Qed.

(** When the total of a group's bales is a number, no row has a negative
    bale count and no lot has more minimum-micronaire bales than bales,
    [min_mic_percent] is a number between 0 and 100 (the sums and the
    quotient taken exactly). *)
Theorem min_mic_percent_range (lotResults : list Lot.t) (rows : list MixRow.t) (T : Q) :
  Aggregator.totalBales rows = Fin T ->
  Forall (fun r => (0 <= DescribedAverage.row_bales r)%Q) rows ->
  Forall (fun lot => forall m n,
            Number (Lot.min_mic_bale_per_lot lot) = Fin m ->
            Number (Lot.no_of_bale lot) = Fin n ->
            (0 < n)%Q -> (0 <= m)%Q /\ (m <= n)%Q) lotResults ->
  exists p, Aggregator.min_mic_percent (Aggregator.aggregate lotResults rows) = Fin p
            /\ (0 <= p)%Q /\ (p <= 100)%Q.
Proof.
  intros HT Hpos Hlots. unfold Aggregator.aggregate. cbn [Aggregator.min_mic_percent].
  rewrite HT. cbn [gt0].
  destruct (Qlt_bool 0 T) eqn:Egt; [|exists 0%Q; split; [reflexivity | split; lra]].
  apply Qlt_bool_iff in Egt.
  destruct (totalBales_finite rows T HT) as [Hfin HT'].
  destruct (numerator_from lotResults rows Hlots Hfin Hpos Aggregator.init 0%Q eq_refl)
    as [w [Hw [Hlo Hhi]]].
  rewrite Hw. rational. cbn [ndiv].
  rewrite (Qeq_bool_positive T Egt). cbn [fixed2]. rational. cbn [Number]. eexists. split; [reflexivity|].
  apply toFixed2_percent.
  - apply Qle_shift_div_l; [exact Egt | lra].
  - apply Qle_shift_div_r; [exact Egt | rewrite HT'; lra].
Qed.

Lemma min_mic_percent_range_witness :
  let lot := Lot.mk (VStr "P1") VNull (VNum 4) VNull VNull VNull VNull VNull VNull VNull
                    VNull VNull (VNum 3.5) (VNum 10) (VNum 40) in
  let rows := [MixRow.mk (VNum 10) (VStr "U1") (VStr "L1") (VStr "A") (VStr "P1") (VNum 80);
               MixRow.mk (VNum 10) (VStr "U1") (VStr "L1") (VStr "A") (VStr "P9") (VNum 20)] in
  Aggregator.min_mic_percent (Aggregator.aggregate [lot] rows) = Fin (2000 # 100) /\
  exists p, Aggregator.min_mic_percent (Aggregator.aggregate [lot] rows) = Fin p
            /\ (0 <= p)%Q /\ (p <= 100)%Q.
Proof.
  intros lot rows. split; [reflexivity|].
  apply (min_mic_percent_range [lot] rows 100).
  - reflexivity.
  - repeat constructor; vm_compute; discriminate.
  - constructor; [|constructor]. intros m n Hm Hn _.
    injection Hm as <-. injection Hn as <-. split; vm_compute; discriminate.
Defined.

End MinMicPercentFacts.

(** ** Cotton filter values *)

Section CandidateFacts.

Import Handler CottonCandidate.

Lemma code_char_underscore (c : ascii) : is_underscore c = true -> is_code_char c = true.
Proof.
  unfold is_underscore, is_code_char. intros Hc. rewrite Hc. apply orb_true_r.
Qed.

Lemma replace_foreign_chars (s : string) :
  forall in_run, all_chars is_code_char (replace_foreign in_run s) = true.
Proof.
  induction s as [|c r IH]; intros in_run; cbn [replace_foreign all_chars]; auto.
  destruct (is_code_char c) eqn:Ec; cbn [all_chars].
  - rewrite Ec, IH. reflexivity.
  - destruct in_run; [apply IH|]. cbn [all_chars]. rewrite IH. reflexivity.
Qed.

Lemma collapse_chars (P : ascii -> bool) (s : string) :
  forall in_run, all_chars P s = true ->
                 all_chars P (collapse_underscores in_run s) = true.
Proof.
  induction s as [|c r IH]; intros in_run; cbn [collapse_underscores all_chars]; auto.
  intros Hs. apply andb_true_iff in Hs as [Hc Hr].
  destruct (code c =? 95); [destruct in_run|]; cbn [all_chars];
    rewrite ?Hc, ?IH; auto.
Qed.

Lemma collapse_head (s : string) :
  head_is is_underscore (collapse_underscores true s) = false.
Proof.
  induction s as [|c r IH]; cbn [collapse_underscores head_is]; auto.
  destruct (code c =? 95) eqn:Ec; auto.
Qed.

Lemma collapse_single (s : string) :
  forall in_run, single_underscores (collapse_underscores in_run s) = true.
Proof.
  induction s as [|c r IH]; intros in_run; cbn [collapse_underscores]; auto.
  destruct (code c =? 95) eqn:Ec.
  - destruct in_run; [apply IH|].
    cbn [single_underscores]. rewrite collapse_head, andb_false_r, IH. reflexivity.
  - cbn [single_underscores]. unfold is_underscore at 1. rewrite Ec, IH. reflexivity.
Qed.

Lemma drop_last_chars (P : ascii -> bool) (s : string) :
  all_chars P s = true -> all_chars P (Reference.drop_last s) = true.
Proof.
  induction s as [|c r IH]; cbn [Reference.drop_last all_chars]; auto.
  intros Hs. apply andb_true_iff in Hs as [Hc Hr].
  destruct r as [|d r']; auto. cbn [all_chars]. rewrite Hc. apply IH, Hr.
Qed.

Lemma drop_last_head (f : ascii -> bool) (s : string) :
  head_is f s = false -> head_is f (Reference.drop_last s) = false.
Proof.
  destruct s as [|c [|d r]]; cbn [Reference.drop_last head_is]; auto.
Qed.

Lemma drop_last_single (s : string) :
  single_underscores s = true -> single_underscores (Reference.drop_last s) = true.
Proof.
  induction s as [|c r IH]; cbn [Reference.drop_last]; auto.
  destruct r as [|d r']; auto.
  intros Hs. cbn [single_underscores] in Hs. apply andb_true_iff in Hs as [Hc Hr].
  change (Reference.drop_last (String c (String d r')))
    with (String c (Reference.drop_last (String d r'))).
  cbn [single_underscores]. rewrite (IH Hr), andb_true_r.
  destruct (is_underscore c); auto. cbn [andb negb] in *.
  apply negb_true_iff in Hc. cbn [head_is] in Hc.
  apply negb_true_iff. apply drop_last_head. exact Hc.
Qed.

(** After a last underscore is dropped, the text does not end with one. *)
Lemma drop_last_last (s : string) (c : ascii) :
  single_underscores s = true ->
  Reference.last_char s = Some c -> is_underscore c = true ->
  forall d, Reference.last_char (Reference.drop_last s) = Some d ->
            is_underscore d = false.
Proof.
  induction s as [|a r IH]; [discriminate|].
  intros Hs Hl Hc d Hd. destruct r as [|b r']; [discriminate|].
  cbn [single_underscores] in Hs. apply andb_true_iff in Hs as [Ha Hr].
  change (Reference.last_char (String a (String b r')))
    with (Reference.last_char (String b r')) in Hl.
  change (Reference.drop_last (String a (String b r')))
    with (String a (Reference.drop_last (String b r'))) in Hd.
  destruct r' as [|b' r''].
  - cbn in Hl, Hd. injection Hl as <-. injection Hd as <-.
    cbn [head_is] in Ha. rewrite Hc, andb_true_r in Ha.
    apply negb_true_iff in Ha. exact Ha.
  - apply (IH Hr Hl Hc).
    change (Reference.drop_last (String b (String b' r'')))
      with (String b (Reference.drop_last (String b' r''))) in *.
    exact Hd.
Qed.

Lemma strip_edge_shape (s : string) :
  all_chars is_code_char s = true -> single_underscores s = true ->
  let r := strip_edge_underscores s in
  all_chars is_code_char r = true /\ single_underscores r = true /\
  head_is is_underscore r = false /\
  (forall c, Reference.last_char r = Some c -> is_underscore c = false).
Proof.
  intros Hchars Hsingle r. unfold r, strip_edge_underscores.
  set (s' := match s with
             | String c r0 => if code c =? 95 then r0 else s
             | EmptyString => s
             end).
  assert (Hs' : all_chars is_code_char s' = true /\ single_underscores s' = true
                /\ head_is is_underscore s' = false).
  { unfold s'. destruct s as [|c r0]; [auto|].
    cbn [all_chars single_underscores] in Hchars, Hsingle.
    apply andb_true_iff in Hchars as [Hc Hr0].
    apply andb_true_iff in Hsingle as [Hc' Hr0'].
    destruct (code c =? 95) eqn:Ec.
    - repeat split; auto. unfold is_underscore at 1 in Hc'. rewrite Ec in Hc'.
      cbn [andb] in Hc'. apply negb_true_iff in Hc'. exact Hc'.
    - repeat split; cbn [all_chars single_underscores head_is]; auto.
      + rewrite Hc, Hr0. reflexivity.
      + rewrite Hc', Hr0'. reflexivity. }
  destruct Hs' as [Hc [Hs Hh]].
  destruct (Reference.last_char s') as [c|] eqn:El.
  - destruct (code c =? 95) eqn:Ec.
    + repeat split; auto using drop_last_chars, drop_last_single, drop_last_head.
      apply (drop_last_last s' c); assumption.
    + repeat split; auto. intros d Hd. rewrite El in Hd. injection Hd as <-. exact Ec.
  - repeat split; auto. intros d Hd. rewrite El in Hd. discriminate.
Qed.

Lemma replace_foreign_id (s : string) :
  all_chars is_code_char s = true -> forall in_run, replace_foreign in_run s = s.
Proof.
  induction s as [|c r IH]; cbn [all_chars replace_foreign]; auto.
  intros Hs in_run. apply andb_true_iff in Hs as [Hc Hr]. rewrite Hc, IH; auto.
Qed.

Lemma collapse_id (s : string) :
  single_underscores s = true ->
  forall in_run, (in_run = true -> head_is is_underscore s = false) ->
                 collapse_underscores in_run s = s.
Proof.
  induction s as [|c r IH]; cbn [single_underscores collapse_underscores]; auto.
  intros Hs in_run Hrun. apply andb_true_iff in Hs as [Hc Hr].
  destruct (code c =? 95) eqn:Ec.
  - destruct in_run.
    + specialize (Hrun eq_refl). cbn [head_is] in Hrun.
      unfold is_underscore in Hrun. congruence.
    + rewrite IH; auto. intros _.
      unfold is_underscore at 1 in Hc. rewrite Ec in Hc. cbn [andb] in Hc.
      apply negb_true_iff in Hc. exact Hc.
  - rewrite IH; auto. discriminate.
Qed.

Lemma strip_edge_id (s : string) :
  head_is is_underscore s = false ->
  (forall c, Reference.last_char s = Some c -> is_underscore c = false) ->
  strip_edge_underscores s = s.
Proof.
  intros Hh Hl. unfold strip_edge_underscores.
  assert (Hs : match s with
               | String c r0 => if code c =? 95 then r0 else s
               | EmptyString => s
               end = s).
  { destruct s as [|c r0]; auto. cbn [head_is] in Hh. unfold is_underscore in Hh.
    rewrite Hh. reflexivity. }
  rewrite Hs. destruct (Reference.last_char s) as [c|] eqn:El; auto.
  specialize (Hl c eq_refl). unfold is_underscore in Hl. rewrite Hl. reflexivity.
Qed.

End CandidateFacts.

(** [sanitizeCottonCandidate] yields a text made of capital letters,
    digits and underscores only, with no two underscores in a row and
    none at either end; sanitizing such a text again changes nothing. *)
Theorem sanitizeCottonCandidate_shape (rawValue : string) :
  let sanitized := Handler.sanitizeCottonCandidate rawValue in
  all_chars Handler.is_code_char sanitized = true /\
  CottonCandidate.single_underscores sanitized = true /\
  head_is CottonCandidate.is_underscore sanitized = false /\
  (forall c, Reference.last_char sanitized = Some c ->
             CottonCandidate.is_underscore c = false) /\
  Handler.sanitizeCottonCandidate sanitized = sanitized.
Proof.
  intros sanitized.
  assert (Hshape : all_chars Handler.is_code_char sanitized = true /\
                   CottonCandidate.single_underscores sanitized = true /\
                   head_is CottonCandidate.is_underscore sanitized = false /\
                   (forall c, Reference.last_char sanitized = Some c ->
                              CottonCandidate.is_underscore c = false)).
  { unfold sanitized, Handler.sanitizeCottonCandidate.
    destruct (is_empty rawValue); [repeat split; auto; discriminate|].
    apply strip_edge_shape.
    - apply collapse_chars, replace_foreign_chars.
    - apply collapse_single. }
  destruct Hshape as [Hc [Hs [Hh Hl]]]. repeat split; auto.
  unfold Handler.sanitizeCottonCandidate at 1.
  destruct (is_empty sanitized) eqn:Ee; [symmetry; apply is_empty_true, Ee|].
  rewrite replace_foreign_id by exact Hc.
  rewrite collapse_id; [apply strip_edge_id; assumption | exact Hs | discriminate].
Qed.

Example sanitize_spaced_code :
  Handler.sanitizeCottonCandidate "25 / 31__V2-" = "25_31_V2".
Proof. reflexivity. Qed.

(** ** A failing read of the mixing codes *)

Section FailingCodeFacts.

Import Continuity ContinuityFrame FailingCodes.

Context `{Platform}.

Variable source : forall R, query R -> R.
Variable message : string.
Hypothesis code_fails :
  forall varieties, error (source _ (SelectMixingCode varieties)) = Some message.

Lemma io_run_bind_full {A B : Type} (m : io A) (f : A -> io B) :
  run source (bind m f)
  = ((fst (run source m) ++ fst (run source (f (snd (run source m)))))%list,
     snd (run source (f (snd (run source m))))).
Proof.
  induction m as [a | R q k IH]; cbn [bind run].
  - cbn. destruct (run source (f a)); reflexivity.
  - rewrite IH. destruct (run source (k (source R q))) as [reads a]. reflexivity.
Qed.

Lemma daily_blend_fails (lotResults : list Lot.t) (rows : list MixRow.t) :
  snd (run source (Daily.blendOf lotResults rows)) = Blend.no_blend.
Proof.
  unfold Daily.blendOf. destruct (Blend.uniqueVarieties lotResults rows) as [|v vs];
    [reflexivity|].
  cbn [run]. rewrite code_fails.
  destruct (run source (Ret Blend.no_blend)) eqn:E. cbn in E. injection E as <- <-.
  reflexivity.
Qed.

Lemma daily_entries_unblended (lookup : obj jsval) (lotResults : list Lot.t)
    (groups : list (list MixRow.t)) :
  Forall unblended (snd (run source (Daily.summaryEntries lookup lotResults groups))).
Proof.
  induction groups as [|rows rest IH]; cbn [Daily.summaryEntries].
  - constructor.
  - destruct rows as [|r rows]; [exact IH|].
    rewrite io_run_bind, io_run_bind. cbn [run snd].
    constructor; [|exact IH].
    rewrite daily_blend_fails. split; reflexivity.
Qed.

Lemma frame_unblended (entries current : list Entry.t) :
  Forall2 same_but_change entries current ->
  Forall unblended entries -> Forall unblended current.
Proof.
  induction 1 as [|a b entries current [bale [lot [previous ->]]] Hrest IH];
    intros Hd; constructor; inversion Hd; subst; auto.
Qed.

Lemma periodic_blend_fails (lotResults : list Lot.t) (rows : list MixRow.t) :
  run source (Periodic.blendOf lotResults rows) = ([], inr Blend.no_blend) \/
  exists varieties,
    run source (Periodic.blendOf lotResults rows)
    = ([Read (SelectMixingCode varieties)], inl message).
Proof.
  unfold Periodic.blendOf.
  destruct (Blend.uniqueVarieties lotResults rows) as [|v vs]; [left; reflexivity|].
  right. exists (v :: vs). cbn [run]. rewrite code_fails. reflexivity.
Qed.

Lemma periodic_entries_fail (report_type : string) (lookup : obj jsval)
    (lotResults : list Lot.t) (groups : list Periodic.group) :
  (exists es, run source (Periodic.summaryEntries report_type lookup lotResults groups)
              = ([], inr es)) \/
  exists varieties,
    run source (Periodic.summaryEntries report_type lookup lotResults groups)
    = ([Read (SelectMixingCode varieties)], inl message).
Proof.
  induction groups as [|g rest IH]; cbn [Periodic.summaryEntries].
  - left. exists []. reflexivity.
  - destruct (Periodic.rows g) as [|r rows] eqn:Er; [exact IH|].
    rewrite io_run_bind_full.
    destruct (periodic_blend_fails lotResults (map Periodic.row (r :: rows)))
      as [Hb|[varieties Hb]]; rewrite Hb; cbn [fst snd app].
    + rewrite io_run_bind_full.
      destruct IH as [[es He]|[varieties He]]; rewrite He; cbn [fst snd app run].
      * left. eexists. reflexivity.
      * right. exists varieties. reflexivity.
    + right. exists varieties. reflexivity.
Qed.

End FailingCodeFacts.

(** When the mixing codes cannot be read, the daily report still goes
    out, every entry without blend ([mixing] and [blend_percent] empty),
    while the weekly and the monthly report stop at the first such read
    and answer 500 with the message of the error. *)
Theorem mixing_code_failure `{Platform} (source : forall R, query R -> R)
    (message : string)
    (unitFilters lineFilters cottonFilters mixingFilters : list jsval)
    (issueData : list Issue.t) (mixingData : list MixRow.t) (lotResults : list Lot.t) :
  (forall varieties, error (source _ (SelectMixingCode varieties)) = Some message) ->
  (exists summary,
     snd (run source (Handler.aggregate "daily" unitFilters lineFilters cottonFilters
                        mixingFilters issueData mixingData (Some lotResults)))
     = Handler.Json 200 (Handler.Summary summary) /\
     Forall FailingCodes.unblended summary) /\
  (forall report_type, report_type = "weekly" \/ report_type = "monthly" ->
     let out := run source (Handler.aggregate report_type unitFilters lineFilters
                              cottonFilters mixingFilters issueData mixingData
                              (Some lotResults)) in
     (fst out = [] /\ exists summary, snd out = Handler.Json 200 (Handler.Summary summary))
     \/ (exists varieties, fst out = [Read (SelectMixingCode varieties)]) /\
        snd out = Handler.failed message).
Proof.
  intros Hfail. split.
  - unfold Handler.aggregate. cbn [String.eqb Ascii.eqb Bool.eqb].
    rewrite io_run_bind. cbn [run snd]. eexists. split; [reflexivity|].
    unfold Daily.report. rewrite io_run_bind. cbn [run snd].
    assert (Hs : Forall FailingCodes.unblended
                   (sort Daily.byIssueDateDescending
                      (Continuity.track Continuity.dailyAnnotate
                         (snd (run source
                            (Daily.summaryEntries (Daily.issueDateLookup issueData)
                               lotResults (values (Daily.groupRows mixingData)))))))).
    { apply Forall_forall. intros e He.
      apply (Permutation_in _ (sort_perm _ _)) in He.
      eapply Forall_forall; [|exact He].
      eapply frame_unblended; [apply track_frame_of, dailyAnnotate_frame|].
      apply daily_entries_unblended with (message := message). exact Hfail. }
    unfold Daily.applyMixingFilter. destruct mixingFilters; [exact Hs|].
    apply Forall_forall. intros e He. apply filter_In in He as [He _].
    eapply Forall_forall in Hs; eauto.
  - intros report_type Ht out. unfold out, Handler.aggregate.
    assert (Hd : String.eqb report_type "daily" = false)
      by (destruct Ht as [-> | ->]; reflexivity).
    assert (Hp : String.eqb report_type "weekly" || String.eqb report_type "monthly" = true)
      by (destruct Ht as [-> | ->]; reflexivity).
    rewrite Hd, Hp. rewrite (io_run_bind_full source). unfold Periodic.report.
    rewrite (io_run_bind_full source).
    destruct (periodic_entries_fail source message Hfail report_type
                (Daily.issueDateLookup issueData) lotResults
                (map (fun kg => Periodic.attachRows report_type
                                  (Daily.issueDateLookup issueData) unitFilters
                                  lineFilters cottonFilters mixingData (snd kg))
                     (entries (fold_left (Periodic.addIssue report_type cottonFilters)
                                         issueData []))))
      as [[es He]|[varieties He]]; rewrite He; cbn [fst snd app run].
    + left. split; [reflexivity|]. eexists. reflexivity.
    + right. split; [exists varieties; reflexivity | reflexivity].
Qed.

Lemma mixing_code_failure_witness :
  let H := Reference.platform in
  let out := run FailingCodes.source
               (Handler.aggregate "weekly" [] [] [] []
                  (ContinuityExamples.issues "A")
                  [BlendExamples.row "P1" 100; BlendExamples.row "P2" 50]
                  (Some BlendExamples.lotResults)) in
  snd out = Handler.failed FailingCodes.message /\
  List.length (fst out) = 1%nat.
Proof.
  intros H out.
  destruct (@mixing_code_failure H FailingCodes.source FailingCodes.message
              [] [] [] [] (ContinuityExamples.issues "A")
              [BlendExamples.row "P1" 100; BlendExamples.row "P2" 50]
              BlendExamples.lotResults (fun _ => eq_refl)) as [_ Hperiod].
  destruct (Hperiod "weekly" (or_introl eq_refl)) as [[Hnone _]|[[vs Hreads] Hout]].
  - exfalso. vm_compute in Hnone. discriminate.
  - split; [exact Hout|]. fold out in Hreads. rewrite Hreads. reflexivity.
Defined.

Section CottonFilterFacts.

Import Handler.

Lemma upper_char_idem (c : ascii) : upper_char (upper_char c) = upper_char c.
Proof. destruct c as [[] [] [] [] [] [] [] []]; reflexivity. Qed.

Lemma toUpperCase_idem (s : string) : toUpperCase (toUpperCase s) = toUpperCase s.
Proof.
  induction s as [|c r IH]; cbn [toUpperCase]; auto.
  rewrite upper_char_idem, IH. reflexivity.
Qed.

Lemma is_empty_upper (s : string) : is_empty (toUpperCase s) = is_empty s.
Proof. destruct s; reflexivity. Qed.

(** The text a row's cotton is filed under. *)
Lemma lookup_complete (rows : list Issue.t) (r : Issue.t) :
  In r rows -> Issue.cotton r <> VNull ->
  trim (ToString (Issue.cotton r)) <> EmptyString ->
  exists stored,
    get (createCottonLookup rows) (toUpperCase (trim (ToString (Issue.cotton r))))
    = Some stored.
Proof.
  unfold createCottonLookup. intros Hin Hc Ht.
  set (step := fun (lookup : obj string) (row : Issue.t) =>
                 match Issue.cotton row with
                 | VNull => lookup
                 | v => let trimmed := trim (ToString v) in
                        if is_empty trimmed then lookup
                        else set lookup (toUpperCase trimmed) trimmed
                 end).
  set (k := toUpperCase (trim (ToString (Issue.cotton r)))).
  assert (Hkeep : forall todo lookup,
            (exists stored, get lookup k = Some stored) ->
            exists stored, get (fold_left step todo lookup) k = Some stored).
  { induction todo as [|row todo IH]; intros lookup Hl; cbn [fold_left]; auto.
    apply IH. unfold step. destruct (Issue.cotton row) as [|q|s]; auto;
      cbv zeta; destruct (is_empty _); auto; rewrite get_set;
      destruct (String.eqb _ k); eauto. }
  assert (Hgen : forall todo lookup,
            In r todo -> exists stored, get (fold_left step todo lookup) k = Some stored).
  { induction todo as [|row todo IH]; intros lookup Hr; [destruct Hr|].
    destruct Hr as [->|Hr]; cbn [fold_left].
    - apply Hkeep. unfold step.
      apply is_empty_false in Ht.
      destruct (Issue.cotton r) as [|q|s]; [contradiction| |];
        cbv zeta; rewrite Ht, get_set; unfold k; rewrite String.eqb_refl; eauto.
    - apply IH, Hr. }
  apply Hgen, Hin.
Qed.

Lemma lookup_sound (rows : list Issue.t) (k stored : string) :
  get (createCottonLookup rows) k = Some stored ->
  toUpperCase stored = k /\ trim stored = stored /\ stored <> EmptyString.
Proof.
  unfold createCottonLookup.
  assert (Hgen : forall todo lookup,
            (forall k' v, get lookup k' = Some v ->
                          toUpperCase v = k' /\ trim v = v /\ v <> EmptyString) ->
            forall k' v,
              get (fold_left
                     (fun (lookup : obj string) (row : Issue.t) =>
                        match Issue.cotton row with
                        | VNull => lookup
                        | v => let trimmed := trim (ToString v) in
                               if is_empty trimmed then lookup
                               else set lookup (toUpperCase trimmed) trimmed
                        end) todo lookup) k' = Some v ->
              toUpperCase v = k' /\ trim v = v /\ v <> EmptyString).
  { induction todo as [|row todo IH]; intros lookup Hl k' v; cbn [fold_left]; auto.
    apply IH. intros k0 v0.
    destruct (Issue.cotton row) as [|q|s]; auto; cbv zeta;
      destruct (is_empty _) eqn:Ee; auto; rewrite get_set;
      destruct (String.eqb _ k0) eqn:E; auto;
      intros [= <-]; apply String.eqb_eq in E; apply is_empty_false in Ee;
      auto using trim_idem. }
  apply Hgen. intros k' v. discriminate.
Qed.

Lemma normalize_stored (value : jsval) (lookup : obj string) (stored : string) :
  value <> VNull -> trim (ToString value) <> EmptyString ->
  get lookup (toUpperCase (trim (ToString value))) = Some stored ->
  normalizeCottonFilterValue value lookup = stored.
Proof.
  intros Hv Ht Hg. unfold normalizeCottonFilterValue.
  apply is_empty_false in Ht.
  destruct value as [|q|s]; [contradiction| |]; rewrite Ht;
    cbn [app find]; rewrite is_empty_upper, Ht, toUpperCase_idem, Hg;
    cbn [negb andb]; rewrite toUpperCase_idem, Hg; reflexivity.
Qed.

End CottonFilterFacts.

(** The cotton filter selects by the stored spelling: a filter value that
    equals the cotton of an issue row up to case and surrounding blanks
    keeps that row, and the filter only ever drops rows. *)
Theorem cotton_filter_matches (cottonFilters : list jsval)
    (rawIssueData : list Issue.t) (value : jsval) (r : Issue.t) :
  In value cottonFilters -> value <> VNull ->
  In r rawIssueData -> Issue.cotton r <> VNull ->
  trim (ToString (Issue.cotton r)) <> EmptyString ->
  toUpperCase (trim (ToString value)) = toUpperCase (trim (ToString (Issue.cotton r))) ->
  In r (Handler.filterIssues cottonFilters rawIssueData) /\
  incl (Handler.filterIssues cottonFilters rawIssueData) rawIssueData.
Proof.
  intros Hvalue Hv Hr Hc Ht Hsame. split.
  - destruct (lookup_complete rawIssueData r Hr Hc Ht) as [stored Hstored].
    destruct (lookup_sound _ _ _ Hstored) as [Hupper [Htrim Hne]].
    assert (Hvt : trim (ToString value) <> EmptyString).
    { intros He. rewrite He in Hsame. cbn in Hsame.
      destruct (trim (ToString (Issue.cotton r))); [contradiction | discriminate]. }
    assert (Hnorm : In stored (Handler.buildNormalizedCottonFilters cottonFilters
                                 (Handler.createCottonLookup rawIssueData))).
    { unfold Handler.buildNormalizedCottonFilters.
      apply dedupe_complete. rewrite <- Htrim. apply in_map, filter_In. split.
      - apply in_map_iff. exists value. split; [|exact Hvalue].
        apply normalize_stored; auto. rewrite Hsame. exact Hstored.
      - apply negb_true_iff, is_empty_false. exact Hne. }
    unfold Handler.filterIssues. destruct cottonFilters as [|f fs]; [contradiction|].
    unfold Handler.cottonFiltersForQueries.
    destruct (Handler.buildNormalizedCottonFilters _ _) as [|n ns] eqn:En;
      [contradiction|].
    apply filter_In. split; [exact Hr|].
    destruct (Issue.cotton r) as [|q|s] eqn:Ec; [contradiction| |];
      apply existsb_exists; exists stored; (split; [exact Hnorm|]);
      rewrite Hupper; apply String.eqb_refl.
  - unfold Handler.filterIssues. destruct cottonFilters as [|f fs]; [apply incl_refl|].
    destruct (Handler.cottonFiltersForQueries _ _); [apply incl_refl|].
    intros x Hx. apply filter_In in Hx as [Hx _]. exact Hx.
Qed.

Lemma cotton_filter_matches_witness :
  let r := ContinuityExamples.issue 11 "25_31_V1" "2024-01-02" in
  In r (Handler.filterIssues [VStr " 25_31_v1 "]
          (ContinuityExamples.issues "25_31_V1" ++ ContinuityExamples.issues "25_31_V2")) /\
  List.length (Handler.filterIssues [VStr " 25_31_v1 "]
                 (ContinuityExamples.issues "25_31_V1"
                  ++ ContinuityExamples.issues "25_31_V2")) = 3%nat.
Proof.
  intros r. split; [|reflexivity].
  assert (Hvalue : In (VStr " 25_31_v1 ") [VStr " 25_31_v1 "]) by (left; reflexivity).
  assert (Hr : In r (ContinuityExamples.issues "25_31_V1"
                     ++ ContinuityExamples.issues "25_31_V2")%list)
    by (right; left; reflexivity).
  assert (Ht : trim (ToString (Issue.cotton r)) <> EmptyString)
    by (vm_compute; discriminate).
  destruct (cotton_filter_matches [VStr " 25_31_v1 "] _ (VStr " 25_31_v1 ") r
              Hvalue ltac:(discriminate) Hr ltac:(discriminate) Ht eq_refl)
    as [Hin _].
  exact Hin.
Defined.

(** ** Upload of lot results *)

Section LotUploadFacts.

Import Store IssueUpload LotUpload.

Lemma run_storeEach (db : backend) (rows : list (obj Json.t)) :
  forall history,
  exists n prepared,
    (n <= List.length rows)%nat /\
    Forall2 (fun row p => prepareRow row = Value p) (firstn n rows) prepared /\
    fst (run db history (storeEach rows)) = (history ++ map upsertOf prepared)%list /\
    ((exists rs, snd (run db history (storeEach rows)) = Value rs /\
                 List.length rs = List.length rows /\ n = List.length rows) \/
     (exists row message,
        nth_error rows n = Some row /\ prepareRow row = Throw message /\
        snd (run db history (storeEach rows)) = Throw message)).
Proof.
  induction rows as [|row rest IH]; intros history; cbn [storeEach].
  - exists 0%nat, []. cbn. rewrite app_nil_r. repeat split; auto.
    left. exists []. auto.
  - destruct (prepareRow row) as [p|message] eqn:Ep.
    + cbn [run]. rewrite run_bind.
      destruct (IH (history ++ [upsertOf p])%list) as [n [prepared [Hn [Hp [Ht Hs]]]]].
      exists (S n), (p :: prepared). cbn [List.length firstn map].
      split; [lia|]. split; [constructor; assumption|]. split.
      * destruct Hs as [[rs [Hrs _]]|[row' [message [_ [_ Hrs]]]]];
          rewrite Hrs; cbn [run fst]; rewrite Ht, <- app_assoc; reflexivity.
      * destruct Hs as [[rs [Hrs [Hl Hn']]]|[row' [message [Hnth [Hrow Hrs]]]]];
          rewrite Hrs; cbn [run snd].
        -- left. eexists. split; [reflexivity|]. cbn [List.length]. split; congruence.
        -- right. exists row', message. cbn [nth_error]. auto.
    + exists 0%nat, []. cbn. rewrite app_nil_r. repeat split; auto; try lia.
      right. exists row, message. auto.
Qed.

End LotUploadFacts.

(** The upload of lot results stores each row on its own, in the order
    of the sheet: a row whose upsert fails is reported as failed and the
    rows after it are still stored.  Only a received date too far away
    for a [Date] stops the upload, with 500, after the rows before it
    were stored; otherwise the answer is 200 with one result per row. *)
Theorem lot_upload_independent (db : Store.backend) (file : IssueUpload.upload) :
  Forall (fun row => LotUpload.plainDate row = true) (LotUpload.rowsOf file) ->
  let rows := LotUpload.rowsOf file in
  let out := Store.run db [] (LotUpload.handle file) in
  exists n prepared,
    (n <= List.length rows)%nat /\
    Forall2 (fun row p => LotUpload.prepareRow row = IssueUpload.Value p)
            (firstn n rows) prepared /\
    fst out = map LotUpload.upsertOf prepared /\
    (Store.status_of (snd out) = 200 ->
     n = List.length rows /\
     exists rs, snd out = Store.Respond 200
                            (Json.Obj [("message", Json.Str "Upload complete");
                                       ("results", Json.Arr rs)]) /\
                List.length rs = List.length rows) /\
    ((n < List.length rows)%nat ->
     exists row message,
       nth_error rows n = Some row /\
       LotUpload.prepareRow row = IssueUpload.Throw message /\
       snd out = Store.Respond 500 (Store.errorBody message)).
Proof.
  intros _ rows out. unfold out, rows, LotUpload.handle, LotUpload.rowsOf.
  destruct file as [| message | first].
  - exists 0%nat, []. cbn. repeat split; auto; try discriminate; lia.
  - exists 0%nat, []. cbn. repeat split; auto; try discriminate; lia.
  - assert (Hgen : forall l,
              let out := Store.run db []
                (Store.bind (LotUpload.storeEach l)
                   (fun results =>
                      match results with
                      | IssueUpload.Throw message =>
                          Store.Done (Store.Respond 500 (Store.errorBody message))
                      | IssueUpload.Value rs =>
                          Store.Done (Store.Respond 200
                            (Json.Obj [("message", Json.Str "Upload complete");
                                       ("results", Json.Arr rs)]))
                      end)) in
              exists n prepared,
                (n <= List.length l)%nat /\
                Forall2 (fun row p => LotUpload.prepareRow row = IssueUpload.Value p)
                        (firstn n l) prepared /\
                fst out = map LotUpload.upsertOf prepared /\
                (Store.status_of (snd out) = 200 ->
                 n = List.length l /\
                 exists rs, snd out = Store.Respond 200
                              (Json.Obj [("message", Json.Str "Upload complete");
                                         ("results", Json.Arr rs)]) /\
                            List.length rs = List.length l) /\
                ((n < List.length l)%nat ->
                 exists row message,
                   nth_error l n = Some row /\
                   LotUpload.prepareRow row = IssueUpload.Throw message /\
                   snd out = Store.Respond 500 (Store.errorBody message))).
    { intros l out'. unfold out'. rewrite run_bind.
      destruct (run_storeEach db l []) as [n [prepared [Hn [Hp [Ht Hs]]]]].
      exists n, prepared. split; [exact Hn|]. split; [exact Hp|].
      destruct Hs as [[results [Hres [Hl Hn']]]|[row [message [Hnth [Hrow Hres]]]]];
        rewrite Hres; cbn [Store.run fst snd Store.status_of].
      - split; [exact Ht|]. split.
        + intros _. split; [exact Hn'|]. eexists. split; [reflexivity | exact Hl].
        + intros Hlt. lia.
      - split; [exact Ht|]. split; [discriminate|].
        intros _. exists row, message. auto. }
    destruct first as [[name l]|]; apply Hgen.
Qed.

Lemma lot_upload_independent_witness :
  let db : Store.backend := fun _ _ => Store.mkReply None (Some "timeout") in
  let file :=
    IssueUpload.Workbook
      (Some ("Sample_Lot_Results",
             [[("lot_no", Json.Str "P1"); ("variety", Json.Str "");
               ("lot_received_date", Json.Num 45322)];
              [("lot_no", Json.Str "P2"); ("lot_received_date", Json.Str "2024-01-31")]])) in
  Store.run db [] (LotUpload.handle file)
  = ([Store.Upsert "lot_results"
        [[("lot_no", Json.Str "P1"); ("variety", Json.Null);
          ("lot_received_date", Json.Str "2024-01-31")]] "lot_no";
      Store.Upsert "lot_results"
        [[("lot_no", Json.Str "P2"); ("lot_received_date", Json.Str "2024-01-31")]]
        "lot_no"],
     Store.Respond 200
       (Json.Obj [("message", Json.Str "Upload complete");
                  ("results",
                   Json.Arr [Json.Obj [("lot_no", Json.Str "P1");
                                       ("status", Json.Str "failed");
                                       ("error", Json.Str "timeout")];
                             Json.Obj [("lot_no", Json.Str "P2");
                                       ("status", Json.Str "failed");
                                       ("error", Json.Str "timeout")]])])) /\
  exists n prepared,
    (n <= 2)%nat /\
    fst (Store.run db [] (LotUpload.handle file)) = map LotUpload.upsertOf prepared.
Proof.
  intros db file. split; [reflexivity|].
  destruct (lot_upload_independent db file) as [n [prepared [Hn [_ [Ht _]]]]].
  - repeat constructor.
  - exists n, prepared. split; [exact Hn | exact Ht].
Defined.

(** ** The order of the weekly and monthly summary *)

Section PeriodOrderFacts.

Import PeriodOrder Collation.

Context `{Platform}.

Lemma latest_first_trans :
  consistent localeCompare ->
  forall a b c, latest_first a b -> latest_first b c -> latest_first a c.
Proof.
  intros [_ Htrans] a b c Hab Hbc. unfold latest_first in *.
  destruct Hab as [Hab|[Hb|[Ha [Hb Hab]]]].
  - rewrite Hab. exact Hbc.
  - destruct Hbc as [Hbc|[Hc|[Hb' _]]]; [right; left; congruence | auto | contradiction].
  - destruct Hbc as [Hbc|[Hc|[_ [Hc Hbc]]]]; [| auto |].
    + right. right. rewrite <- Hbc. auto.
    + right. right. repeat split; auto. eapply Htrans; eassumption.
Qed.

Lemma bySortKey_order :
  consistent localeCompare ->
  forall a b, if gt0 (Periodic.bySortKeyDescending a b)
              then latest_first b a else latest_first a b.
Proof.
  intros [Htotal _] a b. unfold Periodic.bySortKeyDescending. fold (key a) (key b).
  destruct (String.eqb (key a) (key b)) eqn:Eab.
  { apply String.eqb_eq in Eab. cbn. left. exact Eab. }
  destruct (is_empty (key a)) eqn:Ea.
  { apply is_empty_true in Ea. cbn. right. left. exact Ea. }
  destruct (is_empty (key b)) eqn:Eb.
  { apply is_empty_true in Eb. cbn. right. left. exact Eb. }
  apply is_empty_false in Ea, Eb.
  destruct (gt0 (comparison_num (localeCompare (key b) (key a)))) eqn:Eg.
  - apply gt0_comparison in Eg. right. right. repeat split; auto.
  - right. right. repeat split; auto. intros Hgt.
    apply gt0_comparison in Hgt. congruence.
Qed.

End PeriodOrderFacts.

(** When the collation is a total order, the weekly and the monthly
    summary go out by sort key, latest first, the entries without a key
    after all the others. *)
Theorem periodic_latest_first `{Platform} (source : forall R, query R -> R)
    (report_type : string)
    (unitFilters lineFilters cottonFilters mixingFilters : list jsval)
    (issueData : list Issue.t) (mixingData : list MixRow.t)
    (lotResults : list Lot.t) (summary : list Entry.t) :
  Collation.consistent localeCompare ->
  snd (run source (Periodic.report report_type unitFilters lineFilters cottonFilters
                     mixingFilters issueData mixingData lotResults)) = inr summary ->
  StronglySorted PeriodOrder.latest_first summary.
Proof.
  intros Hc. unfold Periodic.report. rewrite io_run_bind.
  destruct (snd (run source (Periodic.summaryEntries _ _ _ _))) as [e|es];
    cbn [run snd]; [discriminate|].
  intros [= <-].
  assert (Hs : StronglySorted PeriodOrder.latest_first
                 (sort Periodic.bySortKeyDescending
                       (Continuity.track Continuity.periodAnnotate es))).
  { apply (sort_strongly_sorted _ (fun _ => True)).
    - intros a b _ _. apply bySortKey_order, Hc.
    - apply latest_first_trans, Hc.
    - apply Forall_forall. auto. }
  unfold Daily.applyMixingFilter. destruct mixingFilters; [exact Hs|].
  apply sorted_filter, Hs.
Qed.

Lemma answeredKeys_some (out : string + list Entry.t) (ks : list string) :
  PeriodOrder.answeredKeys out = Some ks ->
  exists summary, out = inr summary /\ map PeriodOrder.key summary = ks.
Proof.
  destruct out as [e|summary]; cbn; [discriminate|].
  intros [= <-]. exists summary. auto.
Qed.

Lemma periodic_latest_first_witness :
  let H := Reference.platform in
  let out := snd (run SummaryExamples.source
                    (Periodic.report "monthly" [] [] [] [] PeriodOrder.issues
                                     PeriodOrder.mixingData ContinuityExamples.lotResults)) in
  (exists summary, out = inr summary /\
                   map PeriodOrder.key summary = ["2024-02"; "2024-01"] /\
                   StronglySorted PeriodOrder.latest_first summary).
Proof.
  intros H out.
  assert (Hk : PeriodOrder.answeredKeys out = Some ["2024-02"; "2024-01"])
    by (vm_compute; reflexivity).
  destruct (answeredKeys_some out _ Hk) as [summary [E Ek]].
  exists summary. split; [exact E|]. split; [exact Ek|].
  apply (@periodic_latest_first H SummaryExamples.source "monthly" [] [] [] []
           PeriodOrder.issues PeriodOrder.mixingData ContinuityExamples.lotResults).
  - apply compare_by_consistent.
  - exact E.
Defined.

(** ** The per-lot bale map *)

(** The sums of this section are those of exact arithmetic. *)

Section LotBalesFacts.

Import Aggregator DescribedAverage LotBales.

#[local] Existing Instance Rational.arithmetic | 0.







End LotBalesFacts.

(** ** The weighted metrics in the arithmetic of the engine *)

(** The operations of [Binary64.arithmetic] by their definitions. *)
Ltac binary64 :=
  change (@number Binary64.arithmetic) with (fun v => Binary64.lift (Number v)) in *;
  change (@add Binary64.arithmetic) with (fun a b => Binary64.lift (nadd a b)) in *;
  change (@sub Binary64.arithmetic) with (fun a b => Binary64.lift (nsub a b)) in *;
  change (@mul Binary64.arithmetic) with (fun a b => Binary64.lift (nmul a b)) in *;
  change (@div Binary64.arithmetic) with (fun a b => Binary64.lift (ndiv a b)) in *;
  cbv beta in *.

Section DoubleFacts.

Import Binary64.

Lemma lift_double (a : num) : is_double (lift a).
Proof.
  destruct a as [|x]; cbn; [exact I|].
  destruct (round x) as [|y] eqn:E; cbn; [exact I|].
  apply (round_round x y E).
Qed.

Lemma number_double (v : jsval) : is_double (number v).
Proof. binary64. apply lift_double. Qed.

Lemma add_double (a b : num) : is_double (add a b).
Proof. binary64. apply lift_double. Qed.

Lemma add_finite (a b : num) (t : Q) :
  add a b = Fin t -> exists x y, a = Fin x /\ b = Fin y.
Proof.
  binary64. destruct a as [|x], b as [|y]; cbn; try discriminate. eauto.
Qed.

Lemma add_NaN_l (b : num) : add NaN b = NaN.
Proof. reflexivity. Qed.

Lemma add_zero_r (a : num) : is_double a -> add a (Fin 0) = a.
Proof.
  binary64. destruct a as [|x]; cbn [nadd lift is_double]; [reflexivity|]. intros Hx.
  rewrite (round_proper (x + 0) x); [exact Hx | ring].
Qed.

Lemma mul_zero_r (x : Q) : mul (Fin x) (Fin 0) = Fin 0.
Proof.
  binary64. cbn [nmul lift]. rewrite (round_proper (x * 0) 0); [apply round_0 | ring].
Qed.

Lemma mul_zero_l (x : Q) : mul (Fin 0) (Fin x) = Fin 0.
Proof.
  binary64. cbn [nmul lift]. rewrite (round_proper (0 * x) 0); [apply round_0 | ring].
Qed.

Lemma mul_comm (a b : num) : mul a b = mul b a.
Proof.
  binary64. destruct a as [|x], b as [|y]; cbn [nmul lift]; try reflexivity.
  apply round_proper. ring.
Qed.

Lemma sum_from_NaN (terms : list num) : fold_left add terms NaN = NaN.
Proof. induction terms as [|t terms IH]; cbn [fold_left]; [reflexivity | exact IH]. Qed.

Lemma sum_finite (terms : list num) (a : num) (t : Q) :
  fold_left add terms a = Fin t ->
  (exists x, a = Fin x) /\ Forall (fun b => exists y, b = Fin y) terms.
Proof.
  revert a. induction terms as [|b terms IH]; intros a; cbn [fold_left].
  - intros ->. split; [eauto | constructor].
  - intros E. destruct (IH _ E) as [[s Es] Hall].
    destruct (add_finite _ _ _ Es) as (x & y & -> & ->).
    split; [eauto | constructor; eauto].
Qed.

End DoubleFacts.

Section MetricFacts.

Import Aggregator DescribedMetric.

Lemma lot_of_find (lotResults : list Lot.t) (r : MixRow.t) :
  findLot lotResults r = lot_of lotResults (MixRow.lot_no r).
Proof.
  unfold findLot. induction lotResults as [|l rest IH]; cbn [find lot_of]; [reflexivity|].
  destruct (strict_eq (Lot.lot_no l) (MixRow.lot_no r)); [reflexivity | exact IH].
Qed.

Lemma bales_of_row (r : MixRow.t) : bales r = bales_of r.
Proof.
  unfold bales, bales_of. destruct (MixRow.issue_bale r) as [|q|s]; cbn [truthy].
  - reflexivity.
  - destruct (Qeq_bool q 0) eqn:E; cbn [negb]; [|reflexivity].
    apply Qeq_bool_iff in E. binary64. cbn [Number Binary64.lift].
    symmetry. apply round_proper. exact E.
  - destruct s; reflexivity.
Qed.

Lemma totalBales_described (rows : list MixRow.t) :
  totalBales rows = total_bales rows.
Proof.
  unfold totalBales, total_bales, sum. generalize (Fin 0).
  induction rows as [|r rows IH]; intros a; cbn [fold_left map]; [reflexivity|].
  rewrite bales_of_row. apply IH.
Qed.

Lemma value_finite (column : Lot.t -> jsval) (lotResults : list Lot.t) (r : MixRow.t) :
  exists v, value_of column lotResults r = Fin v.
Proof.
  unfold value_of. destruct (lot_of lotResults (MixRow.lot_no r)) as [lot|]; [|eauto].
  destruct (number (column lot)); eauto.
Qed.

(** The running sum of a metric is the described sum of the terms. *)
Lemma weighted_described (lotResults : list Lot.t) (key : Metric.t)
    (rows : list MixRow.t) :
  Forall (fun r => exists b, bales_of r = Fin b) rows ->
  forall acc,
    Binary64.is_double (weighted acc key) ->
    weighted (fold_left (step lotResults) rows acc) key
    = fold_left add
        (map (fun r => mul (bales_of r) (value_of (Lot.metric key) lotResults r)) rows)
        (weighted acc key).
Proof.
  induction 1 as [|r rows [b Hb] Hall IH]; intros acc Hacc; cbn [fold_left map].
  - reflexivity.
  - assert (Hstep : weighted (step lotResults acc r) key
                    = add (weighted acc key)
                          (mul (bales_of r) (value_of (Lot.metric key) lotResults r))).
    { unfold step, value_of. rewrite lot_of_find.
      destruct (lot_of lotResults (MixRow.lot_no r)) as [lot|].
      - cbn [weighted]. rewrite bales_of_row. f_equal. rewrite mul_comm. f_equal.
        destruct (number (Lot.metric key lot)); reflexivity.
      - rewrite Hb, mul_zero_r. symmetry. apply add_zero_r. exact Hacc. }
    rewrite IH; [rewrite Hstep; reflexivity|].
    rewrite Hstep. apply add_double.
Qed.


End MetricFacts.



(** The division is that of the engine: with 199 and 1 bales of mic 4.0
    and 5.0 the quotient is the double next below 4.005, and the metric
    is 4, where the exact quotient 4.005 would give 4.01. *)
Example weighted_metric_rounds_the_double :
  let lot name mic :=
    Lot.mk (VStr name) VNull (VNum mic) VNull VNull VNull VNull VNull VNull VNull
           VNull VNull VNull VNull VNull in
  let row lot_no bales :=
    MixRow.mk (VNum 10) (VStr "U1") (VStr "L1") (VStr "A") (VStr lot_no) (VNum bales) in
  let lotResults := [lot "P1" 4%Q; lot "P2" 5%Q] in
  let rows := [row "P1" 199%Q; row "P2" 1%Q] in
  let e := @Daily.entryOf Reference.platform _ [] lotResults rows Blend.no_blend in
  Entry.total_bales e = Fin 200
  /\ Entry.metrics e Metric.mic = Fin 4
  /\ toFixed2 (801 # 200) = 401 # 100.
Proof. vm_compute. repeat split. Qed.

Section ZeroSumFacts.

Import Binary64.

Lemma double_zero (x : Q) : round x = Fin x -> (x == 0)%Q -> x = 0%Q.
Proof.
  intros Hx E. rewrite (round_proper x 0 E), round_0 in Hx. congruence.
Qed.

(** A double that is not negative and below the least positive double
    is 0. *)
Lemma double_small (x : Q) :
  round x = Fin x -> (0 <= x)%Q -> (x < pow2 (-1074))%Q -> x = 0%Q.
Proof.
  intros Hx Hpos Hlt. apply double_zero; [exact Hx|].
  destruct (round_least x x Hx) as [E|E]; [exact E|].
  rewrite Qabs_pos in E by exact Hpos. plra.
Qed.

Lemma add_zero_inv (x y : Q) :
  round x = Fin x -> round y = Fin y -> (0 <= x)%Q -> (0 <= y)%Q ->
  add (Fin x) (Fin y) = Fin 0 -> x = 0%Q /\ y = 0%Q.
Proof.
  intros Hx Hy Px Py E. binary64. cbn [nadd lift] in E.
  assert (Hs : (0 <= x + y)%Q) by lra.
  pose proof (round_zero_inv _ Hs E) as Hlt.
  split; apply double_small; auto; plra.
Qed.

(** A sum of doubles that are not negative is [0] only when each of them
    is. *)
Lemma sum_zero (terms : list num) (a : num) (T : Q) :
  fold_left add terms a = Fin T -> (T == 0)%Q ->
  is_double a -> lt0 a = false ->
  Forall (fun b => is_double b /\ lt0 b = false) terms ->
  T = 0%Q /\ a = Fin 0 /\ Forall (fun b => b = Fin 0) terms.
Proof.
  intros E HT Ha Na Hall. revert a E Ha Na.
  induction Hall as [|b terms [Hb Nb] Hall IH]; intros a E Ha Na; cbn [fold_left] in E.
  - subst a. cbn [is_double] in Ha. pose proof (double_zero T Ha HT) as ->.
    repeat split. constructor.
  - destruct (sum_finite _ _ _ E) as [[s Es] _].
    destruct (add_finite _ _ _ Es) as (x & y & -> & ->).
    cbn [lt0 is_double] in *.
    assert (Px : (0 <= x)%Q).
    { unfold Qlt_bool in Na. apply negb_false_iff, Qle_bool_iff in Na. exact Na. }
    assert (Py : (0 <= y)%Q).
    { unfold Qlt_bool in Nb. apply negb_false_iff, Qle_bool_iff in Nb. exact Nb. }
    assert (Ns : lt0 (add (Fin x) (Fin y)) = false).
    { rewrite Es. cbn [lt0]. unfold Qlt_bool. apply negb_false_iff, Qle_bool_iff.
      binary64. cbn [nadd lift] in Es. apply (round_sign _ _ Es). lra. }
    destruct (IH _ E (add_double _ _) Ns) as (-> & E0 & Hrest).
    destruct (add_zero_inv x y Ha Hb Px Py E0) as [-> ->].
    repeat split. constructor; [reflexivity | exact Hrest].
Qed.

Lemma sum_of_zeros (terms : list num) :
  Forall (fun b => b = Fin 0) terms -> fold_left add terms (Fin 0) = Fin 0.
Proof.
  induction 1 as [|b terms -> _ IH]; cbn [fold_left]; [reflexivity|].
  assert (add (Fin 0) (Fin 0) = Fin 0) as -> by reflexivity. exact IH.
Qed.

End ZeroSumFacts.

Section MinMicFacts.

Import Aggregator DescribedMetric DescribedMinMic.

Lemma minMicValues_described (lotResults : list Lot.t) (rows : list MixRow.t) :
  forall acc,
    minMicValues (fold_left (step lotResults) rows acc)
    = (minMicValues acc ++ supplied lotResults rows)%list.
Proof.
  induction rows as [|r rows IH]; intros acc; cbn [fold_left supplied flat_map].
  - rewrite app_nil_r. reflexivity.
  - rewrite IH. fold (supplied lotResults rows). rewrite app_assoc. f_equal.
    unfold step, own. rewrite lot_of_find.
    destruct (lot_of lotResults (MixRow.lot_no r)) as [lot|];
      [|rewrite app_nil_r; reflexivity].
    cbn [minMicValues]. unfold present.
    destruct (Lot.min_mic lot) as [|q|s].
    + rewrite app_nil_r. reflexivity.
    + cbn [negb]. destruct (number (VNum q)); [rewrite app_nil_r|]; reflexivity.
    + destruct s as [|c s]; [rewrite app_nil_r; reflexivity|].
      cbn [is_empty negb].
      destruct (number (VStr (String c s))); [rewrite app_nil_r|]; reflexivity.
Qed.

Lemma Qmin_list_least (x : Q) (l : list Q) :
  In (Qmin_list x l) (x :: l) /\ forall y, In y (x :: l) -> (Qmin_list x l <= y)%Q.
Proof.
  unfold Qmin_list. revert x. induction l as [|z l IH]; intros x; cbn [fold_left].
  - split; [left; reflexivity|]. intros y [<-|[]]. lra.
  - destruct (IH (if Qlt_bool z x then z else x)) as [Hin Hle]. split.
    + destruct Hin as [E|Hin]; [|right; right; exact Hin].
      rewrite <- E. destruct (Qlt_bool z x); [right; left | left]; reflexivity.
    + assert (Hm : ((if Qlt_bool z x then z else x) <= x
                    /\ (if Qlt_bool z x then z else x) <= z)%Q).
      { destruct (Qlt_bool z x) eqn:E.
        - apply Qlt_bool_iff in E. lra.
        - apply Qlt_bool_false in E. lra. }
      pose proof (Hle _ (or_introl eq_refl)) as H0.
      intros y [<-|[<-|Hy]]; [lra | lra | apply Hle; right; exact Hy].
Qed.

End MinMicFacts.

(** C2 (as the code has it).  In a group (daily or weekly/monthly) whose
    total of bales is 0 and whose rows have no negative bales, the ten
    weighted metrics are 0 and min_mic_percent is 0.  min_mic does not
    depend on the bales: it is null exactly when no row's lot supplies a
    numeric min_mic, and otherwise it is the least of the supplied values
    formatted to 2 decimals. *)
Theorem zero_total_bales `{Platform}
    (lotResults : list Lot.t) (rows : list MixRow.t) (e : Entry.t) (T : Q) :
  DescribedMetric.summarises lotResults rows e ->
  Entry.total_bales e = Fin T ->
  (T == 0)%Q ->
  DescribedMinMic.no_negative_bales rows ->
  (forall key, Entry.metrics e key = Fin 0)
  /\ Entry.min_mic_percent e = Fin 0
  /\ (Entry.min_mic e = None <-> DescribedMinMic.supplied lotResults rows = [])
  /\ (DescribedMinMic.supplied lotResults rows <> [] ->
      exists least,
        In least (DescribedMinMic.supplied lotResults rows)
        /\ (forall v, In v (DescribedMinMic.supplied lotResults rows) -> (least <= v)%Q)
        /\ Entry.min_mic e = Some (toFixed2 least)).
Proof.
  intros He HT HT0 Hnonneg.
  assert (Ht : Entry.total_bales e = Aggregator.totalBales rows
               /\ Entry.metrics e = Aggregator.metrics (Aggregator.aggregate lotResults rows)
               /\ Entry.min_mic_percent e
                  = Aggregator.min_mic_percent (Aggregator.aggregate lotResults rows)
               /\ Entry.min_mic e = Aggregator.min_mic (Aggregator.aggregate lotResults rows)).
  { destruct He as [(lookup & blend & ->)|(report_type & lookup & g & blend & <- & ->)];
      repeat split; reflexivity. }
  destruct Ht as (Ht & -> & -> & ->). rewrite Ht in HT. clear Ht He.
  assert (Hgt : gt0 (Aggregator.totalBales rows) = false).
  { rewrite HT. cbn [gt0]. apply Qlt_bool_false. lra. }
  assert (Hzero : Forall (fun r => DescribedMetric.bales_of r = Fin 0) rows).
  { pose proof HT as HT'. rewrite totalBales_described in HT'.
    unfold DescribedMetric.total_bales, DescribedMetric.sum in HT'.
    destruct (sum_zero _ _ _ HT' HT0 round_0 eq_refl) as (_ & _ & Hall).
    - apply Forall_map, Forall_forall. intros r Hr.
      split; [apply number_double | apply Hnonneg, Hr].
    - rewrite Forall_map in Hall. exact Hall. }
  unfold Aggregator.aggregate.
  cbn [Aggregator.metrics Aggregator.min_mic_percent Aggregator.min_mic].
  rewrite Hgt, minMicValues_described. cbn [Aggregator.minMicValues Aggregator.init app].
  split; [|split; [reflexivity|split]].
  - intros key. rewrite weighted_described.
    + cbn [Aggregator.weighted Aggregator.init]. apply sum_of_zeros.
      apply Forall_map. revert Hzero. apply Forall_impl. intros r ->.
      destruct (value_finite (Lot.metric key) lotResults r) as [v ->].
      apply mul_zero_l.
    + revert Hzero. apply Forall_impl. intros r ->. eauto.
    + apply round_0.
  - destruct (DescribedMinMic.supplied lotResults rows); split;
      [reflexivity | reflexivity | discriminate | discriminate].
  - destruct (DescribedMinMic.supplied lotResults rows) as [|x l]; [congruence|].
    intros _. exists (Qmin_list x l).
    destruct (Qmin_list_least x l) as [Hin Hle]. repeat split; assumption.
Qed.

(** A group of two rows without bales whose lots carry no min_mic. *)
Lemma zero_total_bales_witness :
  let lot name :=
    Lot.mk (VStr name) VNull (VNum 4) VNull VNull VNull VNull VNull VNull VNull
           VNull VNull VNull VNull VNull in
  let row lot_no bales :=
    MixRow.mk (VNum 10) (VStr "U1") (VStr "L1") (VStr "A") (VStr lot_no) bales in
  let lotResults := [lot "P1"; lot "P2"] in
  let rows := [row "P1" (VNum 0); row "P2" VNull] in
  let e := @Daily.entryOf Reference.platform _ [] lotResults rows Blend.no_blend in
  Entry.total_bales e = Fin 0
  /\ Entry.metrics e Metric.mic = Fin 0
  /\ Entry.min_mic_percent e = Fin 0
  /\ Entry.min_mic e = None.
Proof.
  intros lot row lotResults rows e.
  assert (HT : Entry.total_bales e = Fin 0) by (vm_compute; reflexivity).
  destruct (@zero_total_bales Reference.platform lotResults rows e 0)
    as (Hm & Hp & Hn & _).
  - left. exists [], Blend.no_blend. reflexivity.
  - exact HT.
  - reflexivity.
  - intros r [<-|[<-|[]]]; vm_compute; reflexivity.
  - split; [exact HT|]. split; [apply Hm|]. split; [exact Hp|].
    apply Hn. vm_compute. reflexivity.
Defined.

(** C2 (as stated): a group without bales whose lot has a min_mic of 3.5
    has total_bales 0 and a min_mic of 3.50, not null. *)
Lemma zero_total_bales_min_mic_not_null :
  let lotResults :=
    [Lot.mk (VStr "P1") VNull (VNum 4) VNull VNull VNull VNull VNull VNull VNull
            VNull VNull (VNum (7 # 2)) VNull VNull] in
  let rows :=
    [MixRow.mk (VNum 10) (VStr "U1") (VStr "L1") (VStr "A") (VStr "P1") (VNum 0)] in
  let e := @Daily.entryOf Reference.platform _ [] lotResults rows Blend.no_blend in
  Entry.total_bales e = Fin 0
  /\ Entry.min_mic e = Some (350 # 100)
  /\ Entry.min_mic e <> None.
Proof.
  intros lotResults rows e.
  assert (Hm : Entry.min_mic e = Some (350 # 100)) by (vm_compute; reflexivity).
  split; [vm_compute; reflexivity|]. split; [exact Hm|].
  rewrite Hm. discriminate.
Qed.

(** ** The continuity tracker *)

Section ListFacts.

Context {A B : Type}.

Lemma fold_left_flat_map (C : Type) (f : C -> B -> C) (g : A -> list B) (l : list A) :
  forall c, fold_left (fun c a => fold_left f (g a) c) l c = fold_left f (flat_map g l) c.
Proof.
  induction l as [|a l IH]; intros c; cbn [fold_left flat_map]; [reflexivity|].
  rewrite fold_left_app. apply IH.
Qed.

Lemma NoDup_app_disjoint {T : Type} (l l' : list T) :
  NoDup l -> NoDup l' -> (forall x, In x l -> ~ In x l') -> NoDup (l ++ l').
Proof.
  induction 1 as [|x l Hx Hl IH]; intros Hl' Hd; cbn [app]; [exact Hl'|].
  constructor.
  - intros Hin. apply in_app_or in Hin as [Hin|Hin]; [auto|].
    apply (Hd x); [left; reflexivity | exact Hin].
  - apply IH; [exact Hl'|]. intros y Hy. apply Hd. right. exact Hy.
Qed.

Lemma NoDup_flat_map (f : A -> list B) (l : list A) :
  NoDup l ->
  (forall a, In a l -> NoDup (f a)) ->
  (forall a a' b, In a l -> In a' l -> In b (f a) -> In b (f a') -> a = a') ->
  NoDup (flat_map f l).
Proof.
  induction 1 as [|a l Ha Hl IH]; intros Hf Hd; cbn [flat_map]; [constructor|].
  apply NoDup_app_disjoint.
  - apply Hf. left. reflexivity.
  - apply IH.
    + intros a' Ha'. apply Hf. right. exact Ha'.
    + intros a1 a2 b H1 H2. apply Hd; right; assumption.
  - intros b Hb Hin. apply in_flat_map in Hin as (a' & Ha' & Hb').
    assert (a = a') by (apply (Hd a a' b); [left; reflexivity | right; exact Ha' | exact Hb | exact Hb']).
    subst a'. contradiction.
Qed.

Lemma StronglySorted_map (R : B -> B -> Prop) (f : A -> B) (l : list A) :
  StronglySorted (fun a b => R (f a) (f b)) l -> StronglySorted R (map f l).
Proof.
  induction 1 as [|x l Hs IH Hx]; cbn [map]; constructor; [exact IH|].
  apply Forall_map. exact Hx.
Qed.

Lemma StronglySorted_weaken (R R' : A -> A -> Prop) (l : list A) :
  (forall a b, In a l -> In b l -> R a b -> R' a b) ->
  StronglySorted R l -> StronglySorted R' l.
Proof.
  intros HR Hs. induction Hs as [|x l Hs IH Hx]; constructor.
  - apply IH. intros a b Ha Hb. apply HR; right; assumption.
  - rewrite Forall_forall in *. intros y Hy.
    apply HR; [left; reflexivity | right; exact Hy | apply Hx, Hy].
Qed.

End ListFacts.

Section StableSort.

Context {A : Type} (cmp : A -> A -> num).

(** The sort is stable: elements the comparator does not tell apart stay
    in the order they had. *)
Lemma sort_stable (good : A -> Prop) (R before : A -> A -> Prop) :
  (forall a b, good a -> good b ->
     if gt0 (cmp a b) then R b a /\ ~ R a b else R a b) ->
  (forall a b c, R a b -> R b c -> R a c) ->
  forall l, Forall good l -> StronglySorted before l ->
    StronglySorted (fun a b => R a b /\ (R b a -> before a b)) (sort cmp l).
Proof.
  intros Hcmp Htrans.
  set (R' := fun a b => R a b /\ (R b a -> before a b)).
  assert (Hins : forall x l, good x -> Forall good l -> Forall (before x) l ->
            StronglySorted R' l -> StronglySorted R' (insert cmp x l)).
  { intros x l Hx Hl Hb Hs. induction Hs as [|y l Hs IH Hy]; cbn [insert].
    - repeat constructor.
    - inversion Hl as [|? ? Hcy Hcl]; subst.
      inversion Hb as [|? ? Hby Hbl]; subst.
      pose proof (Hcmp x y Hx Hcy) as Hc.
      destruct (gt0 (cmp x y)).
      + constructor; [apply IH; assumption|].
        apply Forall_forall. intros z Hz.
        apply (Permutation_in z (insert_perm _ _ _)) in Hz as [<-|Hz].
        * split; [apply Hc|]. intros Hxy. destruct Hc as [_ Hn]. contradiction.
        * eapply Forall_forall in Hy; eauto.
      + constructor; [constructor; assumption|].
        constructor; [split; [exact Hc | intros _; exact Hby]|].
        apply Forall_forall. intros z Hz. split.
        * eapply Htrans; [exact Hc|]. eapply Forall_forall in Hy; eauto. apply Hy.
        * intros _. eapply Forall_forall in Hbl; eauto. }
  induction l as [|x l IH]; intros Hl Hs; cbn [sort]; [constructor|].
  inversion Hl; subst. inversion Hs; subst. apply Hins; auto.
  - apply Forall_forall. intros z Hz.
    apply (Permutation_in z (sort_perm _ _)) in Hz.
    eapply Forall_forall in Hz; eauto.
  - apply Forall_forall. intros z Hz.
    apply (Permutation_in z (sort_perm _ _)) in Hz.
    match goal with Hf : Forall (before x) l |- _ => eapply Forall_forall in Hf; eauto end.
Qed.

End StableSort.

Section WriteFacts.

Context {A : Type}.

Lemma replace_at_length (i : nat) (x : A) (l : list A) :
  List.length (Continuity.replace_at i x l) = List.length l.
Proof.
  revert i. induction l as [|y l IH]; intros [|i]; cbn; auto.
Qed.

Lemma replace_at_same (i : nat) (x : A) (l : list A) :
  (i < List.length l)%nat -> nth_error (Continuity.replace_at i x l) i = Some x.
Proof.
  revert i. induction l as [|y l IH]; intros [|i]; cbn; try lia; auto.
  intros Hi. apply IH. lia.
Qed.

Lemma replace_at_other (i j : nat) (x : A) (l : list A) :
  i <> j -> nth_error (Continuity.replace_at i x l) j = nth_error l j.
Proof.
  revert i j. induction l as [|y l IH]; intros [|i] [|j] Hij; cbn; auto;
    try contradiction.
Qed.

Lemma writes_length (W : list (nat * A)) (l : list A) :
  List.length (fold_left (fun es ie => Continuity.replace_at (fst ie) (snd ie) es) W l)
  = List.length l.
Proof.
  revert l. induction W as [|w W IH]; intros l; cbn [fold_left]; [reflexivity|].
  rewrite IH. apply replace_at_length.
Qed.

Lemma writes_other (W : list (nat * A)) (l : list A) (i : nat) :
  ~ In i (map fst W) ->
  nth_error (fold_left (fun es ie => Continuity.replace_at (fst ie) (snd ie) es) W l) i
  = nth_error l i.
Proof.
  revert l. induction W as [|w W IH]; intros l Hi; cbn [fold_left]; [reflexivity|].
  rewrite IH by (intros Hin; apply Hi; right; exact Hin).
  apply replace_at_other. intros E. apply Hi. left. exact E.
Qed.

(** Among writes to distinct places, the one to place [i] decides what
    is there in the end. *)
Lemma writes_at (W : list (nat * A)) (l : list A) (i : nat) (x : A) :
  NoDup (map fst W) -> In (i, x) W -> (i < List.length l)%nat ->
  nth_error (fold_left (fun es ie => Continuity.replace_at (fst ie) (snd ie) es) W l) i
  = Some x.
Proof.
  revert l. induction W as [|w W IH]; intros l Hnd Hin Hi; [contradiction|].
  cbn [fold_left]. inversion Hnd as [|? ? Hw Hnd']; subst.
  destruct Hin as [->|Hin].
  - cbn [fst snd]. rewrite writes_other by exact Hw. apply replace_at_same, Hi.
  - apply IH; [exact Hnd' | exact Hin | rewrite replace_at_length; exact Hi].
Qed.

Lemma combine_seq_in (l : list A) (a j : nat) (x : A) :
  In (j, x) (combine (seq a (List.length l)) l)
  <-> (a <= j)%nat /\ nth_error l (j - a) = Some x.
Proof.
  revert a. induction l as [|y l IH]; intros a; cbn [List.length seq combine In].
  - split; [contradiction|]. intros [_ E]. destruct (j - a)%nat; discriminate.
  - rewrite IH. split.
    + intros [[= <- <-]|[Ha E]].
      * split; [lia|]. replace (a - a)%nat with 0%nat by lia. reflexivity.
      * split; [lia|]. replace (j - a)%nat with (S (j - S a)) by lia. exact E.
    + intros [Ha E]. destruct (Nat.eq_dec a j) as [->|Hne].
      * left. replace (j - j)%nat with 0%nat in E by lia. cbn in E. congruence.
      * right. split; [lia|].
        replace (j - a)%nat with (S (j - S a)) in E by lia. exact E.
Qed.

Lemma combine_seq_sorted (l : list A) (a : nat) :
  StronglySorted (fun x y : nat * A => (fst x < fst y)%nat)
                 (combine (seq a (List.length l)) l).
Proof.
  revert a. induction l as [|y l IH]; intros a; cbn [List.length seq combine];
    constructor; [apply IH|].
  apply Forall_forall. intros [j x] Hin. apply combine_seq_in in Hin as [Hj _].
  cbn [fst]. lia.
Qed.

End WriteFacts.

Section ObjectLookup.

Context {V : Type}.

Lemma in_get (o : obj V) (k : string) (v : V) :
  NoDup (map fst o) -> In (k, v) o -> get o k = Some v.
Proof.
  induction o as [|[k0 v0] r IH]; cbn [map fst get In]; [contradiction|].
  intros Hnd [[= -> ->]|Hin].
  - rewrite String.eqb_refl. reflexivity.
  - inversion Hnd as [|? ? Hk Hr]; subst.
    destruct (String.eqb k0 k) eqn:E.
    + apply String.eqb_eq in E. subst k0. exfalso. apply Hk.
      apply in_map_iff. exists (k, v). split; [reflexivity | exact Hin].
    + apply IH; assumption.
Qed.

Lemma nodup_pairs (o : obj V) : NoDup (map fst o) -> NoDup o.
Proof. apply NoDup_map_inv. Qed.

End ObjectLookup.

Section GroupFacts.

Context `{Platform}.

Import Continuity ContinuityGroups.

Lemma groups_get (ies : list (nat * Entry.t)) :
  forall (groups : obj (list record)) (s : string),
    get (fold_left
           (fun groups ie =>
              let r := recordOf (fst ie) (snd ie) in
              let s := signature (snd ie) in
              match get groups s with
              | None => set groups s [r]
              | Some rs => set groups s (rs ++ [r])%list
              end) ies groups) s
    = match get groups s, records_of ies s with
      | None, [] => None
      | None, rs => Some rs
      | Some rs0, rs => Some (rs0 ++ rs)%list
      end.
Proof.
  induction ies as [|[j e] ies IH]; intros groups s; cbn [fold_left].
  - cbn. destruct (get groups s); [rewrite app_nil_r|]; reflexivity.
  - rewrite IH. cbn [fst snd]. unfold records_of. cbn [filter fst snd].
    fold (records_of ies s).
    destruct (get groups (signature e)) as [rs0|] eqn:G; rewrite get_set;
      destruct (String.eqb (signature e) s) eqn:E.
    + apply String.eqb_eq in E. subst s. rewrite G. cbn [map fst snd].
      rewrite <- app_assoc. reflexivity.
    + reflexivity.
    + apply String.eqb_eq in E. subst s. rewrite G. cbn [map fst snd app].
      reflexivity.
    + reflexivity.
Qed.

Lemma groups_nodup (ies : list (nat * Entry.t)) :
  forall groups : obj (list record),
    NoDup (map fst groups) ->
    NoDup (map fst (fold_left
           (fun groups ie =>
              let r := recordOf (fst ie) (snd ie) in
              let s := signature (snd ie) in
              match get groups s with
              | None => set groups s [r]
              | Some rs => set groups s (rs ++ [r])%list
              end) ies groups)).
Proof.
  induction ies as [|[j e] ies IH]; intros groups Hnd; cbn [fold_left]; [exact Hnd|].
  apply IH. cbn [fst snd]. destruct (get groups (signature e)); apply set_nodup, Hnd.
Qed.

(** The group of a signature holds the records of the entries that have
    it, in the order of the summary. *)
Lemma groupBySignature_get (entries : list Entry.t) (s : string) :
  get (groupBySignature entries) s
  = match records_of (indexed entries) s with
    | [] => None
    | rs => Some rs
    end.
Proof.
  unfold groupBySignature. fold (indexed entries). rewrite groups_get.
  cbn [get]. destruct (records_of (indexed entries) s); reflexivity.
Qed.

Lemma groupBySignature_in (entries : list Entry.t) (s : string) (rs : list record) :
  In (s, rs) (JsObject.entries (groupBySignature entries)) ->
  rs = records_of (indexed entries) s.
Proof.
  intros Hin. apply (Permutation_in _ (entries_perm _)) in Hin.
  apply in_get in Hin; [|apply groups_nodup; constructor].
  rewrite groupBySignature_get in Hin.
  destruct (records_of (indexed entries) s); congruence.
Qed.

Lemma records_of_in (entries : list Entry.t) (s : string) (r : record) :
  In r (records_of (indexed entries) s)
  <-> exists e, nth_error entries (index r) = Some e
                /\ signature e = s /\ r = recordOf (index r) e.
Proof.
  unfold records_of, indexed. rewrite in_map_iff. split.
  - intros ([j e] & <- & Hin). apply filter_In in Hin as [Hin Hs].
    apply combine_seq_in in Hin as [_ Hj]. rewrite Nat.sub_0_r in Hj.
    apply String.eqb_eq in Hs. cbn [fst snd index recordOf]. exists e. auto.
  - intros (e & He & Hs & Hr). exists (index r, e). split; [symmetry; exact Hr|].
    apply filter_In. split.
    + apply combine_seq_in. split; [lia|]. rewrite Nat.sub_0_r. exact He.
    + cbn [snd]. apply String.eqb_eq. exact Hs.
Qed.

Lemma records_of_sorted (entries : list Entry.t) (s : string) :
  StronglySorted (fun a b => (index a < index b)%nat) (records_of (indexed entries) s).
Proof.
  unfold records_of. apply StronglySorted_map. apply sorted_filter.
  apply (combine_seq_sorted entries 0).
Qed.

Lemma sorted_nodup {T : Type} (f : T -> nat) (l : list T) :
  StronglySorted (fun a b => (f a < f b)%nat) l -> NoDup (map f l).
Proof.
  induction 1 as [|x l Hs IH Hx]; cbn [map]; constructor; [|exact IH].
  intros Hin. apply in_map_iff in Hin as (y & E & Hy).
  eapply Forall_forall in Hx; eauto. lia.
Qed.

Lemma annotate_indices body (rs : list record) :
  forall s previous, map fst (annotate body s previous rs) = map index rs.
Proof.
  induction rs as [|r rs IH]; intros s previous; cbn [annotate map fst]; [reflexivity|].
  rewrite IH. reflexivity.
Qed.

Lemma annotate_at body (rs : list record) (k : nat) (r : record) :
  nth_error rs k = Some r ->
  forall s previous,
    nth_error (annotate body s previous rs) k
    = Some (index r,
            body (match k with O => s | S _ => stateAt rs k end)
                 (match k with O => previous | S _ => previousAt rs k end) r).
Proof.
  destruct k as [|k]; intros Hr s previous.
  - destruct rs as [|r0 rs]; [discriminate|]. injection Hr as ->. reflexivity.
  - assert (Hp : exists p, nth_error rs k = Some p).
    { destruct (nth_error rs k) as [p|] eqn:E; [eauto|].
      apply nth_error_None in E.
      assert (nth_error rs (S k) = None) by (apply nth_error_None; lia). congruence. }
    destruct Hp as [p Hp].
    rewrite (annotate_next body rs s previous k p r Hp Hr).
    unfold stateAt, previousAt. rewrite Hp. reflexivity.
Qed.

(** The places the pass writes to are distinct. *)
Lemma writes_nodup body (entries : list Entry.t) :
  NoDup (map fst (writes body entries)).
Proof.
  unfold writes. rewrite flat_map_concat_map, concat_map, map_map.
  rewrite <- flat_map_concat_map.
  apply NoDup_flat_map.
  - apply nodup_pairs. apply (Permutation_NoDup (Permutation_sym (Permutation_map fst (entries_perm _)))).
    apply groups_nodup. constructor.
  - intros [s rs] Hin. cbn [snd]. unfold processGroup. rewrite annotate_indices.
    apply (Permutation_NoDup (Permutation_sym (Permutation_map index (sort_perm _ _)))).
    apply groupBySignature_in in Hin. subst rs.
    apply sorted_nodup, records_of_sorted.
  - intros [s rs] [s' rs'] j Hin Hin'. cbn [snd]. unfold processGroup.
    rewrite !annotate_indices. intros Hj Hj'.
    apply in_map_iff in Hj as (r & Er & Hr). apply in_map_iff in Hj' as (r' & Er' & Hr').
    apply (Permutation_in _ (sort_perm _ _)) in Hr, Hr'.
    pose proof (groupBySignature_in _ _ _ Hin) as ->.
    pose proof (groupBySignature_in _ _ _ Hin') as ->.
    apply records_of_in in Hr as (e & He & Hs & _).
    apply records_of_in in Hr' as (e' & He' & Hs' & _).
    assert (e = e') by congruence. subst e'. congruence.
Qed.

(** What the pass leaves at a place of the summary: the entry there,
    annotated at its place [k] of its sorted signature group. *)
Lemma track_at body (entries : list Entry.t) (i : nat) (e : Entry.t) :
  nth_error entries i = Some e ->
  let sorted := sort compareRecords (records_of (indexed entries) (signature e)) in
  exists k,
    nth_error sorted k = Some (recordOf i e)
    /\ nth_error (track body entries) i
       = Some (body (stateAt sorted k) (previousAt sorted k) (recordOf i e)).
Proof.
  intros He sorted.
  assert (Hr : In (recordOf i e) (records_of (indexed entries) (signature e))).
  { apply records_of_in. exists e. cbn [index recordOf]. auto. }
  assert (Hs : In (recordOf i e) sorted).
  { apply (Permutation_in _ (Permutation_sym (sort_perm _ _))). exact Hr. }
  apply In_nth_error in Hs as [k Hk]. exists k. split; [exact Hk|].
  unfold track. rewrite fold_left_flat_map. fold (writes body entries).
  apply writes_at.
  - apply writes_nodup.
  - unfold writes. apply in_flat_map.
    exists (signature e, records_of (indexed entries) (signature e)). split.
    + apply (Permutation_in _ (Permutation_sym (entries_perm _))).
      apply get_in. rewrite groupBySignature_get.
      destruct (records_of (indexed entries) (signature e)); [contradiction | reflexivity].
    + cbn [snd]. unfold processGroup. fold sorted.
      apply nth_error_In with (n := k).
      rewrite (annotate_at body sorted k _ Hk). cbn [index recordOf].
      destruct k; reflexivity.
  - apply nth_error_Some. congruence.
Qed.

End GroupFacts.

Section SignatureGroups.

Context `{Platform}.

Import Continuity ContinuityGroups DescribedContinuity.

Lemma append_cancel (a x y : string) : (a ++ x = a ++ y)%string -> x = y.
Proof. induction a as [|c a IH]; cbn; [auto|]. intros [= E]. apply IH, E. Qed.

Lemma signature_parts (e : Entry.t) :
  signature e = (unit_text e ++ "|" ++ line_text e ++ "|" ++ Entry._groupKey e)%string.
Proof. reflexivity. Qed.

(** Without the delimiter in unit and line, the signature tells the
    groups apart as the triple does. *)
Lemma signature_same (a b : Entry.t) :
  plain a -> plain b -> (signature a = signature b <-> same_group a b).
Proof.
  intros [Hua Hla] [Hub Hlb]. rewrite !signature_parts. split.
  - intros E. pose proof (append_bar_inj _ _ _ _ Hua Hub E) as Eu.
    rewrite Eu in E. apply append_cancel in E. cbn [append] in E. injection E as E.
    pose proof (append_bar_inj _ _ _ _ Hla Hlb E) as El.
    rewrite El in E. apply append_cancel in E. cbn [append] in E. injection E as E.
    repeat split; assumption.
  - intros (-> & -> & ->). reflexivity.
Qed.

Lemma Qmax_list_greatest (x : Q) (l : list Q) :
  In (Qmax_list x l) (x :: l) /\ forall y, In y (x :: l) -> (y <= Qmax_list x l)%Q.
Proof.
  unfold Qmax_list. revert x. induction l as [|z l IH]; intros x; cbn [fold_left].
  - split; [left; reflexivity|]. intros y [<-|[]]. lra.
  - destruct (IH (if Qlt_bool x z then z else x)) as [Hin Hle]. split.
    + destruct Hin as [E|Hin]; [|right; right; exact Hin].
      rewrite <- E. destruct (Qlt_bool x z); [right; left | left]; reflexivity.
    + assert (Hm : (x <= (if Qlt_bool x z then z else x)
                    /\ z <= (if Qlt_bool x z then z else x))%Q).
      { destruct (Qlt_bool x z) eqn:E.
        - apply Qlt_bool_iff in E. lra.
        - apply Qlt_bool_false in E. lra. }
      pose proof (Hle _ (or_introl eq_refl)) as H0.
      intros y [<-|[<-|Hy]]; [lra | lra | apply Hle; right; exact Hy].
Qed.

Lemma greatest_spec (l : list Q) :
  match greatest l with
  | Some m => In m l /\ forall y, In y l -> (y <= m)%Q
  | None => l = []
  end.
Proof.
  induction l as [|x l IH]; cbn [greatest]; [reflexivity|].
  destruct (greatest l) as [m|].
  - destruct IH as [Hin Hle]. destruct (Qle_bool m x) eqn:E.
    + apply Qle_bool_iff in E. split; [left; reflexivity|].
      intros y [<-|Hy]; [lra|]. specialize (Hle y Hy). lra.
    + assert (x < m)%Q.
      { destruct (Qlt_le_dec x m) as [L|L]; [exact L|].
        apply Qle_bool_iff in L. congruence. }
      split; [right; exact Hin|]. intros y [<-|Hy]; [lra | auto].
  - subst l. split; [left; reflexivity|]. intros y [<-|[]]. lra.
Qed.

Lemma record_timestamp (i : nat) (e : Entry.t) :
  DescribedChange.timestamp (recordOf i e) = issue_time e.
Proof.
  unfold DescribedChange.timestamp, recordOf, timestampOf, issue_time.
  cbn [issueTimestamp].
  destruct (truthy (Entry.issue_date e)); [|reflexivity].
  destruct (getTime (Entry.issue_date e)); reflexivity.
Qed.

Lemma record_max (i : nat) (e : Entry.t) :
  DescribedChange.level (maxMixNo (recordOf i e)) (max_mixing e).
Proof.
  unfold recordOf, max_mixing. cbn [maxMixNo].
  pose proof (greatest_spec (Entry._mixingNumbers e)) as Hg.
  destruct (Entry._mixingNumbers e) as [|x r].
  - cbn [greatest]. destruct (Entry.mixing_end e); [cbn; reflexivity|].
    destruct (Entry.mixing_start e); cbn; [reflexivity | exact I].
  - destruct (greatest (x :: r)) as [m|]; [|discriminate].
    destruct Hg as [Hin Hle]. destruct (Qmax_list_greatest x r) as [Hin' Hle'].
    cbn. specialize (Hle _ Hin'). specialize (Hle' _ Hin). lra.
Qed.

Lemma level_sym (x y : option Q) : DescribedChange.level x y -> DescribedChange.level y x.
Proof. destruct x, y; cbn; auto. intros E. symmetry. exact E. Qed.

Lemma below_proper (x x' y y' : option Q) :
  DescribedChange.level x x' -> DescribedChange.level y y' ->
  (DescribedChange.below x y <-> DescribedChange.below x' y').
Proof.
  destruct x, x', y, y'; cbn; try contradiction; try tauto.
  intros -> ->. reflexivity.
Qed.

Lemma level_proper (x x' y y' : option Q) :
  DescribedChange.level x x' -> DescribedChange.level y y' ->
  (DescribedChange.level x y <-> DescribedChange.level x' y').
Proof.
  destruct x, x', y, y'; cbn; try contradiction; try tauto.
  intros -> ->. reflexivity.
Qed.

Lemma record_in_order (i j : nat) (a b : Entry.t) :
  DescribedChange.in_order (recordOf i a) (recordOf j b) <-> in_order a b.
Proof.
  unfold DescribedChange.in_order, in_order. rewrite !record_timestamp.
  rewrite (below_proper _ _ _ _ (record_max i a) (record_max j b)).
  rewrite (level_proper _ _ _ _ (record_max i a) (record_max j b)).
  reflexivity.
Qed.

Lemma record_comparable (i : nat) (e : Entry.t) :
  comparable e -> DescribedChange.comparable (recordOf i e).
Proof.
  intros (Ht & Hv & Hm). split; [|split].
  - unfold recordOf, timestampOf. cbn [issueTimestamp].
    destruct (truthy (Entry.issue_date e)); [|discriminate].
    specialize (Ht eq_refl). destruct (getTime (Entry.issue_date e)); congruence.
  - exact Hv.
  - intros m Em. pose proof (record_max i e) as Hl. rewrite Em in Hl.
    destruct (max_mixing e) as [m'|]; [|contradiction].
    cbn in Hl. specialize (Hm m' eq_refl). lra.
Qed.

(** When the comparator puts [a] after [b], the keys do not allow [a]
    before [b]. *)
Lemma compareRecords_strict (a b : record) :
  DescribedChange.comparable a -> DescribedChange.comparable b ->
  gt0 (compareRecords a b) = true -> ~ DescribedChange.numeric_order a b.
Proof.
  intros Ha Hb.
  destruct (timestamp_cases a (proj1 Ha)) as [[Ea Ta]|(ta & Ea & Ta)];
  destruct (timestamp_cases b (proj1 Hb)) as [[Eb Tb]|(tb & Eb & Tb)];
    unfold compareRecords, DescribedChange.numeric_order;
    rewrite Ea, Eb, Ta, Tb; cbn [timestamps_differ num_eqb];
    fold (DescribedChange.version a) (DescribedChange.version b);
    fold (DescribedChange.versionKey a) (DescribedChange.versionKey b);
    fold (DescribedChange.mixingKey a) (DescribedChange.mixingKey b);
    set (va := DescribedChange.versionKey a); set (vb := DescribedChange.versionKey b);
    set (ma := DescribedChange.mixingKey a); set (mb := DescribedChange.mixingKey b);
    cbn [DescribedChange.below DescribedChange.level].
  - destruct (Qeq_bool va vb) eqn:Ev; cbn [negb gt0].
    + apply Qeq_bool_iff in Ev.
      destruct (Qeq_bool ma mb) eqn:Em; cbn [negb gt0].
      * intros Hg. apply Qlt_bool_iff in Hg. lra.
      * intros Hg. apply Qlt_bool_iff in Hg. intros [[]|[_ [L|[_ L]]]]; lra.
    + intros Hg. apply Qlt_bool_iff in Hg. intros [[]|[_ [L|[L _]]]]; lra.
  - intros _ [[]|[[] _]].
  - cbn [gt0]. intros Hg. apply Qlt_bool_iff in Hg. lra.
  - destruct (Qeq_bool ta tb) eqn:Et; cbn [negb].
    + apply Qeq_bool_iff in Et.
      destruct (Qeq_bool va vb) eqn:Ev; cbn [negb gt0].
      * apply Qeq_bool_iff in Ev.
        destruct (Qeq_bool ma mb) eqn:Em; cbn [negb gt0].
        -- intros Hg. apply Qlt_bool_iff in Hg. lra.
        -- intros Hg. apply Qlt_bool_iff in Hg. intros [L|[_ [L|[_ L]]]]; lra.
      * intros Hg. apply Qlt_bool_iff in Hg. intros [L|[_ [L|[L _]]]]; lra.
    + cbn [nsub gt0]. intros Hg. apply Qlt_bool_iff in Hg. intros [L|[L _]]; lra.
Qed.

(** The sorted group of an entry, as places of the summary. *)
Lemma sorted_group (entries : list Entry.t) (e : Entry.t) :
  Forall comparable entries -> Forall plain entries -> plain e ->
  group_of entries e
    (map index (sort compareRecords (records_of (indexed entries) (signature e)))).
Proof.
  intros Hc Hp He.
  set (rs := records_of (indexed entries) (signature e)).
  assert (Hrs : forall r, In r (sort compareRecords rs) ->
            exists a, nth_error entries (index r) = Some a
                      /\ signature a = signature e /\ r = recordOf (index r) a).
  { intros r Hr. apply (Permutation_in _ (sort_perm _ _)) in Hr.
    apply records_of_in. exact Hr. }
  split; [|split].
  - apply (Permutation_NoDup (Permutation_sym (Permutation_map index (sort_perm _ _)))).
    apply sorted_nodup, records_of_sorted.
  - intros j. rewrite in_map_iff. split.
    + intros (r & <- & Hr). destruct (Hrs r Hr) as (a & Ha & Hs & _).
      exists a. split; [exact Ha|]. apply signature_same; auto.
      eapply Forall_forall in Hp; [exact Hp|]. eapply nth_error_In, Ha.
    + intros (a & Ha & Hs). exists (recordOf j a). split; [reflexivity|].
      apply (Permutation_in _ (Permutation_sym (sort_perm _ _))).
      apply records_of_in. exists a. cbn [index recordOf].
      repeat split; auto. apply signature_same; auto.
      eapply Forall_forall in Hp; [exact Hp|]. eapply nth_error_In, Ha.
  - apply StronglySorted_map.
    assert (Hgood : Forall DescribedChange.comparable rs).
    { apply Forall_forall. intros r Hr. apply records_of_in in Hr as (a & Ha & _ & ->).
      apply record_comparable. eapply Forall_forall in Hc; [exact Hc|].
      eapply nth_error_In, Ha. }
    pose proof (sort_stable compareRecords DescribedChange.comparable
                  DescribedChange.numeric_order
                  (fun a b => (index a < index b)%nat)) as Hst.
    eapply StronglySorted_weaken; [|apply Hst].
    + intros a b Ia Ib [Hab Htie].
      destruct (Hrs a Ia) as (ea & Ea & _ & Ra).
      destruct (Hrs b Ib) as (eb & Eb & _ & Rb).
      assert (Ca : DescribedChange.comparable a).
      { rewrite Ra. apply record_comparable. eapply Forall_forall in Hc; [exact Hc|].
        eapply nth_error_In, Ea. }
      assert (Cb : DescribedChange.comparable b).
      { rewrite Rb. apply record_comparable. eapply Forall_forall in Hc; [exact Hc|].
        eapply nth_error_In, Eb. }
      exists ea, eb. split; [exact Ea|]. split; [exact Eb|]. split.
      * apply (record_in_order (index a) (index b)). rewrite <- Ra, <- Rb.
        apply in_order_numeric; assumption.
      * intros Hba. apply Htie. apply in_order_numeric; [assumption..|].
        rewrite Ra, Rb. apply record_in_order. exact Hba.
    + intros a b Ca Cb. pose proof (compareRecords_order a b Ca Cb) as Ho.
      destruct (gt0 (compareRecords a b)) eqn:G; [|exact Ho].
      split; [exact Ho|]. apply compareRecords_strict; assumption.
    + apply numeric_order_trans.
    + exact Hgood.
    + apply records_of_sorted.
Qed.

(** The continuity pass at one place of the summary: the entry there is
    annotated against the entry just before it in its sorted signature
    group, with the state that entry leaves. *)
Lemma track_places body (entries : list Entry.t) (i : nat) (e : Entry.t) :
  nth_error entries i = Some e ->
  exists k previous,
    nth_error (map index (sort compareRecords
                            (records_of (indexed entries) (signature e)))) k = Some i
    /\ option_map entry previous
       = predecessor entries
           (map index (sort compareRecords (records_of (indexed entries) (signature e)))) k
    /\ nth_error (track body entries) i
       = Some (body (match predecessor entries
                             (map index (sort compareRecords
                                           (records_of (indexed entries) (signature e)))) k
                     with
                     | Some p => statsAfter p
                     | None => mkStats None None
                     end)
                    previous (recordOf i e)).
Proof.
  intros He.
  destruct (track_at body entries i e He) as (k & Hk & Ht).
  set (sorted := sort compareRecords (records_of (indexed entries) (signature e))) in *.
  exists k, (previousAt sorted k).
  split; [rewrite nth_error_map, Hk; reflexivity|].
  assert (Hpred : predecessor entries (map index sorted) k
                  = option_map entry (previousAt sorted k)
                  /\ stateAt sorted k
                     = match predecessor entries (map index sorted) k with
                       | Some p => statsAfter p
                       | None => mkStats None None
                       end).
  { destruct k as [|k]; [split; reflexivity|].
    unfold predecessor, previousAt, stateAt. rewrite nth_error_map.
    destruct (nth_error sorted k) as [p|] eqn:Ek; cbn [option_map]; [|split; reflexivity].
    assert (Hin : In p (records_of (indexed entries) (signature e))).
    { apply (Permutation_in _ (sort_perm compareRecords _)). eapply nth_error_In, Ek. }
    apply records_of_in in Hin as (a & Ha & _ & Rp).
    assert (Hpa : entry p = a) by (rewrite Rp; reflexivity).
    rewrite Ha, Hpa. split; reflexivity. }
  destruct Hpred as [Hpred Hstate].
  split; [symmetry; exact Hpred|].
  rewrite <- Hstate. exact Ht.
Qed.

Lemma track_spec body (entries : list Entry.t) (i : nat) (e : Entry.t) :
  Forall comparable entries -> Forall plain entries ->
  nth_error entries i = Some e ->
  exists ordered k previous,
    group_of entries e ordered
    /\ nth_error ordered k = Some i
    /\ option_map entry previous = predecessor entries ordered k
    /\ nth_error (track body entries) i
       = Some (body (match predecessor entries ordered k with
                     | Some p => statsAfter p
                     | None => mkStats None None
                     end)
                    previous (recordOf i e)).
Proof.
  intros Hc Hp He.
  assert (Hpe : plain e).
  { eapply Forall_forall in Hp; [exact Hp|]. eapply nth_error_In, He. }
  destruct (track_places body entries i e He) as (k & previous & Hk & Hprev & Ht).
  eexists. exists k, previous.
  split; [apply sorted_group; assumption|]. auto.
Qed.

Lemma sort_fixed {A : Type} (cmp : A -> A -> num) (l : list A) :
  (forall a b, In a l -> In b l -> gt0 (cmp a b) = false) -> sort cmp l = l.
Proof.
  induction l as [|x l IH]; intros Hl; cbn [sort]; [reflexivity|].
  rewrite IH by (intros a b Ha Hb; apply Hl; right; assumption).
  destruct l as [|y l]; cbn [insert]; [reflexivity|].
  rewrite Hl; [reflexivity | left; reflexivity | right; left; reflexivity].
Qed.

(** Entries whose issue dates do not read as dates are not told apart by
    the comparison: their signature group stays in the order of the
    summary. *)
Lemma unsorted_group (entries : list Entry.t) (e : Entry.t) :
  Forall undated entries -> Forall plain entries -> plain e ->
  group_in_place entries e
    (map index (sort compareRecords (records_of (indexed entries) (signature e)))).
Proof.
  intros Hu Hp He.
  assert (Hfix : sort compareRecords (records_of (indexed entries) (signature e))
                 = records_of (indexed entries) (signature e)).
  { apply sort_fixed. intros a b Ha Hb.
    apply records_of_in in Ha as (ea & Ea & _ & ->).
    apply records_of_in in Hb as (eb & Eb & _ & ->).
    assert (Ua : undated ea).
    { eapply Forall_forall in Hu; [exact Hu|]. eapply nth_error_In, Ea. }
    assert (Ub : undated eb).
    { eapply Forall_forall in Hu; [exact Hu|]. eapply nth_error_In, Eb. }
    destruct Ua as [Ta Da], Ub as [Tb Db].
    unfold compareRecords, recordOf, timestampOf. cbn [issueTimestamp].
    rewrite Ta, Tb, Da, Db. reflexivity. }
  rewrite Hfix. split.
  - intros j. rewrite in_map_iff. split.
    + intros (r & <- & Hr). apply records_of_in in Hr as (a & Ha & Hs & _).
      exists a. split; [exact Ha|]. apply signature_same; auto.
      eapply Forall_forall in Hp; [exact Hp|]. eapply nth_error_In, Ha.
    + intros (a & Ha & Hs). exists (recordOf j a). split; [reflexivity|].
      apply records_of_in. exists a. cbn [index recordOf].
      repeat split; auto. apply signature_same; auto.
      eapply Forall_forall in Hp; [exact Hp|]. eapply nth_error_In, Ha.
  - apply StronglySorted_map. apply records_of_sorted.
Qed.

End SignatureGroups.

(** C7 (as the code has it).  The continuity pass sorts each signature
    group (unit, line, blend group key) by issue timestamp ascending with
    entries lacking an issue date last, then version number ascending
    with null as plus infinity, then maximum contributing mixing number
    ascending with null as plus infinity, entries with equal keys in the
    order of the summary.  The first entry of its group receives
    previous_mixing_ref null; every later entry receives the rendered
    mixing range of its immediate predecessor when that predecessor
    carries a version number and an issue date, and null otherwise.
    This holds when unit and line are written without the delimiter of
    the signature, every issue date given is a valid date, and version
    and mixing numbers are below Number.MAX_SAFE_INTEGER. *)
Theorem previous_mixing_ref `{Platform} (entries : list Entry.t) (i : nat) (e : Entry.t) :
  Forall DescribedContinuity.comparable entries ->
  Forall DescribedContinuity.plain entries ->
  nth_error entries i = Some e ->
  exists ordered k tracked,
    DescribedContinuity.group_of entries e ordered
    /\ nth_error ordered k = Some i
    /\ nth_error (Continuity.track Continuity.dailyAnnotate entries) i = Some tracked
    /\ Entry.previous_mixing_no tracked
       = match DescribedContinuity.predecessor entries ordered k with
         | Some p => if DescribedChange.leaves_state p then Entry.mixing_no p else VNull
         | None => VNull
         end.
Proof.
  intros Hc Hp He.
  destruct (track_spec Continuity.dailyAnnotate entries i e Hc Hp He)
    as (ordered & k & previous & Hg & Hk & Hprev & Ht).
  exists ordered, k. eexists. split; [exact Hg|]. split; [exact Hk|].
  split; [exact Ht|].
  destruct (DescribedContinuity.predecessor entries ordered k) as [p|];
    destruct previous as [pr|]; try discriminate; cbn [Continuity.dailyAnnotate].
  - injection Hprev as <-. rewrite hasSameGroup_after.
    destruct (DescribedChange.leaves_state (Continuity.entry pr)); reflexivity.
  - reflexivity.
Qed.

Lemma examples_plain_comparable (cotton : string) :
  (cotton = "25_31_V1" \/ cotton = "A") ->
  Forall (@DescribedContinuity.comparable Reference.platform)
         (ContinuityExamples.entries cotton)
  /\ Forall DescribedContinuity.plain (ContinuityExamples.entries cotton).
Proof.
  intros [-> | ->]; split; repeat constructor;
    try (vm_compute; discriminate);
    try (intros v E; vm_compute in E; try discriminate; injection E as <-;
         vm_compute; reflexivity).
Qed.

(** Three mixings 10, 11 and 12 of blend 25_31_V1 on consecutive days: the
    predecessor of the third entry is the entry of mixing 11, and the
    third entry refers to it. *)
Lemma previous_mixing_ref_witness :
  let H := Reference.platform in
  let entries := ContinuityExamples.entries "25_31_V1" in
  let third := ContinuityExamples.entry "25_31_V1" [ContinuityExamples.row 12 "25_31_V1" "P3" 150] in
  map Entry.previous_mixing_no (Continuity.track Continuity.dailyAnnotate entries)
  = [VNull; VStr "10"; VStr "11"]
  /\ exists ordered k p,
       DescribedContinuity.group_of entries third ordered
       /\ nth_error ordered k = Some 2%nat
       /\ DescribedContinuity.predecessor entries ordered k = Some p
       /\ Entry.mixing_no p = VStr "11".
Proof.
  intros H entries third.
  assert (Hall : map Entry.previous_mixing_no
                     (Continuity.track Continuity.dailyAnnotate entries)
                 = [VNull; VStr "10"; VStr "11"]) by (vm_compute; reflexivity).
  split; [exact Hall|].
  destruct (examples_plain_comparable "25_31_V1" (or_introl eq_refl)) as [Hc Hp].
  destruct (@previous_mixing_ref H entries 2 third Hc Hp eq_refl)
    as (ordered & k & tracked & Hg & Hk & Ht & Hprev).
  assert (Hthird : Entry.previous_mixing_no tracked = VStr "11").
  { apply (map_nth_error Entry.previous_mixing_no) in Ht. rewrite Hall in Ht.
    cbn in Ht. congruence. }
  rewrite Hthird in Hprev.
  destruct (DescribedContinuity.predecessor entries ordered k) as [p|] eqn:Ep;
    [|discriminate].
  exists ordered, k, p. repeat split; try assumption; try apply Hg.
  destruct (DescribedChange.leaves_state p); [congruence | discriminate].
Defined.

(** C7 (as stated): three mixings 10, 11 and 12 of blend "A" on three
    consecutive days form one signature group in that order, and the third
    entry's previous_mixing_no is null, not "11". *)
Lemma previous_mixing_ref_without_version :
  let records := ContinuityExamples.records "A" in
  map (fun e => Continuity.signature e) (ContinuityExamples.entries "A")
  = ["U1|L1|A"; "U1|L1|A"; "U1|L1|A"]
  /\ map (fun r => Entry.mixing_no (Continuity.entry r))
         (sort Continuity.compareRecords records)
     = [VStr "10"; VStr "11"; VStr "12"]
  /\ map (fun e => Entry.previous_mixing_no e)
         (@Continuity.track Reference.platform Continuity.dailyAnnotate
            (ContinuityExamples.entries "A"))
     = [VNull; VNull; VNull]
  /\ VNull <> VStr "11".
Proof. vm_compute. repeat split. discriminate. Qed.

(** ** The per-lot bale totals and the change percentages *)

Section LotMapFacts.

Import Aggregator DescribedMetric DescribedLots.

Lemma sum_prefix_finite (l1 l2 : list num) (a : num) (t : Q) :
  fold_left add (l1 ++ l2)%list a = Fin t -> exists t1, fold_left add l1 a = Fin t1.
Proof.
  rewrite fold_left_app. intros E. apply sum_finite in E as [[x Ex] _]. eauto.
Qed.

Lemma counts_nowhere (lotResults : list Lot.t) (rows : list MixRow.t) (lot : string) :
  existsb (counts lotResults lot) rows = false -> filter (counts lotResults lot) rows = [].
Proof.
  induction rows as [|r rows IH]; cbn [existsb filter]; [reflexivity|].
  intros E. apply orb_false_iff in E as [-> E]. apply IH, E.
Qed.

Lemma finite_prefix (lotResults : list Lot.t) (rows : list MixRow.t) (r : MixRow.t) :
  finite lotResults (rows ++ [r]) -> finite lotResults rows.
Proof.
  intros Hf lot. destruct (Hf lot) as [b Hb]. unfold bales_from, sum in *.
  rewrite filter_app, map_app in Hb. apply sum_prefix_finite in Hb. exact Hb.
Qed.

Lemma bales_from_snoc (lotResults : list Lot.t) (rows : list MixRow.t) (r : MixRow.t)
    (lot : string) :
  bales_from lotResults (rows ++ [r]) lot
  = if counts lotResults lot r
    then add (bales_from lotResults rows lot) (bales_of r)
    else bales_from lotResults rows lot.
Proof.
  unfold bales_from, sum. rewrite filter_app, map_app, fold_left_app. cbn [filter].
  destruct (counts lotResults lot r); cbn [map fold_left]; reflexivity.
Qed.

Lemma step_lotBalesMap (lotResults : list Lot.t) (acc : sums) (r : MixRow.t) :
  lotBalesMap (step lotResults acc r)
  = match lot_of lotResults (MixRow.lot_no r) with
    | Some _ =>
        if truthy (MixRow.lot_no r)
        then set (lotBalesMap acc) (ToString (MixRow.lot_no r))
                 (add (Fin (slot (lotBalesMap acc) (ToString (MixRow.lot_no r))))
                      (bales_of r))
        else lotBalesMap acc
    | None => lotBalesMap acc
    end.
Proof.
  unfold step. rewrite lot_of_find.
  destruct (lot_of lotResults (MixRow.lot_no r)); [|reflexivity].
  cbn [lotBalesMap]. rewrite bales_of_row. reflexivity.
Qed.

(** The per-lot bale map of a group holds, for each lot the group draws
    from, the total of the bales of the rows that count for it. *)
Lemma lots_described (lotResults : list Lot.t) (rows : list MixRow.t) :
  finite lotResults rows ->
  forall lot,
    get (lotBalesMap (fold_left (step lotResults) rows init)) lot
    = if existsb (counts lotResults lot) rows
      then Some (bales_from lotResults rows lot)
      else None.
Proof.
  induction rows as [|r rows IH] using rev_ind; intros Hf lot; [reflexivity|].
  specialize (IH (finite_prefix _ _ _ Hf)).
  rewrite fold_left_app. cbn [fold_left]. rewrite step_lotBalesMap.
  rewrite existsb_app. cbn [existsb]. rewrite orb_false_r, bales_from_snoc.
  unfold counts at 2 3.
  destruct (lot_of lotResults (MixRow.lot_no r)) as [l|];
    [|rewrite orb_false_r; apply IH].
  destruct (truthy (MixRow.lot_no r)); cbn [andb];
    [|rewrite orb_false_r; apply IH].
  rewrite get_set.
  destruct (String.eqb (ToString (MixRow.lot_no r)) lot) eqn:E;
    [|rewrite orb_false_r; apply IH].
  apply String.eqb_eq in E. subst lot. rewrite orb_true_r. f_equal. f_equal.
  unfold slot. rewrite IH.
  destruct (existsb (counts lotResults (ToString (MixRow.lot_no r))) rows) eqn:Ex.
  - destruct (finite_prefix _ _ _ Hf (ToString (MixRow.lot_no r))) as [b ->].
    reflexivity.
  - unfold bales_from. rewrite (counts_nowhere _ _ _ Ex). reflexivity.
Qed.

Lemma existsb_drawn (lotResults : list Lot.t) (rows : list MixRow.t) (lot : string) :
  existsb (counts lotResults lot) rows = true <-> drawn lotResults rows lot.
Proof. apply existsb_exists. Qed.

Lemma slot_described (lotResults : list Lot.t) (rows : list MixRow.t) (lot : string) :
  finite lotResults rows ->
  Fin (slot (lots (aggregate lotResults rows)) lot) = bales_from lotResults rows lot.
Proof.
  intros Hf. unfold aggregate. cbn [lots]. unfold slot.
  rewrite (lots_described _ _ Hf).
  destruct (existsb (counts lotResults lot) rows) eqn:Ex.
  - destruct (Hf lot) as [b ->]. reflexivity.
  - unfold bales_from. rewrite (counts_nowhere _ _ _ Ex). reflexivity.
Qed.

Lemma keys_described (lotResults : list Lot.t) (rows : list MixRow.t) (lot : string) :
  finite lotResults rows ->
  In lot (keys (lots (aggregate lotResults rows))) <-> drawn lotResults rows lot.
Proof.
  intros Hf. rewrite <- existsb_drawn.
  pose proof (lots_described _ _ Hf lot) as Hg.
  pose proof (get_none (lotBalesMap (fold_left (step lotResults) rows init)) lot) as Hn.
  unfold aggregate. cbn [lots]. split.
  - intros Hin. apply (Permutation_in _ (keys_perm _)) in Hin.
    destruct (existsb (counts lotResults lot) rows); [reflexivity|].
    exfalso. apply (proj1 Hn Hg). exact Hin.
  - intros Ex. rewrite Ex in Hg.
    apply (Permutation_in _ (Permutation_sym (keys_perm _))).
    destruct (in_dec string_dec lot
                (map fst (lotBalesMap (fold_left (step lotResults) rows init))))
      as [Hin|Hin]; [exact Hin|].
    apply Hn in Hin. congruence.
Qed.

Lemma diffLots_described (lotResults : list Lot.t) (previous current : list MixRow.t) :
  finite lotResults previous -> finite lotResults current ->
  forall (names : list string) (d : Continuity.lotDiff),
    fold_left (Continuity.diffStep (Aggregator.lots (aggregate lotResults previous))
                                   (Aggregator.lots (aggregate lotResults current)))
              names d
    = Continuity.mkDiff
        (fold_left add
           (map (fun lot => nabs (sub (bales_from lotResults current lot)
                                      (bales_from lotResults previous lot)))
                names)
           (Continuity.absoluteDifferenceSum d))
        (Continuity.newLotCount d
         + Z.of_nat (new_lots lotResults previous current names))
        (Continuity.removedLotCount d
         + Z.of_nat (removed_lots lotResults previous current names)).
Proof.
  intros Hp Hc. induction names as [|lot names IH]; intros d; cbn [fold_left map].
  - unfold new_lots, removed_lots. cbn [filter List.length Z.of_nat].
    rewrite !Z.add_0_r. destruct d; reflexivity.
  - rewrite IH. unfold Continuity.diffStep. cbv zeta.
    cbn [Continuity.absoluteDifferenceSum Continuity.newLotCount
         Continuity.removedLotCount].
    unfold new_lots, removed_lots. cbn [filter].
    rewrite <- (slot_described _ _ lot Hp), <- (slot_described _ _ lot Hc).
    cbn [num_eqb gt0].
    set (pb := slot (Aggregator.lots (aggregate lotResults previous)) lot).
    set (cb := slot (Aggregator.lots (aggregate lotResults current)) lot).
    f_equal.
    + destruct (Qeq_bool pb 0 && Qlt_bool 0 cb); cbn [List.length]; lia.
    + destruct (Qeq_bool cb 0 && Qlt_bool 0 pb); cbn [List.length]; lia.
Qed.

End LotMapFacts.

Section ChangeFacts.

Context `{Platform}.

Import Aggregator DescribedMetric DescribedLots DailySummary.

Lemma dedupe_in_iff (l : list string) (x : string) :
  In x (dedupe String.eqb l) <-> In x l.
Proof. split; [apply dedupe_in | apply dedupe_complete]. Qed.

Lemma positive_count (n : nat) :
  Qlt_bool 0 (inject_Z (Z.of_nat n)) = (0 <? n)%nat.
Proof. destruct n; reflexivity. Qed.

(** The two percentages of the code are those of the rules, over the
    rows of the two entries. *)
Lemma changes_of_maps (lotResults : list Lot.t) (previous current : list MixRow.t)
    (p r : Entry.t) :
  Entry._lotBalesMap p = lots (aggregate lotResults previous) ->
  Entry._lotBalesMap r = lots (aggregate lotResults current) ->
  finite lotResults previous -> finite lotResults current ->
  changes lotResults previous current p
    (Continuity.baleChange p r) (Continuity.lotChange p r).
Proof.
  intros Ep Er Hp Hc.
  set (pm := lots (aggregate lotResults previous)) in *.
  set (cm := lots (aggregate lotResults current)) in *.
  exists (Continuity.lotSet pm cm). split; [apply dedupe_nodup|]. split.
  - intros lot. unfold Continuity.lotSet. rewrite dedupe_in_iff, in_app_iff.
    unfold pm, cm. rewrite !keys_described by assumption. reflexivity.
  - unfold Continuity.baleChange, Continuity.lotChange, Continuity.diffLots.
    rewrite Ep, Er.
    set (names := Continuity.lotSet pm cm). unfold pm, cm.
    rewrite (diffLots_described lotResults _ _ Hp Hc).
    cbn [Continuity.absoluteDifferenceSum Continuity.newLotCount
         Continuity.removedLotCount].
    split.
    + unfold percent, abs_diff, sum.
      destruct (Entry.total_bales p) as [|T]; cbn [orZero gt0]; reflexivity.
    + rewrite positive_count. unfold percent.
      destruct (0 <? Entry.no_of_lots p)%nat; [|reflexivity].
      rewrite !Z.add_0_l, <- Nat2Z.inj_add. reflexivity.
Qed.

Lemma changes_described (lookup : obj jsval) (lotResults : list Lot.t)
    (previous current : list MixRow.t * Blend.blend) :
  finite lotResults (fst previous) -> finite lotResults (fst current) ->
  changes lotResults (fst previous) (fst current) (entry_of lookup lotResults previous)
    (Continuity.baleChange (entry_of lookup lotResults previous)
                           (entry_of lookup lotResults current))
    (Continuity.lotChange (entry_of lookup lotResults previous)
                          (entry_of lookup lotResults current)).
Proof. apply changes_of_maps; reflexivity. Qed.

Lemma predecessor_map {A B : Type} (f : A -> B) (items : list A)
    (ordered : list nat) (k : nat) :
  DescribedContinuity.predecessor (map f items) ordered k
  = option_map f (DescribedContinuity.predecessor items ordered k).
Proof.
  destruct k as [|k]; [reflexivity|]. unfold DescribedContinuity.predecessor.
  destruct (nth_error ordered k) as [j|]; [|reflexivity]. apply nth_error_map.
Qed.

End ChangeFacts.

(** C6 (as the code has it).  In the daily summary, an entry that is
    first in its ordered signature group, or whose immediate predecessor
    in that order carries no version number or no issue date, has both
    change percentages null.  Otherwise, with p the predecessor,
    bale_change_over_percent is round(abs_diff / p.total_bales × 100, 2)
    when p.total_bales > 0 and null otherwise, where abs_diff is the sum
    over the lots of the two entries, each once, of
    |current_bales(lot) − previous_bales(lot)|, and
    lot_change_over_percent is
    round((new_lots + removed_lots) / p.no_of_lots × 100, 2) when
    p.no_of_lots > 0 and null otherwise, where new_lots counts the lots
    with zero previous and positive current bales and removed_lots the
    reverse.  The per-lot bales of an entry count the rows whose lot has
    a lot result and whose lot number is not empty; the arithmetic is
    that of the engine.  This holds when the per-lot totals are finite
    numbers, unit and line are written without the delimiter of the
    signature, every issue date given is a valid date, and version and
    mixing numbers are below Number.MAX_SAFE_INTEGER. *)
Theorem change_over_percent `{Platform} (lookup : obj jsval) (lotResults : list Lot.t)
    (groups : list (list MixRow.t * Blend.blend)) (i : nat)
    (current : list MixRow.t * Blend.blend) :
  Forall DescribedContinuity.comparable (DailySummary.entries_of lookup lotResults groups) ->
  Forall DescribedContinuity.plain (DailySummary.entries_of lookup lotResults groups) ->
  Forall (fun group => DescribedLots.finite lotResults (fst group)) groups ->
  nth_error groups i = Some current ->
  exists ordered k tracked,
    DescribedContinuity.group_of (DailySummary.entries_of lookup lotResults groups)
      (DailySummary.entry_of lookup lotResults current) ordered
    /\ nth_error ordered k = Some i
    /\ nth_error (Continuity.track Continuity.dailyAnnotate
                    (DailySummary.entries_of lookup lotResults groups)) i
       = Some tracked
    /\ match DescribedContinuity.predecessor groups ordered k with
       | Some previous =>
           if DescribedChange.leaves_state (DailySummary.entry_of lookup lotResults previous)
           then DescribedLots.changes lotResults (fst previous) (fst current)
                  (DailySummary.entry_of lookup lotResults previous)
                  (Entry.bale_change_over_percent tracked)
                  (Entry.lot_change_over_percent tracked)
           else Entry.bale_change_over_percent tracked = None
                /\ Entry.lot_change_over_percent tracked = None
       | None =>
           Entry.bale_change_over_percent tracked = None
           /\ Entry.lot_change_over_percent tracked = None
       end.
Proof.
  intros Hc Hp Hf Hi.
  assert (He : nth_error (DailySummary.entries_of lookup lotResults groups) i
               = Some (DailySummary.entry_of lookup lotResults current)).
  { unfold DailySummary.entries_of. rewrite nth_error_map, Hi. reflexivity. }
  destruct (track_spec Continuity.dailyAnnotate _ i _ Hc Hp He)
    as (ordered & k & previous & Hg & Hk & Hprev & Ht).
  assert (Hpred : DescribedContinuity.predecessor
                    (DailySummary.entries_of lookup lotResults groups) ordered k
                  = option_map (DailySummary.entry_of lookup lotResults)
                      (DescribedContinuity.predecessor groups ordered k))
    by apply predecessor_map.
  rewrite Hpred in Hprev, Ht.
  exists ordered, k. eexists. split; [exact Hg|]. split; [exact Hk|].
  split; [exact Ht|].
  destruct (DescribedContinuity.predecessor groups ordered k) as [g|] eqn:Eg;
    destruct previous as [pr|]; try discriminate;
    cbn [option_map Continuity.dailyAnnotate] in *.
  - injection Hprev as Epr. rewrite hasSameGroup_after, Epr.
    destruct (DescribedChange.leaves_state (DailySummary.entry_of lookup lotResults g));
      cbn [negb]; [|split; reflexivity].
    cbn [Entry.with_change Entry.bale_change_over_percent Entry.lot_change_over_percent
         Continuity.entry Continuity.recordOf].
    apply changes_described.
    + assert (Hin : In g groups).
      { destruct k as [|k]; [discriminate|]. cbn in Eg.
        destruct (nth_error ordered k); [|discriminate]. eapply nth_error_In, Eg. }
      eapply Forall_forall in Hf; [exact Hf | exact Hin].
    + eapply Forall_forall in Hf; [exact Hf | eapply nth_error_In, Hi].
  - split; reflexivity.
Qed.

Lemma finite_by_rows (lotResults : list Lot.t) (rows : list MixRow.t) :
  (forall r, In r rows ->
     exists b, DescribedLots.bales_from lotResults rows (ToString (MixRow.lot_no r)) = Fin b) ->
  DescribedLots.finite lotResults rows.
Proof.
  intros Hrows lot.
  destruct (existsb (DescribedLots.counts lotResults lot) rows) eqn:Ex.
  - apply existsb_exists in Ex as (r & Hr & Hc). destruct (Hrows r Hr) as [b Hb].
    exists b. rewrite <- Hb. f_equal. unfold DescribedLots.counts in Hc.
    destruct (DescribedMetric.lot_of lotResults (MixRow.lot_no r)); [|discriminate].
    apply andb_true_iff in Hc as [_ Hc]. apply String.eqb_eq in Hc. congruence.
  - exists 0%Q. unfold DescribedLots.bales_from.
    rewrite (counts_nowhere _ _ _ Ex). reflexivity.
Qed.

(** Three mixings 10, 11 and 12 of blend 25_31_V1 on consecutive days.
    Of the lots P1 (100 bales) and P2 (50) of the first, P1 stays in the
    second and P3 (50) replaces P2: 100 of 150 bales and 2 of 2 lots
    change. *)
Lemma change_over_percent_witness :
  let H := Reference.platform in
  let cotton := "25_31_V1" in
  let lookup := Daily.issueDateLookup (ContinuityExamples.issues cotton) in
  let lotResults := ContinuityExamples.lotResults in
  let second := [ContinuityExamples.row 11 cotton "P1" 100;
                 ContinuityExamples.row 11 cotton "P3" 50] in
  let groups :=
    [([ContinuityExamples.row 10 cotton "P1" 100;
       ContinuityExamples.row 10 cotton "P2" 50], Blend.no_blend);
     (second, Blend.no_blend);
     ([ContinuityExamples.row 12 cotton "P3" 150], Blend.no_blend)] in
  let tracked :=
    Continuity.track Continuity.dailyAnnotate
      (DailySummary.entries_of lookup lotResults groups) in
  map Entry.bale_change_over_percent tracked
  = [None; toJson (number (VNum (6667 # 100))); toJson (number (VNum (13333 # 100)))]
  /\ map Entry.lot_change_over_percent tracked
     = [None; toJson (number (VNum 100)); toJson (number (VNum 50))]
  /\ exists ordered k previous,
       nth_error ordered k = Some 1%nat
       /\ DescribedContinuity.predecessor groups ordered k = Some previous
       /\ DescribedLots.changes lotResults (fst previous) second
            (DailySummary.entry_of lookup lotResults previous)
            (toJson (number (VNum (6667 # 100)))) (toJson (number (VNum 100))).
Proof.
  intros H cotton lookup lotResults second groups tracked.
  assert (Hb : map Entry.bale_change_over_percent tracked
               = [None; toJson (number (VNum (6667 # 100)));
                  toJson (number (VNum (13333 # 100)))]) by (vm_compute; reflexivity).
  assert (Hl : map Entry.lot_change_over_percent tracked
               = [None; toJson (number (VNum 100)); toJson (number (VNum 50))])
    by (vm_compute; reflexivity).
  split; [exact Hb|]. split; [exact Hl|].
  destruct (examples_plain_comparable cotton (or_introl eq_refl)) as [Hc Hp].
  destruct (@change_over_percent H lookup lotResults groups 1 (second, Blend.no_blend))
    as (ordered & k & e & _ & Hk & Ht & Hch).
  - exact Hc.
  - exact Hp.
  - repeat constructor; apply finite_by_rows;
      intros r Hr; cbn in Hr;
      repeat (destruct Hr as [<-|Hr]; [vm_compute; eexists; reflexivity|]);
      contradiction.
  - reflexivity.
  - fold tracked in Ht.
    assert (Eb : Entry.bale_change_over_percent e = toJson (number (VNum (6667 # 100)))).
    { apply (map_nth_error Entry.bale_change_over_percent) in Ht. rewrite Hb in Ht.
      cbn [nth_error] in Ht. congruence. }
    assert (El : Entry.lot_change_over_percent e = toJson (number (VNum 100))).
    { apply (map_nth_error Entry.lot_change_over_percent) in Ht. rewrite Hl in Ht.
      cbn [nth_error] in Ht. congruence. }
    rewrite Eb, El in Hch.
    destruct (DescribedContinuity.predecessor groups ordered k) as [previous|] eqn:Ep.
    + exists ordered, k, previous. split; [exact Hk|]. split; [exact Ep|].
      destruct (DescribedChange.leaves_state
                  (DailySummary.entry_of lookup lotResults previous));
        [exact Hch|]. destruct Hch as [Hn _]. vm_compute in Hn. discriminate.
    + destruct Hch as [Hn _]. vm_compute in Hn. discriminate.
Defined.

(** C6 (as stated).  The second of three mixings of blend "A", which has
    no version marker, follows an entry of 150 bales, yet both its
    percentages are null.  And the second of two mixings of blend
    25_31_V1 draws 100 bales from lot P1, as the first did, and 50 from
    lot P9, which has no lot result: over the lot numbers of the two
    entries the difference is 50 bales of 100, with one new lot of one,
    yet both its percentages are 0. *)
Lemma change_over_percent_counterexample :
  (map (fun r => Entry.mixing_no (Continuity.entry r))
       (sort Continuity.compareRecords (ContinuityExamples.records "A"))
   = [VStr "10"; VStr "11"; VStr "12"]
   /\ map Entry.total_bales (ContinuityExamples.entries "A")
      = [Fin 150; Fin 150; Fin 150]
   /\ map Entry.bale_change_over_percent
        (@Continuity.track Reference.platform Continuity.dailyAnnotate
           (ContinuityExamples.entries "A"))
      = [None; None; None])
  /\ (map Entry.total_bales LotlessExamples.summary = [Fin 100; Fin 150]
      /\ DescribedLots.abs_diff LotlessExamples.all_lots LotlessExamples.rows10
           LotlessExamples.rows11 ["P1"; "P9"] = Fin 50
      /\ DescribedLots.new_lots LotlessExamples.all_lots LotlessExamples.rows10
           LotlessExamples.rows11 ["P1"; "P9"] = 1%nat
      /\ map Entry.bale_change_over_percent
           (@Continuity.track Reference.platform Continuity.dailyAnnotate
              LotlessExamples.summary)
         = [None; Some 0%Q]
      /\ map Entry.lot_change_over_percent
           (@Continuity.track Reference.platform Continuity.dailyAnnotate
              LotlessExamples.summary)
         = [None; Some 0%Q]).
Proof. vm_compute. repeat split. Qed.

(** ** The sub-entries of a period *)

Section SubEntryFacts.

Context `{Platform}.

Import Periodic DescribedMetric DescribedSubEntries SubEntryRecords.

Lemma sum_snoc (terms : list num) (b : num) :
  sum (terms ++ [b]) = add (sum terms) b.
Proof. unfold sum. rewrite fold_left_app. reflexivity. Qed.

Lemma lot_counts_nowhere (sub : list MixRow.t) (lot : string) :
  existsb (lot_counts lot) sub = false -> filter (lot_counts lot) sub = [].
Proof.
  induction sub as [|r sub IH]; cbn [existsb filter]; [reflexivity|].
  intros E. apply orb_false_iff in E as [-> E]. apply IH, E.
Qed.

Lemma lot_total_snoc (sub : list MixRow.t) (r : MixRow.t) (lot : string) :
  lot_total (sub ++ [r]) lot
  = if lot_counts lot r then add (lot_total sub lot) (bales_of r) else lot_total sub lot.
Proof.
  unfold lot_total. rewrite filter_app. cbn [filter].
  destruct (lot_counts lot r); [|rewrite app_nil_r; reflexivity].
  rewrite map_app. apply sum_snoc.
Qed.

Lemma finite_sub_prefix (sub : list MixRow.t) (r : MixRow.t) :
  finite (sub ++ [r]) -> finite sub.
Proof.
  intros Hf lot. destruct (Hf lot) as [b Hb]. rewrite lot_total_snoc in Hb.
  destruct (lot_counts lot r); [|eauto].
  apply add_finite in Hb as (x & y & Hx & _). eauto.
Qed.

(** The lot map of a sub-entry after one more row. *)
Lemma lotMap_snoc (sub : list MixRow.t) (r : MixRow.t) (lots : obj num) :
  finite sub ->
  NoDup (map fst lots) ->
  (forall lot, get lots lot
               = if existsb (lot_counts lot) sub then Some (lot_total sub lot) else None) ->
  let lots' :=
    if truthy (MixRow.lot_no r)
    then set lots (ToString (MixRow.lot_no r))
             (add (Fin (Aggregator.slot lots (ToString (MixRow.lot_no r))))
                  (Aggregator.bales r))
    else lots in
  NoDup (map fst lots')
  /\ forall lot, get lots' lot
                 = if existsb (lot_counts lot) (sub ++ [r])
                   then Some (lot_total (sub ++ [r]) lot) else None.
Proof.
  intros Hf Hnd Hget lots'. subst lots'. split.
  - destruct (truthy (MixRow.lot_no r)); [apply set_nodup|]; exact Hnd.
  - intros lot. rewrite existsb_app, lot_total_snoc. cbn [existsb].
    rewrite orb_false_r. unfold lot_counts at 2 3.
    destruct (truthy (MixRow.lot_no r)); cbn [andb];
      [|rewrite orb_false_r; apply Hget].
    rewrite get_set.
    destruct (String.eqb (ToString (MixRow.lot_no r)) lot) eqn:E;
      [|rewrite orb_false_r; apply Hget].
    apply String.eqb_eq in E. subst lot. rewrite orb_true_r. f_equal.
    rewrite bales_of_row. f_equal. unfold Aggregator.slot. rewrite Hget.
    destruct (existsb (lot_counts (ToString (MixRow.lot_no r))) sub) eqn:Ex.
    + destruct (Hf (ToString (MixRow.lot_no r))) as [b ->]. reflexivity.
    + unfold lot_total. rewrite (lot_counts_nowhere _ _ Ex). reflexivity.
Qed.

Lemma sub_rows_snoc (rows : list MixRow.t) (r : MixRow.t) (key : string) :
  sub_rows (rows ++ [r]) key
  = if belongs key r then (sub_rows rows key ++ [r])%list else sub_rows rows key.
Proof.
  unfold sub_rows. rewrite filter_app. cbn [filter].
  destruct (belongs key r); [reflexivity | apply app_nil_r].
Qed.

Lemma all_finite_prefix (rows : list MixRow.t) (r : MixRow.t) :
  all_finite (rows ++ [r]) -> all_finite rows.
Proof.
  intros Hf key. specialize (Hf key). rewrite sub_rows_snoc in Hf.
  destruct (belongs key r); [apply finite_sub_prefix in Hf|]; exact Hf.
Qed.

(** The sub-entries the code builds are those of the rules: one for each
    mixing number that reads differently, holding the date of its first
    row and the totals of its rows. *)
Lemma mixMap_described (lookup : obj jsval) (rows : list MixRow.t) :
  all_finite rows ->
  NoDup (map fst (mixMapOf lookup rows))
  /\ forall key,
       match get (mixMapOf lookup rows) key with
       | Some m => sub_rows rows key <> [] /\ represents lookup (sub_rows rows key) m
       | None => sub_rows rows key = []
       end.
Proof.
  unfold mixMapOf.
  induction rows as [|r rows IH] using rev_ind; intros Hf.
  { split; [constructor | intros key; reflexivity]. }
  destruct (IH (all_finite_prefix _ _ Hf)) as [Hnd Hget]. clear IH.
  rewrite fold_left_app. cbn [fold_left].
  set (mm := fold_left (addToMixMap lookup) rows []) in *.
  unfold addToMixMap.
  set (mn := coalesce (MixRow.mixing_no r) (VStr "")).
  destruct (truthy mn) eqn:Et; cbn [negb].
  2:{ split; [exact Hnd|]. intros key. rewrite sub_rows_snoc.
      unfold belongs. fold mn. rewrite Et. cbn [andb]. apply Hget. }
  split; [apply set_nodup, Hnd|].
  intros key. rewrite get_set, sub_rows_snoc. unfold belongs. fold mn.
  rewrite Et. cbn [andb].
  destruct (String.eqb (ToString mn) key) eqn:Ek; [|apply Hget].
  apply String.eqb_eq in Ek. subst key.
  split; [destruct (sub_rows rows (ToString mn)); discriminate|].
  specialize (Hget (ToString mn)).
  assert (Hfs : finite (sub_rows rows (ToString mn))).
  { apply (all_finite_prefix _ _ Hf). }
  destruct (get mm (ToString mn)) as [m|].
  - destruct Hget as [Hne (Hn & Hd & Ht & Hl & Hg)].
    destruct (lotMap_snoc _ r _ Hfs Hl Hg) as [Hl' Hg'].
    split; [|split; [|split; [|split]]]; cbn [mixing_no issueDate_of totalBales lotMap].
    + rewrite Hn. destruct (sub_rows rows (ToString mn)); [congruence | reflexivity].
    + rewrite Hd. destruct (sub_rows rows (ToString mn)); [congruence | reflexivity].
    + rewrite Ht, bales_of_row. unfold total. rewrite map_app. symmetry. apply sum_snoc.
    + exact Hl'.
    + exact Hg'.
  - rewrite Hget in *.
    destruct (lotMap_snoc [] r [] Hfs (NoDup_nil _) (fun _ => eq_refl)) as [Hl' Hg'].
    split; [|split; [|split; [|split]]]; cbn [mixing_no issueDate_of totalBales lotMap app].
    + reflexivity.
    + reflexivity.
    + rewrite bales_of_row. reflexivity.
    + exact Hl'.
    + exact Hg'.
Qed.

End SubEntryFacts.

Section SortMapFacts.

Context {A B : Type} (f : A -> B) (cmp : B -> B -> num).

Lemma insert_map (x : A) (l : list A) :
  map f (insert (fun a b => cmp (f a) (f b)) x l) = insert cmp (f x) (map f l).
Proof.
  induction l as [|y l IH]; cbn [insert map]; [reflexivity|].
  destruct (gt0 (cmp (f x) (f y))); cbn [map]; [rewrite IH|]; reflexivity.
Qed.

Lemma sort_map (l : list A) :
  map f (sort (fun a b => cmp (f a) (f b)) l) = sort cmp (map f l).
Proof.
  induction l as [|x l IH]; cbn [sort map]; [reflexivity|].
  rewrite insert_map, IH. reflexivity.
Qed.

End SortMapFacts.

Section TransferFacts.

Context {A B : Type}.

Lemma Forall2_pairs (R : A -> B -> Prop) (l : list (A * B)) :
  Forall (fun ab => R (fst ab) (snd ab)) l -> Forall2 R (map fst l) (map snd l).
Proof. induction 1; cbn [map]; constructor; assumption. Qed.

Lemma Forall2_in_l (R : A -> B -> Prop) (l : list A) (l' : list B) (a : A) :
  Forall2 R l l' -> In a l -> exists b, In b l' /\ R a b.
Proof.
  induction 1 as [|x y l l' Hxy _ IH]; [contradiction|].
  intros [<-|Hin].
  - exists y. split; [left; reflexivity | exact Hxy].
  - destruct (IH Hin) as (b & Hb & Hab). exists b. split; [right; exact Hb | exact Hab].
Qed.

Lemma sorted_transfer (R : A -> B -> Prop) (S : B -> B -> Prop) (S' : A -> A -> Prop)
    (l : list A) (l' : list B) :
  (forall a b a' b', R a a' -> R b b' -> S a' b' -> S' a b) ->
  Forall2 R l l' -> StronglySorted S l' -> StronglySorted S' l.
Proof.
  intros HS HR. induction HR as [|x y l l' Hxy HR IH]; intros Hs; [constructor|].
  inversion Hs as [|? ? Hs' Hy]; subst. constructor; [apply IH, Hs'|].
  apply Forall_forall. intros a Ha.
  destruct (Forall2_in_l _ _ _ _ HR Ha) as (b & Hb & Hab).
  eapply HS; [exact Hxy | exact Hab |]. eapply Forall_forall in Hy; eauto.
Qed.

End TransferFacts.

Section PairFacts.

Context `{Platform}.

Import Periodic DescribedMetric DescribedSubEntries SubEntryRecords.

Lemma fold_add_map {T : Type} (f : T -> num) (l : list T) (a : num) :
  fold_left (fun s x => add s (f x)) l a = fold_left add (map f l) a.
Proof.
  revert a. induction l as [|x l IH]; intros a; cbn [fold_left map]; [reflexivity|].
  apply IH.
Qed.

Lemma represents_slot (lookup : obj jsval) (sub : list MixRow.t) (m : mixing)
    (lot : string) :
  represents lookup sub m -> finite sub ->
  Fin (Aggregator.slot (lotMap m) lot) = lot_total sub lot.
Proof.
  intros (_ & _ & _ & _ & Hg) Hf. unfold Aggregator.slot. rewrite Hg.
  destruct (existsb (lot_counts lot) sub) eqn:Ex.
  - destruct (Hf lot) as [b ->]. reflexivity.
  - unfold lot_total. rewrite (lot_counts_nowhere _ _ Ex). reflexivity.
Qed.

Lemma represents_hasLot (lookup : obj jsval) (sub : list MixRow.t) (m : mixing)
    (lot : string) :
  represents lookup sub m -> hasLot m lot = gt0 (lot_total sub lot).
Proof.
  intros (_ & _ & _ & _ & Hg). unfold hasLot. rewrite Hg.
  destruct (existsb (lot_counts lot) sub) eqn:Ex; [reflexivity|].
  unfold lot_total. rewrite (lot_counts_nowhere _ _ Ex). reflexivity.
Qed.

Lemma represents_keys (lookup : obj jsval) (sub : list MixRow.t) (m : mixing)
    (lot : string) :
  represents lookup sub m -> (In lot (keys (lotMap m)) <-> holds sub lot).
Proof.
  intros (_ & _ & _ & _ & Hg). specialize (Hg lot).
  pose proof (get_none (lotMap m) lot) as Hn.
  unfold holds. rewrite <- existsb_exists. split.
  - intros Hin. apply (Permutation_in _ (keys_perm _)) in Hin.
    destruct (existsb (lot_counts lot) sub); [reflexivity|].
    exfalso. apply (proj1 Hn Hg). exact Hin.
  - intros Ex. rewrite Ex in Hg.
    apply (Permutation_in _ (Permutation_sym (keys_perm _))).
    destruct (in_dec string_dec lot (map fst (lotMap m))) as [Hin|Hin]; [exact Hin|].
    apply Hn in Hin. congruence.
Qed.

Lemma abs_diff_described (lookup : obj jsval) (p c : list MixRow.t) (mp mc : mixing) :
  represents lookup p mp -> represents lookup c mc -> finite p -> finite c ->
  absoluteDifferenceSum mp mc
  = abs_diff p c (Continuity.lotSet (lotMap mp) (lotMap mc)).
Proof.
  intros Rp Rc Fp Fc. unfold absoluteDifferenceSum, abs_diff, sum.
  rewrite fold_add_map. f_equal. apply map_ext. intros lot.
  rewrite (represents_slot _ _ _ lot Rp Fp), (represents_slot _ _ _ lot Rc Fc).
  reflexivity.
Qed.

(** The percentages the code pushes for a pair of sub-entries are those
    of the rules. *)
Lemma pair_described (lookup : obj jsval) (p c : list MixRow.t) (mp mc : mixing) :
  represents lookup p mp -> represents lookup c mc -> finite p -> finite c ->
  pair_changes p c (balePct mp mc) (lotPct mp mc).
Proof.
  intros Rp Rc Fp Fc.
  exists (keys (lotMap mp)), (Continuity.lotSet (lotMap mp) (lotMap mc)).
  assert (Hnd : NoDup (keys (lotMap mp))).
  { apply (Permutation_NoDup (Permutation_sym (keys_perm _))). apply Rp. }
  split; [exact Hnd|]. split; [intros lot; apply (represents_keys lookup), Rp|].
  split; [apply dedupe_nodup|]. split.
  { intros lot. unfold Continuity.lotSet. rewrite dedupe_in_iff, in_app_iff.
    rewrite (represents_keys lookup p mp lot Rp), (represents_keys lookup c mc lot Rc).
    reflexivity. }
  split.
  - unfold balePct, bale_percent.
    rewrite (abs_diff_described lookup p c mp mc Rp Rc Fp Fc).
    destruct Rp as (_ & _ & -> & _).
    destruct (total p) as [|T]; cbn [orZero gt0].
    + change (Qlt_bool 0 0) with false. cbv iota.
      destruct (keys (lotMap mp)); reflexivity.
    + destruct (Qlt_bool 0 T); [reflexivity|].
      destruct (keys (lotMap mp)); reflexivity.
  - unfold lotPct, lot_percent.
    destruct (keys (lotMap mp)) as [|k ks] eqn:Ek; [reflexivity|].
    cbn [List.length Nat.eqb negb]. f_equal. f_equal. f_equal. f_equal. f_equal. f_equal.
    unfold new_lots, removed_lots. f_equal; f_equal; apply filter_ext; intros lot;
      rewrite (represents_hasLot lookup p mp lot Rp), (represents_hasLot lookup c mc lot Rc);
      reflexivity.
Qed.

(** The percentages pushed along the ordered sub-entries. *)
Lemma pairwise_described (lookup : obj jsval) (subs : list (list MixRow.t))
    (ms : list mixing) :
  Forall2 (represents lookup) subs ms -> Forall finite subs ->
  exists bale_changes lot_changes,
    consecutive subs bale_changes lot_changes
    /\ pairwise balePct ms = present bale_changes
    /\ pairwise lotPct ms = present lot_changes.
Proof.
  induction 1 as [|p mp subs ms Rp HR IH]; intros Hf.
  { exists [], []. repeat split. constructor. }
  inversion Hf as [|? ? Fp Hf']; subst. specialize (IH Hf').
  destruct IH as (bs & ls & Hc & Hb & Hl).
  destruct HR as [|c mc subs ms Rc HR].
  { exists [], []. repeat split. constructor. }
  inversion Hf' as [|? ? Fc _]; subst.
  exists (balePct mp mc :: bs), (lotPct mp mc :: ls). split; [|split].
  - constructor; [apply (pair_described lookup); assumption | exact Hc].
  - change (pairwise balePct (mp :: mc :: ms))
      with (match balePct mp mc with
            | Some v => v :: pairwise balePct (mc :: ms)
            | None => pairwise balePct (mc :: ms)
            end).
    rewrite Hb. cbn [present flat_map]. destruct (balePct mp mc); reflexivity.
  - change (pairwise lotPct (mp :: mc :: ms))
      with (match lotPct mp mc with
            | Some v => v :: pairwise lotPct (mc :: ms)
            | None => pairwise lotPct (mc :: ms)
            end).
    rewrite Hl. cbn [present flat_map]. destruct (lotPct mp mc); reflexivity.
Qed.

Lemma average_mean (changes : list Q) : Periodic.average changes = mean changes.
Proof.
  unfold Periodic.average, mean, sum. destruct changes as [|v changes]; [reflexivity|].
  rewrite fold_add_map. reflexivity.
Qed.

End PairFacts.

Section LocalFacts.

Context `{Platform}.

Import Periodic DescribedMetric DescribedSubEntries SubEntryRecords.

Lemma represents_timestamp (lookup : obj jsval) (sub : list MixRow.t) (m : mixing) :
  represents lookup sub m -> DescribedPeriod.sub_timestamp m = timestamp lookup sub.
Proof.
  intros (_ & Hd & _). unfold DescribedPeriod.sub_timestamp, timestamp, Continuity.timestampOf.
  rewrite Hd. destruct (truthy (date_of lookup sub)); [|reflexivity].
  destruct (getTime (date_of lookup sub)); reflexivity.
Qed.

Lemma represents_number (lookup : obj jsval) (sub : list MixRow.t) (m : mixing) :
  represents lookup sub m -> DescribedPeriod.sub_number m = number sub.
Proof.
  intros (Hn & _). unfold DescribedPeriod.sub_number, number. rewrite Hn. reflexivity.
Qed.

Lemma represents_in_order (lookup : obj jsval) (a b : list MixRow.t) (ma mb : mixing) :
  represents lookup a ma -> represents lookup b mb ->
  DescribedPeriod.sub_in_order ma mb -> in_order lookup a b.
Proof.
  intros Ra Rb. unfold DescribedPeriod.sub_in_order, in_order.
  rewrite (represents_timestamp _ _ _ Ra), (represents_timestamp _ _ _ Rb).
  rewrite (represents_number _ _ _ Ra), (represents_number _ _ _ Rb). auto.
Qed.

Lemma sub_rows_in (rows : list MixRow.t) (key : string) :
  sub_rows rows key <> [] <-> exists r, In r rows /\ belongs key r = true.
Proof.
  unfold sub_rows. split.
  - destruct (filter (belongs key) rows) as [|r l] eqn:E; [congruence|].
    intros _. exists r. apply filter_In. rewrite E. left. reflexivity.
  - intros (r & Hr & Hb) E.
    assert (Hin : In r (filter (belongs key) rows)) by (apply filter_In; auto).
    rewrite E in Hin. contradiction.
Qed.

Lemma represents_comparable (lookup : obj jsval) (rows : list MixRow.t) (key : string)
    (m : mixing) :
  comparable lookup rows ->
  sub_rows rows key <> [] -> represents lookup (sub_rows rows key) m ->
  DescribedPeriod.sub_comparable m.
Proof.
  intros Hc Hne (Hn & Hd & _).
  destruct (sub_rows rows key) as [|r0 l] eqn:E; [congruence|].
  assert (Hin : In r0 (sub_rows rows key)) by (rewrite E; left; reflexivity).
  apply filter_In in Hin as [Hin Hb]. apply andb_true_iff in Hb as [Ht _].
  destruct (Hc r0 Hin Ht) as [Hnum Hdate].
  cbn [number_of date_of] in Hn, Hd. split.
  - rewrite Hd. unfold Continuity.timestampOf.
    destruct (truthy (getRawIssueDateForRow lookup r0)); [|discriminate].
    specialize (Hdate eq_refl).
    destruct (getTime (getRawIssueDateForRow lookup r0)); congruence.
  - rewrite Hn. destruct (MixRow.mixing_no r0); [discriminate| |]; exact Hnum.
Qed.

(** The change percentages of a period entry are those of its ordered
    sub-entries. *)
Lemma local_described (lookup : obj jsval) (rows : list MixRow.t) :
  comparable lookup rows -> all_finite rows ->
  local_changes lookup rows (baleChangeOverPercent lookup rows)
                (lotChangeOverPercent lookup rows).
Proof.
  intros Hc Hf. destruct (mixMap_described lookup rows Hf) as [Hnd Hget].
  set (mm := mixMapOf lookup rows) in *.
  set (sp := sort (fun a b : string * mixing => compareMixings (snd a) (snd b))
                  (entries mm)).
  assert (Hlist : mixingList lookup rows = map snd sp).
  { unfold mixingList, values, sp. fold mm. symmetry. apply sort_map. }
  assert (Hsp : forall km, In km sp ->
            sub_rows rows (fst km) <> []
            /\ represents lookup (sub_rows rows (fst km)) (snd km)).
  { intros [key m] Hin. cbn [fst snd].
    apply (Permutation_in _ (sort_perm _ _)) in Hin.
    apply (Permutation_in _ (entries_perm _)) in Hin.
    apply (in_get _ _ _ Hnd) in Hin. specialize (Hget key). rewrite Hin in Hget.
    exact Hget. }
  assert (Hperm : Permutation (map fst sp) (map fst mm)).
  { apply Permutation_map. unfold sp. rewrite sort_perm. apply entries_perm. }
  set (subs := map (sub_rows rows) (map fst sp)).
  assert (HR : Forall2 (represents lookup) subs (map snd sp)).
  { unfold subs. clear Hlist Hperm. induction sp as [|km sp' IH]; cbn [map]; constructor.
    - apply Hsp. left. reflexivity.
    - apply IH. intros km' Hin. apply Hsp. right. exact Hin. }
  assert (Hfs : Forall finite subs).
  { unfold subs. apply Forall_map, Forall_forall. intros key _. apply Hf. }
  destruct (pairwise_described lookup subs (map snd sp) HR Hfs)
    as (bs & ls & Hcons & Hb & Hl).
  exists subs, bs, ls. split; [|split; [exact Hcons|split]].
  - exists (map fst sp). split; [|split; [|split; [reflexivity|]]].
    + apply (Permutation_NoDup (Permutation_sym Hperm)), Hnd.
    + intros key. rewrite <- sub_rows_in. split.
      * intros Hin. apply in_map_iff in Hin as (km & <- & Hin). apply Hsp, Hin.
      * intros Hne. apply (Permutation_in _ (Permutation_sym Hperm)).
        specialize (Hget key). pose proof (get_none mm key) as Hn.
        destruct (get mm key) as [m|]; [|contradiction].
        destruct (in_dec string_dec key (map fst mm)) as [Hin|Hin]; [exact Hin|].
        apply Hn in Hin. discriminate.
    + apply (sorted_transfer (fun sub m => exists key, sub = sub_rows rows key
                                /\ sub <> [] /\ represents lookup sub m)
                             DescribedPeriod.sub_in_order (in_order lookup)
                             subs (map snd sp)).
      * intros a b ma mb (_ & _ & _ & Ra) (_ & _ & _ & Rb).
        apply (represents_in_order lookup); assumption.
      * unfold subs. clear Hlist Hperm HR Hfs Hcons Hb Hl.
        induction sp as [|km sp' IH]; cbn [map]; constructor.
        -- exists (fst km). split; [reflexivity|]. apply Hsp. left. reflexivity.
        -- apply IH. intros km' Hin. apply Hsp. right. exact Hin.
      * rewrite <- Hlist. apply mixingList_sorted.
        apply Forall_forall. intros m Hm. unfold values in Hm.
        apply in_map_iff in Hm as ([key m'] & <- & Hin). cbn [snd].
        apply (Permutation_in _ (entries_perm _)) in Hin.
        apply (in_get _ _ _ Hnd) in Hin. specialize (Hget key).
        fold mm in Hget. rewrite Hin in Hget. destruct Hget as [Hne Hr].
        apply (represents_comparable lookup rows key); assumption.
  - unfold baleChangeOverPercent. rewrite Hlist, Hb. apply average_mean.
  - unfold lotChangeOverPercent. rewrite Hlist, Hl. apply average_mean.
Qed.

End LocalFacts.

(** C3 (as the code has it).  The entry of a period group carries the
    change percentages of the period itself: one sub-entry is built for
    each mixing number present in the period, the sub-entries are ordered
    by issue timestamp (none last), then by numeric mixing number, each
    pair of consecutive sub-entries gives a bale and a lot percentage, and
    the mean of the percentages so obtained, rounded to 2 decimals, is the
    period's percentage (null when no pair gives one).  The percentages
    of a pair are the daily ratios, not rounded, over per-lot totals that
    count every row with a lot number, except that after a sub-entry
    without bales that has lots recorded the bale percentage is 0 when
    nothing differs and 100 otherwise, and that the lot percentage is
    taken over the number of lots recorded for the previous sub-entry.
    In the cross-period pass an entry that is first in its signature
    group, or whose predecessor carries no version number or no issue
    label, is left as it is; any other entry receives the mixing range of
    its predecessor as previous_mixing_ref, and keeps the percentages of
    the period unless both are null, in which case it takes both from the
    comparison with the predecessor.  The signature group is ordered as
    in the daily report when the period labels read as dates, and stays
    in the order of the summary when none does. *)
Theorem period_change_percentages `{Platform} (report_type : string)
    (lookup : obj jsval) (lotResults : list Lot.t)
    (groups : list (Periodic.group * Blend.blend)) (i : nat)
    (current : Periodic.group * Blend.blend) :
  Forall DescribedContinuity.comparable
         (PeriodSummary.entries_of report_type lookup lotResults groups)
  \/ Forall DescribedContinuity.undated
            (PeriodSummary.entries_of report_type lookup lotResults groups) ->
  Forall DescribedContinuity.plain
         (PeriodSummary.entries_of report_type lookup lotResults groups) ->
  Forall (fun group => DescribedLots.finite lotResults (PeriodSummary.rows_of group))
         groups ->
  DescribedSubEntries.comparable lookup (PeriodSummary.rows_of current) ->
  DescribedSubEntries.all_finite (PeriodSummary.rows_of current) ->
  nth_error groups i = Some current ->
  DescribedSubEntries.local_changes lookup (PeriodSummary.rows_of current)
    (Entry.bale_change_over_percent
       (PeriodSummary.entry_of report_type lookup lotResults current))
    (Entry.lot_change_over_percent
       (PeriodSummary.entry_of report_type lookup lotResults current))
  /\ exists ordered k tracked,
       DescribedContinuity.period_group_of
         (PeriodSummary.entries_of report_type lookup lotResults groups)
         (PeriodSummary.entry_of report_type lookup lotResults current) ordered
       /\ nth_error ordered k = Some i
       /\ nth_error (Continuity.track Continuity.periodAnnotate
                       (PeriodSummary.entries_of report_type lookup lotResults groups)) i
          = Some tracked
       /\ match DescribedContinuity.predecessor groups ordered k with
          | Some previous =>
              if DescribedChange.leaves_state
                   (PeriodSummary.entry_of report_type lookup lotResults previous)
              then PeriodSummary.continued lotResults
                     (PeriodSummary.rows_of previous) (PeriodSummary.rows_of current)
                     (PeriodSummary.entry_of report_type lookup lotResults previous)
                     (PeriodSummary.entry_of report_type lookup lotResults current)
                     tracked
              else PeriodSummary.unchanged
                     (PeriodSummary.entry_of report_type lookup lotResults current)
                     tracked
          | None =>
              PeriodSummary.unchanged
                (PeriodSummary.entry_of report_type lookup lotResults current) tracked
          end.
Proof.
  intros Hord Hp Hf Hc Hsf Hi.
  split; [apply local_described; assumption|].
  set (summary := PeriodSummary.entries_of report_type lookup lotResults groups) in *.
  set (e := PeriodSummary.entry_of report_type lookup lotResults current).
  assert (He : nth_error summary i = Some e).
  { unfold summary, PeriodSummary.entries_of. rewrite nth_error_map, Hi. reflexivity. }
  assert (Hpe : DescribedContinuity.plain e).
  { eapply Forall_forall in Hp; [exact Hp|]. eapply nth_error_In, He. }
  destruct (track_places Continuity.periodAnnotate summary i e He)
    as (k & previous & Hk & Hprev & Ht).
  set (ordered := map Continuity.index
                      (sort Continuity.compareRecords
                            (ContinuityGroups.records_of (ContinuityGroups.indexed summary)
                                                         (Continuity.signature e)))) in *.
  assert (Hpred : DescribedContinuity.predecessor summary ordered k
                  = option_map (PeriodSummary.entry_of report_type lookup lotResults)
                      (DescribedContinuity.predecessor groups ordered k))
    by apply predecessor_map.
  rewrite Hpred in Hprev, Ht.
  exists ordered, k. eexists. split; [|split; [exact Hk|split; [exact Ht|]]].
  { destruct Hord as [Hc'|Hu]; [left | right]; split; try assumption.
    - apply sorted_group; assumption.
    - apply unsorted_group; assumption. }
  destruct (DescribedContinuity.predecessor groups ordered k) as [g|] eqn:Eg;
    destruct previous as [pr|]; try discriminate;
    cbn [option_map Continuity.periodAnnotate Continuity.entry Continuity.recordOf] in *.
  - injection Hprev as Epr. rewrite hasSameGroup_after, Epr.
    destruct (DescribedChange.leaves_state
                (PeriodSummary.entry_of report_type lookup lotResults g));
      cbn [negb]; [|repeat split].
    unfold PeriodSummary.continued.
    destruct (Entry.bale_change_over_percent e) as [b|] eqn:Eb;
      [cbn; repeat split; symmetry; assumption|].
    destruct (Entry.lot_change_over_percent e) as [l|] eqn:El;
      [cbn; repeat split; symmetry; assumption|].
    cbn [Entry.with_change Entry.bale_change_over_percent Entry.lot_change_over_percent
         Entry.previous_mixing_no].
    split; [reflexivity|].
    apply changes_of_maps; try reflexivity.
    + assert (Hin : In g groups).
      { destruct k as [|k]; [discriminate|]. cbn in Eg.
        destruct (nth_error ordered k); [|discriminate]. eapply nth_error_In, Eg. }
      eapply Forall_forall in Hf; [exact Hf | exact Hin].
    + eapply Forall_forall in Hf; [exact Hf | eapply nth_error_In, Hi].
  - repeat split.
Qed.

Lemma all_finite_by_rows (rows : list MixRow.t) :
  (forall r r', In r rows -> In r' rows ->
     exists b,
       DescribedSubEntries.lot_total
         (DescribedSubEntries.sub_rows rows
            (ToString (coalesce (MixRow.mixing_no r) (VStr ""))))
         (ToString (MixRow.lot_no r')) = Fin b) ->
  DescribedSubEntries.all_finite rows.
Proof.
  intros Hrows key lot.
  destruct (existsb (DescribedSubEntries.lot_counts lot)
                    (DescribedSubEntries.sub_rows rows key)) eqn:Ex.
  - apply existsb_exists in Ex as (r & Hr & Hc).
    apply filter_In in Hr as [Hr Hb].
    apply andb_true_iff in Hb as [_ Hk]. apply String.eqb_eq in Hk.
    apply andb_true_iff in Hc as [_ Hl]. apply String.eqb_eq in Hl.
    destruct (Hrows r r Hr Hr) as [b Hb]. rewrite Hk, Hl in Hb. eauto.
  - exists 0%Q. unfold DescribedSubEntries.lot_total.
    rewrite (lot_counts_nowhere _ _ Ex). reflexivity.
Qed.

(** A week with the mixings 10, 11 and 12: the pairs give 66.67 and
    133.33 (not rounded), whose mean is 100; of the lots, 2 of 2 and 1 of
    2 change, mean 75.  The label of the week does not read as a date. *)
Lemma period_change_percentages_witness :
  let H := Reference.platform in
  let lookup := PeriodExamples.lookup in
  let lotResults := ContinuityExamples.lotResults in
  let week := (PeriodExamples.group PeriodExamples.busy, Blend.no_blend) in
  let e := PeriodSummary.entry_of "weekly" lookup lotResults week in
  Entry.issue_date e = VStr "2024-01-W1"
  /\ DescribedSubEntries.local_changes lookup PeriodExamples.busy
       (toJson (number (VNum 100))) (toJson (number (VNum 75)))
  /\ exists tracked,
       nth_error (Continuity.track Continuity.periodAnnotate
                    (PeriodSummary.entries_of "weekly" lookup lotResults [week])) 0
       = Some tracked
       /\ Entry.bale_change_over_percent tracked = toJson (number (VNum 100))
       /\ Entry.lot_change_over_percent tracked = toJson (number (VNum 75)).
Proof.
  intros H lookup lotResults week e.
  assert (Hb : Entry.bale_change_over_percent e = toJson (number (VNum 100)))
    by (vm_compute; reflexivity).
  assert (Hl : Entry.lot_change_over_percent e = toJson (number (VNum 75)))
    by (vm_compute; reflexivity).
  split; [vm_compute; reflexivity|].
  destruct (@period_change_percentages H "weekly" lookup lotResults [week] 0 week)
    as (Hlocal & ordered & k & tracked & _ & _ & Ht & Hcross).
  - right. repeat constructor; vm_compute; reflexivity.
  - repeat constructor; vm_compute; reflexivity.
  - repeat constructor. apply finite_by_rows.
    intros r Hr; cbn in Hr;
      repeat (destruct Hr as [<-|Hr]; [vm_compute; eexists; reflexivity|]);
      contradiction.
  - intros r Hr _; cbn in Hr;
      repeat (destruct Hr as [<-|Hr];
              [split; [vm_compute; discriminate | intros _; vm_compute; discriminate]|]);
      contradiction.
  - apply all_finite_by_rows. intros r r' Hr Hr'; cbn in Hr, Hr';
      repeat (destruct Hr as [<-|Hr];
              [repeat (destruct Hr' as [<-|Hr']; [vm_compute; eexists; reflexivity|]);
               contradiction|]);
      contradiction.
  - reflexivity.
  - split.
    + change (PeriodSummary.rows_of week) with PeriodExamples.busy in Hlocal.
      fold e in Hlocal. rewrite Hb, Hl in Hlocal. exact Hlocal.
    + exists tracked. split; [exact Ht|].
      assert (Hkeep : Entry.bale_change_over_percent tracked
                      = Entry.bale_change_over_percent e
                      /\ Entry.lot_change_over_percent tracked
                         = Entry.lot_change_over_percent e).
      { destruct (DescribedContinuity.predecessor [week] ordered k) as [previous|].
        - destruct (DescribedChange.leaves_state
                      (PeriodSummary.entry_of "weekly" lookup lotResults previous)).
          + destruct Hcross as [_ Hcross]. fold e in Hcross. rewrite Hb in Hcross.
            exact Hcross.
          + split; apply Hcross.
        - split; apply Hcross. }
      destruct Hkeep as [Kb Kl]. rewrite Kb, Kl, Hb, Hl. split; reflexivity.
Defined.

(** C3 (as stated): in a week whose mixing 10 has the lot P1 without
    bales and whose mixing 11 draws 10 bales from it, the daily formula
    yields no percentage for the pair, the previous total being 0, yet
    the period's bale_change_over_percent is 100. *)
Lemma period_change_idle_predecessor :
  let H := Reference.platform in
  let daily rows :=
    Daily.entryOf PeriodExamples.lookup ContinuityExamples.lotResults rows
                  Blend.no_blend in
  let subs := Periodic.mixingList PeriodExamples.lookup PeriodExamples.idle_first in
  map Periodic.mixing_no subs = [VNum 10; VNum 11]
  /\ map Periodic.totalBales subs = [Fin 0; Fin 10]
  /\ Continuity.baleChange (daily [PeriodExamples.row 10 "P1" 0])
                           (daily [PeriodExamples.row 11 "P1" 10]) = None
  /\ Entry.bale_change_over_percent
       (Periodic.entryOf "weekly" PeriodExamples.lookup ContinuityExamples.lotResults
          (PeriodExamples.group PeriodExamples.idle_first) Blend.no_blend)
     = Some 100%Q.
Proof. vm_compute. repeat split. Qed.

(** ** From the handler to the summaries *)

Section SummaryLinks.

Context `{Platform}.

(** The summary the daily branch hands to the continuity pass has one
    entry for each group of rows that is not empty. *)
Lemma daily_summary_groups (source : forall R, query R -> R) (lookup : obj jsval)
    (lotResults : list Lot.t) (gs : list (list MixRow.t)) :
  exists groups,
    snd (run source (Daily.summaryEntries lookup lotResults gs))
    = DailySummary.entries_of lookup lotResults groups
    /\ map fst groups
       = filter (fun rows => match rows with [] => false | _ => true end) gs.
Proof.
  induction gs as [|rows gs (groups & IH & Hg)].
  - exists []. split; reflexivity.
  - destruct rows as [|r rows]; [exists groups; split; assumption|].
    cbn [Daily.summaryEntries]. rewrite io_run_bind, io_run_bind, IH.
    eexists ((r :: rows, _) :: groups). split; [reflexivity|].
    cbn [map fst filter]. rewrite Hg. reflexivity.
Qed.

(** The answer of the daily branch is the tracked summary, sorted and
    filtered. *)
Lemma daily_report_tracks (source : forall R, query R -> R)
    (issueData : list Issue.t) (mixingData : list MixRow.t)
    (lotResults : list Lot.t) (mixingFilters : list jsval) :
  exists groups,
    map fst groups
    = filter (fun rows => match rows with [] => false | _ => true end)
             (values (Daily.groupRows mixingData))
    /\ snd (run source (Daily.report issueData mixingData lotResults mixingFilters))
       = Daily.applyMixingFilter mixingFilters
           (sort Daily.byIssueDateDescending
              (Continuity.track Continuity.dailyAnnotate
                 (DailySummary.entries_of (Daily.issueDateLookup issueData)
                                          lotResults groups))).
Proof.
  destruct (daily_summary_groups source (Daily.issueDateLookup issueData) lotResults
              (values (Daily.groupRows mixingData))) as (groups & Hs & Hg).
  exists groups. split; [exact Hg|].
  unfold Daily.report. rewrite io_run_bind, Hs. reflexivity.
Qed.

(** The summary the weekly and monthly branch hands to the continuity
    pass, when no read fails, has one entry for each period group that
    has rows. *)
Lemma period_summary_groups (source : forall R, query R -> R) (report_type : string)
    (lookup : obj jsval) (lotResults : list Lot.t) (gs : list Periodic.group)
    (es : list Entry.t) :
  snd (run source (Periodic.summaryEntries report_type lookup lotResults gs)) = inr es ->
  exists groups,
    es = PeriodSummary.entries_of report_type lookup lotResults groups
    /\ map fst groups
       = filter (fun g => match Periodic.rows g with [] => false | _ => true end) gs.
Proof.
  revert es. induction gs as [|g gs IH]; intros es.
  - intros [= <-]. exists []. split; reflexivity.
  - cbn [Periodic.summaryEntries filter].
    destruct (Periodic.rows g) as [|r rows] eqn:Er; [apply IH|].
    rewrite io_run_bind.
    destruct (snd (run source (Periodic.blendOf lotResults (map Periodic.row (r :: rows)))))
      as [err|b]; [discriminate|].
    rewrite io_run_bind.
    destruct (snd (run source (Periodic.summaryEntries report_type lookup lotResults gs)))
      as [err|es'] eqn:Es; [discriminate|].
    intros [= <-]. destruct (IH es' eq_refl) as (groups & -> & Hg).
    exists ((g, b) :: groups). split; [reflexivity|].
    cbn [map fst]. rewrite Hg. reflexivity.
Qed.

End SummaryLinks.
